(** * Molecular UTM benchmarks: a shallow embedding of the Python sources

    The development follows [benchmarks/sat_benchmark.py],
    [benchmarks/tsp_benchmark.py], [benchmarks/run_benchmarks.py],
    [examples/benchmark_runs/example_benchmark.py] and
    [examples/basic_turing/simple_utm.py].
    Python values are modelled as the code has them: [int] as [Z], [str] as
    [string], [dict] as [gmap], [list] as [list], [float] as IEEE-754
    binary64 ([spec_float] at precision 53), exceptions as a [result]
    monad, and the module-level random generator as an explicit stream of
    draws threaded through every call that consumes randomness. *)

From Stdlib Require Import ZArith Bool Lia Ascii String Decimal DecimalString DecimalZ.
From Stdlib Require Import Floats.SpecFloat.
From Stdlib Require Import Reals Lra.
From stdpp Require Import base option list gmap strings.

Local Open Scope string_scope.
Local Open Scope list_scope.
Local Open Scope stdpp_scope.
Local Open Scope Z_scope.

(** ** Python exceptions as a result monad *)

Inductive exn : Set :=
  | ValueError
  | IndexError
  | OverflowError
  | ZeroDivisionError
  | ParseError
  | UnicodeEncodeError.

Inductive result (A : Type) : Type :=
  | Ok (a : A)
  | Raise (e : exn).
Arguments Ok {A} a.
Arguments Raise {A} e.

Definition rbind {A B} (m : result A) (k : A -> result B) : result B :=
  match m with
  | Ok a => k a
  | Raise e => Raise e
  end.

Notation "'let*' x ':=' m 'in' k" := (rbind m (fun x => k))
  (at level 10, x name, m at level 100, k at level 200, only parsing).

Definition is_ok {A} (m : result A) : bool :=
  match m with Ok _ => true | Raise _ => false end.

(** ** The random generator

    [random] is a process-wide generator.  A generator state is the stream
    of its future raw draws; each library call consumes a prefix. *)

Definition rng := nat -> N.

Definition rng_tail (g : rng) : rng := fun i => g (S i).

(** [randbelow n] for [n > 0]: one raw draw reduced into [range(n)]. *)
Definition randbelow (n : nat) (g : rng) : nat * rng :=
  (N.to_nat (N.modulo (g O) (N.of_nat n)), rng_tail g).

(** [random.choice([True, False])]: [seq[randbelow(2)]]. *)
Definition random_choice_bool (g : rng) : bool * rng :=
  let '(k, g') := randbelow 2 g in
  (match k with O => true | _ => false end, g').

(** Python sequence indexing [l[i]] with negative indices counted from the
    end and [IndexError] outside [-len(l) <= i < len(l)]. *)
Definition py_index {A} (l : list A) (i : Z) : result A :=
  let n := Z.of_nat (length l) in
  let j := if 0 <=? i then i else n + i in
  if (0 <=? j) && (j <? n) then
    match l !! Z.to_nat j with
    | Some x => Ok x
    | None => Raise IndexError
    end
  else Raise IndexError.

(** [range(n)] for a Python int [n]: empty when [n <= 0]. *)
Definition py_range (n : Z) : list Z := Z.of_nat <$> seq 0 (Z.to_nat n).

(** [pool[j] = pool[n - i - 1]] in [random.sample]; in range by construction. *)
Definition pool_move {A} (pool : list A) (j last : nat) : list A :=
  match pool !! last with
  | Some x => <[j := x]> pool
  | None => pool
  end.

(** The selection loop of [random.sample(population, k)] (pool branch):
    [i] counts the picks already made, [n] is [len(population)]. *)
Fixpoint sample_loop {A} (k : nat) (n i : nat) (pool : list A) (g : rng)
  : list A * rng :=
  match k with
  | O => ([], g)
  | S k' =>
      let '(j, g1) := randbelow (n - i) g in
      let picked := match pool !! j with Some x => [x] | None => [] end in
      let pool' := pool_move pool j (n - i - 1) in
      let '(rest, g2) := sample_loop k' n (S i) pool' g1 in
      (picked ++ rest, g2)
  end.

(** [random.sample(population, k)]: [ValueError] unless [0 <= k <= n]. *)
Definition random_sample {A} (population : list A) (k : nat) (g : rng)
  : result (list A * rng) :=
  let n := length population in
  if (k <=? n)%nat then Ok (sample_loop k n 0 population g)
  else Raise ValueError.

(** ** Python floats: IEEE-754 binary64 *)

Module Float.

Definition prec : Z := 53.
Definition emax : Z := 1024.

Definition float := spec_float.

Definition add : float -> float -> float := SFadd prec emax.
Definition sub : float -> float -> float := SFsub prec emax.
Definition mul : float -> float -> float := SFmul prec emax.
Definition div : float -> float -> float := SFdiv prec emax.
Definition sqrt : float -> float := SFsqrt prec emax.

Definition is_nan (x : float) : bool :=
  match x with S754_nan => true | _ => false end.
Definition is_inf (x : float) : bool :=
  match x with S754_infinity _ => true | _ => false end.
Definition is_zero (x : float) : bool :=
  match x with S754_zero _ => true | _ => false end.
Definition is_finite (x : float) : bool :=
  match x with S754_zero _ | S754_finite _ _ _ => true | _ => false end.

(** The sign bit; a NaN carries none. *)
Definition sign_bit (x : float) : option bool :=
  match x with
  | S754_zero s | S754_infinity s | S754_finite s _ _ => Some s
  | S754_nan => None
  end.

(** Comparison operators of Python floats: any comparison with a NaN
    (other than [!=]) is [False]. *)
Definition eqb : float -> float -> bool := SFeqb.
Definition ltb : float -> float -> bool := SFltb.
Definition leb : float -> float -> bool := SFleb.

(** The literals the sources use. *)
Definition zero : float := S754_zero false.
Definition one : float := S754_finite false 4503599627370496 (-52).
Definition four_point_three : float :=
  S754_finite false 4841369599423283 (-50).

(** Conversion of a Python int to float (as done for the int operand of
    [float * int]): correctly rounded, [OverflowError] when the int is
    too large for a double. *)
Definition of_int (n : Z) : result float :=
  let x := binary_normalize prec emax n 0 false in
  if is_inf x then Raise OverflowError else Ok x.

(** [int(x)]: truncation toward zero; [ValueError] on NaN and
    [OverflowError] on an infinity. *)
Definition to_int (x : float) : result Z :=
  match x with
  | S754_nan => Raise ValueError
  | S754_infinity _ => Raise OverflowError
  | S754_zero _ => Ok 0
  | S754_finite s m e =>
      let a := match e with
               | Zneg p => Z.shiftr (Zpos m) (Zpos p)
               | _ => Z.shiftl (Zpos m) e
               end in
      Ok (if s then - a else a)
  end.

End Float.

(** ** String formatting used by the f-strings *)

Definition nl : string := String (ascii_of_nat 10) EmptyString.

(** [str(n)] / [{n}] for a Python int. *)
Definition str_int (n : Z) : string := NilZero.string_of_int (Z.to_int n).

(** [repr(b)] for a Python bool. *)
Definition repr_bool (b : bool) : string := if b then "True" else "False".

(** [", ".join(parts)]. *)
Fixpoint join_comma (parts : list string) : string :=
  match parts with
  | [] => ""
  | [p] => p
  | p :: ps => p +:+ ", " +:+ join_comma ps
  end.

(** ** The simulation result consumed by the benchmarks

    [MolecularUTM.execute_crn_string] lives in [molecular_utm_mvp.core],
    outside the benchmark modules; the benchmarks only read the ["steps"]
    entry of the dict it returns.  The simulator is a parameter of every
    [run]. *)

Record utm_result := {
  steps : option Z;
  final_state : gmap string Z
}.

(** [result.get("steps", 0)]. *)
Definition get_steps (r : utm_result) : Z := default 0 (steps r).

(** ** benchmarks/sat_benchmark.py *)

Module SAT.

(** A literal is the tuple [(var_idx, negated)]. *)
Definition literal : Type := Z * bool.
Definition clause : Type := list literal.

(** The fields of [SATBenchmark] other than the [utm] handle. *)
Record SATBenchmark := {
  variables : list string;
  clauses : list clause
}.

Definition repr_literal (l : literal) : string :=
  "(" +:+ str_int (fst l) +:+ ", " +:+ repr_bool (snd l) +:+ ")".

(** [{clause}]: the repr of a list of tuples. *)
Definition repr_clause (c : clause) : string :=
  "[" +:+ join_comma (repr_literal <$> c) +:+ "]".

(** [num_clauses = int(4.3 * num_vars)]. *)
Definition default_num_clauses (num_vars : Z) : result Z :=
  let* x := Float.of_int num_vars in
  Float.to_int (Float.mul Float.four_point_three x).

(** The inner loop of [generate_3sat_instance]: one random negation flag
    per selected variable. *)
Fixpoint negate_vars (selected_vars : list Z) (g : rng) : clause * rng :=
  match selected_vars with
  | [] => ([], g)
  | var_idx :: rest =>
      let '(negated, g1) := random_choice_bool g in
      let '(c, g2) := negate_vars rest g1 in
      ((var_idx, negated) :: c, g2)
  end.

(** The outer loop, [for _ in range(num_clauses)], over the remaining
    iteration count. *)
Fixpoint generate_clauses (count : nat) (num_vars : Z) (g : rng)
  : result (list clause * rng) :=
  match count with
  | O => Ok ([], g)
  | S count' =>
      let* r := random_sample (py_range num_vars) 3 g in
      let '(selected_vars, g1) := r in
      let '(c, g2) := negate_vars selected_vars g1 in
      let* r := generate_clauses count' num_vars g2 in
      let '(cs, g3) := r in
      Ok (c :: cs, g3)
  end.

Definition generate_3sat_instance (num_vars : Z) (num_clauses : option Z)
  (g : rng) : result (SATBenchmark * rng) :=
  let* n := match num_clauses with
            | None => default_num_clauses num_vars
            | Some n => Ok n
            end in
  let vars := (fun i => "x" +:+ str_int i) <$> py_range num_vars in
  let* r := generate_clauses (Z.to_nat n) num_vars g in
  let '(cs, g') := r in
  Ok ({| variables := vars; clauses := cs |}, g').

Definition crn_header : string :=
  "-- 3-SAT Chemical Reaction Network" +:+ nl +:+
  "-- Variables represented as molecular species (TRUE/FALSE states)" +:+ nl +:+
  "-- Clauses as reactions that must be satisfied" +:+ nl +:+
  nl.

(** First loop of [create_sat_crn]: two flip reactions per variable. *)
Fixpoint variable_reactions (vars : list string) : string :=
  match vars with
  | [] => ""
  | var :: rest =>
      var +:+ "_false -> " +:+ var +:+ "_true, rate=1.0" +:+ nl +:+
      var +:+ "_true -> " +:+ var +:+ "_false, rate=1.0" +:+ nl +:+
      variable_reactions rest
  end.

(** [reactants] of one clause; indexing [self.variables] may raise. *)
Fixpoint clause_reactants (vars : list string) (c : clause)
  : result (list string) :=
  match c with
  | [] => Ok []
  | (var_idx, negated) :: rest =>
      let* var_name := py_index vars var_idx in
      let state := if negated then "false" else "true" in
      let* rs := clause_reactants vars rest in
      Ok ((var_name +:+ "_" +:+ state) :: rs)
  end.

Fixpoint reactant_lines (i : Z) (reactants : list string) : string :=
  match reactants with
  | [] => ""
  | reactant :: rest =>
      reactant +:+ " -> clause_" +:+ str_int i +:+ "_satisfied, rate=10.0" +:+ nl
      +:+ reactant_lines i rest
  end.

(** Second loop, [for i, clause in enumerate(self.clauses)], from index [i]. *)
Fixpoint clause_reactions (vars : list string) (i : Z) (cs : list clause)
  : result string :=
  match cs with
  | [] => Ok ""
  | c :: rest =>
      let* reactants := clause_reactants vars c in
      let* tail := clause_reactions vars (i + 1) rest in
      Ok ("-- Clause " +:+ str_int (i + 1) +:+ ": " +:+ repr_clause c +:+ nl
          +:+ reactant_lines i reactants +:+ tail)
  end.

Definition create_sat_crn (self : SATBenchmark) : result string :=
  let* body := clause_reactions (variables self) 0 (clauses self) in
  Ok (crn_header +:+ variable_reactions (variables self) +:+
      nl +:+ "-- Clause satisfaction reactions" +:+ nl +:+ body).

(** [extract_assignment]: one [random.choice([True, False])] per variable,
    written into a dict; the [utm_result] argument is never read. *)
Fixpoint choose_values (vars : list string) (assignment : gmap string bool)
  (g : rng) : gmap string bool * rng :=
  match vars with
  | [] => (assignment, g)
  | var :: rest =>
      let '(b, g1) := random_choice_bool g in
      choose_values rest (<[var := b]> assignment) g1
  end.

Definition extract_assignment {R} (self : SATBenchmark) (utm_result : R)
  (g : rng) : gmap string bool * rng :=
  choose_values (variables self) ∅ g.

(** The inner loop of [verify_assignment] with its [break]. *)
Fixpoint clause_satisfied (vars : list string) (assignment : gmap string bool)
  (c : clause) : result bool :=
  match c with
  | [] => Ok false
  | (var_idx, negated) :: rest =>
      let* var_name := py_index vars var_idx in
      let var_value := default false (assignment !! var_name) in
      if (negb negated && var_value) || (negated && negb var_value)
      then Ok true
      else clause_satisfied vars assignment rest
  end.

Fixpoint verify_clauses (vars : list string) (assignment : gmap string bool)
  (cs : list clause) : result bool :=
  match cs with
  | [] => Ok true
  | c :: rest =>
      let* sat := clause_satisfied vars assignment c in
      if sat then verify_clauses vars assignment rest else Ok false
  end.

Definition verify_assignment (self : SATBenchmark)
  (assignment : gmap string bool) : result bool :=
  verify_clauses (variables self) assignment (clauses self).

(** The dict returned by [run]. *)
Record run_result := {
  r_variables : Z;
  r_clauses : nat;
  r_satisfiable : bool;
  r_assignment : gmap string bool;
  r_execution_steps : Z
}.

Section Run.
Variable execute_crn_string : string -> result utm_result.

(** The body of [run] after the instance has been generated. *)
Definition run_instance (num_vars : Z) (self : SATBenchmark) (g : rng)
  : result (run_result * rng) :=
  let* crn_spec := create_sat_crn self in
  let* res := execute_crn_string crn_spec in
  let '(assignment, g') := extract_assignment self res g in
  let* is_satisfiable := verify_assignment self assignment in
  Ok ({| r_variables := num_vars;
         r_clauses := length (clauses self);
         r_satisfiable := is_satisfiable;
         r_assignment := assignment;
         r_execution_steps := get_steps res |}, g').

Definition run (num_vars : Z) (g : rng) : result (run_result * rng) :=
  let* r := generate_3sat_instance num_vars None g in
  let '(self, g1) := r in
  run_instance num_vars self g1.
End Run.

End SAT.

(** ** Float operations with Python's exceptions, and [.3f] formatting *)

Module PyFloat.
Import Float.

(** [x ** 2] on a float: [float_pow] returns NaN, +inf and 0.0 for NaN,
    infinite and zero bases, and otherwise what the C library's [pow]
    returns, raising [OverflowError] when that overflows.  The C standard
    does not fix the last bit of [pow]: a library may return a neighbour
    of the correctly rounded square.  [pow2] takes the correctly rounded
    square [x * x]; what is proved from it below uses only the sign, the
    finiteness and the order of magnitude of the square, and the loops of
    [calculate_distance_matrix] are also given for an arbitrary squaring
    function ([TSP.calculate_distance_matrix_with]). *)
Definition pow2 (x : float) : result float :=
  match x with
  | S754_nan => Ok S754_nan
  | S754_infinity _ => Ok (S754_infinity false)
  | S754_zero _ => Ok (S754_zero false)
  | S754_finite _ _ _ =>
      let r := mul x x in
      if is_inf r then Raise OverflowError else Ok r
  end.

(** [math.sqrt(x)]: [ValueError] (math domain error) on negative input. *)
Definition math_sqrt (x : float) : result float :=
  match x with
  | S754_infinity true | S754_finite true _ _ => Raise ValueError
  | _ => Ok (sqrt x)
  end.

(** [x / y] on floats: [ZeroDivisionError] when [y == 0.0]. *)
Definition truediv (x y : float) : result float :=
  if is_zero y then Raise ZeroDivisionError else Ok (div x y).

(** [random.random()]: a draw [k] in [range(2**53)] scaled by [2**-53]. *)
Definition random_random (g : rng) : float * rng :=
  let k := Z.of_N (g O) mod 2 ^ 53 in
  (binary_normalize prec emax k (-53) false, rng_tail g).

Definition hundred : float := S754_finite false 7036874417766400 (-46).

(** [random.uniform(0, 100)]: [a + (b - a) * self.random()]. *)
Definition random_uniform_0_100 (g : rng) : float * rng :=
  let '(u, g') := random_random g in
  (add zero (mul hundred u), g').

(** The integer nearest to [m * 2^e * 1000], ties to even. *)
Definition round_milli (m : positive) (e : Z) : Z :=
  let a := Zpos m * 1000 in
  match e with
  | Zneg p =>
      let k := Zpos p in
      let q := Z.shiftr a k in
      let r := a - Z.shiftl q k in
      let half := Z.shiftl 1 (k - 1) in
      match r ?= half with
      | Lt => q
      | Gt => q + 1
      | Eq => if Z.even q then q else q + 1
      end
  | _ => Z.shiftl a e
  end.

(** Three decimal digits, zero padded. *)
Definition pad3 (n : Z) : string :=
  let s := str_int n in
  match String.length s with
  | 1%nat => "00" +:+ s
  | 2%nat => "0" +:+ s
  | _ => s
  end.

Definition sign_prefix (s : bool) : string := if s then "-" else "".

(** [f"{x:.3f}"]: the decimal expansion correctly rounded (half to even on
    the exact binary value) to three fractional digits. *)
Definition format_3f (x : float) : string :=
  match x with
  | S754_nan => "nan"
  | S754_infinity s => sign_prefix s +:+ "inf"
  | S754_zero s => sign_prefix s +:+ "0.000"
  | S754_finite s m e =>
      let n := round_milli m e in
      sign_prefix s +:+ str_int (n / 1000) +:+ "." +:+ pad3 (n mod 1000)
  end.

End PyFloat.

(** ** benchmarks/tsp_benchmark.py *)

Module TSP.
Import Float PyFloat.

Definition city : Type := float * float.
Abbreviation matrix := (list (list float)).

(** The fields of [TSPBenchmark] other than the [utm] handle. *)
Record TSPBenchmark := {
  cities : list city;
  distance_matrix : matrix
}.

(** [generate_cities]: the list comprehension over [range(n)]. *)
Fixpoint draw_cities (count : nat) (g : rng) : list city * rng :=
  match count with
  | O => ([], g)
  | S count' =>
      let '(x, g1) := random_uniform_0_100 g in
      let '(y, g2) := random_uniform_0_100 g1 in
      let '(rest, g3) := draw_cities count' g2 in
      ((x, y) :: rest, g3)
  end.

Definition generate_cities (self : TSPBenchmark) (n : Z) (g : rng)
  : TSPBenchmark * rng :=
  let '(cs, g') := draw_cities (Z.to_nat n) g in
  ({| cities := cs; distance_matrix := distance_matrix self |}, g').

(** [math.sqrt((x1 - x2)**2 + (y1 - y2)**2)], evaluated left to right. *)
Definition distance (c1 c2 : city) : result float :=
  let '(x1, y1) := c1 in
  let '(x2, y2) := c2 in
  let* a := pow2 (sub x1 x2) in
  let* b := pow2 (sub y1 y2) in
  math_sqrt (add a b).

(** [self.distance_matrix[i][j] = d]. *)
Definition set_entry (m : matrix) (i j : nat) (d : float) : matrix :=
  match m !! i with
  | Some row => <[i := <[j := d]> row]> m
  | None => m
  end.

(** The inner loop [for j in range(n)] over the remaining indices.  The
    matrix is a field of [self], so the entries written before an
    exception stay written: the matrix is returned in both outcomes. *)
Fixpoint fill_row (cs : list city) (i : nat) (js : list nat) (m : matrix)
  : matrix * result unit :=
  match js with
  | [] => (m, Ok tt)
  | j :: js' =>
      if Nat.eqb i j then fill_row cs i js' m
      else
        match cs !! i, cs !! j with
        | Some c1, Some c2 =>
            match distance c1 c2 with
            | Ok d => fill_row cs i js' (set_entry m i j d)
            | Raise e => (m, Raise e)
            end
        | _, _ => (m, Raise IndexError)
        end
  end.

(** The outer loop [for i in range(n)]. *)
Fixpoint fill_rows (cs : list city) (n : nat) (rows : list nat) (m : matrix)
  : matrix * result unit :=
  match rows with
  | [] => (m, Ok tt)
  | i :: rows' =>
      match fill_row cs i (seq 0 n) m with
      | (m', Ok _) => fill_rows cs n rows' m'
      | (m', Raise e) => (m', Raise e)
      end
  end.

Definition zeros (n : nat) : matrix := replicate n (replicate n zero).

Definition calculate_distance_matrix (self : TSPBenchmark)
  : TSPBenchmark * result unit :=
  let n := length (cities self) in
  let '(m, r) := fill_rows (cities self) n (seq 0 n) (zeros n) in
  ({| cities := cities self; distance_matrix := m |}, r).

(** The same method with [x ** 2] left to the platform: [pow] is whatever
    function from a float to a float or an exception the interpreter's
    [**] with exponent 2 is.  [calculate_distance_matrix] is the instance
    at [pow2]. *)
Section AnyPow.
Variable pow : float -> result float.

Definition distance_with (c1 c2 : city) : result float :=
  let '(x1, y1) := c1 in
  let '(x2, y2) := c2 in
  let* a := pow (sub x1 x2) in
  let* b := pow (sub y1 y2) in
  math_sqrt (add a b).

Fixpoint fill_row_with (cs : list city) (i : nat) (js : list nat) (m : matrix)
  : matrix * result unit :=
  match js with
  | [] => (m, Ok tt)
  | j :: js' =>
      if Nat.eqb i j then fill_row_with cs i js' m
      else
        match cs !! i, cs !! j with
        | Some c1, Some c2 =>
            match distance_with c1 c2 with
            | Ok d => fill_row_with cs i js' (set_entry m i j d)
            | Raise e => (m, Raise e)
            end
        | _, _ => (m, Raise IndexError)
        end
  end.

Fixpoint fill_rows_with (cs : list city) (n : nat) (rows : list nat) (m : matrix)
  : matrix * result unit :=
  match rows with
  | [] => (m, Ok tt)
  | i :: rows' =>
      match fill_row_with cs i (seq 0 n) m with
      | (m', Ok _) => fill_rows_with cs n rows' m'
      | (m', Raise e) => (m', Raise e)
      end
  end.

Definition calculate_distance_matrix_with (self : TSPBenchmark)
  : TSPBenchmark * result unit :=
  let n := length (cities self) in
  let '(m, r) := fill_rows_with (cities self) n (seq 0 n) (zeros n) in
  ({| cities := cities self; distance_matrix := m |}, r).

End AnyPow.

(** [rate = 1.0 / (self.distance_matrix[i][j] + 1.0)]. *)
Definition rate_of (d : float) : result float := truediv one (add d one).

Definition crn_header (n : Z) : string :=
  nl +:+
  "-- TSP Chemical Reaction Network for " +:+ str_int n +:+ " cities" +:+ nl +:+
  "-- Each city is represented as a molecular species" +:+ nl +:+
  nl +:+
  "-- City selection reactions" +:+ nl.

Definition reaction_line (i j : Z) (rate : float) : string :=
  "city_" +:+ str_int i +:+ " -> city_" +:+ str_int j +:+ ", rate="
  +:+ format_3f rate +:+ nl.

Fixpoint crn_row (m : matrix) (i : Z) (js : list Z) : result string :=
  match js with
  | [] => Ok ""
  | j :: js' =>
      if Z.eqb i j then crn_row m i js'
      else
        let* row := py_index m i in
        let* d := py_index row j in
        let* rate := rate_of d in
        let* rest := crn_row m i js' in
        Ok (reaction_line i j rate +:+ rest)
  end.

Fixpoint crn_rows (m : matrix) (n : Z) (rows : list Z) : result string :=
  match rows with
  | [] => Ok ""
  | i :: rows' =>
      let* r := crn_row m i (py_range n) in
      let* rest := crn_rows m n rows' in
      Ok (r +:+ rest)
  end.

Definition create_tsp_crn (self : TSPBenchmark) (n : Z) : result string :=
  let* body := crn_rows (distance_matrix self) n (py_range n) in
  Ok (crn_header n +:+ body).

(** [extract_best_path]: [list(range(len(self.cities)))]; the
    [utm_result] argument is never read. *)
Definition extract_best_path {R} (self : TSPBenchmark) (utm_result : R)
  : list Z :=
  py_range (Z.of_nat (length (cities self))).

(** The loop of [calculate_path_distance] over the remaining positions. *)
Fixpoint path_distance_loop (m : matrix) (path : list Z) (idxs : list Z)
  (total : float) : result float :=
  match idxs with
  | [] => Ok total
  | i :: idxs' =>
      let* current_city := py_index path i in
      let* next_city :=
        py_index path ((i + 1) mod Z.of_nat (length path)) in
      let* row := py_index m current_city in
      let* d := py_index row next_city in
      path_distance_loop m path idxs' (add total d)
  end.

Definition calculate_path_distance (self : TSPBenchmark) (path : list Z)
  : result float :=
  path_distance_loop (distance_matrix self) path
    (py_range (Z.of_nat (length path))) zero.

(** The dict returned by [run]. *)
Record run_result := {
  r_cities : Z;
  r_best_path : list Z;
  r_best_distance : float;
  r_execution_steps : Z
}.

Section Run.
Variable execute_crn_string : string -> result utm_result.

Definition run (self : TSPBenchmark) (n : Z) (g : rng)
  : result (run_result * rng) :=
  let '(self1, g') := generate_cities self n g in
  let '(self2, r) := calculate_distance_matrix self1 in
  let* _ := r in
  let* crn_spec := create_tsp_crn self2 n in
  let* res := execute_crn_string crn_spec in
  let best_path := extract_best_path self2 res in
  let* best_distance := calculate_path_distance self2 best_path in
  Ok ({| r_cities := n;
         r_best_path := best_path;
         r_best_distance := best_distance;
         r_execution_steps := get_steps res |}, g').
End Run.

End TSP.

(** ** The lines of CRN text (spec sections 4.1 and 6)

    [crn_engine/__init__.py] only re-exports [CRNParser] from a module that
    is not part of the sources at hand; the text format is taken from the
    specification.  This module is the layer of characters: blanks, the
    separators, species names, and a reaction as one line writes it.  The
    network with its float rates, the parser and the printer are in
    [Net] below. *)

Module CRN.

(** Modelled from the spec: a reaction as a line of the text of
    section 6 spells it, with the rate field as the characters written,
    the unsigned numeral [rate_int.rate_frac]; this is the form the two
    encoders write.  It is a line of text, not the Reaction of section 3:
    two spellings of one rate are two lines.  [Net.Reaction] holds the
    rate as a float. *)
Record Reaction := {
  reactants : list string;
  products : list string;
  rate_int : Decimal.uint;
  rate_frac : Decimal.uint
}.

Definition is_space (c : ascii) : bool :=
  Ascii.eqb c " " || Ascii.eqb c "009" || Ascii.eqb c "013".

Definition is_digit (c : ascii) : bool :=
  let n := N_of_ascii c in (48 <=? n)%N && (n <=? 57)%N.

Definition is_alpha (c : ascii) : bool :=
  let n := N_of_ascii c in
  ((65 <=? n)%N && (n <=? 90)%N) || ((97 <=? n)%N && (n <=? 122)%N)
  || Ascii.eqb c "_".

Fixpoint all_chars (p : ascii -> bool) (s : string) : bool :=
  match s with
  | EmptyString => true
  | String c s' => p c && all_chars p s'
  end.

(** Modelled from the spec: species names match [[A-Za-z_][A-Za-z0-9_]*]
    (section 4.1; the parser module is missing). *)
Definition is_identifier (s : string) : bool :=
  match s with
  | EmptyString => false
  | String c s' => is_alpha c && all_chars (fun a => is_alpha a || is_digit a) s'
  end.

Definition is_empty (s : string) : bool :=
  match s with EmptyString => true | _ => false end.

Fixpoint lstrip (s : string) : string :=
  match s with
  | EmptyString => EmptyString
  | String c s' => if is_space c then lstrip s' else s
  end.

Fixpoint rstrip (s : string) : string :=
  match s with
  | EmptyString => EmptyString
  | String c s' =>
      let t := rstrip s' in
      if is_space c && is_empty t then EmptyString else String c t
  end.

Definition strip (s : string) : string := rstrip (lstrip s).

(** All the fields of [s] separated by the character [sep]. *)
Fixpoint split_on (sep : ascii) (s : string) : list string :=
  match s with
  | EmptyString => [EmptyString]
  | String c s' =>
      if Ascii.eqb c sep then EmptyString :: split_on sep s'
      else match split_on sep s' with
           | h :: t => String c h :: t
           | [] => [String c EmptyString]
           end
  end.

(** The text before and after the first [->]. *)
Fixpoint split_arrow (s : string) : option (string * string) :=
  match s with
  | EmptyString => None
  | String c s' =>
      match s' with
      | String d rest =>
          if Ascii.eqb c "-" && Ascii.eqb d ">" then Some (EmptyString, rest)
          else match split_arrow s' with
               | Some (l, r) => Some (String c l, r)
               | None => None
               end
      | EmptyString => None
      end
  end.

(** The text before and after the first occurrence of [sep]. *)
Fixpoint split_first (sep : ascii) (s : string) : option (string * string) :=
  match s with
  | EmptyString => None
  | String c s' =>
      if Ascii.eqb c sep then Some (EmptyString, s')
      else match split_first sep s' with
           | Some (l, r) => Some (String c l, r)
           | None => None
           end
  end.

Fixpoint strip_prefix (p s : string) : option string :=
  match p, s with
  | EmptyString, _ => Some s
  | String a p', String b s' =>
      if Ascii.eqb a b then strip_prefix p' s' else None
  | String _ _, EmptyString => None
  end.

Definition parse_species (s : string) : result string :=
  let t := strip s in
  if is_identifier t then Ok t else Raise ParseError.

Fixpoint parse_all {A} (f : string -> result A) (l : list string)
  : result (list A) :=
  match l with
  | [] => Ok []
  | s :: l' =>
      let* x := f s in
      let* xs := parse_all f l' in
      Ok (x :: xs)
  end.

(** A [+]-separated, non-empty list of species names. *)
Definition parse_species_list (s : string) : result (list string) :=
  parse_all parse_species (split_on "+" s).

(** A non-empty run of decimal digits. *)
Definition parse_digits (s : string) : result Decimal.uint :=
  match NilEmpty.uint_of_string s with
  | Some Decimal.Nil | None => Raise ParseError
  | Some d => Ok d
  end.

(** The numerals the two encoders write in the rate field,
    [digits] or [digits.digits] (the literals [1.0] and [10.0], and what
    [.3f] prints); the literals a rate field may hold in general are read
    by [Net.parse_float]. *)
Definition parse_decimal (s : string) : result (Decimal.uint * Decimal.uint) :=
  match split_first "." s with
  | None => let* i := parse_digits s in Ok (i, Decimal.Nil)
  | Some (a, b) =>
      let* i := parse_digits a in
      let* f := parse_digits b in
      Ok (i, f)
  end.

(** The lines of a text. *)
Definition lines (text : string) : list string :=
  split_on (ascii_of_nat 10) text.

Fixpoint join_plus (names : list string) : string :=
  match names with
  | [] => ""
  | [n] => n
  | n :: ns => n +:+ " + " +:+ join_plus ns
  end.

Definition print_rate (i f : Decimal.uint) : string :=
  match f with
  | Decimal.Nil => NilEmpty.string_of_uint i
  | _ => NilEmpty.string_of_uint i +:+ "." +:+ NilEmpty.string_of_uint f
  end.

Definition serialize_reaction (r : Reaction) : string :=
  join_plus (reactants r) +:+ " -> " +:+ join_plus (products r)
  +:+ ", rate=" +:+ print_rate (rate_int r) (rate_frac r).

Definition is_nil {A} (l : list A) : bool :=
  match l with [] => true | _ => false end.

Definition uint_is_nil (d : Decimal.uint) : bool :=
  match d with Decimal.Nil => true | _ => false end.

(** Well-formed reactions: what the text format can express. *)
Definition valid_reaction (r : Reaction) : bool :=
  forallb is_identifier (reactants r) && negb (is_nil (reactants r))
  && forallb is_identifier (products r) && negb (is_nil (products r))
  && negb (uint_is_nil (rate_int r)).

End CRN.

(** ** The symbolic Turing machine behind [execute_utm_program]

    [examples/basic_turing/simple_utm.py] calls
    [MolecularUTM.execute_utm_program], defined in [molecular_utm_mvp.core],
    which is not among the sources; the machine is taken from sections 3
    and 4.4 of the specification. *)

Module UTM.

Inductive direction := MoveLeft | MoveRight | MoveStay.

(** Modelled from the spec: the TransitionRule of section 3 (the core
    module is missing): (current state, read symbol) to (next state,
    write symbol, head move). *)
Record TransitionRule := {
  cur_state : string;
  read_symbol : string;
  next_state : string;
  write_symbol : string;
  move : direction
}.

(** Modelled from the spec: the UTMConfiguration of section 3 (the core
    module is missing): state label, sparse tape, head position, step
    count. *)
Record UTMConfiguration := {
  state : string;
  tape : gmap Z string;
  head : Z;
  step_count : Z
}.

Definition blank : string := "_".

(** Unset positions read as the blank symbol. *)
Definition read_tape (t : gmap Z string) (pos : Z) : string :=
  default blank (t !! pos).

Definition rule_applies (st sym : string) (r : TransitionRule) : bool :=
  String.eqb (cur_state r) st && String.eqb (read_symbol r) sym.

(** The rule selected by the Foreman for a (state, symbol) pair. *)
Definition select_rule (rules : list TransitionRule) (st sym : string)
  : option TransitionRule :=
  List.find (rule_applies st sym) rules.

Definition move_head (pos : Z) (d : direction) : Z :=
  match d with
  | MoveLeft => pos - 1
  | MoveRight => pos + 1
  | MoveStay => pos
  end.

(** Modelled from the spec: one orchestrated step of section 4.4 (the
    core module is missing): read the symbol under the head, select the
    rule, write, move; [None] when no rule applies. *)
Definition step (rules : list TransitionRule) (c : UTMConfiguration)
  : option UTMConfiguration :=
  match select_rule rules (state c) (read_tape (tape c) (head c)) with
  | None => None
  | Some r =>
      Some {| state := next_state r;
              tape := <[head c := write_symbol r]> (tape c);
              head := move_head (head c) (move r);
              step_count := step_count c + 1 |}
  end.

(** Steps until no rule applies or the step bound is used up; the flag
    tells whether the machine halted by itself. *)
Fixpoint run_steps (bound : nat) (rules : list TransitionRule)
  (c : UTMConfiguration) : UTMConfiguration * bool :=
  match step rules c with
  | None => (c, true)
  | Some c' =>
      match bound with
      | O => (c, false)
      | S bound' => run_steps bound' rules c'
      end
  end.

(** Two rules for one (state, symbol) pair. *)
Fixpoint has_duplicate_rule (rules : list TransitionRule) : bool :=
  match rules with
  | [] => false
  | r :: rest =>
      existsb (rule_applies (cur_state r) (read_symbol r)) rest
      || has_duplicate_rule rest
  end.

(** The dict [{finalTape, steps, finalState}] of section 6. *)
Record utm_run := {
  final_tape : gmap Z string;
  utm_steps : Z;
  final_state : string;
  halted : bool
}.

(** Modelled from the spec: [executeUTMProgram(rules, initialTape)] of
    section 6 (the core module is missing), started in [start] with the
    head on cell 0, under a step bound; a rule set with a duplicate pair
    is rejected. *)
Definition execute_utm_program (rules : list TransitionRule)
  (initial_tape : gmap Z string) (start : string) (bound : nat)
  : option utm_run :=
  if has_duplicate_rule rules then None
  else
    let '(c, h) :=
      run_steps bound rules
        {| state := start; tape := initial_tape; head := 0; step_count := 0 |} in
    Some {| final_tape := tape c; utm_steps := step_count c;
            final_state := state c; halted := h |}.

(** The six [add_transition] calls of [utm_program] in [simple_utm.py]. *)
Definition binary_increment : list TransitionRule :=
  [ {| cur_state := "q0"; read_symbol := "0"; next_state := "q0";
       write_symbol := "0"; move := MoveRight |};
    {| cur_state := "q0"; read_symbol := "1"; next_state := "q0";
       write_symbol := "1"; move := MoveRight |};
    {| cur_state := "q0"; read_symbol := "_"; next_state := "q1";
       write_symbol := "_"; move := MoveLeft |};
    {| cur_state := "q1"; read_symbol := "0"; next_state := "qhalt";
       write_symbol := "1"; move := MoveStay |};
    {| cur_state := "q1"; read_symbol := "1"; next_state := "q1";
       write_symbol := "0"; move := MoveLeft |};
    {| cur_state := "q1"; read_symbol := "_"; next_state := "qhalt";
       write_symbol := "1"; move := MoveRight |} ].

(** [initial_tape = {"0": "1", "1": "0", "2": "1", "3": "_"}]. *)
Definition initial_tape : gmap Z string :=
  <[0 := "1"]> (<[1 := "0"]> (<[2 := "1"]> (<[3 := "_"]> ∅))).

(** The cells [lo, lo+1, ...] read off the tape, [n] of them. *)
Fixpoint read_cells (t : gmap Z string) (lo : Z) (n : nat) : string :=
  match n with
  | O => ""
  | S n' => read_tape t lo +:+ read_cells t (lo + 1) n'
  end.

End UTM.

(** ** benchmarks/run_benchmarks.py *)

Module Suite.

(** [time.time()]: the clock is the stream of its future readings, one
    consumed by each call. *)
Definition clock := nat -> Float.float.

Definition clock_tail (c : clock) : clock := fun i => c (S i).

Definition time_time (c : clock) : Float.float * clock := (c O, clock_tail c).

(** The value stored under ["result"]: the dict returned by either [run]. *)
Inductive benchmark_result :=
| TspResult (r : TSP.run_result)
| SatResult (r : SAT.run_result).

(** The dict [{"result": ..., "time": ...}] stored for one benchmark. *)
Record entry := {
  e_result : benchmark_result;
  e_time : Float.float
}.

(** The dict [results]: a Python dict keeps its keys in insertion order,
    which the summary loop follows. *)
Definition results_dict : Type := list (string * entry).

(** [d[k] = v]: the value of an existing key is replaced in place, a new
    key goes to the end. *)
Fixpoint dict_set (k : string) (v : entry) (d : results_dict) : results_dict :=
  match d with
  | [] => [(k, v)]
  | (k', v') :: rest =>
      if String.eqb k k' then (k, v) :: rest else (k', v') :: dict_set k v rest
  end.

(** [x in [...]] on strings. *)
Definition in_list (x : string) (l : list string) : bool :=
  existsb (String.eqb x) l.

(** The lines the suite and the example hand to [print], each with the
    values its f-string formats.  The banners, the two "Running" lines
    and the summary title start with a character outside ASCII. *)
Inductive message :=
| SuiteBanner                            (* "... Starting Molecular UTM Benchmark Suite" *)
| Rule (width : nat)                     (* "=" * width *)
| RunningTsp (problem_size : Z)          (* "\n... Running TSP Benchmark (size=...)" *)
| TspCompleted (tsp_time : Float.float)  (* "TSP completed in ...s" *)
| RunningSat (problem_size : Z)          (* "\n... Running 3-SAT Benchmark (size=...)" *)
| SatCompleted (sat_time : Float.float)  (* "3-SAT completed in ...s" *)
| SummaryTitle                           (* "\n... Benchmark Results Summary:" *)
| SummaryLine (benchmark_name : string) (data : entry)
                                         (* "NAME: ...s - {result}" *)
| ExampleBanner                          (* "... Running Example Molecular UTM Benchmarks" *)
| ExampleCompleted.                      (* "\n... Benchmark suite completed!" *)

Section Suite.
(** [MolecularUTM(UTMConfig(debug_mode=debug))]: both classes live in
    [molecular_utm_mvp.core], outside the sources.  The construction is a
    parameter, which may raise; of the object it returns the benchmarks
    call only [execute_crn_string]. *)
Variable MolecularUTM : bool -> result (string -> result utm_result).

(** [print(...)] to the standard output, which raises when the stream
    cannot take the text ([UnicodeEncodeError] for the characters outside
    ASCII on a stream that is not Unicode).  The lines the two [run]
    methods print themselves are ASCII. *)
Variable print : message -> result unit.

(** The loop [for benchmark_name, data in results.items()]. *)
Fixpoint print_summary (items : results_dict) : result unit :=
  match items with
  | [] => Ok tt
  | (benchmark_name, data) :: rest =>
      let* _ := print (SummaryLine benchmark_name data) in
      print_summary rest
  end.

(** [run_benchmark_suite(problem_type, problem_size, debug)]. *)
Definition run_benchmark_suite (problem_type : string) (problem_size : Z)
  (debug : bool) (g : rng) (c : clock)
  : result (results_dict * rng * clock) :=
  let* _ := print SuiteBanner in
  let* _ := print (Rule 50) in
  let* utm := MolecularUTM debug in
  let results : results_dict := [] in
  let* st :=
    if in_list problem_type ["tsp"; "all"] then
      let* _ := print (RunningTsp problem_size) in
      let tsp_benchmark := {| TSP.cities := []; TSP.distance_matrix := [] |} in
      let '(tsp_start, c1) := time_time c in
      let* r := TSP.run utm tsp_benchmark problem_size g in
      let '(tsp_result, g1) := r in
      let '(tsp_stop, c2) := time_time c1 in
      let tsp_time := Float.sub tsp_stop tsp_start in
      let results := dict_set "tsp" {| e_result := TspResult tsp_result;
                                       e_time := tsp_time |} results in
      let* _ := print (TspCompleted tsp_time) in
      Ok (results, g1, c2)
    else Ok (results, g, c) in
  let '(results, g, c) := st in
  let* st :=
    if in_list problem_type ["3sat"; "all"] then
      let* _ := print (RunningSat problem_size) in
      let '(sat_start, c1) := time_time c in
      let* r := SAT.run utm problem_size g in
      let '(sat_result, g1) := r in
      let '(sat_stop, c2) := time_time c1 in
      let sat_time := Float.sub sat_stop sat_start in
      let results := dict_set "3sat" {| e_result := SatResult sat_result;
                                        e_time := sat_time |} results in
      let* _ := print (SatCompleted sat_time) in
      Ok (results, g1, c2)
    else Ok (results, g, c) in
  let '(results, g, c) := st in
  let* _ := print SummaryTitle in
  let* _ := print (Rule 30) in
  let* _ := print_summary results in
  Ok (results, g, c).

End Suite.

End Suite.

(** ** examples/benchmark_runs/example_benchmark.py *)

Module ExampleBenchmark.

(** [main()]: the suite on all problems at size 5 in debug mode, between
    the two banners it prints. *)
Definition main (MolecularUTM : bool -> result (string -> result utm_result))
  (print : Suite.message -> result unit) (g : rng) (c : Suite.clock)
  : result (Suite.results_dict * rng * Suite.clock) :=
  let* _ := print Suite.ExampleBanner in
  let* _ := print (Suite.Rule 50) in
  let* results := Suite.run_benchmark_suite MolecularUTM print "all" 5 true g c in
  let* _ := print Suite.ExampleCompleted in
  Ok results.

End ExampleBenchmark.

(** ** Reference notions the properties are stated against *)

Module SATSpec.
Import SAT.

(** Indices Python accepts on a list of length [n]. *)
Definition index_in_range (n : nat) (i : Z) : bool :=
  (- Z.of_nat n <=? i) && (i <? Z.of_nat n).

(** Every literal of every clause names a declared variable. *)
Definition well_formed (self : SATBenchmark) : bool :=
  forallb (forallb (fun l : literal =>
                      index_in_range (length (variables self)) (fst l)))
          (clauses self).

(** The value an assignment gives a variable, absent ones reading False. *)
Definition value_of (assignment : gmap string bool) (name : string) : bool :=
  default false (assignment !! name).

(** The literal [(var_idx, negated)] is made true by the assignment. *)
Definition literal_true (vars : list string) (assignment : gmap string bool)
  (l : literal) : Prop :=
  exists name, py_index vars (fst l) = Ok name
               /\ value_of assignment name = negb (snd l).

Definition clause_true (vars : list string) (assignment : gmap string bool)
  (c : clause) : Prop :=
  Exists (literal_true vars assignment) c.

Definition satisfies (self : SATBenchmark) (assignment : gmap string bool)
  : Prop :=
  Forall (clause_true (variables self) assignment) (clauses self).

(** Exactly three literals over pairwise distinct variables. *)
Definition three_distinct (c : clause) : Prop :=
  length c = 3%nat /\ NoDup (fst <$> c).

(** The scenario instance: variables [x0, x1], one clause [(x0 ∨ ¬x1)]. *)
Definition x0_or_not_x1 : SATBenchmark :=
  {| variables := ["x0"; "x1"]; clauses := [[(0, false); (1, true)]] |}.

(** Draws under which [random.choice] yields False then True. *)
Definition draws_false_true : rng :=
  fun i => match i with O => 1%N | _ => 0%N end.

(** Draws under which [random.choice] yields True first and False after. *)
Definition draws_true_false : rng :=
  fun i => match i with O => 0%N | _ => 1%N end.

(** The boolean [random.choice([True, False])] returns on raw draw [d]. *)
Definition choice_of_draw (d : N) : bool :=
  match N.to_nat (d mod N.of_nat 2) with O => true | _ => false end.

Definition sample_result : utm_result :=
  {| steps := Some 7; final_state := ∅ |}.

End SATSpec.

Module TSPSpec.
Import Float TSP.

(** Both coordinates are finite floats (no infinity, no NaN). *)
Definition finite_city (c : city) : bool :=
  is_finite (fst c) && is_finite (snd c).

(** [m[i][j]], when both indices are in range. *)
Definition entry (m : matrix) (i j : nat) : option float :=
  match m !! i with
  | Some row => row !! j
  | None => None
  end.

(** An [n] by [n] matrix. *)
Definition square (n : nat) (m : matrix) : Prop :=
  length m = n /\ Forall (fun row => length row = n) m.

(** The distance between cities [a] and [b], when both exist and the
    computation does not raise. *)
Definition dist_opt (cs : list city) (a b : nat) : option float :=
  match cs !! a, cs !! b with
  | Some c1, Some c2 =>
      match distance c1 c2 with
      | Ok d => Some d
      | Raise _ => None
      end
  | _, _ => None
  end.

(** The same for [distance_with pow]. *)
Definition dist_opt_with (pow : float -> result float) (cs : list city)
  (a b : nat) : option float :=
  match cs !! a, cs !! b with
  | Some c1, Some c2 =>
      match distance_with pow c1 c2 with
      | Ok d => Some d
      | Raise _ => None
      end
  | _, _ => None
  end.

(** Three finite cities, the last one far away: [(0,0), (1,0), (1e200,0)]. *)
Definition far_cities : TSPBenchmark :=
  {| cities := [ (zero, zero); (one, zero);
                 (S754_finite false 5883593420661338 612, zero) ];
     distance_matrix := [] |}.

(** Two cities with an infinite abscissa: [(inf,0), (inf,0)]. *)
Definition infinite_cities : TSPBenchmark :=
  {| cities := [ (S754_infinity false, zero); (S754_infinity false, zero) ];
     distance_matrix := [] |}.

(** Three cities of the unit square's scale: [(0,0), (60,80), (0,99)]. *)
Definition three_cities : TSPBenchmark :=
  {| cities := [ (zero, zero);
                 (S754_finite false 8444249301319680 (-47),
                  S754_finite false 5629499534213120 (-46));
                 (zero, S754_finite false 6966505673588736 (-46)) ];
     distance_matrix := [] |}.

End TSPSpec.

Module CRNSpec.
Import CRN.

(** Characters other than [sep]. *)
Definition not_char (sep : ascii) (c : ascii) : bool := negb (Ascii.eqb c sep).

Definition nonspace (c : ascii) : bool := negb (is_space c).

(** The characters of a species name. *)
Definition ident_char (c : ascii) : bool := is_alpha c || is_digit c.

Definition newline : ascii := ascii_of_nat 10.

(** The characters of a species name with blanks around it. *)
Definition pad_char (c : ascii) : bool := ident_char c || Ascii.eqb c " ".

(** The characters of a printed species list: names, blanks and [+]. *)
Definition list_char (c : ascii) : bool :=
  ident_char c || Ascii.eqb c " " || Ascii.eqb c "+".

(** A line the text format admits: blank, a [--] comment, or a reaction
    [reactant[ + reactant]* -> product[ + product]*, rate=<numeral>] over
    species names that are identifiers, whose printed rate satisfies [Pt]. *)
Definition ok_line (Pt : string -> Prop) (l : string) : Prop :=
  l = "" \/ String.prefix "--" l = true
  \/ exists r, l = serialize_reaction r /\ valid_reaction r = true
                /\ Pt (print_rate (rate_int r) (rate_frac r)).

(** Every line of the text is admitted. *)
Definition ok_text (Pt : string -> Prop) (text : string) : Prop :=
  Forall (ok_line Pt) (lines text).

(** No condition on the rate. *)
Definition any_rate (t : string) : Prop := True.

(** The two rates the SAT encoder writes. *)
Definition sat_rate (t : string) : Prop := t = "1.0" \/ t = "10.0".

(** A rate that is not printed as zero. *)
Definition nonzero_rate (t : string) : Prop := t <> "0.000".

(** A run of complete lines, all admitted: it can be put in front of any
    admitted text. *)
Definition ok_block (Pt : string -> Prop) (b : string) : Prop :=
  forall t, ok_text Pt t -> ok_text Pt (b +:+ t).

(** The text [b] is a run of complete lines, the lines [ls]. *)
Definition block_lines (b : string) (ls : list string) : Prop :=
  forall t, lines (b +:+ t) = ls ++ lines t.

End CRNSpec.

Module EncoderSpec.
Import CRN CRNSpec.

(** The variable names of the instance are species-name prefixes, as the
    names [x0, x1, ...] written by [generate_3sat_instance] are. *)
Definition identifier_names (self : SAT.SATBenchmark) : bool :=
  forallb is_identifier (SAT.variables self).

(** The characters of a printed int: digits and the minus sign. *)
Definition int_char (c : ascii) : bool := is_digit c || Ascii.eqb c "-".

(** The characters of the repr of a clause. *)
Definition repr_char (c : ascii) : bool :=
  ident_char c || int_char c || Ascii.eqb c " " || Ascii.eqb c ","
  || Ascii.eqb c "(" || Ascii.eqb c ")" || Ascii.eqb c "[" || Ascii.eqb c "]"
  || Ascii.eqb c ":".

(** A string without a newline character. *)
Definition no_newline (s : string) : bool := all_chars (not_char newline) s.

End EncoderSpec.

(** ** Real-number semantics of binary64 rounding *)

Module FloatSem.

(** [2^e] as a real number, for any integer exponent. *)
Definition bpow (e : Z) : R := powerRZ 2 e.

(** The real number [m * 2^e]. *)
Definition F2R (m e : Z) : R := (IZR m * bpow e)%R.

(** The exponent of the last mantissa bit of numbers in binade [k]. *)
Definition cexp (k : Z) : Z := fexp Float.prec Float.emax k.

(** [v] lies in binade [k]: [2^(k-1) <= v < 2^k]. *)
Definition in_binade (k : Z) (v : R) : Prop :=
  (bpow (k - 1) <= v < bpow k)%R.

(** [n] is an integer nearest to [x], an even one when there are two. *)
Definition nearest_even (x : R) (n : Z) : Prop :=
  (Rabs (x - IZR n) <= / 2)%R
  /\ (Rabs (x - IZR n) = / 2 -> Z.even n = true)%R.

(** [m * 2^e] is the positive real [v] rounded to nearest, ties to even,
    in the binary64 format with unbounded exponent range above. *)
Definition rounds_to (v : R) (m e : Z) : Prop :=
  exists k, in_binade k v /\ e = cexp k /\ nearest_even (v * bpow (- e)) m.

(** The real [r] is the rounding of [v]. *)
Definition rounded (v r : R) : Prop :=
  exists m e, rounds_to v m e /\ r = F2R m e.

(** Position of the real [v] with respect to [m * 2^e], the next multiple
    of [2^e] and their midpoint. *)
Definition inbetween (m e : Z) (l : location) (v : R) : Prop :=
  match l with
  | loc_Exact => v = F2R m e
  | loc_Inexact c =>
      (F2R m e < v < F2R (m + 1) e)%R
      /\ match c with
         | Lt => (v < F2R m e + bpow e / 2)%R
         | Eq => (v = F2R m e + bpow e / 2)%R
         | Gt => (v > F2R m e + bpow e / 2)%R
         end
  end.

(** The float [x] carries sign [s] and the magnitude [r], an infinity
    standing for a magnitude of at least [2^Float.emax]. *)
Definition result_of (s : bool) (r : R) (x : spec_float) : Prop :=
  match x with
  | S754_zero s' => s' = s /\ r = 0%R
  | S754_finite s' m e =>
      s' = s /\ r = F2R (Z.pos m) e /\ SpecFloat.bounded Float.prec Float.emax m e = true
  | S754_infinity s' => s' = s /\ (bpow Float.emax <= r)%R
  | S754_nan => False
  end.

(** The real value of a finite float; zero for the others. *)
Definition B2R (x : spec_float) : R :=
  match x with
  | S754_finite s m e => F2R (cond_Zopp s (Z.pos m)) e
  | _ => 0%R
  end.

(** A valid binary64 datum with the sign bit clear: +0.0, a positive
    finite number or +inf. *)
Definition nonneg_float (x : spec_float) : bool :=
  match x with
  | S754_zero false | S754_infinity false => true
  | S754_finite false m e => SpecFloat.bounded Float.prec Float.emax m e
  | _ => false
  end.

End FloatSem.

Module RateSpec.
Import Float PyFloat TSP FloatSem.

(** The rate in thousandths, as [.3f] prints it. *)
Definition milli (x : float) : Z :=
  match x with
  | S754_finite _ m e => round_milli m e
  | _ => 0
  end.

(** The text [.3f] gives a non-negative rate of [n] thousandths. *)
Definition text_of_milli (n : Z) : string :=
  str_int (n / 1000) +:+ "." +:+ pad3 (n mod 1000).

(** The integer and fractional numerals of that text. *)
Definition numerals_of_milli (n : Z) : Decimal.uint * Decimal.uint :=
  match CRN.parse_decimal (text_of_milli n) with
  | Ok p => p
  | Raise _ => (Decimal.Nil, Decimal.Nil)
  end.

(** The printed text of [n] thousandths is a decimal numeral that prints
    back to itself, and reads [0.000] only for [n = 0]. *)
Definition milli_text_ok (n : nat) : bool :=
  let z := Z.of_nat n in
  let p := numerals_of_milli z in
  String.eqb (CRN.print_rate (fst p) (snd p)) (text_of_milli z)
  && negb (CRN.uint_is_nil (fst p))
  && implb (String.eqb (text_of_milli z) "0.000") (z =? 0).

(** A coordinate drawn from [[0, 100]]: a valid float between 0.0 and 100.0. *)
Definition unit_coord (x : float) : bool :=
  nonneg_float x && negb (is_inf x) && leb x hundred.

(** A city of the square [[0,100] x [0,100]]. *)
Definition in_box (c : city) : bool := unit_coord (fst c) && unit_coord (snd c).

(** A city whose coordinates are finite binary64 numbers. *)
Definition valid_city (c : city) : bool :=
  is_finite (fst c) && valid_binary prec emax (fst c)
  && is_finite (snd c) && valid_binary prec emax (snd c).

(** A zero or a finite float of magnitude at most [b]. *)
Definition small (b : R) (x : float) : Prop :=
  match x with
  | S754_zero _ => True
  | S754_finite _ m e =>
      SpecFloat.bounded prec emax m e = true /\ (F2R (Z.pos m) e <= b)%R
  | _ => False
  end.

(** A non-negative finite float of value at most [b]. *)
Definition within (b : R) (x : float) : Prop :=
  nonneg_float x = true /\ is_inf x = false /\ (B2R x <= b)%R.

(** The float [2^-8 = 0.00390625]. *)
Definition two_pow_minus_8 : float := S754_finite false 4503599627370496 (-60).

(** The text of the reaction line of the ordered pair [(i, j)], without
    its newline. *)
Definition line_of (i j : Z) (rate : float) : string :=
  "city_" +:+ str_int i +:+ " -> city_" +:+ str_int j +:+ ", rate="
  +:+ format_3f rate.

(** The reaction a line of the TSP text stands for. *)
Definition line_reaction (i j : Z) (rate : float) : CRN.Reaction :=
  {| CRN.reactants := ["city_" +:+ str_int i];
     CRN.products := ["city_" +:+ str_int j];
     CRN.rate_int := fst (numerals_of_milli (milli rate));
     CRN.rate_frac := snd (numerals_of_milli (milli rate)) |}.

(** The line written for the ordered pair [(i, j)]: the rate of the entry
    [m[i][j]], among the lines [ls]. *)
Definition pair_line (m : matrix) (ls : list string) (i j : Z) : Prop :=
  exists row d rate,
    py_index m i = Ok row /\ py_index row j = Ok d /\ rate_of d = Ok rate
    /\ line_of i j rate ∈ ls.

(** Every entry of the matrix is a non-negative float. *)
Definition nonneg_matrix (m : matrix) : Prop :=
  Forall (Forall (fun d => nonneg_float d = true)) m.

End RateSpec.

(** ** The reaction network and its text (spec sections 3, 4.1 and 6)

    The network model, the parser and the printer are not among the
    sources ([crn_engine/__init__.py] only re-exports [CRNParser]); they
    are taken from the specification.  The rate constant is a binary64
    float, read from the [rate=<float>] field the way [float()] reads a
    decimal literal. *)

Module Net.
Import Float CRN.

(** Modelled from the spec: the Reaction of section 3 (the model module is
    missing).  Reactants and products are ordered lists of species names,
    a repeated name standing for a stoichiometry above one; the rate
    constant is a float. *)
Record Reaction := {
  reactants : list string;
  products : list string;
  rate : float
}.

(** Modelled from the spec: the ReactionNetwork of section 3 (the missing
    model module); the species set is the one implied by the reactions. *)
Record ReactionNetwork := { reactions : list Reaction }.

Definition species (net : ReactionNetwork) : gset string :=
  list_to_set (concat ((fun r => reactants r ++ products r) <$> reactions net)).

(** The binary64 number nearest to [mant * 10^expo], ties to even: the
    integer, or the quotient of the two integers [mant] and [10^-expo],
    is rounded once, as a correctly rounded [float()] does.  The result
    is [+inf] when the value is too large. *)
Definition float_of_decimal (mant : N) (expo : Z) : float :=
  match mant with
  | N0 => zero
  | Npos m =>
      match expo with
      | Z0 => binary_round prec emax false m 0
      | Zpos k => binary_round prec emax false (m * Pos.pow 10 k) 0
      | Zneg k => div (S754_finite false m 0) (S754_finite false (Pos.pow 10 k) 0)
      end
  end.

(** A run of decimal digits with single underscores allowed between
    digits, as in the numeric literals [float()] reads; the result is the
    run without its underscores. *)
Fixpoint digit_run (s : string) : option string :=
  match s with
  | EmptyString => None
  | String c s' =>
      if is_digit c then
        match s' with
        | EmptyString => Some (String c EmptyString)
        | String d s'' =>
            if Ascii.eqb d "_" then
              match digit_run s'' with
              | Some t => Some (String c t)
              | None => None
              end
            else
              match digit_run s' with
              | Some t => Some (String c t)
              | None => None
              end
        end
      else None
  end.

(** An optional run of digits. *)
Definition opt_digit_run (s : string) : option string :=
  if is_empty s then Some EmptyString else digit_run s.

(** The sign in front of a literal. *)
Definition parse_sign (s : string) : bool * string :=
  match s with
  | String c s' =>
      if Ascii.eqb c "-" then (true, s')
      else if Ascii.eqb c "+" then (false, s')
      else (false, s)
  | EmptyString => (false, s)
  end.

(** The text before the first [e] or [E], and the text after it. *)
Fixpoint split_exponent (s : string) : string * option string :=
  match s with
  | EmptyString => (EmptyString, None)
  | String c s' =>
      if Ascii.eqb c "e" || Ascii.eqb c "E" then (EmptyString, Some s')
      else let '(a, b) := split_exponent s' in (String c a, b)
  end.

(** [digits], [digits.], [digits.digits] or [.digits]: the digits before
    and after the point. *)
Definition parse_mantissa (s : string) : option (string * string) :=
  match split_first "." s with
  | None =>
      match digit_run s with
      | Some a => Some (a, EmptyString)
      | None => None
      end
  | Some (a, b) =>
      match opt_digit_run a, opt_digit_run b with
      | Some a', Some b' =>
          if is_empty a' && is_empty b' then None else Some (a', b')
      | _, _ => None
      end
  end.

(** The value of a run of digits. *)
Definition digits_value (s : string) : option N :=
  match NilEmpty.uint_of_string s with
  | Some d => Some (N.of_uint d)
  | None => None
  end.

(** The exponent part [[+-]digits], when there is one. *)
Definition parse_exponent (o : option string) : option Z :=
  match o with
  | None => Some 0
  | Some t =>
      let '(neg, r) := parse_sign t in
      match digit_run r with
      | Some d =>
          match digits_value d with
          | Some n => Some (if neg then - Z.of_N n else Z.of_N n)
          | None => None
          end
      | None => None
      end
  end.

(** Modelled from the spec: the [<float>] of the rate field (section 4.1;
    the parser module is missing), the decimal literals [float()] reads:
    [[+-](digits[.[digits]] | .digits)[(e|E)[+-]digits]].  The rate is a
    non-negative real number (section 3): [inf] and [nan] are not read,
    a literal that overflows or is negative is a [ParseError], and a
    zero of either sign is the rate [0.0]. *)
Definition parse_float (s : string) : result float :=
  let '(neg, body) := parse_sign s in
  let '(m, e) := split_exponent body in
  match parse_mantissa m, parse_exponent e with
  | Some (a, b), Some ex =>
      match digits_value (a +:+ b) with
      | Some mant =>
          let x := float_of_decimal mant (ex - Z.of_nat (String.length b)) in
          if is_zero x then Ok zero
          else if neg then Raise ParseError
          else if is_inf x then Raise ParseError
          else Ok x
      | None => Raise ParseError
      end
  | _, _ => Raise ParseError
  end.

(** The field [rate=<float>], with optional blanks around [=]. *)
Definition parse_rate (s : string) : result float :=
  match strip_prefix "rate" (strip s) with
  | None => Raise ParseError
  | Some t =>
      match strip_prefix "=" (lstrip t) with
      | None => Raise ParseError
      | Some u => parse_float (strip u)
      end
  end.

Inductive line_kind :=
  | Blank
  | Comment
  | ReactionLine (r : Reaction).

(** Modelled from the spec: one line of CRN text (section 4.1; the parser
    module is missing): blank lines and lines starting with [--] are
    ignored, any other line must read
    [reactant[+reactant...] -> product[+product...], rate=<float>]. *)
Definition classify_line (l : string) : result line_kind :=
  let t := strip l in
  if is_empty t then Ok Blank
  else if String.prefix "--" t then Ok Comment
  else
    match split_arrow t with
    | None => Raise ParseError
    | Some (lhs, rhs) =>
        match split_first "," rhs with
        | None => Raise ParseError
        | Some (prods, ratefield) =>
            let* rs := parse_species_list lhs in
            let* ps := parse_species_list prods in
            let* r := parse_rate ratefield in
            Ok (ReactionLine {| reactants := rs; products := ps; rate := r |})
        end
    end.

Fixpoint parse_lines (ls : list string) : result (list Reaction) :=
  match ls with
  | [] => Ok []
  | l :: ls' =>
      let* k := classify_line l in
      let* rs := parse_lines ls' in
      Ok (match k with ReactionLine r => r :: rs | _ => rs end)
  end.

(** Modelled from the spec: the parser contract of section 4.1 (the parser
    module is missing): a pure function from text to a network or a
    [ParseError]. *)
Definition parse (text : string) : result ReactionNetwork :=
  let* rs := parse_lines (lines text) in
  Ok {| reactions := rs |}.

(** The exact decimal value [mant * 10^expo] of a finite float
    [m * 2^e]: [m * 2^e * 10^0] or [m * 5^-e * 10^e]. *)
Definition decimal_of_float (x : float) : N * Z :=
  match x with
  | S754_finite _ m e =>
      match e with
      | Z0 => (Npos m, 0)
      | Zpos k => (Npos (m * Pos.pow 2 k), 0)
      | Zneg k => (Npos (m * Pos.pow 5 k), e)
      end
  | _ => (0%N, 0)
  end.

(** The rate is printed with all its decimal digits, [<mant>e<expo>], so
    that a correctly rounded reader gets the same float back. *)
Definition print_float (x : float) : string :=
  let '(mant, expo) := decimal_of_float x in
  str_int (Z.of_N mant) +:+ "e" +:+ str_int expo.

Definition serialize_reaction (r : Reaction) : string :=
  join_plus (reactants r) +:+ " -> " +:+ join_plus (products r)
  +:+ ", rate=" +:+ print_float (rate r).

Fixpoint serialize_reactions (rs : list Reaction) : string :=
  match rs with
  | [] => ""
  | r :: rs' => serialize_reaction r +:+ nl +:+ serialize_reactions rs'
  end.

(** Modelled from the spec: the printer of the CRN text format of
    section 6, one reaction per line (no printer exists in the sources). *)
Definition serialize (net : ReactionNetwork) : string :=
  serialize_reactions (reactions net).

(** A rate constant: [+0.0] or a positive finite binary64 number. *)
Definition valid_rate (x : float) : bool :=
  match x with
  | S754_zero false => true
  | S754_finite false m e => SpecFloat.bounded prec emax m e
  | _ => false
  end.

(** Well-formed reactions: what the text format can express. *)
Definition valid_reaction (r : Reaction) : bool :=
  forallb is_identifier (reactants r) && negb (is_nil (reactants r))
  && forallb is_identifier (products r) && negb (is_nil (products r))
  && valid_rate (rate r).

Definition valid_network (net : ReactionNetwork) : bool :=
  forallb valid_reaction (reactions net).

End Net.

(** ** The networks the two encoders write *)

Module NetSpec.
Import Float PyFloat Net.

(** The characters of a printed rate. *)
Definition float_char (c : ascii) : bool :=
  CRN.is_digit c || Ascii.eqb c "e" || Ascii.eqb c "-".

(** The same float, bit for bit. *)
Definition same_float (x y : float) : bool :=
  match x, y with
  | S754_zero a, S754_zero b | S754_infinity a, S754_infinity b => Bool.eqb a b
  | S754_nan, S754_nan => true
  | S754_finite a m e, S754_finite b m' e' =>
      Bool.eqb a b && Pos.eqb m m' && Z.eqb e e'
  | _, _ => false
  end.

(** The three decimals of [n] thousandths read as the float nearest to
    [n / 1000]. *)
Definition reads_back (n : nat) : bool :=
  let t := RateSpec.text_of_milli (Z.of_nat n) in
  match parse_float t with
  | Ok x => same_float x (float_of_decimal (N.of_nat n) (-3))
  | Raise _ => false
  end
  && CRN.all_chars CRNSpec.nonspace t && negb (CRN.is_empty t)
  && CRN.all_chars (CRNSpec.not_char CRNSpec.newline) t.

(** A run of complete lines whose reactions are [rs]: put in front of any
    text that parses, it adds [rs] in front of that text's reactions. *)
Definition block_net (b : string) (rs : list Reaction) : Prop :=
  forall t rs', parse_lines (CRN.lines t) = Ok rs' ->
                parse_lines (CRN.lines (b +:+ t)) = Ok (rs ++ rs').

(** The float [10.0]. *)
Definition ten : float := S754_finite false 5629499534213120 (-49).

(** The species of the literal [(var_idx, negated)]. *)
Definition literal_species (vars : list string) (l : SAT.literal) : string :=
  match py_index vars (fst l) with
  | Ok var_name => var_name +:+ "_" +:+ (if snd l then "false" else "true")
  | Raise _ => ""
  end.

(** The two flip reactions of each variable, at rate [1.0]. *)
Definition flip_reactions (vars : list string) : list Reaction :=
  vars ≫= fun var =>
    [ {| reactants := [var +:+ "_false"]; products := [var +:+ "_true"];
         rate := one |};
      {| reactants := [var +:+ "_true"]; products := [var +:+ "_false"];
         rate := one |} ].

(** One reaction per literal of clause number [i], at rate [10.0]. *)
Definition clause_reactions_of (vars : list string) (i : Z) (c : SAT.clause)
  : list Reaction :=
  (fun l => {| reactants := [literal_species vars l];
               products := ["clause_" +:+ str_int i +:+ "_satisfied"];
               rate := ten |}) <$> c.

Fixpoint clauses_reactions (vars : list string) (i : Z) (cs : list SAT.clause)
  : list Reaction :=
  match cs with
  | [] => []
  | c :: rest => clause_reactions_of vars i c ++ clauses_reactions vars (i + 1) rest
  end.

(** The network of a 3-SAT instance. *)
Definition sat_network (self : SAT.SATBenchmark) : ReactionNetwork :=
  {| reactions := flip_reactions (SAT.variables self)
                  ++ clauses_reactions (SAT.variables self) 0 (SAT.clauses self) |}.

(** The float read back from the three decimals [.3f] prints for [rate]. *)
Definition printed_rate (rate : float) : float :=
  float_of_decimal (Z.to_N (RateSpec.milli rate)) (-3).

(** The rate constant of the ordered pair [(i, j)] in the text. *)
Definition pair_rate (m : TSP.matrix) (i j : Z) : float :=
  match (let* row := py_index m i in
         let* d := py_index row j in
         TSP.rate_of d) with
  | Ok rate => printed_rate rate
  | Raise _ => zero
  end.

(** The reactions of row [i]: one per column [j] other than [i]. *)
Definition row_reactions (m : TSP.matrix) (i : Z) (js : list Z) : list Reaction :=
  js ≫= fun j =>
    if Z.eqb i j then []
    else [ {| reactants := ["city_" +:+ str_int i];
              products := ["city_" +:+ str_int j];
              rate := pair_rate m i j |} ].

(** The network of a TSP instance: one reaction per ordered pair of
    distinct cities, row by row. *)
Definition tsp_network (self : TSP.TSPBenchmark) (n : Z) : ReactionNetwork :=
  {| reactions :=
       py_range n ≫= fun i =>
         row_reactions (TSP.distance_matrix self) i (py_range n) |}.

(** The example network [a -> b, rate=5 / b + b -> a, rate=0.01]. *)
Definition sample_network : ReactionNetwork :=
  {| reactions :=
       [ {| reactants := ["a"]; products := ["b"];
            rate := S754_finite false 5629499534213120 (-50) |};
         {| reactants := ["b"; "b"]; products := ["a"];
            rate := S754_finite false 5764607523034235 (-59) |} ] |}.

End NetSpec.

(** * Properties *)

(** ** Generic facts about the result monad and Python indexing *)

Lemma py_index_in_range {A} (l : list A) (i : Z) :
  SATSpec.index_in_range (length l) i = true ->
  exists x, py_index l i = Ok x.
Proof.
  unfold SATSpec.index_in_range, py_index. intros H.
  apply andb_true_iff in H as [H1 H2].
  apply Z.leb_le in H1. apply Z.ltb_lt in H2.
  set (n := Z.of_nat (length l)) in *.
  set (j := if 0 <=? i then i else n + i).
  assert (Hj : 0 <= j < n).
  { unfold j. destruct (0 <=? i) eqn:E; [apply Z.leb_le in E | apply Z.leb_gt in E]; lia. }
  replace ((0 <=? j) && (j <? n)) with true
    by (symmetry; apply andb_true_iff; split; [apply Z.leb_le | apply Z.ltb_lt]; lia).
  destruct (l !! Z.to_nat j) eqn:E; [eauto |].
  apply lookup_ge_None in E. unfold n in Hj. lia.
Qed.

Lemma py_index_ok_range {A} (l : list A) (i : Z) (x : A) :
  py_index l i = Ok x -> SATSpec.index_in_range (length l) i = true.
Proof.
  unfold SATSpec.index_in_range, py_index.
  set (n := Z.of_nat (length l)).
  destruct (0 <=? i) eqn:E.
  - destruct ((0 <=? i) && (i <? n)) eqn:E2; [| discriminate].
    intros _. apply andb_true_iff in E2 as [H1 H2].
    apply Z.leb_le in H1. apply Z.ltb_lt in H2.
    apply andb_true_iff; split; [apply Z.leb_le | apply Z.ltb_lt]; lia.
  - destruct ((0 <=? n + i) && (n + i <? n)) eqn:E2; [| discriminate].
    intros _. apply andb_true_iff in E2 as [H1 H2].
    apply Z.leb_le in H1. apply Z.ltb_lt in H2.
    apply andb_true_iff; split; [apply Z.leb_le | apply Z.ltb_lt]; lia.
Qed.

(** ** verify_assignment *)

Section Verify.
Import SAT SATSpec.
Variable vars : list string.
Variable assignment : gmap string bool.

Lemma clause_satisfied_spec (c : clause) :
  forallb (fun l : literal => index_in_range (length vars) (fst l)) c = true ->
  exists b, clause_satisfied vars assignment c = Ok b
            /\ (b = true <-> clause_true vars assignment c).
Proof.
  induction c as [| [idx negated] rest IH]; intros Hwf.
  - exists false. split; [reflexivity |].
    split; [discriminate | intros H; inversion H].
  - simpl in Hwf. apply andb_true_iff in Hwf as [Hi Hrest].
    destruct (py_index_in_range vars idx Hi) as [name Hname].
    destruct (IH Hrest) as (b & Hb & Hspec).
    simpl. rewrite Hname. simpl.
    destruct ((negb negated && default false (assignment !! name))
              || (negated && negb (default false (assignment !! name)))) eqn:E.
    + exists true. split; [reflexivity |].
      split; [intros _ | reflexivity].
      apply Exists_cons_hd. exists name. split; [exact Hname |].
      unfold value_of. simpl.
      destruct negated, (default false (assignment !! name)); simpl in *; congruence.
    + exists b. split; [exact Hb |].
      rewrite Hspec. unfold clause_true. rewrite Exists_cons.
      split; [tauto |]. intros [(name' & Hn' & Hv) | H]; [| exact H].
      simpl in Hn', Hv. rewrite Hname in Hn'. injection Hn' as <-.
      unfold value_of in Hv. rewrite Hv in E.
      destruct negated; discriminate.
Qed.

Lemma verify_clauses_spec (cs : list clause) :
  forallb (forallb (fun l : literal => index_in_range (length vars) (fst l))) cs = true ->
  exists b, verify_clauses vars assignment cs = Ok b
            /\ (b = true <-> Forall (clause_true vars assignment) cs).
Proof.
  induction cs as [| c rest IH]; intros Hwf.
  - exists true. split; [reflexivity |]. split; [constructor | reflexivity].
  - simpl in Hwf. apply andb_true_iff in Hwf as [Hc Hrest].
    destruct (clause_satisfied_spec c Hc) as (b1 & Hb1 & Hs1).
    destruct (IH Hrest) as (b2 & Hb2 & Hs2).
    simpl. rewrite Hb1. simpl. destruct b1.
    + exists b2. split; [exact Hb2 |]. rewrite Hs2, Forall_cons. tauto.
    + exists false. split; [reflexivity |].
      split; [discriminate |]. rewrite Forall_cons. intros [H _].
      apply Hs1 in H. discriminate.
Qed.
End Verify.

(** C3. [verify_assignment] is a correct symbolic verifier: on every 3-SAT
    instance whose literals name declared variables it returns a boolean
    without raising, and that boolean is True exactly when every clause
    has a literal made true by the assignment, a variable missing from the
    mapping reading as False. *)
Theorem verify_assignment_correct (self : SAT.SATBenchmark)
  (assignment : gmap string bool) :
  SATSpec.well_formed self = true ->
  exists b, SAT.verify_assignment self assignment = Ok b
            /\ (b = true <-> SATSpec.satisfies self assignment).
Proof.
  intros Hwf. apply verify_clauses_spec. exact Hwf.
Qed.

Lemma verify_assignment_correct_witness :
  SATSpec.well_formed SATSpec.x0_or_not_x1 = true
  /\ exists b, SAT.verify_assignment SATSpec.x0_or_not_x1 {[ "x1" := true ]} = Ok b
               /\ (b = true <-> SATSpec.satisfies SATSpec.x0_or_not_x1 {[ "x1" := true ]}).
Proof.
  split; [reflexivity |].
  apply (verify_assignment_correct SATSpec.x0_or_not_x1 {[ "x1" := true ]}).
  reflexivity.
Defined.

(** ** random.sample: the picks are distinct members of the population *)

Lemma NoDup_insert_fresh {A} (l : list A) (j : nat) (x y : A) :
  NoDup l -> l !! j = Some x -> y ∉ l ->
  NoDup (<[j := y]> l) /\ (x ∉ <[j := y]> l)
  /\ (forall z, z ∈ <[j := y]> l -> z = y \/ z ∈ l).
Proof.
  intros Hnd Hj Hy.
  assert (Hlt : (j < length l)%nat) by (eapply lookup_lt_Some; eauto).
  rewrite insert_take_drop by exact Hlt.
  assert (Hl : l = take j l ++ x :: drop (S j) l)
    by (symmetry; apply take_drop_middle; exact Hj).
  set (l1 := take j l) in *. set (l2 := drop (S j) l) in *.
  clearbody l1 l2. subst l.
  apply NoDup_app in Hnd as (Hn1 & Hdisj & Hn2).
  apply NoDup_cons in Hn2 as [Hx Hn2].
  rewrite elem_of_app, elem_of_cons in Hy.
  split; [| split].
  - apply NoDup_app. split; [exact Hn1 |]. split.
    + intros z Hz Hz'. apply elem_of_cons in Hz' as [-> | Hz'].
      * apply Hy. left. exact Hz.
      * apply (Hdisj z Hz). right. exact Hz'.
    + apply NoDup_cons. split; [| exact Hn2]. intros H. apply Hy. right. right. exact H.
  - rewrite elem_of_app, elem_of_cons. intros [H | [-> | H]].
    + apply (Hdisj x H). left.
    + apply Hy. right. left. reflexivity.
    + apply Hx. exact H.
  - intros z. rewrite !elem_of_app, !elem_of_cons. tauto.
Qed.

Lemma randbelow_lt (n : nat) (g : rng) :
  (0 < n)%nat -> (fst (randbelow n g) < n)%nat.
Proof.
  intros Hn. unfold randbelow. simpl.
  assert (H : (g 0%nat mod N.of_nat n < N.of_nat n)%N) by (apply N.mod_lt; lia).
  lia.
Qed.

Lemma sample_loop_spec {A} (k n : nat) :
  forall (i : nat) (pool : list A) (g : rng),
    length pool = n -> (i + k <= n)%nat -> NoDup (take (n - i) pool) ->
    length (fst (sample_loop k n i pool g)) = k
    /\ NoDup (fst (sample_loop k n i pool g))
    /\ (forall x, x ∈ fst (sample_loop k n i pool g) -> x ∈ take (n - i) pool).
Proof.
  induction k as [| k IH]; intros i pool g Hlen Hik Hnd.
  - simpl. split; [reflexivity |]. split; [constructor |].
    intros x Hx. inversion Hx.
  - cbn [sample_loop].
    assert (Hpos : (0 < n - i)%nat) by lia.
    pose proof (randbelow_lt (n - i) g Hpos) as Hj.
    destruct (randbelow (n - i) g) as [j g1] eqn:Er. simpl in Hj.
    assert (Hlast : exists y, pool !! (n - i - 1)%nat = Some y).
    { apply lookup_lt_is_Some. lia. }
    destruct Hlast as [y Hy].
    assert (Hpick : exists x, pool !! j = Some x).
    { apply lookup_lt_is_Some. lia. }
    destruct Hpick as [x Hx].
    rewrite Hx. unfold pool_move. rewrite Hy.
    replace (n - i)%nat with (S (n - S i)) in Hnd by lia.
    replace (n - i - 1)%nat with (n - S i)%nat in Hy by lia.
    rewrite (take_S_r _ _ _ Hy) in Hnd.
    apply NoDup_app in Hnd as (Hnd1 & Hfresh & _).
    assert (Hy' : y ∉ take (n - S i) pool).
    { intros H. apply (Hfresh y H). left. }
    assert (Hnext : NoDup (take (n - S i) (<[j := y]> pool))
                    /\ (x ∉ take (n - S i) (<[j := y]> pool))
                    /\ (forall z, z ∈ take (n - S i) (<[j := y]> pool) ->
                                  z ∈ take (n - S i) pool ++ [y])).
    { destruct (decide (j < n - S i)%nat) as [Hlt | Hge].
      - rewrite take_insert_lt by exact Hlt.
        assert (Hxj : take (n - S i) pool !! j = Some x)
          by (rewrite lookup_take_lt by exact Hlt; exact Hx).
        destruct (NoDup_insert_fresh _ j x y Hnd1 Hxj Hy') as (H1 & H2 & H3).
        split; [exact H1 |]. split; [exact H2 |].
        intros z Hz. apply elem_of_app. destruct (H3 z Hz) as [-> | H].
        + right. left.
        + left. exact H.
      - assert (j = n - S i)%nat by lia. subst j.
        rewrite take_insert_ge by lia.
        assert (x = y) by congruence. subst x.
        split; [exact Hnd1 |]. split; [exact Hy' |].
        intros z Hz. apply elem_of_app. left. exact Hz. }
    destruct Hnext as (Hn1 & Hn2 & Hn3).
    specialize (IH (S i) (<[j := y]> pool) g1).
    rewrite length_insert in IH.
    specialize (IH Hlen ltac:(lia) Hn1).
    destruct (sample_loop k n (S i) (<[j := y]> pool) g1) as [rest g2].
    simpl in IH |- *. destruct IH as (IH1 & IH2 & IH3).
    split; [lia |]. split.
    + apply NoDup_cons. split; [| exact IH2].
      intros H. apply Hn2. apply IH3. exact H.
    + intros z Hz. replace (n - i)%nat with (S (n - S i)) by lia.
      rewrite (take_S_r _ _ _ Hy).
      apply elem_of_cons in Hz as [-> | Hz].
      * destruct (decide (j < n - S i)%nat) as [Hlt | Hge].
        -- apply elem_of_app. left. apply elem_of_take. exists j. split; [exact Hx | exact Hlt].
        -- assert (j = n - S i)%nat by lia. subst j.
           assert (x = y) by congruence. subst x.
           apply elem_of_app. right. left.
      * apply Hn3. apply IH3. exact Hz.
Qed.

Lemma random_sample_spec {A} (population : list A) (k : nat) (g : rng) :
  NoDup population ->
  match random_sample population k g with
  | Ok (picks, _) =>
      (k <= length population)%nat /\ length picks = k /\ NoDup picks
      /\ (forall x, x ∈ picks -> x ∈ population)
  | Raise e => e = ValueError /\ (length population < k)%nat
  end.
Proof.
  intros Hnd. unfold random_sample.
  destruct (k <=? length population)%nat eqn:E.
  - apply Nat.leb_le in E.
    pose proof (sample_loop_spec k (length population) 0 population g
                  eq_refl ltac:(lia)) as H.
    rewrite Nat.sub_0_r, firstn_all in H. specialize (H Hnd).
    destruct (sample_loop k (length population) 0 population g) as [picks g'].
    simpl in H. tauto.
  - apply Nat.leb_gt in E. split; [reflexivity | exact E].
Qed.

(** ** Signs of rounded results *)

Lemma binary_round_aux_sign (s : bool) (mx ex : Z) (lx : location) :
  let r := binary_round_aux Float.prec Float.emax s mx ex lx in
  Float.sign_bit r = Some s \/ r = S754_nan.
Proof.
  unfold binary_round_aux.
  destruct (shr_fexp Float.prec Float.emax mx ex lx) as [mrs' e'].
  destruct (shr_fexp Float.prec Float.emax _ e' loc_Exact) as [mrs'' e''].
  destruct (shr_m mrs'') as [| m | m]; simpl; auto.
  destruct (e'' <=? Float.emax - Float.prec); simpl; auto.
Qed.

Lemma binary_round_sign (s : bool) (m : positive) (e : Z) :
  let r := binary_round Float.prec Float.emax s m e in
  Float.sign_bit r = Some s \/ r = S754_nan.
Proof.
  unfold binary_round.
  destruct (shl_align m e _) as [mz ez].
  apply binary_round_aux_sign.
Qed.

Lemma to_int_sign (x : Float.float) (s : bool) (n : Z) :
  Float.sign_bit x = Some s -> Float.to_int x = Ok n ->
  if s then n <= 0 else 0 <= n.
Proof.
  destruct x as [s' | s' | | s' m e]; simpl; try discriminate.
  - intros _ [= <-]. destruct s; lia.
  - intros [= ->] [= <-].
    assert (H : 0 <= match e with
                     | Z.neg p => Z.shiftr (Z.pos m) (Z.pos p)
                     | _ => Z.shiftl (Z.pos m) e
                     end).
    { destruct e; [apply Z.shiftl_nonneg | apply Z.shiftl_nonneg
                   | apply Z.shiftr_nonneg]; lia. }
    destruct s; lia.
Qed.

Lemma of_int_sign (n : Z) (x : Float.float) :
  Float.of_int n = Ok x ->
  Float.sign_bit x = Some (n <? 0) \/ x = S754_nan.
Proof.
  unfold Float.of_int.
  destruct (Float.is_inf _) eqn:E; [discriminate |]. intros [= <-].
  destruct n as [| p | p]; simpl.
  - left. reflexivity.
  - apply (binary_round_sign false p 0).
  - apply (binary_round_sign true p 0).
Qed.

Lemma mul_sign (x y : Float.float) (sx sy : bool) :
  Float.sign_bit x = Some sx -> Float.sign_bit y = Some sy ->
  Float.sign_bit (Float.mul x y) = Some (xorb sx sy) \/ Float.mul x y = S754_nan.
Proof.
  destruct x as [a | a | | a mx ex], y as [b | b | | b my ey]; simpl;
    try discriminate; intros [= <-] [= <-]; auto.
  apply binary_round_aux_sign.
Qed.

Lemma default_num_clauses_sign (num_vars n : Z) :
  SAT.default_num_clauses num_vars = Ok n ->
  if num_vars <? 0 then n <= 0 else 0 <= n.
Proof.
  unfold SAT.default_num_clauses.
  destruct (Float.of_int num_vars) as [x |] eqn:Ex; [| discriminate].
  cbn [rbind]. intros Hn.
  destruct (of_int_sign _ _ Ex) as [Hs | ->].
  - destruct (mul_sign Float.four_point_three x false _ eq_refl Hs) as [Hm | Hm].
    + apply (to_int_sign _ _ _ Hm Hn).
    + rewrite Hm in Hn. discriminate.
  - discriminate.
Qed.

(** ** generate_3sat_instance *)

Lemma py_range_NoDup (n : Z) : NoDup (py_range n).
Proof.
  unfold py_range. apply NoDup_fmap_2; [apply Nat2Z.inj' | apply NoDup_seq].
Qed.

Lemma py_range_length (n : Z) : length (py_range n) = Z.to_nat n.
Proof. unfold py_range. rewrite length_fmap, length_seq. reflexivity. Qed.

Lemma elem_of_py_range (n i : Z) : i ∈ py_range n <-> 0 <= i < n.
Proof.
  unfold py_range. rewrite list_elem_of_fmap. split.
  - intros (k & -> & Hk). apply elem_of_seq in Hk. lia.
  - intros H. exists (Z.to_nat i). split; [lia |]. apply elem_of_seq. lia.
Qed.

Lemma negate_vars_fst (selected : list Z) (g : rng) :
  fst <$> fst (SAT.negate_vars selected g) = selected.
Proof.
  revert g. induction selected as [| v rest IH]; intros g; [reflexivity |].
  cbn [SAT.negate_vars]. destruct (random_choice_bool g) as [b g1].
  specialize (IH g1). destruct (SAT.negate_vars rest g1) as [c g2].
  simpl in *. f_equal. exact IH.
Qed.

Lemma generate_clauses_ok (num_vars : Z) (count : nat) :
  3 <= num_vars ->
  forall g, exists cs g',
    SAT.generate_clauses count num_vars g = Ok (cs, g')
    /\ length cs = count
    /\ Forall SATSpec.three_distinct cs
    /\ Forall (Forall (fun l : SAT.literal => 0 <= fst l < num_vars)) cs.
Proof.
  intros Hn. induction count as [| count IH]; intros g.
  - exists [], g. repeat split; constructor.
  - cbn [SAT.generate_clauses].
    pose proof (random_sample_spec (py_range num_vars) 3 g (py_range_NoDup _)) as Hs.
    destruct (random_sample (py_range num_vars) 3 g) as [[sel g1] | e].
    + destruct Hs as (_ & Hlen & Hnd & Hin). cbn [rbind].
      pose proof (negate_vars_fst sel g1) as Hfst.
      destruct (SAT.negate_vars sel g1) as [c g2]. simpl in Hfst.
      destruct (IH g2) as (cs & g3 & -> & Hl & H3 & Hr). cbn [rbind].
      exists (c :: cs), g3. split; [reflexivity |]. split; [simpl; lia |].
      split; constructor; try assumption.
      * split; [| rewrite Hfst; exact Hnd].
        rewrite <- Hlen, <- Hfst, length_fmap. reflexivity.
      * apply Forall_forall. intros l Hl'.
        apply elem_of_py_range, Hin. rewrite <- Hfst.
        apply list_elem_of_fmap. exists l. split; [reflexivity | exact Hl'].
    + destruct Hs as [_ Hlt]. rewrite py_range_length in Hlt. lia.
Qed.

Lemma generate_clauses_too_few_vars (num_vars : Z) (count : nat) (g : rng) :
  num_vars < 3 ->
  SAT.generate_clauses (S count) num_vars g = Raise ValueError.
Proof.
  intros Hn. cbn [SAT.generate_clauses]. unfold random_sample.
  rewrite py_range_length.
  destruct (3 <=? Z.to_nat num_vars)%nat eqn:E; [| reflexivity].
  apply Nat.leb_le in E. lia.
Qed.

(** C10, as amended.  [generate_3sat_instance(num_vars)] with the default
    clause count raises [ValueError] for [num_vars] 1 and 2; for
    [num_vars <= 0] it does not raise in the sampling loop but returns an
    instance with no variables and no clauses; for [num_vars >= 3] it
    succeeds with exactly [int(4.3 * num_vars)] clauses, each of exactly
    three literals over pairwise distinct variable indices. *)
Theorem generate_3sat_instance_default (num_vars : Z) (g : rng) :
  (1 <= num_vars <= 2 ->
   SAT.generate_3sat_instance num_vars None g = Raise ValueError)
  /\ (forall n, SAT.default_num_clauses num_vars = Ok n -> num_vars <= 0 ->
      SAT.generate_3sat_instance num_vars None g
      = Ok ({| SAT.variables := []; SAT.clauses := [] |}, g))
  /\ (forall n, SAT.default_num_clauses num_vars = Ok n -> 3 <= num_vars ->
      exists self g',
        SAT.generate_3sat_instance num_vars None g = Ok (self, g')
        /\ Z.of_nat (length (SAT.clauses self)) = n
        /\ Forall SATSpec.three_distinct (SAT.clauses self)).
Proof.
  split; [| split].
  - intros H. assert (Hc : num_vars = 1 \/ num_vars = 2) by lia.
    destruct Hc as [-> | ->]; reflexivity.
  - intros n Hd Hle. unfold SAT.generate_3sat_instance. rewrite Hd. cbn [rbind].
    pose proof (default_num_clauses_sign _ _ Hd) as Hs.
    assert (Hn : Z.to_nat n = 0%nat).
    { destruct (num_vars <? 0) eqn:E; [lia |].
      apply Z.ltb_ge in E. assert (num_vars = 0) by lia. subst num_vars.
      vm_compute in Hd. injection Hd as <-. reflexivity. }
    rewrite Hn. cbn [SAT.generate_clauses rbind].
    unfold py_range. replace (Z.to_nat num_vars) with 0%nat by lia. reflexivity.
  - intros n Hd Hge. unfold SAT.generate_3sat_instance. rewrite Hd. cbn [rbind].
    pose proof (default_num_clauses_sign _ _ Hd) as Hs.
    replace (num_vars <? 0) with false in Hs by (symmetry; apply Z.ltb_ge; lia).
    destruct (generate_clauses_ok num_vars (Z.to_nat n) Hge g)
      as (cs & g' & -> & Hl & H3 & _).
    cbn [rbind]. eexists _, g'. split; [reflexivity |].
    simpl. split; [lia | exact H3].
Qed.

Lemma generate_3sat_instance_default_witness :
  SAT.default_num_clauses 3 = Ok 12 /\ 3 <= 3
  /\ exists self g',
       SAT.generate_3sat_instance 3 None SATSpec.draws_true_false = Ok (self, g')
       /\ Z.of_nat (length (SAT.clauses self)) = 12
       /\ Forall SATSpec.three_distinct (SAT.clauses self).
Proof.
  split; [reflexivity |]. split; [lia |].
  apply (proj2 (proj2 (generate_3sat_instance_default 3 SATSpec.draws_true_false)) 12);
    [reflexivity | lia].
Defined.

(** C10, counterexample to the claim as stated: with zero variables (fewer
    than three) the call returns normally instead of raising. *)
Lemma generate_3sat_instance_zero_vars :
  0 < 3 /\ is_ok (SAT.generate_3sat_instance 0 None SATSpec.draws_true_false) = true.
Proof. split; [lia | reflexivity]. Qed.

(** ** extract_assignment and extract_best_path *)

Lemma random_choice_bool_eq (g : rng) :
  random_choice_bool g = (SATSpec.choice_of_draw (g O), rng_tail g).
Proof. reflexivity. Qed.

Lemma choose_values_lookup (vars : list string) :
  forall (acc : gmap string bool) (g : rng),
    (forall name, name ∉ vars ->
       fst (SAT.choose_values vars acc g) !! name = acc !! name)
    /\ (NoDup vars -> forall i name, vars !! i = Some name ->
        fst (SAT.choose_values vars acc g) !! name
        = Some (SATSpec.choice_of_draw (g i))).
Proof.
  induction vars as [| var rest IH]; intros acc g.
  - split; [reflexivity |]. intros _ i name H. discriminate.
  - cbn [SAT.choose_values]. rewrite random_choice_bool_eq.
    destruct (IH (<[var := SATSpec.choice_of_draw (g O)]> acc) (rng_tail g))
      as [IH1 IH2].
    split.
    + intros name Hn. apply not_elem_of_cons in Hn as [Hne Hn].
      rewrite (IH1 name Hn). apply lookup_insert_ne. congruence.
    + intros Hnd i name Hi. apply NoDup_cons in Hnd as [Hvar Hnd].
      destruct i as [| i]; simpl in Hi.
      * injection Hi as <-. rewrite (IH1 var Hvar). apply lookup_insert_eq.
      * apply (IH2 Hnd i name Hi).
Qed.

(** C2, as amended.  Neither decoder reads the simulation result:
    [extract_best_path] always returns the identity path
    [0, 1, ..., len(cities) - 1], and [extract_assignment] gives every
    (distinctly named) variable the value of one [random.choice] draw, so
    it is a function of the variable list and the generator state alone.
    No tie-break on species counts is applied and no warning accompanies
    the value. *)
Theorem decoders_ignore_simulation_result (sat : SAT.SATBenchmark)
  (tsp : TSP.TSPBenchmark) (res1 res2 : utm_result) (g : rng) :
  NoDup (SAT.variables sat) ->
  SAT.extract_assignment sat res1 g = SAT.extract_assignment sat res2 g
  /\ (forall i name, SAT.variables sat !! i = Some name ->
      fst (SAT.extract_assignment sat res1 g) !! name
      = Some (SATSpec.choice_of_draw (g i)))
  /\ TSP.extract_best_path tsp res1 = TSP.extract_best_path tsp res2
  /\ TSP.extract_best_path tsp res1
     = py_range (Z.of_nat (length (TSP.cities tsp))).
Proof.
  intros Hnd. split; [reflexivity |]. split; [| split; reflexivity].
  intros i name Hi. unfold SAT.extract_assignment.
  apply (proj2 (choose_values_lookup _ ∅ g) Hnd i name Hi).
Qed.

Lemma decoders_ignore_simulation_result_witness :
  NoDup (SAT.variables SATSpec.x0_or_not_x1)
  /\ fst (SAT.extract_assignment SATSpec.x0_or_not_x1 SATSpec.sample_result
            SATSpec.draws_true_false) !! "x1"
     = Some (SATSpec.choice_of_draw (SATSpec.draws_true_false 1%nat)).
Proof.
  assert (H : NoDup (SAT.variables SATSpec.x0_or_not_x1)).
  { apply NoDup_cons. split; [| apply NoDup_singleton].
    intros Hin. apply list_elem_of_singleton in Hin. discriminate. }
  split; [exact H |].
  apply (proj1 (proj2 (decoders_ignore_simulation_result SATSpec.x0_or_not_x1
           {| TSP.cities := []; TSP.distance_matrix := [] |}
           SATSpec.sample_result SATSpec.sample_result
           SATSpec.draws_true_false H)) 1%nat "x1").
  reflexivity.
Defined.

(** C2, counterexample to the claim as stated: two calls of
    [extract_assignment] on the same instance and the same simulation
    result, one after the other, return different assignments. *)
Lemma extract_assignment_two_calls_differ :
  let '(a1, g1) := SAT.extract_assignment SATSpec.x0_or_not_x1
                     SATSpec.sample_result SATSpec.draws_true_false in
  let '(a2, _) := SAT.extract_assignment SATSpec.x0_or_not_x1
                    SATSpec.sample_result g1 in
  a1 !! "x0" = Some true /\ a2 !! "x0" = Some false /\ a1 <> a2.
Proof.
  cbv beta iota delta [SAT.extract_assignment SAT.choose_values
    SATSpec.x0_or_not_x1 SAT.variables].
  rewrite !random_choice_bool_eq.
  split; [reflexivity |]. split; [reflexivity |].
  intros H. apply (f_equal (fun m : gmap string bool => m !! "x0")) in H.
  vm_compute in H. discriminate.
Qed.

(** ** SATBenchmark.run on the scenario instance *)

(** C1, as amended.  On the instance with variables x0, x1 and the single
    clause (x0 ∨ ¬x1), whenever the simulator returns, the run returns a
    decoded assignment that gives both variables a value, and the reported
    [satisfiable] flag is what [verify_assignment] returns on it: True
    exactly when the decoded assignment is one of the satisfying ones
    (x0 = True, or x1 = False).  The decoded assignment is drawn at random,
    so the flag may also be False. *)
Theorem run_on_x0_or_not_x1 (execute_crn_string : string -> result utm_result)
  (crn_spec : string) (res : utm_result) (g : rng) :
  SAT.create_sat_crn SATSpec.x0_or_not_x1 = Ok crn_spec ->
  execute_crn_string crn_spec = Ok res ->
  exists r g',
    SAT.run_instance execute_crn_string 2 SATSpec.x0_or_not_x1 g = Ok (r, g')
    /\ SAT.verify_assignment SATSpec.x0_or_not_x1 (SAT.r_assignment r)
       = Ok (SAT.r_satisfiable r)
    /\ is_Some (SAT.r_assignment r !! "x0")
    /\ is_Some (SAT.r_assignment r !! "x1")
    /\ (SAT.r_satisfiable r = true <->
        SAT.r_assignment r !! "x0" = Some true
        \/ SAT.r_assignment r !! "x1" = Some false).
Proof.
  intros Hcrn Hex. unfold SAT.run_instance.
  rewrite Hcrn. cbn [rbind]. rewrite Hex. cbn [rbind].
  cbv beta iota delta [SAT.extract_assignment SAT.choose_values
    SATSpec.x0_or_not_x1 SAT.variables].
  rewrite !random_choice_bool_eq.
  destruct (SATSpec.choice_of_draw (g O)),
           (SATSpec.choice_of_draw (rng_tail g O));
    eexists _, _; (split; [reflexivity |]); cbn [SAT.r_assignment SAT.r_satisfiable];
    (split; [reflexivity |]); (split; [eexists; reflexivity |]);
    (split; [eexists; reflexivity |]);
    (split; [intros H; try discriminate H; (left; reflexivity) || (right; reflexivity)
            | intros [H | H]; vm_compute in H; congruence]).
Qed.

Lemma run_on_x0_or_not_x1_witness :
  exists crn_spec,
    SAT.create_sat_crn SATSpec.x0_or_not_x1 = Ok crn_spec
    /\ exists r g',
         SAT.run_instance (fun _ => Ok SATSpec.sample_result) 2
           SATSpec.x0_or_not_x1 SATSpec.draws_true_false = Ok (r, g')
         /\ SAT.r_satisfiable r = true.
Proof.
  eexists. split; [reflexivity |].
  destruct (run_on_x0_or_not_x1 (fun _ => Ok SATSpec.sample_result) _
              SATSpec.sample_result SATSpec.draws_true_false eq_refl eq_refl)
    as (r & g' & Hr & _ & _ & _ & Hsat).
  exists r, g'. split; [exact Hr |].
  apply Hsat. left.
  injection Hr as <- _. reflexivity.
Defined.

(** C1, counterexample to the claim as stated: an execution whose decoded
    assignment is x0 = False, x1 = True, on which [verify_assignment]
    returns False. *)
Lemma run_on_x0_or_not_x1_unsatisfied :
  exists r g',
    SAT.run_instance (fun _ => Ok SATSpec.sample_result) 2
      SATSpec.x0_or_not_x1 SATSpec.draws_false_true = Ok (r, g')
    /\ SAT.r_assignment r !! "x0" = Some false
    /\ SAT.r_assignment r !! "x1" = Some true
    /\ SAT.r_satisfiable r = false
    /\ SAT.verify_assignment SATSpec.x0_or_not_x1 (SAT.r_assignment r) = Ok false.
Proof.
  eexists _, _. split; [reflexivity |]. repeat split; reflexivity.
Qed.

(** [run(2)] itself cannot produce the scenario instance: sampling three
    variables out of two raises. *)
Lemma run_two_vars_raises (execute_crn_string : string -> result utm_result)
  (g : rng) :
  SAT.run execute_crn_string 2 g = Raise ValueError.
Proof. reflexivity. Qed.

(** ** The binary-increment machine *)

Lemma run_steps_more_fuel (rules : list UTM.TransitionRule) (b k : nat) :
  forall c c', UTM.run_steps b rules c = (c', true) ->
               UTM.run_steps (b + k) rules c = (c', true).
Proof.
  induction b as [| b IH]; intros c c' H.
  - simpl in H. destruct (UTM.step rules c) eqn:E; [discriminate |].
    destruct k; simpl; rewrite E; exact H.
  - simpl in H |- *. destruct (UTM.step rules c) eqn:E; [| exact H].
    apply IH. exact H.
Qed.

(** C8. Run from state q0 with the head on cell 0 of the tape [101_], under
    any step bound of at least six, the binary-increment rules halt by
    themselves in state qhalt after six steps (more than zero) with [110]
    on cells 0 to 2 and a blank on cell 3. *)
Theorem binary_increment_halts (bound : nat) :
  (6 <= bound)%nat ->
  exists r,
    UTM.execute_utm_program UTM.binary_increment UTM.initial_tape "q0" bound
    = Some r
    /\ UTM.halted r = true
    /\ UTM.final_state r = "qhalt"
    /\ UTM.read_cells (UTM.final_tape r) 0 3 = "110"
    /\ UTM.read_tape (UTM.final_tape r) 3 = UTM.blank
    /\ UTM.utm_steps r = 6
    /\ 0 < UTM.utm_steps r.
Proof.
  intros Hb. replace bound with (6 + (bound - 6))%nat by lia.
  unfold UTM.execute_utm_program.
  replace (UTM.has_duplicate_rule UTM.binary_increment) with false by reflexivity.
  set (c0 := {| UTM.state := "q0"; UTM.tape := UTM.initial_tape;
                UTM.head := 0; UTM.step_count := 0 |}).
  assert (H6 : exists c, UTM.run_steps 6 UTM.binary_increment c0 = (c, true)
                         /\ UTM.state c = "qhalt"
                         /\ UTM.read_cells (UTM.tape c) 0 3 = "110"
                         /\ UTM.read_tape (UTM.tape c) 3 = UTM.blank
                         /\ UTM.step_count c = 6).
  { eexists. split; [vm_compute; reflexivity |]. repeat split; reflexivity. }
  destruct H6 as (c & Hrun & Hst & Htape & Hblank & Hsteps).
  rewrite (run_steps_more_fuel _ 6 (bound - 6) c0 c Hrun).
  eexists. split; [reflexivity |]. simpl.
  repeat split; try assumption. rewrite Hsteps. lia.
Qed.

Lemma binary_increment_halts_witness :
  (6 <= 10)%nat
  /\ exists r,
       UTM.execute_utm_program UTM.binary_increment UTM.initial_tape "q0" 10
       = Some r
       /\ UTM.final_state r = "qhalt"
       /\ UTM.read_cells (UTM.final_tape r) 0 3 = "110"
       /\ 0 < UTM.utm_steps r.
Proof.
  assert (H : (6 <= 10)%nat) by lia.
  split; [exact H |].
  destruct (binary_increment_halts 10 H) as (r & Hr & _ & Hs & Ht & _ & _ & Hp).
  exists r. repeat split; assumption.
Defined.

(** ** Rounding never produces a NaN from a non-negative mantissa *)

Lemma shr_1_nonneg (mrs : shr_record) :
  0 <= shr_m mrs -> 0 <= shr_m (shr_1 mrs).
Proof.
  destruct mrs as [m r s]. simpl.
  destruct m as [| p | p]; [simpl; lia | | lia].
  intros _. destruct p; simpl; lia.
Qed.

Lemma iter_shr_1_nonneg (p : positive) :
  forall mrs, 0 <= shr_m mrs -> 0 <= shr_m (SpecFloat.iter_pos shr_1 p mrs).
Proof.
  induction p as [p IH | p IH |]; intros mrs H; simpl.
  - apply IH, IH, shr_1_nonneg, H.
  - apply IH, IH, H.
  - apply shr_1_nonneg, H.
Qed.

Lemma shr_nonneg (mrs : shr_record) (e n : Z) :
  0 <= shr_m mrs -> 0 <= shr_m (fst (shr mrs e n)).
Proof.
  intros H. unfold shr. destruct n; simpl; try exact H.
  apply iter_shr_1_nonneg, H.
Qed.

Lemma shr_fexp_nonneg (m e : Z) (l : location) :
  0 <= m -> 0 <= shr_m (fst (shr_fexp Float.prec Float.emax m e l)).
Proof.
  intros H. unfold shr_fexp. apply shr_nonneg.
  destruct l as [| []]; exact H.
Qed.

Lemma round_nearest_even_nonneg (m : Z) (l : location) :
  0 <= m -> 0 <= round_nearest_even m l.
Proof.
  intros H. destruct l as [| []]; simpl; try lia.
  destruct (Z.even m); lia.
Qed.

Lemma binary_round_aux_not_nan (s : bool) (mx ex : Z) (lx : location) :
  0 <= mx ->
  Float.sign_bit (binary_round_aux Float.prec Float.emax s mx ex lx) = Some s.
Proof.
  intros H. unfold binary_round_aux.
  pose proof (shr_fexp_nonneg mx ex lx H) as H1.
  destruct (shr_fexp Float.prec Float.emax mx ex lx) as [mrs' e']. simpl in H1.
  pose proof (shr_fexp_nonneg _ e' loc_Exact
                (round_nearest_even_nonneg _ (loc_of_shr_record mrs') H1)) as H2.
  destruct (shr_fexp Float.prec Float.emax _ e' loc_Exact) as [mrs'' e''].
  simpl in H2.
  destruct (shr_m mrs'') as [| m | m]; [reflexivity | | lia].
  destruct (e'' <=? Float.emax - Float.prec); reflexivity.
Qed.

Lemma binary_round_not_nan (s : bool) (m : positive) (e : Z) :
  Float.sign_bit (binary_round Float.prec Float.emax s m e) = Some s.
Proof.
  unfold binary_round. destruct (shl_align m e _) as [mz ez].
  apply binary_round_aux_not_nan. lia.
Qed.

Lemma binary_round_sign_irrelevant (m : positive) (e : Z) :
  SFabs (binary_round Float.prec Float.emax true m e)
  = SFabs (binary_round Float.prec Float.emax false m e).
Proof.
  unfold binary_round. destruct (shl_align m e _) as [mz ez].
  unfold binary_round_aux.
  destruct (shr_fexp Float.prec Float.emax (Z.pos mz) ez loc_Exact) as [mrs' e'].
  destruct (shr_fexp Float.prec Float.emax _ e' loc_Exact) as [mrs'' e''].
  destruct (shr_m mrs''); [reflexivity | | reflexivity].
  destruct (e'' <=? Float.emax - Float.prec); reflexivity.
Qed.

Lemma binary_normalize_opp (m e : Z) :
  SFabs (binary_normalize Float.prec Float.emax (- m) e false)
  = SFabs (binary_normalize Float.prec Float.emax m e false).
Proof.
  destruct m as [| p | p]; simpl; [reflexivity | |].
  - apply binary_round_sign_irrelevant.
  - symmetry. apply binary_round_sign_irrelevant.
Qed.

(** ** Symmetry of the distance *)

Lemma sub_antisym_abs (x y : Float.float) :
  Float.is_finite x = true -> Float.is_finite y = true ->
  SFabs (Float.sub x y) = SFabs (Float.sub y x).
Proof.
  destruct x as [sx | sx | | sx mx ex], y as [sy | sy | | sy my ey];
    simpl; try discriminate; intros _ _.
  - destruct sx, sy; reflexivity.
  - reflexivity.
  - reflexivity.
  - rewrite <- binary_normalize_opp. rewrite Z.min_comm. f_equal. f_equal. lia.
Qed.

Lemma pow2_abs (x : Float.float) : PyFloat.pow2 (SFabs x) = PyFloat.pow2 x.
Proof.
  destruct x as [s | s | | s m e]; try reflexivity.
  unfold PyFloat.pow2, SFabs, Float.mul, SFmul.
  destruct s; reflexivity.
Qed.

Lemma pow2_sub_sym (x y : Float.float) :
  Float.is_finite x = true -> Float.is_finite y = true ->
  PyFloat.pow2 (Float.sub x y) = PyFloat.pow2 (Float.sub y x).
Proof.
  intros Hx Hy. rewrite <- (pow2_abs (Float.sub x y)), <- (pow2_abs (Float.sub y x)).
  f_equal. apply sub_antisym_abs; assumption.
Qed.

Lemma distance_sym (c1 c2 : TSP.city) :
  TSPSpec.finite_city c1 = true -> TSPSpec.finite_city c2 = true ->
  TSP.distance c1 c2 = TSP.distance c2 c1.
Proof.
  destruct c1 as [x1 y1], c2 as [x2 y2]. unfold TSPSpec.finite_city. simpl.
  intros H1 H2. apply andb_true_iff in H1 as [Hx1 Hy1].
  apply andb_true_iff in H2 as [Hx2 Hy2].
  rewrite (pow2_sub_sym x1 x2 Hx1 Hx2), (pow2_sub_sym y1 y2 Hy1 Hy2).
  reflexivity.
Qed.

(** ** Distances of finite cities are non-negative numbers *)

Lemma sub_finite_not_nan (x y : Float.float) :
  Float.is_finite x = true -> Float.is_finite y = true ->
  Float.is_nan (Float.sub x y) = false.
Proof.
  destruct x as [sx | sx | | sx mx ex], y as [sy | sy | | sy my ey];
    simpl; try discriminate; intros _ _; try reflexivity.
  - destruct sx, sy; reflexivity.
  - unfold Float.sub, SFsub, binary_normalize.
    destruct (_ - _) as [| p | p]; [reflexivity | |].
    + pose proof (binary_round_not_nan false p (Z.min ex ey)) as H.
      destruct (binary_round _ _ _ _ _); simpl in *; congruence.
    + pose proof (binary_round_not_nan true p (Z.min ex ey)) as H.
      destruct (binary_round _ _ _ _ _); simpl in *; congruence.
Qed.

Lemma pow2_sign (x a : Float.float) :
  Float.is_nan x = false -> PyFloat.pow2 x = Ok a ->
  Float.sign_bit a = Some false.
Proof.
  destruct x as [s | s | | s m e]; simpl; try discriminate;
    intros _; try (intros [= <-]; reflexivity).
  destruct (Float.is_inf _); [discriminate |]. intros [= <-].
  unfold Float.mul, SFmul.
  rewrite binary_round_aux_not_nan by lia.
  destruct s; reflexivity.
Qed.

Lemma add_sign_false (a b : Float.float) :
  Float.sign_bit a = Some false -> Float.sign_bit b = Some false ->
  Float.sign_bit (Float.add a b) = Some false.
Proof.
  destruct a as [sa | sa | | sa ma ea], b as [sb | sb | | sb mb eb];
    simpl; try discriminate; intros [= ->] [= ->]; try reflexivity.
  unfold Float.add, SFadd, cond_Zopp, binary_normalize.
  destruct (shl_align ma ea (Z.min ea eb)) as [ma' ea'].
  destruct (shl_align mb eb (Z.min ea eb)) as [mb' eb'].
  simpl. apply binary_round_not_nan.
Qed.

Lemma sqrt_sign_false (a : Float.float) :
  Float.sign_bit a = Some false ->
  exists d, PyFloat.math_sqrt a = Ok d /\ Float.sign_bit d = Some false.
Proof.
  destruct a as [sa | sa | | sa ma ea]; simpl; try discriminate;
    intros [= ->]; try (eexists; split; reflexivity).
  eexists. split; [reflexivity |].
  unfold Float.sqrt, SFsqrt.
  destruct (SFsqrt_core_binary Float.prec Float.emax (Z.pos ma) ea)
    as [[mz ez] lz] eqn:E.
  apply binary_round_aux_not_nan.
  unfold SFsqrt_core_binary in E.
  match type of E with
  | (let (q, r) := Z.sqrtrem ?v in _) = _ =>
      pose proof (Z.sqrtrem_sqrt v) as Hq; pose proof (Z.sqrt_nonneg v) as Hn;
      destruct (Z.sqrtrem v) as [q r]
  end.
  cbn [fst] in Hq. injection E as <- _ _. rewrite Hq. exact Hn.
Qed.

Lemma distance_finite (c1 c2 : TSP.city) (d : Float.float) :
  TSPSpec.finite_city c1 = true -> TSPSpec.finite_city c2 = true ->
  TSP.distance c1 c2 = Ok d -> Float.sign_bit d = Some false.
Proof.
  destruct c1 as [x1 y1], c2 as [x2 y2]. unfold TSPSpec.finite_city, TSP.distance.
  simpl fst; simpl snd.
  intros H1 H2. apply andb_true_iff in H1 as [Hx1 Hy1].
  apply andb_true_iff in H2 as [Hx2 Hy2].
  destruct (PyFloat.pow2 (Float.sub x1 x2)) as [a |] eqn:Ea; [| discriminate].
  cbn [rbind].
  destruct (PyFloat.pow2 (Float.sub y1 y2)) as [b |] eqn:Eb; [| discriminate].
  cbn [rbind]. intros Hd.
  pose proof (pow2_sign _ _ (sub_finite_not_nan _ _ Hx1 Hx2) Ea) as Ha.
  pose proof (pow2_sign _ _ (sub_finite_not_nan _ _ Hy1 Hy2) Eb) as Hb.
  destruct (sqrt_sign_false _ (add_sign_false _ _ Ha Hb)) as (d' & Hd' & Hs).
  congruence.
Qed.

Lemma eqb_refl_sign (d : Float.float) (s : bool) :
  Float.sign_bit d = Some s -> Float.eqb d d = true.
Proof.
  destruct d as [sd | sd | | sd m e]; simpl; try discriminate; intros _.
  - reflexivity.
  - unfold Float.eqb, SFeqb, SFcompare. destruct sd; reflexivity.
  - unfold Float.eqb, SFeqb, SFcompare.
    rewrite Z.compare_refl, Pos.compare_cont_refl. destruct sd; reflexivity.
Qed.

Lemma leb_zero_sign_false (d : Float.float) :
  Float.sign_bit d = Some false -> Float.leb Float.zero d = true.
Proof.
  destruct d as [sd | sd | | sd m e]; simpl; try discriminate;
    intros [= ->]; reflexivity.
Qed.

(** ** calculate_distance_matrix: what the loops write *)

Section DistanceMatrix.
Import TSP TSPSpec.
Variable cs : list city.
Variable n : nat.

Lemma entry_in_range (m : matrix) (i j : nat) :
  square n m -> (i < n)%nat -> (j < n)%nat -> is_Some (entry m i j).
Proof.
  intros [Hlen Hrows] Hi Hj. unfold entry.
  destruct (m !! i) as [row |] eqn:E.
  - apply lookup_lt_is_Some.
    rewrite Forall_forall in Hrows.
    rewrite (Hrows row) by (eapply list_elem_of_lookup_2; eauto). exact Hj.
  - apply lookup_ge_None in E. lia.
Qed.

Lemma set_entry_square (m : matrix) (i j : nat) (d : Float.float) :
  square n m -> square n (set_entry m i j d).
Proof.
  intros [Hlen Hrows]. unfold set_entry.
  destruct (m !! i) as [row |] eqn:E; [| split; assumption].
  split; [rewrite length_insert; exact Hlen |].
  rewrite Forall_forall in Hrows |- *. intros r Hr.
  apply list_elem_of_lookup in Hr as [k Hk].
  destruct (decide (k = i)) as [-> | Hne].
  - rewrite list_lookup_insert_eq in Hk by (eapply lookup_lt_Some; eauto).
    injection Hk as <-. cbv beta. rewrite length_insert.
    apply (Hrows row). eapply list_elem_of_lookup_2; eauto.
  - rewrite list_lookup_insert_ne in Hk by congruence.
    apply Hrows. eapply list_elem_of_lookup_2; eauto.
Qed.

Lemma entry_set_entry (m : matrix) (i j : nat) (d : Float.float) (a b : nat) :
  square n m -> (i < n)%nat -> (j < n)%nat ->
  entry (set_entry m i j d) a b
  = if decide (a = i /\ b = j) then Some d else entry m a b.
Proof.
  intros [Hlen Hrows] Hi Hj. unfold set_entry, entry.
  destruct (m !! i) as [row |] eqn:E; [| apply lookup_ge_None in E; lia].
  assert (Hrow : length row = n).
  { rewrite Forall_forall in Hrows. apply Hrows.
    eapply list_elem_of_lookup_2; eauto. }
  destruct (decide (a = i)) as [-> | Hne].
  - rewrite list_lookup_insert_eq by lia. rewrite E.
    destruct (decide (b = j)) as [-> | Hb].
    + rewrite list_lookup_insert_eq by lia.
      rewrite decide_True by tauto. reflexivity.
    + rewrite list_lookup_insert_ne by congruence.
      rewrite decide_False by tauto. reflexivity.
  - rewrite list_lookup_insert_ne by congruence.
    rewrite decide_False by tauto. reflexivity.
Qed.

Lemma fill_row_spec (i : nat) :
  (i < n)%nat ->
  forall (js : list nat) (m m' : matrix),
    (forall j, j ∈ js -> (j < n)%nat) -> square n m ->
    fill_row cs i js m = (m', Ok tt) ->
    square n m'
    /\ forall a b, entry m' a b
                   = if decide (a = i /\ b ∈ js /\ b <> i)
                     then dist_opt cs i b else entry m a b.
Proof.
  intros Hi. induction js as [| j js IH]; intros m m' Hjs Hsq Hrun.
  - simpl in Hrun. injection Hrun as <-. split; [exact Hsq |].
    intros a b. rewrite decide_False; [reflexivity |].
    intros (_ & H & _). inversion H.
  - assert (Hjs' : forall k, k ∈ js -> (k < n)%nat)
      by (intros k Hk; apply Hjs; right; exact Hk).
    cbn [fill_row] in Hrun. destruct (Nat.eqb i j) eqn:Eij.
    + apply Nat.eqb_eq in Eij. subst j.
      destruct (IH m m' Hjs' Hsq Hrun) as [Hsq' Hent].
      split; [exact Hsq' |]. intros a b. rewrite Hent.
      destruct (decide (a = i /\ b ∈ js /\ b <> i)) as [H | H].
      * rewrite decide_True; [reflexivity |].
        destruct H as (H1 & H2 & H3). repeat split; [exact H1 | right; exact H2 | exact H3].
      * rewrite decide_False; [reflexivity |].
        intros (H1 & H2 & H3). apply H. repeat split; [exact H1 | | exact H3].
        apply elem_of_cons in H2 as [-> | H2]; [congruence | exact H2].
    + apply Nat.eqb_neq in Eij.
      destruct (cs !! i) as [c1 |] eqn:E1; [| discriminate].
      destruct (cs !! j) as [c2 |] eqn:E2; [| discriminate].
      destruct (distance c1 c2) as [d |] eqn:Ed; [| discriminate].
      assert (Hj : (j < n)%nat) by (apply Hjs; left).
      destruct (IH _ m' Hjs' (set_entry_square m i j d Hsq) Hrun) as [Hsq' Hent].
      split; [exact Hsq' |]. intros a b. rewrite Hent.
      rewrite (entry_set_entry m i j d a b Hsq Hi Hj).
      destruct (decide (a = i /\ b ∈ js /\ b <> i)) as [H | H].
      * rewrite decide_True; [reflexivity |].
        destruct H as (H1 & H2 & H3). repeat split; [exact H1 | right; exact H2 | exact H3].
      * destruct (decide (a = i /\ b = j)) as [[-> ->] | H'].
        -- rewrite decide_True by (repeat split; [left | congruence]).
           unfold dist_opt. rewrite E1, E2, Ed. reflexivity.
        -- rewrite decide_False; [reflexivity |].
           intros (H1 & H2 & H3).
           apply elem_of_cons in H2 as [-> | H2]; [apply H'; tauto | apply H; tauto].
Qed.

Lemma fill_rows_spec :
  forall (rows : list nat) (m m' : matrix),
    (forall i, i ∈ rows -> (i < n)%nat) -> square n m ->
    fill_rows cs n rows m = (m', Ok tt) ->
    square n m'
    /\ forall a b, entry m' a b
                   = if decide (a ∈ rows /\ (b < n)%nat /\ b <> a)
                     then dist_opt cs a b else entry m a b.
Proof.
  induction rows as [| i rows IH]; intros m m' Hrows Hsq Hrun.
  - simpl in Hrun. injection Hrun as <-. split; [exact Hsq |].
    intros a b. rewrite decide_False; [reflexivity |].
    intros (H & _). inversion H.
  - cbn [fill_rows] in Hrun.
    destruct (fill_row cs i (seq 0 n) m) as [m1 [[] | e]] eqn:Erow;
      [| discriminate].
    assert (Hi : (i < n)%nat) by (apply Hrows; left).
    destruct (fill_row_spec i Hi (seq 0 n) m m1
                ltac:(intros j Hj; apply elem_of_seq in Hj; lia) Hsq Erow)
      as [Hsq1 Hent1].
    destruct (IH m1 m' ltac:(intros k Hk; apply Hrows; right; exact Hk) Hsq1 Hrun)
      as [Hsq' Hent].
    split; [exact Hsq' |]. intros a b. rewrite Hent, Hent1.
    destruct (decide (a ∈ rows /\ (b < n)%nat /\ b <> a)) as [H | H].
    + rewrite decide_True; [reflexivity |].
      destruct H as (H1 & H2 & H3). repeat split; [right; exact H1 | exact H2 | exact H3].
    + destruct (decide (a = i /\ b ∈ seq 0 n /\ b <> i)) as [(-> & H2 & H3) | H'].
      * rewrite decide_True; [reflexivity |].
        apply elem_of_seq in H2. repeat split; [left | lia | exact H3].
      * rewrite decide_False; [reflexivity |].
        intros (H1 & H2 & H3).
        apply elem_of_cons in H1 as [-> | H1].
        -- apply H'. repeat split; [apply elem_of_seq; lia | exact H3].
        -- apply H. tauto.
Qed.

Lemma zeros_square : square n (zeros n).
Proof.
  unfold zeros. split; [apply length_replicate |].
  apply Forall_replicate. apply length_replicate.
Qed.

Lemma entry_zeros (a b : nat) :
  (a < n)%nat -> (b < n)%nat -> entry (zeros n) a b = Some Float.zero.
Proof.
  intros Ha Hb. unfold entry, zeros.
  rewrite lookup_replicate_2 by exact Ha.
  apply lookup_replicate_2. exact Hb.
Qed.

End DistanceMatrix.

(** C9, as amended.  For any list of n cities with finite coordinates on
    which [calculate_distance_matrix] returns without raising, the
    distance matrix is n by n, symmetric ([d[i][j] == d[j][i]]), has
    [0.0] on the diagonal and has non-negative entries. *)
Theorem distance_matrix_symmetric (self self' : TSP.TSPBenchmark) :
  forallb TSPSpec.finite_city (TSP.cities self) = true ->
  TSP.calculate_distance_matrix self = (self', Ok tt) ->
  let n := length (TSP.cities self) in
  let m := TSP.distance_matrix self' in
  TSPSpec.square n m
  /\ forall i j, (i < n)%nat -> (j < n)%nat ->
       exists dij dji,
         TSPSpec.entry m i j = Some dij
         /\ TSPSpec.entry m j i = Some dji
         /\ Float.eqb dij dji = true
         /\ Float.leb Float.zero dij = true
         /\ (i = j -> dij = Float.zero).
Proof.
  intros Hfin Hrun n m. unfold TSP.calculate_distance_matrix in Hrun.
  fold n in Hrun.
  destruct (TSP.fill_rows (TSP.cities self) n (seq 0 n) (TSP.zeros n))
    as [m0 r] eqn:Efill.
  injection Hrun as <- ->. simpl in m. subst m.
  destruct (fill_rows_spec (TSP.cities self) n (seq 0 n) (TSP.zeros n) m0
              ltac:(intros i Hi; apply elem_of_seq in Hi; lia)
              (zeros_square n) Efill) as [Hsq Hent].
  split; [exact Hsq |].
  assert (Hoff : forall i j, (i < n)%nat -> (j < n)%nat -> i <> j ->
                 exists d, TSPSpec.entry m0 i j = Some d
                           /\ TSPSpec.entry m0 j i = Some d
                           /\ Float.sign_bit d = Some false).
  { intros i j Hi Hj Hne.
    destruct (entry_in_range n m0 i j Hsq Hi Hj) as [d Hd].
    exists d. split; [exact Hd |].
    rewrite Hent in Hd. rewrite decide_True in Hd
      by (repeat split; [apply elem_of_seq; lia | exact Hj | congruence]).
    rewrite Hent. rewrite decide_True
      by (repeat split; [apply elem_of_seq; lia | exact Hi | congruence]).
    unfold TSPSpec.dist_opt in *.
    destruct (TSP.cities self !! i) as [c1 |] eqn:E1; [| discriminate].
    destruct (TSP.cities self !! j) as [c2 |] eqn:E2; [| discriminate].
    rewrite forallb_forall in Hfin.
    assert (H1 : TSPSpec.finite_city c1 = true).
    { apply Hfin. apply list_elem_of_In. eapply list_elem_of_lookup_2; eauto. }
    assert (H2 : TSPSpec.finite_city c2 = true).
    { apply Hfin. apply list_elem_of_In. eapply list_elem_of_lookup_2; eauto. }
    rewrite <- (distance_sym c1 c2 H1 H2).
    destruct (TSP.distance c1 c2) as [d' |] eqn:Ed; [| discriminate].
    injection Hd as ->. split; [reflexivity |].
    apply (distance_finite c1 c2 d H1 H2 Ed). }
  intros i j Hi Hj. destruct (decide (i = j)) as [-> | Hne].
  - exists Float.zero, Float.zero.
    assert (Hd : TSPSpec.entry m0 j j = Some Float.zero).
    { rewrite Hent. rewrite decide_False by tauto. apply entry_zeros; exact Hj. }
    repeat split; try exact Hd; reflexivity.
  - destruct (Hoff i j Hi Hj Hne) as (d & H1 & H2 & Hs).
    exists d, d. split; [exact H1 |]. split; [exact H2 |].
    split; [apply (eqb_refl_sign d false Hs) |].
    split; [apply leb_zero_sign_false; exact Hs | tauto].
Qed.

Lemma distance_matrix_symmetric_witness :
  exists self',
    TSP.calculate_distance_matrix TSPSpec.three_cities = (self', Ok tt)
    /\ TSPSpec.square 3 (TSP.distance_matrix self')
    /\ exists dij dji,
         TSPSpec.entry (TSP.distance_matrix self') 1 2 = Some dij
         /\ TSPSpec.entry (TSP.distance_matrix self') 2 1 = Some dji
         /\ Float.eqb dij dji = true.
Proof.
  eexists. split; [vm_compute; reflexivity |].
  match goal with
  | |- TSPSpec.square _ (TSP.distance_matrix ?s) /\ _ =>
      pose proof (distance_matrix_symmetric TSPSpec.three_cities s
                    eq_refl eq_refl) as [Hsq Hent]
  end.
  split; [exact Hsq |].
  destruct (Hent 1%nat 2%nat ltac:(simpl; lia) ltac:(simpl; lia))
    as (dij & dji & H1 & H2 & H3 & _).
  exists dij, dji. repeat split; assumption.
Defined.

(** C9, counterexamples to the claim as stated.  On the finite cities
    [(0,0), (1,0), (1e200,0)] the call raises [OverflowError] while
    squaring and leaves [d[0][1] = 1.0] next to [d[1][0] = 0.0]; on the
    cities [(inf,0), (inf,0)] it returns with the NaN entry [d[0][1]],
    which is neither equal to [d[1][0]] nor [>= 0]. *)
Lemma distance_matrix_not_symmetric :
  (let '(self', r) := TSP.calculate_distance_matrix TSPSpec.far_cities in
   r = Raise OverflowError
   /\ TSPSpec.entry (TSP.distance_matrix self') 0 1 = Some Float.one
   /\ TSPSpec.entry (TSP.distance_matrix self') 1 0 = Some Float.zero
   /\ Float.eqb Float.one Float.zero = false)
  /\ (let '(self', r) := TSP.calculate_distance_matrix TSPSpec.infinite_cities in
      r = Ok tt
      /\ TSPSpec.entry (TSP.distance_matrix self') 0 1 = Some S754_nan
      /\ TSPSpec.entry (TSP.distance_matrix self') 1 0 = Some S754_nan
      /\ Float.eqb S754_nan S754_nan = false
      /\ Float.leb Float.zero S754_nan = false).
Proof. vm_compute. repeat split; reflexivity. Qed.

(** ** Strings: append, character classes, splitting, stripping *)

#[local] Arguments String.append !s1 s2 : simpl nomatch.

Lemma append_assoc (a b c : string) : (a +:+ b) +:+ c = a +:+ (b +:+ c).
Proof. induction a as [| x a IH]; simpl; [reflexivity | rewrite IH; reflexivity]. Qed.

Lemma append_nil_r (a : string) : a +:+ "" = a.
Proof. induction a as [| x a IH]; simpl; [reflexivity | rewrite IH; reflexivity]. Qed.

(** Equality of two strings up to the association of their appends. *)
Ltac str_assoc :=
  repeat (progress (try rewrite !append_assoc; simpl)); reflexivity.

Section CharClasses.
Import CRN CRNSpec.

Lemma all_chars_app (p : ascii -> bool) (a b : string) :
  all_chars p (a +:+ b) = all_chars p a && all_chars p b.
Proof.
  induction a as [| x a IH]; simpl; [reflexivity |].
  rewrite IH. apply andb_assoc.
Qed.

Lemma all_chars_impl (p q : ascii -> bool) (s : string) :
  (forall c, p c = true -> q c = true) ->
  all_chars p s = true -> all_chars q s = true.
Proof.
  intros Hpq. induction s as [| x s IH]; simpl; [reflexivity |].
  intros H. apply andb_true_iff in H as [H1 H2].
  rewrite (Hpq x H1), (IH H2). reflexivity.
Qed.

Lemma ident_char_not (sep : ascii) :
  ident_char sep = false -> forall c, ident_char c = true -> not_char sep c = true.
Proof.
  intros Hsep c Hc. unfold not_char.
  destruct (Ascii.eqb c sep) eqn:E; [| reflexivity].
  apply Ascii.eqb_eq in E. subst c. congruence.
Qed.

Lemma ident_char_nonspace (c : ascii) : ident_char c = true -> nonspace c = true.
Proof.
  intros Hc. unfold nonspace, is_space.
  destruct (Ascii.eqb c " ") eqn:E1;
    [apply Ascii.eqb_eq in E1; subst c; discriminate |].
  destruct (Ascii.eqb c "009") eqn:E2;
    [apply Ascii.eqb_eq in E2; subst c; discriminate |].
  destruct (Ascii.eqb c "013") eqn:E3;
    [apply Ascii.eqb_eq in E3; subst c; discriminate |].
  reflexivity.
Qed.

Lemma is_identifier_chars (s : string) :
  is_identifier s = true -> all_chars ident_char s = true.
Proof.
  destruct s as [| c s]; simpl; [discriminate |].
  intros H. apply andb_true_iff in H as [H1 H2].
  unfold ident_char at 1. rewrite H1. simpl. exact H2.
Qed.

Lemma is_identifier_not_empty (s : string) :
  is_identifier s = true -> is_empty s = false.
Proof. destruct s; [discriminate | reflexivity]. Qed.

Lemma split_first_app (sep : ascii) (a b : string) :
  all_chars (not_char sep) a = true ->
  split_first sep (a +:+ String sep b) = Some (a, b).
Proof.
  induction a as [| x a IH]; simpl; intros H.
  - rewrite Ascii.eqb_refl. reflexivity.
  - apply andb_true_iff in H as [H1 H2]. unfold not_char in H1.
    apply negb_true_iff in H1. rewrite H1, (IH H2). reflexivity.
Qed.

Lemma split_first_none (sep : ascii) (a : string) :
  all_chars (not_char sep) a = true -> split_first sep a = None.
Proof.
  induction a as [| x a IH]; simpl; intros H; [reflexivity |].
  apply andb_true_iff in H as [H1 H2]. unfold not_char in H1.
  apply negb_true_iff in H1. rewrite H1, (IH H2). reflexivity.
Qed.

Lemma split_on_app (sep : ascii) (a b : string) :
  all_chars (not_char sep) a = true ->
  split_on sep (a +:+ String sep b) = a :: split_on sep b.
Proof.
  induction a as [| x a IH]; simpl; intros H.
  - rewrite Ascii.eqb_refl. reflexivity.
  - apply andb_true_iff in H as [H1 H2]. unfold not_char in H1.
    apply negb_true_iff in H1. rewrite H1, (IH H2). reflexivity.
Qed.

Lemma split_on_none (sep : ascii) (a : string) :
  all_chars (not_char sep) a = true -> split_on sep a = [a].
Proof.
  induction a as [| x a IH]; simpl; intros H; [reflexivity |].
  apply andb_true_iff in H as [H1 H2]. unfold not_char in H1.
  apply negb_true_iff in H1. rewrite H1, (IH H2). reflexivity.
Qed.

Lemma split_arrow_app (a b : string) :
  all_chars (not_char "-") a = true ->
  split_arrow (a +:+ String "-" (String ">" b)) = Some (a, b).
Proof.
  induction a as [| x a IH]; intros H.
  - reflexivity.
  - simpl in H. apply andb_true_iff in H as [H1 H2]. unfold not_char in H1.
    apply negb_true_iff in H1. specialize (IH H2).
    change (String x a +:+ String "-" (String ">" b))
      with (String x (a +:+ String "-" (String ">" b))).
    cbn [split_arrow]. rewrite IH, H1. simpl.
    destruct (a +:+ String "-" (String ">" b)) eqn:E; [| reflexivity].
    destruct a; discriminate.
Qed.

Lemma lstrip_spaces (w a : string) :
  all_chars is_space w = true -> lstrip (w +:+ a) = lstrip a.
Proof.
  induction w as [| x w IH]; simpl; intros H; [reflexivity |].
  apply andb_true_iff in H as [H1 H2]. rewrite H1. apply IH, H2.
Qed.

Lemma lstrip_nonspace (c : ascii) (a : string) :
  nonspace c = true -> lstrip (String c a) = String c a.
Proof. unfold nonspace. intros H. apply negb_true_iff in H. simpl. rewrite H. reflexivity. Qed.

Lemma rstrip_all_space (w : string) :
  all_chars is_space w = true -> rstrip w = "".
Proof.
  induction w as [| x w IH]; simpl; intros H; [reflexivity |].
  apply andb_true_iff in H as [H1 H2]. rewrite H1, (IH H2). reflexivity.
Qed.

Lemma rstrip_spaces (a w : string) :
  all_chars is_space w = true -> rstrip (a +:+ w) = rstrip a.
Proof.
  intros H. induction a as [| x a IH]; simpl.
  - apply rstrip_all_space, H.
  - rewrite IH. reflexivity.
Qed.

Lemma rstrip_nonspace (a : string) :
  all_chars nonspace a = true -> rstrip a = a.
Proof.
  induction a as [| x a IH]; simpl; intros H; [reflexivity |].
  apply andb_true_iff in H as [H1 H2]. rewrite (IH H2).
  unfold nonspace in H1. apply negb_true_iff in H1. rewrite H1. reflexivity.
Qed.

Lemma rstrip_app_nonspace (a b : string) :
  is_empty b = false -> all_chars nonspace b = true ->
  rstrip (a +:+ b) = a +:+ b.
Proof.
  intros Hne Hb. induction a as [| x a IH]; simpl.
  - apply rstrip_nonspace, Hb.
  - rewrite IH. destruct (a +:+ b) eqn:E.
    + destruct a; [simpl in E; subst b; discriminate | discriminate].
    + rewrite andb_false_r. reflexivity.
Qed.

(** Stripping blanks around a species name gives the name back. *)
Lemma strip_identifier (w1 n w2 : string) :
  all_chars is_space w1 = true -> all_chars is_space w2 = true ->
  is_identifier n = true ->
  strip (w1 +:+ n +:+ w2) = n.
Proof.
  intros H1 H2 Hn. unfold strip. rewrite lstrip_spaces by exact H1.
  pose proof (is_identifier_chars n Hn) as Hc.
  destruct n as [| c n]; [discriminate |].
  simpl in Hc. apply andb_true_iff in Hc as [Hc1 Hc2].
  change (String c n +:+ w2) with (String c (n +:+ w2)).
  rewrite lstrip_nonspace by (apply ident_char_nonspace, Hc1).
  change (String c (n +:+ w2)) with (String c n +:+ w2).
  rewrite rstrip_spaces by exact H2.
  apply rstrip_nonspace. simpl.
  rewrite (ident_char_nonspace c Hc1). simpl.
  apply (all_chars_impl ident_char); [apply ident_char_nonspace | exact Hc2].
Qed.

End CharClasses.

(** ** Species lists and printed numerals *)

Section RoundTrip.
Import CRN CRNSpec.

Lemma list_char_not (sep : ascii) :
  list_char sep = false -> forall c, list_char c = true -> not_char sep c = true.
Proof.
  intros Hsep c Hc. unfold not_char.
  destruct (Ascii.eqb c sep) eqn:E; [| reflexivity].
  apply Ascii.eqb_eq in E. subst c. congruence.
Qed.

Lemma pad_char_not (sep : ascii) :
  pad_char sep = false -> forall c, pad_char c = true -> not_char sep c = true.
Proof.
  intros Hsep c Hc. unfold not_char.
  destruct (Ascii.eqb c sep) eqn:E; [| reflexivity].
  apply Ascii.eqb_eq in E. subst c. congruence.
Qed.

Lemma ident_pad_char (c : ascii) : ident_char c = true -> pad_char c = true.
Proof. intros H. unfold pad_char. rewrite H. reflexivity. Qed.

Lemma space_pad_char (w : string) :
  all_chars (fun c => Ascii.eqb c " ") w = true -> all_chars pad_char w = true.
Proof.
  apply all_chars_impl. intros c H. unfold pad_char. rewrite H. apply orb_true_r.
Qed.

Lemma ident_list_char (c : ascii) : ident_char c = true -> list_char c = true.
Proof. intros H. unfold list_char. rewrite H. reflexivity. Qed.

Lemma space_list_char (w : string) :
  all_chars (fun c => Ascii.eqb c " ") w = true -> all_chars list_char w = true.
Proof.
  apply all_chars_impl. intros c H. unfold list_char. rewrite H.
  apply orb_true_iff. left. apply orb_true_r.
Qed.

Lemma space_is_space (w : string) :
  all_chars (fun c => Ascii.eqb c " ") w = true -> all_chars is_space w = true.
Proof. apply all_chars_impl. intros c H. unfold is_space. rewrite H. reflexivity. Qed.

Lemma join_plus_chars (names : list string) :
  forallb is_identifier names = true ->
  all_chars list_char (join_plus names) = true.
Proof.
  induction names as [| n ns IH]; [reflexivity |].
  intros H. simpl in H. apply andb_true_iff in H as [Hn Hns].
  assert (Hc : all_chars list_char n = true).
  { apply (all_chars_impl ident_char); [apply ident_list_char |].
    apply is_identifier_chars, Hn. }
  destruct ns as [| n2 ns']; [exact Hc |].
  change (join_plus (n :: n2 :: ns')) with (n +:+ " + " +:+ join_plus (n2 :: ns')).
  rewrite !all_chars_app, Hc, (IH Hns). reflexivity.
Qed.

Lemma parse_species_join (names : list string) :
  forallb is_identifier names = true -> is_nil names = false ->
  forall w1 w2,
    all_chars (fun c => Ascii.eqb c " ") w1 = true ->
    all_chars (fun c => Ascii.eqb c " ") w2 = true ->
    parse_species_list (w1 +:+ join_plus names +:+ w2) = Ok names.
Proof.
  unfold parse_species_list.
  induction names as [| n ns IH]; [discriminate |].
  intros Hid _ w1 w2 H1 H2. simpl in Hid.
  apply andb_true_iff in Hid as [Hn Hns].
  assert (Hnc : all_chars pad_char n = true).
  { apply (all_chars_impl ident_char); [apply ident_pad_char |].
    apply is_identifier_chars, Hn. }
  destruct ns as [| n2 ns'].
  - cbn [join_plus]. rewrite split_on_none.
    + cbn [parse_all]. unfold parse_species.
      rewrite strip_identifier by (try apply space_is_space; assumption).
      rewrite Hn. reflexivity.
    + apply (all_chars_impl pad_char); [apply pad_char_not; reflexivity |].
      rewrite !all_chars_app, Hnc, !space_pad_char by assumption. reflexivity.
  - change (join_plus (n :: n2 :: ns')) with (n +:+ " + " +:+ join_plus (n2 :: ns')).
    replace (w1 +:+ (n +:+ " + " +:+ join_plus (n2 :: ns')) +:+ w2)
      with ((w1 +:+ n +:+ " ") +:+ String "+" (" " +:+ join_plus (n2 :: ns') +:+ w2))
      by (rewrite !append_assoc; reflexivity).
    rewrite split_on_app.
    + cbn [parse_all]. unfold parse_species at 1.
      rewrite strip_identifier by (try apply space_is_space; auto).
      rewrite Hn. cbn [rbind].
      rewrite (IH Hns eq_refl " " w2 eq_refl H2). reflexivity.
    + apply (all_chars_impl pad_char); [apply pad_char_not; reflexivity |].
      rewrite !all_chars_app, Hnc, !space_pad_char by auto. reflexivity.
Qed.

Lemma string_of_uint_digits (d : Decimal.uint) :
  all_chars is_digit (NilEmpty.string_of_uint d) = true.
Proof. induction d; simpl; auto. Qed.

Lemma string_of_uint_not_empty (d : Decimal.uint) :
  uint_is_nil d = false -> is_empty (NilEmpty.string_of_uint d) = false.
Proof. destruct d; simpl; congruence. Qed.

Lemma parse_digits_print (d : Decimal.uint) :
  uint_is_nil d = false -> parse_digits (NilEmpty.string_of_uint d) = Ok d.
Proof.
  intros H. unfold parse_digits. rewrite NilEmpty.usu.
  destruct d; [discriminate | reflexivity ..].
Qed.

Lemma digit_not_char (sep : ascii) :
  is_digit sep = false -> forall c, is_digit c = true -> not_char sep c = true.
Proof.
  intros Hsep c Hc. unfold not_char.
  destruct (Ascii.eqb c sep) eqn:E; [| reflexivity].
  apply Ascii.eqb_eq in E. subst c. congruence.
Qed.

Lemma digit_nonspace (c : ascii) : is_digit c = true -> nonspace c = true.
Proof.
  intros H. apply ident_char_nonspace. unfold ident_char. rewrite H.
  apply orb_true_r.
Qed.

(** The printed rate: digits, possibly with a point in between. *)
Lemma print_rate_chars (i f : Decimal.uint) :
  all_chars (fun c => is_digit c || Ascii.eqb c ".") (print_rate i f) = true.
Proof.
  assert (Hd : forall d, all_chars (fun c => is_digit c || Ascii.eqb c ".")
                           (NilEmpty.string_of_uint d) = true).
  { intros d. apply (all_chars_impl is_digit); [| apply string_of_uint_digits].
    intros c ->. reflexivity. }
  unfold print_rate. destruct f; try apply Hd;
    rewrite !all_chars_app, !Hd; reflexivity.
Qed.

Lemma print_rate_not_empty (i f : Decimal.uint) :
  uint_is_nil i = false -> is_empty (print_rate i f) = false.
Proof.
  intros Hi. pose proof (string_of_uint_not_empty i Hi) as H.
  unfold print_rate.
  destruct f; try exact H; destruct (NilEmpty.string_of_uint i); try discriminate;
    reflexivity.
Qed.

Lemma parse_decimal_print (i f : Decimal.uint) :
  uint_is_nil i = false -> parse_decimal (print_rate i f) = Ok (i, f).
Proof.
  intros Hi. unfold parse_decimal, print_rate.
  assert (Hnone : split_first "." (NilEmpty.string_of_uint i) = None).
  { apply split_first_none.
    apply (all_chars_impl is_digit); [apply digit_not_char; reflexivity |].
    apply string_of_uint_digits. }
  assert (Hsome : forall g, uint_is_nil g = false ->
            (match split_first "." (NilEmpty.string_of_uint i +:+ "."
                                    +:+ NilEmpty.string_of_uint g) with
             | Some (a, b) =>
                 let* i0 := parse_digits a in
                 let* f0 := parse_digits b in Ok (i0, f0)
             | None =>
                 let* i0 := parse_digits (NilEmpty.string_of_uint i +:+ "."
                                          +:+ NilEmpty.string_of_uint g) in
                 Ok (i0, Decimal.Nil)
             end) = Ok (i, g)).
  { intros g Hg.
    change (NilEmpty.string_of_uint i +:+ "." +:+ NilEmpty.string_of_uint g)
      with (NilEmpty.string_of_uint i +:+ String "." (NilEmpty.string_of_uint g)).
    rewrite split_first_app.
    - rewrite (parse_digits_print i Hi), (parse_digits_print g Hg). reflexivity.
    - apply (all_chars_impl is_digit); [apply digit_not_char; reflexivity |].
      apply string_of_uint_digits. }
  destruct f; try (apply Hsome; reflexivity).
  rewrite Hnone, (parse_digits_print i Hi). reflexivity.
Qed.

End RoundTrip.

Section RoundTripLines.
Import CRN CRNSpec.

Lemma rate_char_not (sep : ascii) :
  is_digit sep || Ascii.eqb sep "." = false ->
  forall c, is_digit c || Ascii.eqb c "." = true -> not_char sep c = true.
Proof.
  intros Hsep c Hc. unfold not_char.
  destruct (Ascii.eqb c sep) eqn:E; [| reflexivity].
  apply Ascii.eqb_eq in E. subst c. congruence.
Qed.

Lemma join_plus_head (names : list string) :
  forallb is_identifier names = true -> is_nil names = false ->
  exists c rest, join_plus names = String c rest /\ is_alpha c = true.
Proof.
  destruct names as [| n ns]; [discriminate |]. intros H _.
  simpl in H. apply andb_true_iff in H as [Hn _].
  destruct n as [| c n]; [discriminate |].
  simpl in Hn. apply andb_true_iff in Hn as [Hc _].
  destruct ns; simpl; eauto.
Qed.

Lemma alpha_nonspace (c : ascii) : is_alpha c = true -> nonspace c = true.
Proof.
  intros H. apply ident_char_nonspace. unfold ident_char. rewrite H. reflexivity.
Qed.

Lemma alpha_not_dash (c : ascii) : is_alpha c = true -> Ascii.eqb c "-" = false.
Proof.
  intros H. destruct (Ascii.eqb c "-") eqn:E; [| reflexivity].
  apply Ascii.eqb_eq in E. subst c. discriminate.
Qed.

Lemma prefix_dash_alpha (c : ascii) (s : string) :
  is_alpha c = true -> String.prefix "--" (String c s) = false.
Proof.
  intros Hc. cbn [String.prefix].
  destruct (ascii_dec "-" c) as [<- |]; [discriminate Hc | reflexivity].
Qed.

Lemma serialize_reaction_no_newline (r : Reaction) :
  valid_reaction r = true ->
  all_chars (not_char newline) (serialize_reaction r) = true.
Proof.
  unfold valid_reaction. intros H.
  apply andb_true_iff in H as [H Hrate].
  apply andb_true_iff in H as [H Hpne].
  apply andb_true_iff in H as [H Hp].
  apply andb_true_iff in H as [Hr Hrne].
  unfold serialize_reaction. rewrite !all_chars_app.
  rewrite (all_chars_impl list_char _ _ (list_char_not newline eq_refl)
             (join_plus_chars _ Hr)).
  rewrite (all_chars_impl list_char _ _ (list_char_not newline eq_refl)
             (join_plus_chars _ Hp)).
  rewrite (all_chars_impl _ _ _ (rate_char_not newline eq_refl)
             (print_rate_chars _ _)).
  reflexivity.
Qed.

Lemma lines_cons (l t : string) :
  all_chars (not_char newline) l = true ->
  lines (l +:+ nl +:+ t) = l :: lines t.
Proof. intros H. unfold lines. apply (split_on_app newline l t H). Qed.

End RoundTripLines.

(** ** Parsed species lists, and text made of admitted lines *)

Section ParserSound.
Import CRN CRNSpec.

Lemma split_on_not_nil (sep : ascii) (s : string) : is_nil (split_on sep s) = false.
Proof.
  induction s as [| c s IH]; [reflexivity |]. simpl.
  destruct (Ascii.eqb c sep); [reflexivity |].
  destruct (split_on sep s); reflexivity.
Qed.

Lemma parse_species_all (l : list string) (names : list string) :
  parse_all parse_species l = Ok names ->
  forallb is_identifier names = true /\ is_nil names = is_nil l.
Proof.
  revert names. induction l as [| s l IH]; intros names H.
  - injection H as <-. split; reflexivity.
  - cbn [parse_all] in H. unfold parse_species at 1 in H.
    destruct (is_identifier (strip s)) eqn:E; [| discriminate].
    cbn [rbind] in H.
    destruct (parse_all parse_species l) as [xs |]; [| discriminate].
    injection H as <-. destruct (IH xs eq_refl) as [H1 _].
    split; [simpl; rewrite E, H1; reflexivity | reflexivity].
Qed.

Lemma parse_species_list_sound (s : string) (names : list string) :
  parse_species_list s = Ok names ->
  forallb is_identifier names = true /\ is_nil names = false.
Proof.
  unfold parse_species_list. intros H.
  destruct (parse_species_all _ _ H) as [H1 H2].
  rewrite split_on_not_nil in H2. split; assumption.
Qed.

Lemma parse_digits_sound (s : string) (d : Decimal.uint) :
  parse_digits s = Ok d -> uint_is_nil d = false.
Proof.
  unfold parse_digits.
  destruct (NilEmpty.uint_of_string s) as [[] |]; try discriminate;
    intros [= <-]; reflexivity.
Qed.

Section Admitted_text.
Variable Pt : string -> Prop.

Lemma ok_text_empty : ok_text Pt "".
Proof. constructor; [left; reflexivity | constructor]. Qed.

Lemma ok_block_line (l : string) :
  all_chars (not_char newline) l = true -> ok_line Pt l -> ok_block Pt (l +:+ nl).
Proof.
  intros Hnl Hl t Ht. unfold ok_text. rewrite append_assoc.
  change (nl +:+ t) with (String newline t).
  unfold lines. fold newline. rewrite split_on_app by exact Hnl.
  constructor; [exact Hl | exact Ht].
Qed.

Lemma ok_block_app (a b : string) :
  ok_block Pt a -> ok_block Pt b -> ok_block Pt (a +:+ b).
Proof. intros Ha Hb t Ht. rewrite append_assoc. apply Ha, Hb, Ht. Qed.

Lemma ok_block_empty : ok_block Pt "".
Proof. intros t Ht. exact Ht. Qed.

Lemma ok_block_text (b : string) : ok_block Pt b -> ok_text Pt b.
Proof. intros H. rewrite <- (append_nil_r b). apply H, ok_text_empty. Qed.

Lemma ok_block_reaction (r : Reaction) :
  valid_reaction r = true -> Pt (print_rate (rate_int r) (rate_frac r)) ->
  ok_block Pt (serialize_reaction r +:+ nl).
Proof.
  intros H HP. apply ok_block_line; [apply serialize_reaction_no_newline, H |].
  right. right. exists r. split; [reflexivity | split; [exact H | exact HP]].
Qed.

End Admitted_text.

End ParserSound.

(** ** The SAT encoder writes admitted text *)

Section SatEncoder.
Import CRN CRNSpec EncoderSpec.

Lemma nilzero_uint_digits (d : Decimal.uint) :
  all_chars is_digit (NilZero.string_of_uint d) = true
  /\ is_empty (NilZero.string_of_uint d) = false.
Proof.
  unfold NilZero.string_of_uint.
  destruct d; try (split; reflexivity);
    (split; [apply (string_of_uint_digits (_ d)) | reflexivity]).
Qed.

Lemma str_int_nonneg (z : Z) :
  0 <= z ->
  all_chars is_digit (str_int z) = true /\ is_empty (str_int z) = false.
Proof.
  intros Hz. unfold str_int. destruct z as [| p | p]; [| | lia].
  - split; reflexivity.
  - apply nilzero_uint_digits.
Qed.

Lemma str_int_chars (z : Z) : all_chars int_char (str_int z) = true.
Proof.
  assert (Hd : forall d, all_chars int_char (NilZero.string_of_uint d) = true).
  { intros d. apply (all_chars_impl is_digit); [| apply nilzero_uint_digits].
    intros c H. unfold int_char. rewrite H. reflexivity. }
  unfold str_int. destruct z as [| p | p]; [reflexivity | apply Hd |].
  simpl. apply Hd.
Qed.

Lemma digits_ident (s : string) :
  all_chars is_digit s = true -> all_chars ident_char s = true.
Proof.
  apply all_chars_impl. intros c H. unfold ident_char. rewrite H. apply orb_true_r.
Qed.

Lemma is_identifier_app (a b : string) :
  is_identifier a = true -> all_chars ident_char b = true ->
  is_identifier (a +:+ b) = true.
Proof.
  destruct a as [| c a]; [discriminate |]. simpl.
  intros H Hb. apply andb_true_iff in H as [Hc Ha].
  rewrite Hc. simpl. change (all_chars ident_char (a +:+ b) = true).
  rewrite all_chars_app. change (all_chars ident_char a = true) in Ha.
  rewrite Ha, Hb. reflexivity.
Qed.

Lemma variable_reactions_block (vars : list string) :
  forallb is_identifier vars = true ->
  ok_block sat_rate (SAT.variable_reactions vars).
Proof.
  induction vars as [| var vars IH]; intros H; [apply ok_block_empty |].
  simpl in H. apply andb_true_iff in H as [Hv Hvs].
  cbn [SAT.variable_reactions].
  set (r1 := {| reactants := [var +:+ "_false"]; products := [var +:+ "_true"];
                rate_int := Decimal.D1 Decimal.Nil;
                rate_frac := Decimal.D0 Decimal.Nil |}).
  set (r2 := {| reactants := [var +:+ "_true"]; products := [var +:+ "_false"];
                rate_int := Decimal.D1 Decimal.Nil;
                rate_frac := Decimal.D0 Decimal.Nil |}).
  replace (var +:+ "_false -> " +:+ var +:+ "_true, rate=1.0" +:+ nl +:+
           var +:+ "_true -> " +:+ var +:+ "_false, rate=1.0" +:+ nl +:+
           SAT.variable_reactions vars)
    with ((serialize_reaction r1 +:+ nl) +:+ (serialize_reaction r2 +:+ nl)
          +:+ SAT.variable_reactions vars)
    by (unfold serialize_reaction, r1, r2; str_assoc).
  assert (Hf : is_identifier (var +:+ "_false") = true)
    by (apply is_identifier_app; [exact Hv | reflexivity]).
  assert (Ht : is_identifier (var +:+ "_true") = true)
    by (apply is_identifier_app; [exact Hv | reflexivity]).
  apply ok_block_app; [| apply ok_block_app; [| apply IH, Hvs]];
    (apply ok_block_reaction;
     [unfold valid_reaction; simpl; rewrite Hf, Ht; reflexivity | left; reflexivity]).
Qed.

Lemma py_index_elem {A} (l : list A) (i : Z) (x : A) :
  py_index l i = Ok x -> x ∈ l.
Proof.
  unfold py_index.
  destruct (_ && _); [| discriminate].
  destruct (l !! _) eqn:E; [| discriminate].
  intros [= <-]. eapply list_elem_of_lookup_2; eauto.
Qed.

Lemma clause_reactants_ok (vars : list string) (c : SAT.clause) :
  forallb is_identifier vars = true ->
  forallb (fun l : SAT.literal => SATSpec.index_in_range (length vars) (fst l)) c = true ->
  exists rs, SAT.clause_reactants vars c = Ok rs
             /\ forallb is_identifier rs = true.
Proof.
  intros Hv. induction c as [| [idx negated] c IH]; intros Hc.
  - exists []. split; reflexivity.
  - simpl in Hc. apply andb_true_iff in Hc as [Hi Hc].
    destruct (py_index_in_range vars idx Hi) as [name Hname].
    destruct (IH Hc) as (rs & Hrs & Hid).
    cbn [SAT.clause_reactants]. rewrite Hname. cbn [rbind]. rewrite Hrs.
    cbn [rbind]. eexists. split; [reflexivity |].
    simpl. rewrite Hid, andb_true_r.
    rewrite forallb_forall in Hv.
    apply is_identifier_app.
    + apply Hv. apply list_elem_of_In. apply (py_index_elem _ _ _ Hname).
    + destruct negated; reflexivity.
Qed.

Lemma reactant_lines_block (i : Z) (rs : list string) :
  0 <= i -> forallb is_identifier rs = true ->
  ok_block sat_rate (SAT.reactant_lines i rs).
Proof.
  intros Hi. induction rs as [| x rs IH]; intros H; [apply ok_block_empty |].
  simpl in H. apply andb_true_iff in H as [Hx Hrs].
  cbn [SAT.reactant_lines].
  set (r := {| reactants := [x];
               products := ["clause_" +:+ str_int i +:+ "_satisfied"];
               rate_int := Decimal.D1 (Decimal.D0 Decimal.Nil);
               rate_frac := Decimal.D0 Decimal.Nil |}).
  replace (x +:+ " -> clause_" +:+ str_int i +:+ "_satisfied, rate=10.0" +:+ nl
           +:+ SAT.reactant_lines i rs)
    with ((serialize_reaction r +:+ nl) +:+ SAT.reactant_lines i rs)
    by (unfold serialize_reaction, r; str_assoc).
  apply ok_block_app; [| apply IH, Hrs].
  assert (Hprod : is_identifier ("clause_" +:+ str_int i +:+ "_satisfied") = true).
  { apply (is_identifier_app "clause_"); [reflexivity |].
    rewrite all_chars_app.
    rewrite (digits_ident _ (proj1 (str_int_nonneg i Hi))). reflexivity. }
  apply ok_block_reaction; [| right; reflexivity].
  unfold valid_reaction, r.
  cbn [reactants products rate_int forallb is_nil uint_is_nil negb andb].
  rewrite Hx, Hprod. reflexivity.
Qed.

Lemma repr_char_not_newline (s : string) :
  all_chars repr_char s = true -> all_chars (not_char newline) s = true.
Proof.
  apply all_chars_impl. intros c Hc. unfold not_char.
  destruct (Ascii.eqb c newline) eqn:E; [| reflexivity].
  apply Ascii.eqb_eq in E. subst c. discriminate.
Qed.

Lemma int_repr_char (s : string) :
  all_chars int_char s = true -> all_chars repr_char s = true.
Proof.
  apply all_chars_impl. intros c Hc. unfold repr_char. rewrite Hc.
  rewrite orb_true_r. reflexivity.
Qed.

Lemma repr_literal_chars (l : SAT.literal) :
  all_chars repr_char (SAT.repr_literal l) = true.
Proof.
  unfold SAT.repr_literal. rewrite !all_chars_app.
  rewrite (int_repr_char _ (str_int_chars (fst l))).
  destruct (snd l); reflexivity.
Qed.

Lemma join_comma_chars (parts : list string) :
  Forall (fun s => all_chars repr_char s = true) parts ->
  all_chars repr_char (join_comma parts) = true.
Proof.
  induction 1 as [| s parts Hs _ IH]; [reflexivity |].
  destruct parts as [| s2 parts]; [exact Hs |].
  change (join_comma (s :: s2 :: parts)) with (s +:+ ", " +:+ join_comma (s2 :: parts)).
  rewrite !all_chars_app, Hs, IH. reflexivity.
Qed.

Lemma repr_clause_chars (c : SAT.clause) :
  all_chars repr_char (SAT.repr_clause c) = true.
Proof.
  unfold SAT.repr_clause. rewrite !all_chars_app.
  rewrite join_comma_chars; [reflexivity |].
  apply Forall_fmap, Forall_forall. intros l _. apply repr_literal_chars.
Qed.

Lemma clause_reactions_block (vars : list string) (cs : list SAT.clause) :
  forallb is_identifier vars = true ->
  forall i, 0 <= i ->
    forallb (forallb (fun l : SAT.literal =>
                        SATSpec.index_in_range (length vars) (fst l))) cs = true ->
    exists body, SAT.clause_reactions vars i cs = Ok body /\ ok_block sat_rate body.
Proof.
  intros Hv. induction cs as [| c cs IH]; intros i Hi Hwf.
  - exists "". split; [reflexivity | apply ok_block_empty].
  - simpl in Hwf. apply andb_true_iff in Hwf as [Hc Hcs].
    destruct (clause_reactants_ok vars c Hv Hc) as (rs & Hrs & Hid).
    destruct (IH (i + 1) ltac:(lia) Hcs) as (tail & Htail & Hblock).
    cbn [SAT.clause_reactions]. rewrite Hrs. cbn [rbind]. rewrite Htail.
    cbn [rbind]. eexists. split; [reflexivity |].
    replace ("-- Clause " +:+ str_int (i + 1) +:+ ": " +:+ SAT.repr_clause c +:+ nl
             +:+ SAT.reactant_lines i rs +:+ tail)
      with ((("-- Clause " +:+ str_int (i + 1) +:+ ": " +:+ SAT.repr_clause c) +:+ nl)
            +:+ SAT.reactant_lines i rs +:+ tail)
      by (rewrite !append_assoc; reflexivity).
    apply ok_block_app; [| apply ok_block_app;
                           [apply reactant_lines_block; assumption | exact Hblock]].
    apply ok_block_line; [| right; left; reflexivity].
    apply repr_char_not_newline. rewrite !all_chars_app.
    rewrite (int_repr_char _ (str_int_chars (i + 1))), repr_clause_chars.
    reflexivity.
Qed.

Lemma header_block : ok_block sat_rate SAT.crn_header.
Proof.
  unfold SAT.crn_header.
  repeat (rewrite <- append_assoc; apply ok_block_app).
  - apply ok_block_line; [reflexivity | right; left; reflexivity].
  - apply ok_block_line; [reflexivity | right; left; reflexivity].
  - apply ok_block_line; [reflexivity | right; left; reflexivity].
  - apply (ok_block_line _ ""); [reflexivity | left; reflexivity].
Qed.

Lemma create_sat_crn_ok (self : SAT.SATBenchmark) :
  identifier_names self = true -> SATSpec.well_formed self = true ->
  exists text, SAT.create_sat_crn self = Ok text /\ ok_text sat_rate text.
Proof.
  intros Hid Hwf.
  destruct (clause_reactions_block (SAT.variables self) (SAT.clauses self)
              Hid 0 ltac:(lia) Hwf) as (body & Hbody & Hblock).
  unfold SAT.create_sat_crn. rewrite Hbody. cbn [rbind].
  eexists. split; [reflexivity |]. apply ok_block_text.
  apply ok_block_app; [apply header_block |].
  apply ok_block_app; [apply variable_reactions_block, Hid |].
  apply (ok_block_app _ nl); [apply (ok_block_line _ ""); [reflexivity | left; reflexivity] |].
  apply (ok_block_app _ ("-- Clause satisfaction reactions" +:+ nl));
    [| exact Hblock].
  apply ok_block_line; [reflexivity | right; left; reflexivity].
Qed.

End SatEncoder.


(** ** Real-number semantics of the float operations *)

Section FloatSemantics.
Import FloatSem.


Lemma bpow_pos (e : Z) : (0 < bpow e)%R.
Proof. apply powerRZ_lt. lra. Qed.

Lemma bpow_add (a b : Z) : bpow (a + b) = (bpow a * bpow b)%R.
Proof. apply powerRZ_add. lra. Qed.

Lemma bpow_0 : bpow 0 = 1%R.
Proof. reflexivity. Qed.

Lemma bpow_1 : bpow 1 = 2%R.
Proof. unfold bpow. simpl. lra. Qed.

Lemma bpow_opp (e : Z) : bpow (- e) = (/ bpow e)%R.
Proof. apply powerRZ_neg'. Qed.

Lemma bpow_succ (e : Z) : bpow (e + 1) = (2 * bpow e)%R.
Proof. rewrite bpow_add, bpow_1. lra. Qed.

Lemma bpow_nat_ge_1 (n : nat) : (1 <= bpow (Z.of_nat n))%R.
Proof.
  induction n as [| n IH].
  - change (Z.of_nat 0) with 0. rewrite bpow_0. lra.
  - rewrite Nat2Z.inj_succ. unfold Z.succ. rewrite bpow_succ. lra.
Qed.

Lemma bpow_le (a b : Z) : a <= b -> (bpow a <= bpow b)%R.
Proof.
  intros H. replace b with (a + Z.of_nat (Z.to_nat (b - a))) by lia.
  rewrite bpow_add.
  pose proof (bpow_nat_ge_1 (Z.to_nat (b - a))) as H1.
  pose proof (bpow_pos a) as H2. nra.
Qed.

Lemma bpow_lt (a b : Z) : a < b -> (bpow a < bpow b)%R.
Proof.
  intros H. apply Rlt_le_trans with (bpow (a + 1)).
  - rewrite bpow_succ. pose proof (bpow_pos a). lra.
  - apply bpow_le. lia.
Qed.

Lemma bpow_lt_inv (a b : Z) : (bpow a < bpow b)%R -> a < b.
Proof.
  intros H. destruct (Z_lt_le_dec a b) as [Hlt | Hle]; [exact Hlt |].
  apply bpow_le in Hle. lra.
Qed.

Lemma bpow_IZR (n : Z) : 0 <= n -> bpow n = IZR (2 ^ n).
Proof.
  intros H. rewrite <- (Z2Nat.id n H). rewrite <- pow_IZR.
  unfold bpow. rewrite <- pow_powerRZ. reflexivity.
Qed.

Lemma F2R_shift (m e k : Z) : 0 <= k -> F2R (m * 2 ^ k) e = F2R m (e + k).
Proof.
  intros H. unfold F2R. rewrite mult_IZR, bpow_add, <- bpow_IZR by exact H.
  rewrite (Rmult_comm (bpow e)). ring.
Qed.

(** ** Rounding to nearest even is monotone *)

Lemma nearest_even_exact (n : Z) : nearest_even (IZR n) n.
Proof.
  unfold nearest_even. replace (IZR n - IZR n)%R with 0%R by ring.
  rewrite Rabs_R0. split; [lra | intros H; lra].
Qed.

Lemma nearest_even_mono (x1 x2 : R) (m1 m2 : Z) :
  (x1 <= x2)%R -> nearest_even x1 m1 -> nearest_even x2 m2 -> m1 <= m2.
Proof.
  intros Hx [H1 E1] [H2 E2].
  destruct (Z_le_gt_dec m1 m2) as [Hle | Hgt]; [exact Hle | exfalso].
  assert (Hm : (IZR m2 + 1 <= IZR m1)%R).
  { rewrite <- plus_IZR. apply IZR_le. lia. }
  assert (Ha : (IZR m1 - / 2 <= x1)%R).
  { unfold Rabs in H1. destruct (Rcase_abs (x1 - IZR m1)); lra. }
  assert (Hb : (x2 <= IZR m2 + / 2)%R).
  { unfold Rabs in H2. destruct (Rcase_abs (x2 - IZR m2)); lra. }
  assert (Hm1 : IZR m1 = (IZR m2 + 1)%R) by lra.
  assert (Hx1 : (x1 = IZR m1 - / 2)%R) by lra.
  assert (Hx2 : (x2 = IZR m2 + / 2)%R) by lra.
  assert (He1 : Z.even m1 = true).
  { apply E1. rewrite Hx1. replace (IZR m1 - / 2 - IZR m1)%R with (- / 2)%R by ring.
    rewrite Rabs_Ropp, Rabs_pos_eq; lra. }
  assert (He2 : Z.even m2 = true).
  { apply E2. rewrite Hx2. replace (IZR m2 + / 2 - IZR m2)%R with (/ 2)%R by ring.
    rewrite Rabs_pos_eq; lra. }
  assert (m1 = m2 + 1).
  { apply eq_IZR. rewrite plus_IZR. exact Hm1. }
  subst m1. rewrite Z.even_add in He1. rewrite He2 in He1. discriminate.
Qed.

Lemma cexp_mono (k1 k2 : Z) : k1 <= k2 -> cexp k1 <= cexp k2.
Proof. unfold cexp, fexp. lia. Qed.

Lemma cexp_ge_emin (k : Z) : emin Float.prec Float.emax <= cexp k.
Proof. unfold cexp, fexp. lia. Qed.

Lemma in_binade_le (k1 k2 : Z) (v1 v2 : R) :
  in_binade k1 v1 -> in_binade k2 v2 -> (v1 <= v2)%R -> k1 <= k2.
Proof.
  intros [H1 _] [_ H2] Hv.
  assert (H : (bpow (k1 - 1) < bpow k2)%R) by lra.
  apply bpow_lt_inv in H. lia.
Qed.

Lemma in_binade_unique (k1 k2 : Z) (v : R) :
  in_binade k1 v -> in_binade k2 v -> k1 = k2.
Proof.
  intros H1 H2.
  pose proof (in_binade_le _ _ _ _ H1 H2 (Rle_refl v)).
  pose proof (in_binade_le _ _ _ _ H2 H1 (Rle_refl v)). lia.
Qed.

Lemma Rabs_half_bounds (x : R) (n : Z) :
  (Rabs (x - IZR n) <= / 2)%R -> (IZR n - / 2 <= x <= IZR n + / 2)%R.
Proof. intros H. unfold Rabs in H. destruct (Rcase_abs (x - IZR n)); lra. Qed.

(** The rounding of [v] in binade [k] is at most [2^k] (or the least
    subnormal step when the binade lies below it). *)
Lemma rounds_to_upper (v : R) (m e k : Z) :
  in_binade k v -> e = cexp k -> nearest_even (v * bpow (- e)) m ->
  (F2R m e <= bpow (Z.max k e))%R.
Proof.
  intros [_ Hv] He [Hn _]. apply Rabs_half_bounds in Hn.
  pose proof (bpow_pos e) as Hpe. pose proof (bpow_pos (- e)) as Hpme.
  assert (Hx : (v * bpow (- e) < bpow (Z.max k e - e))%R).
  { apply Rlt_le_trans with (bpow k * bpow (- e))%R; [nra |].
    rewrite <- bpow_add. apply bpow_le. lia. }
  assert (Hm : m <= 2 ^ (Z.max k e - e)).
  { rewrite (bpow_IZR (Z.max k e - e)) in Hx by lia.
    destruct (Z_le_gt_dec m (2 ^ (Z.max k e - e))) as [H | H]; [exact H | exfalso].
    assert (H' : (IZR (2 ^ (Z.max k e - e)) + 1 <= IZR m)%R).
    { rewrite <- plus_IZR. apply IZR_le. lia. }
    lra. }
  unfold F2R. apply Rle_trans with (IZR (2 ^ (Z.max k e - e)) * bpow e)%R.
  - apply Rmult_le_compat_r; [lra | apply IZR_le, Hm].
  - rewrite <- bpow_IZR by lia. rewrite <- bpow_add.
    apply bpow_le. lia.
Qed.

(** The rounding of [v] in a normal binade [k] is at least [2^(k-1)]. *)
Lemma rounds_to_lower (v : R) (m e k : Z) :
  in_binade k v -> e <= k - 1 -> nearest_even (v * bpow (- e)) m ->
  (bpow (k - 1) <= F2R m e)%R.
Proof.
  intros [Hv _] He [Hn _]. apply Rabs_half_bounds in Hn.
  pose proof (bpow_pos e) as Hpe. pose proof (bpow_pos (- e)) as Hpme.
  assert (Hx : (bpow (k - 1 - e) <= v * bpow (- e))%R).
  { replace (k - 1 - e) with ((k - 1) + - e) by lia. rewrite bpow_add. nra. }
  assert (Hm : 2 ^ (k - 1 - e) <= m).
  { rewrite (bpow_IZR (k - 1 - e)) in Hx by lia.
    destruct (Z_le_gt_dec (2 ^ (k - 1 - e)) m) as [H | H]; [exact H | exfalso].
    assert (H' : (IZR m + 1 <= IZR (2 ^ (k - 1 - e)))%R).
    { rewrite <- plus_IZR. apply IZR_le. lia. }
    lra. }
  unfold F2R. apply Rle_trans with (IZR (2 ^ (k - 1 - e)) * bpow e)%R.
  - rewrite <- bpow_IZR by lia. rewrite <- bpow_add.
    apply bpow_le. lia.
  - apply Rmult_le_compat_r; [lra | apply IZR_le, Hm].
Qed.

Lemma rounds_to_mono (v1 v2 : R) (m1 e1 m2 e2 : Z) :
  (v1 <= v2)%R -> rounds_to v1 m1 e1 -> rounds_to v2 m2 e2 ->
  (F2R m1 e1 <= F2R m2 e2)%R.
Proof.
  intros Hv (k1 & Hk1 & He1 & Hn1) (k2 & Hk2 & He2 & Hn2).
  pose proof (in_binade_le _ _ _ _ Hk1 Hk2 Hv) as Hk.
  pose proof (cexp_mono _ _ Hk) as He.
  destruct (Z.eq_dec e1 e2) as [Heq | Hne].
  - subst e1. rewrite <- Heq in *.
    unfold F2R. apply Rmult_le_compat_r; [pose proof (bpow_pos (cexp k1)); lra |].
    apply IZR_le. eapply nearest_even_mono; [| exact Hn1 | exact Hn2].
    pose proof (bpow_pos (- cexp k1)). nra.
  - assert (Hlt : e1 < e2) by lia.
    assert (Hk12 : k1 < k2).
    { destruct (Z.eq_dec k1 k2); [subst; lia | lia]. }
    assert (He2' : e2 = k2 - Float.prec).
    { pose proof (cexp_ge_emin k1). unfold cexp, fexp in *. lia. }
    pose proof (rounds_to_upper v1 m1 e1 k1 Hk1 He1 Hn1) as Hup.
    assert (He2k : e2 <= k2 - 1) by (unfold Float.prec in *; lia).
    pose proof (rounds_to_lower v2 m2 e2 k2 Hk2 He2k Hn2) as Hlo.
    apply Rle_trans with (bpow (Z.max k1 e1)); [exact Hup |].
    apply Rle_trans with (bpow (k2 - 1)); [| exact Hlo].
    apply bpow_le. unfold Float.prec in *. lia.
Qed.

Lemma rounded_mono (v1 v2 r1 r2 : R) :
  (v1 <= v2)%R -> rounded v1 r1 -> rounded v2 r2 -> (r1 <= r2)%R.
Proof.
  intros Hv (m1 & e1 & H1 & ->) (m2 & e2 & H2 & ->).
  eapply rounds_to_mono; eauto.
Qed.

Lemma rounded_unique (v r1 r2 : R) : rounded v r1 -> rounded v r2 -> r1 = r2.
Proof.
  intros H1 H2. apply Rle_antisym; eapply rounded_mono; eauto; lra.
Qed.

(** ** Mantissa digits *)

Lemma digits2_pos_bounds (p : positive) :
  2 ^ (Z.pos (digits2_pos p) - 1) <= Z.pos p < 2 ^ Z.pos (digits2_pos p).
Proof.
  induction p as [p IH | p IH |]; simpl digits2_pos.
  - rewrite Pos2Z.inj_succ.
    replace (Z.succ (Z.pos (digits2_pos p)) - 1) with (Z.pos (digits2_pos p) - 1 + 1) by lia.
    rewrite !Z.pow_succ_r, Z.pow_add_r by lia. lia.
  - rewrite Pos2Z.inj_succ.
    replace (Z.succ (Z.pos (digits2_pos p)) - 1) with (Z.pos (digits2_pos p) - 1 + 1) by lia.
    rewrite !Z.pow_succ_r, Z.pow_add_r by lia. lia.
  - simpl. lia.
Qed.

Lemma Zdigits2_bounds (m : Z) :
  0 < m -> 2 ^ (Zdigits2 m - 1) <= m < 2 ^ Zdigits2 m.
Proof. destruct m as [| p | p]; try lia. intros _. apply digits2_pos_bounds. Qed.

Lemma Zdigits2_pos (m : Z) : 0 < m -> 0 < Zdigits2 m.
Proof. destruct m; simpl; lia. Qed.

Lemma Zdigits2_unique (m d : Z) :
  2 ^ (d - 1) <= m < 2 ^ d -> 0 < d -> Zdigits2 m = d.
Proof.
  intros [H1 H2] Hd.
  assert (Hm : 0 < m) by (pose proof (Z.pow_pos_nonneg 2 (d - 1)); lia).
  pose proof (Zdigits2_bounds m Hm) as [H3 H4].
  pose proof (Zdigits2_pos m Hm) as H5.
  destruct (Z.lt_trichotomy (Zdigits2 m) d) as [H | [H | H]]; [| exact H |].
  - assert (2 ^ Zdigits2 m <= 2 ^ (d - 1)) by (apply Z.pow_le_mono_r; lia). lia.
  - assert (2 ^ d <= 2 ^ (Zdigits2 m - 1)) by (apply Z.pow_le_mono_r; lia). lia.
Qed.

(** A positive located value lies in the binade given by its digits. *)
Lemma inbetween_binade (m e : Z) (l : location) (v : R) :
  0 < m -> inbetween m e l v -> in_binade (Zdigits2 m + e) v.
Proof.
  intros Hm Hin.
  pose proof (Zdigits2_bounds m Hm) as [H1 H2].
  pose proof (Zdigits2_pos m Hm) as Hd.
  pose proof (bpow_pos e) as He.
  assert (Hlo : (bpow (Zdigits2 m + e - 1) <= F2R m e)%R).
  { unfold F2R. replace (Zdigits2 m + e - 1) with ((Zdigits2 m - 1) + e) by lia.
    rewrite bpow_add, (bpow_IZR (Zdigits2 m - 1)) by lia.
    apply Rmult_le_compat_r; [lra | apply IZR_le, H1]. }
  assert (Hhi : (F2R (m + 1) e <= bpow (Zdigits2 m + e))%R).
  { unfold F2R. rewrite bpow_add, (bpow_IZR (Zdigits2 m)) by lia.
    apply Rmult_le_compat_r; [lra | apply IZR_le; lia]. }
  assert (Hmid : (F2R m e < F2R (m + 1) e)%R).
  { unfold F2R. rewrite plus_IZR. lra. }
  unfold in_binade. destruct l as [| c]; simpl in Hin.
  - subst v. lra.
  - destruct Hin as [[Ha Hb] _]. lra.
Qed.

(** ** Shifting a located mantissa to the right *)

Lemma shr_1_inbetween (mrs : shr_record) (e : Z) (v : R) :
  0 <= shr_m mrs ->
  inbetween (shr_m mrs) e (loc_of_shr_record mrs) v ->
  inbetween (shr_m (shr_1 mrs)) (e + 1) (loc_of_shr_record (shr_1 mrs)) v.
Proof.
  destruct mrs as [m r s]. cbn [shr_m]. intros Hm.
  pose proof (bpow_pos e) as He.
  assert (Hcase : exists (q : Z) (b : bool), m = 2 * q + (if b then 1 else 0) /\
            shr_1 {| shr_m := m; shr_r := r; shr_s := s |}
            = {| shr_m := q; shr_r := b; shr_s := r || s |}).
  { destruct m as [| p | p]; [exists 0, false; split; reflexivity | | lia].
    destruct p as [p | p |].
    - exists (Z.pos p), true. split; [lia | reflexivity].
    - exists (Z.pos p), false. split; [lia | reflexivity].
    - exists 0, true. split; reflexivity. }
  destruct Hcase as (q & b & Hq & ->). cbn [shr_m].
  unfold inbetween, F2R. rewrite bpow_succ, Hq, !plus_IZR, mult_IZR.
  set (X := (IZR q * bpow e)%R). set (B := bpow e) in *.
  destruct b, r, s; simpl;
    repeat match goal with
           | |- _ -> _ => intros ?
           | H : _ /\ _ |- _ => destruct H
           end;
    repeat split; fold X; nra.
Qed.

Lemma iter_shr_1_inbetween (p : positive) (v : R) :
  forall (mrs : shr_record) (e : Z),
    0 <= shr_m mrs ->
    inbetween (shr_m mrs) e (loc_of_shr_record mrs) v ->
    0 <= shr_m (SpecFloat.iter_pos shr_1 p mrs)
    /\ inbetween (shr_m (SpecFloat.iter_pos shr_1 p mrs)) (e + Z.pos p)
         (loc_of_shr_record (SpecFloat.iter_pos shr_1 p mrs)) v.
Proof.
  induction p as [p IH | p IH |]; intros mrs e Hm Hin; simpl SpecFloat.iter_pos.
  - pose proof (shr_1_nonneg mrs Hm) as H0.
    pose proof (shr_1_inbetween mrs e v Hm Hin) as H1.
    destruct (IH _ _ H0 H1) as [H2 H3].
    destruct (IH _ _ H2 H3) as [H4 H5].
    split; [exact H4 |].
    replace (e + Z.pos p~1) with (e + 1 + Z.pos p + Z.pos p) by lia. exact H5.
  - destruct (IH _ _ Hm Hin) as [H2 H3].
    destruct (IH _ _ H2 H3) as [H4 H5].
    split; [exact H4 |].
    replace (e + Z.pos p~0) with (e + Z.pos p + Z.pos p) by lia. exact H5.
  - split; [apply shr_1_nonneg, Hm | apply shr_1_inbetween; assumption].
Qed.

Lemma loc_of_shr_record_of_loc (m : Z) (l : location) :
  loc_of_shr_record (shr_record_of_loc m l) = l.
Proof. destruct l as [| []]; reflexivity. Qed.

Lemma shr_m_record_of_loc (m : Z) (l : location) :
  shr_m (shr_record_of_loc m l) = m.
Proof. destruct l as [| []]; reflexivity. Qed.

(** Shifting to the canonical exponent keeps the located value. *)
Lemma shr_fexp_correct (m e : Z) (l : location) (v : R) :
  0 <= m -> inbetween m e l v -> e <= cexp (Zdigits2 m + e) ->
  0 <= shr_m (fst (shr_fexp Float.prec Float.emax m e l))
  /\ snd (shr_fexp Float.prec Float.emax m e l) = cexp (Zdigits2 m + e)
  /\ inbetween (shr_m (fst (shr_fexp Float.prec Float.emax m e l)))
       (snd (shr_fexp Float.prec Float.emax m e l))
       (loc_of_shr_record (fst (shr_fexp Float.prec Float.emax m e l))) v.
Proof.
  intros Hm Hin He. unfold shr_fexp, shr. fold (cexp (Zdigits2 m + e)).
  destruct (cexp (Zdigits2 m + e) - e) as [| p | p] eqn:En; simpl fst; simpl snd.
  - rewrite shr_m_record_of_loc, loc_of_shr_record_of_loc.
    split; [exact Hm |]. split; [lia | exact Hin].
  - destruct (iter_shr_1_inbetween p v (shr_record_of_loc m l) e) as [H1 H2].
    + rewrite shr_m_record_of_loc. exact Hm.
    + rewrite shr_m_record_of_loc, loc_of_shr_record_of_loc. exact Hin.
    + split; [exact H1 |]. split; [lia |].
      replace (e + Z.pos p) with (e + Z.pos p) in H2 by lia. exact H2.
  - lia.
Qed.

Lemma F2R_scaled (m e : Z) : (F2R m e * bpow (- e))%R = IZR m.
Proof.
  unfold F2R. rewrite Rmult_assoc, <- bpow_add.
  replace (e + - e) with 0 by lia. rewrite bpow_0. ring.
Qed.

Lemma round_nearest_even_correct (m e : Z) (l : location) (v : R) :
  inbetween m e l v ->
  nearest_even (v * bpow (- e)) (round_nearest_even m l).
Proof.
  intros Hin. pose proof (bpow_pos (- e)) as Hp.
  set (x := (v * bpow (- e))%R).
  assert (Hhalf : (bpow e / 2 * bpow (- e) = / 2)%R).
  { unfold Rdiv. rewrite (Rmult_comm (bpow e)), Rmult_assoc, <- bpow_add.
    replace (e + - e) with 0 by lia. rewrite bpow_0. ring. }
  destruct l as [| c]; simpl in Hin.
  - subst v. unfold x. rewrite F2R_scaled. apply nearest_even_exact.
  - destruct Hin as [[Ha Hb] Hc].
    assert (Ha' : (IZR m < x)%R).
    { rewrite <- (F2R_scaled m e). unfold x. nra. }
    assert (Hb' : (x < IZR m + 1)%R).
    { replace (IZR m + 1)%R with (IZR (m + 1)) by (rewrite plus_IZR; reflexivity).
      rewrite <- (F2R_scaled (m + 1) e). unfold x. nra. }
    destruct c.
    + assert (Hx : (x = IZR m + / 2)%R).
      { unfold x. rewrite Hc, Rmult_plus_distr_r, F2R_scaled, Hhalf. ring. }
      cbn [round_nearest_even]. destruct (Z.even m) eqn:Ev.
      * split.
        -- rewrite Hx. replace (IZR m + / 2 - IZR m)%R with (/ 2)%R by ring.
           rewrite Rabs_pos_eq; lra.
        -- intros _. exact Ev.
      * split.
        -- rewrite Hx, plus_IZR.
           replace (IZR m + / 2 - (IZR m + 1))%R with (- / 2)%R by lra.
           rewrite Rabs_Ropp, Rabs_pos_eq; lra.
        -- intros _. rewrite Z.even_add, Ev. reflexivity.
    + assert (Hx : (x < IZR m + / 2)%R).
      { rewrite <- (F2R_scaled m e), <- Hhalf, <- Rmult_plus_distr_r. unfold x. nra. }
      cbn [round_nearest_even]. split.
      * rewrite Rabs_pos_eq; lra.
      * rewrite Rabs_pos_eq by lra. lra.
    + assert (Hx : (x > IZR m + / 2)%R).
      { rewrite <- (F2R_scaled m e), <- Hhalf, <- Rmult_plus_distr_r. unfold x. nra. }
      cbn [round_nearest_even]. unfold nearest_even. rewrite plus_IZR. split.
      * rewrite Rabs_left1 by lra. lra.
      * rewrite Rabs_left1 by lra. lra.
Qed.

Lemma F2R_le_bpow_inv (m e k : Z) :
  e <= k -> (F2R m e <= bpow k)%R -> m <= 2 ^ (k - e).
Proof.
  intros Hek H. pose proof (bpow_pos e) as He.
  apply le_IZR. rewrite <- bpow_IZR by lia.
  replace k with ((k - e) + e) in H by lia. rewrite bpow_add in H.
  unfold F2R in H. pose proof (bpow_pos (k - e)). nra.
Qed.

Lemma bpow_le_F2R_inv (m e k : Z) :
  e <= k -> (bpow k <= F2R m e)%R -> 2 ^ (k - e) <= m.
Proof.
  intros Hek H. pose proof (bpow_pos e) as He.
  apply le_IZR. rewrite <- bpow_IZR by lia.
  replace k with ((k - e) + e) in H by lia. rewrite bpow_add in H.
  unfold F2R in H. pose proof (bpow_pos (k - e)). nra.
Qed.

Lemma F2R_0 (e : Z) : F2R 0 e = 0%R.
Proof. unfold F2R. ring. Qed.

Lemma F2R_bpow (n e : Z) : 0 <= n -> F2R (2 ^ n) e = bpow (n + e).
Proof. intros H. unfold F2R. rewrite <- bpow_IZR, bpow_add by exact H. ring. Qed.

(** Correctness of the rounding step shared by all operations. *)
Theorem binary_round_aux_correct (s : bool) (mx ex : Z) (lx : location) (v : R) :
  0 < mx -> inbetween mx ex lx v -> ex <= cexp (Zdigits2 mx + ex) ->
  exists r, rounded v r /\ result_of s r (binary_round_aux Float.prec Float.emax s mx ex lx).
Proof.
  intros Hmx Hin Hex.
  set (k := Zdigits2 mx + ex) in *.
  pose proof (inbetween_binade mx ex lx v Hmx Hin) as Hk. fold k in Hk.
  destruct (shr_fexp_correct mx ex lx v ltac:(lia) Hin Hex) as (Hm' & He' & Hin').
  unfold binary_round_aux.
  destruct (shr_fexp Float.prec Float.emax mx ex lx) as [mrs' e'].
  cbn [fst snd] in Hm', He', Hin'. fold k in He'.
  set (m' := shr_m mrs') in *. set (l' := loc_of_shr_record mrs') in *.
  set (m'' := round_nearest_even m' l').
  pose proof (round_nearest_even_correct m' e' l' v Hin') as Hn. fold m'' in Hn.
  pose proof (round_nearest_even_nonneg m' l' Hm') as Hm''. fold m'' in Hm''.
  assert (Hrt : rounds_to v m'' e') by (exists k; auto).
  exists (F2R m'' e'). split; [exists m'', e'; auto |].
  assert (Hemin : emin Float.prec Float.emax <= e') by (rewrite He'; apply cexp_ge_emin).
  assert (Hkp : k - Float.prec <= e') by (rewrite He'; unfold cexp, fexp; lia).
  assert (Hup : m'' <= 2 ^ (Z.max k e' - e')).
  { apply F2R_le_bpow_inv; [lia |]. apply (rounds_to_upper v m'' e' k Hk He' Hn). }
  assert (Hlow : e' <= k - 1 -> 2 ^ (k - 1 - e') <= m'').
  { intros H. apply bpow_le_F2R_inv; [lia |].
    apply (rounds_to_lower v m'' e' k Hk H Hn). }
  assert (Hnormal : emin Float.prec Float.emax < e' -> 2 ^ (Float.prec - 1) <= m'' /\ e' = k - Float.prec).
  { intros H. assert (He'' : e' = k - Float.prec) by (rewrite He' in *; unfold cexp, fexp in *; lia).
    split; [| exact He''].
    replace (Float.prec - 1) with (k - 1 - e') by lia. apply Hlow. unfold Float.prec in *. lia. }
  assert (Hpow : 2 ^ (Z.max k e' - e') <= 2 ^ Float.prec)
    by (apply Z.pow_le_mono_r; unfold Float.prec in *; lia).
  unfold shr_fexp, shr.
  destruct (Z.eq_dec m'' 0) as [Hz | Hnz].
  - rewrite Hz. cbn [Zdigits2].
    assert (Hn2 : fexp Float.prec Float.emax (0 + e') - e' <= 0) by (unfold fexp, emin, Float.prec, Float.emax in *; lia).
    destruct (fexp Float.prec Float.emax (0 + e') - e') as [| p | p]; [| lia |];
      cbn [shr_record_of_loc shr_m]; split; try reflexivity; apply F2R_0.
  - assert (Hpos : 0 < m'') by lia.
    pose proof (Zdigits2_bounds m'' Hpos) as [Hd1 Hd2].
    pose proof (Zdigits2_pos m'' Hpos) as Hd0.
    destruct (Z_lt_le_dec m'' (2 ^ Float.prec)) as [Hlt | Hge].
    + (* no carry: the mantissa still fits *)
      assert (Hd : Zdigits2 m'' <= Float.prec).
      { destruct (Z_le_gt_dec (Zdigits2 m'') Float.prec) as [H | H]; [exact H | exfalso].
        assert (2 ^ Float.prec <= 2 ^ (Zdigits2 m'' - 1)) by (apply Z.pow_le_mono_r; lia).
        lia. }
      assert (Hcan : fexp Float.prec Float.emax (Zdigits2 m'' + e') = e').
      { destruct (Z.eq_dec e' (emin Float.prec Float.emax)) as [He | He].
        - unfold fexp. rewrite He in *. lia.
        - destruct (Hnormal ltac:(lia)) as [Hm2 Hek].
          rewrite (Zdigits2_unique m'' Float.prec); [unfold fexp; lia | | unfold Float.prec; lia].
          split; [exact Hm2 | exact Hlt]. }
      rewrite Hcan, Z.sub_diag. cbn [shr_record_of_loc shr_m].
      destruct m'' as [| p | p] eqn:Em; [lia | | lia].
      destruct (e' <=? Float.emax - Float.prec) eqn:Ele.
      * split; [reflexivity |]. split; [reflexivity |].
        unfold SpecFloat.bounded, canonical_mantissa. cbn [Zdigits2] in Hcan.
        rewrite Hcan, Z.eqb_refl, Ele. reflexivity.
      * split; [reflexivity |]. apply Z.leb_gt in Ele.
        destruct (Hnormal ltac:(unfold emin, Float.prec, Float.emax in *; lia)) as [Hm2 Hek].
        apply Rle_trans with (F2R (2 ^ (Float.prec - 1)) e').
        -- rewrite F2R_bpow by (unfold Float.prec; lia). apply bpow_le. lia.
        -- unfold F2R. apply Rmult_le_compat_r;
             [pose proof (bpow_pos e'); lra | apply IZR_le, Hm2].
    + (* carry: the mantissa became 2^Float.prec *)
      assert (Hm : m'' = 2 ^ Float.prec) by lia.
      assert (Hcan : fexp Float.prec Float.emax (Zdigits2 m'' + e') - e' = 1).
      { rewrite Hm. change (Zdigits2 (2 ^ Float.prec)) with (Float.prec + 1).
        unfold fexp, emin, Float.prec, Float.emax in *. lia. }
      rewrite Hcan. rewrite Hm.
      change (shr_m (SpecFloat.iter_pos shr_1 1 (shr_record_of_loc (2 ^ Float.prec) loc_Exact)))
        with (2 ^ (Float.prec - 1)).
      change (2 ^ (Float.prec - 1)) with (Z.pos 4503599627370496).
      destruct (e' + 1 <=? Float.emax - Float.prec) eqn:Ele.
      * split; [reflexivity |]. split.
        -- change (Z.pos 4503599627370496) with (2 ^ (Float.prec - 1)).
           rewrite !F2R_bpow by (unfold Float.prec; lia). f_equal. lia.
        -- unfold SpecFloat.bounded, canonical_mantissa.
           change (Z.pos (digits2_pos 4503599627370496)) with Float.prec.
           rewrite Ele, andb_true_r. apply Z.eqb_eq.
           unfold fexp, emin, Float.prec, Float.emax in *. lia.
      * split; [reflexivity |]. apply Z.leb_gt in Ele.
        rewrite F2R_bpow by (unfold Float.prec; lia). apply bpow_le. lia.
Qed.

(** ** Valid finite floats *)

Lemma bounded_canonical (m : positive) (e : Z) :
  SpecFloat.bounded Float.prec Float.emax m e = true ->
  cexp (Z.pos (digits2_pos m) + e) = e /\ e <= Float.emax - Float.prec.
Proof.
  unfold SpecFloat.bounded, canonical_mantissa. intros H.
  apply andb_true_iff in H as [H1 H2].
  apply Z.eqb_eq in H1. apply Z.leb_le in H2. split; assumption.
Qed.

Lemma F2R_pos (m : positive) (e : Z) : (0 < F2R (Z.pos m) e)%R.
Proof.
  unfold F2R. apply Rmult_lt_0_compat; [apply IZR_lt; lia | apply bpow_pos].
Qed.

Lemma F2R_binade (m : positive) (e : Z) :
  in_binade (Z.pos (digits2_pos m) + e) (F2R (Z.pos m) e).
Proof.
  apply (inbetween_binade (Z.pos m) e loc_Exact); [lia | reflexivity].
Qed.

(** A valid positive float is its own rounding. *)
Lemma rounded_representable (m : positive) (e : Z) :
  SpecFloat.bounded Float.prec Float.emax m e = true ->
  rounded (F2R (Z.pos m) e) (F2R (Z.pos m) e).
Proof.
  intros H. destruct (bounded_canonical m e H) as [Hc _].
  exists (Z.pos m), e. split; [| reflexivity].
  exists (Z.pos (digits2_pos m) + e). split; [apply F2R_binade |].
  split; [symmetry; exact Hc |].
  rewrite F2R_scaled. apply nearest_even_exact.
Qed.

Lemma bounded_lt_emax (m : positive) (e : Z) :
  SpecFloat.bounded Float.prec Float.emax m e = true -> (F2R (Z.pos m) e < bpow Float.emax)%R.
Proof.
  intros H. destruct (bounded_canonical m e H) as [Hc He].
  pose proof (F2R_binade m e) as [_ Hb].
  apply Rlt_le_trans with (1 := Hb). apply bpow_le.
  unfold cexp, fexp, emin, Float.prec, Float.emax in *. lia.
Qed.

(** On valid positive floats the order on (exponent, mantissa) is the
    order of the values. *)
Lemma canonical_exp_lt (m1 m2 : positive) (e1 e2 : Z) :
  SpecFloat.bounded Float.prec Float.emax m1 e1 = true ->
  SpecFloat.bounded Float.prec Float.emax m2 e2 = true ->
  e1 < e2 -> (F2R (Z.pos m1) e1 < F2R (Z.pos m2) e2)%R.
Proof.
  intros H1 H2 Hlt.
  destruct (bounded_canonical m1 e1 H1) as [Hc1 _].
  destruct (bounded_canonical m2 e2 H2) as [Hc2 _].
  pose proof (F2R_binade m1 e1) as [_ Hb1].
  pose proof (F2R_binade m2 e2) as [Hb2 _].
  apply Rlt_le_trans with (1 := Hb1).
  apply Rle_trans with (2 := Hb2). apply bpow_le.
  unfold cexp, fexp, emin, Float.prec, Float.emax in *. lia.
Qed.

Lemma F2R_lt_same_exp (m1 m2 e : Z) :
  m1 < m2 -> (F2R m1 e < F2R m2 e)%R.
Proof.
  intros H. unfold F2R. apply Rmult_lt_compat_r; [apply bpow_pos | apply IZR_lt, H].
Qed.

Lemma pos_compare_cont_eq (m1 m2 : positive) :
  Pos.compare_cont Eq m1 m2 = Pos.compare m1 m2.
Proof. reflexivity. Qed.

Lemma SFcompare_finite (m1 m2 : positive) (e1 e2 : Z) :
  SpecFloat.bounded Float.prec Float.emax m1 e1 = true ->
  SpecFloat.bounded Float.prec Float.emax m2 e2 = true ->
  match SFcompare (S754_finite false m1 e1) (S754_finite false m2 e2) with
  | Some Lt => (F2R (Z.pos m1) e1 < F2R (Z.pos m2) e2)%R
  | Some Eq => F2R (Z.pos m1) e1 = F2R (Z.pos m2) e2
  | Some Gt => (F2R (Z.pos m2) e2 < F2R (Z.pos m1) e1)%R
  | None => False
  end.
Proof.
  intros H1 H2. unfold SFcompare.
  destruct (Z.compare_spec e1 e2) as [He | He | He].
  - subst e2. rewrite pos_compare_cont_eq.
    destruct (Pos.compare_spec m1 m2) as [Hm | Hm | Hm].
    + subst. reflexivity.
    + apply F2R_lt_same_exp. lia.
    + apply F2R_lt_same_exp. lia.
  - apply canonical_exp_lt; assumption.
  - apply canonical_exp_lt; assumption.
Qed.

(** [<] on non-negative floats that are not infinite is [<] on values. *)
Lemma SFltb_B2R (x y : spec_float) :
  nonneg_float x = true -> nonneg_float y = true ->
  SFltb x y = true ->
  match x, y with
  | S754_infinity _, _ => False
  | _, S754_infinity _ => True
  | _, _ => (B2R x < B2R y)%R
  end.
Proof.
  destruct x as [[] | [] | | [] m1 e1], y as [[] | [] | | [] m2 e2];
    simpl; try discriminate; try (intros; exact I); intros Hx Hy.
  - intros _. apply F2R_pos.
  - unfold SFltb. pose proof (SFcompare_finite m1 m2 e1 e2 Hx Hy) as H.
    destruct (SFcompare _ _) as [[] |]; try discriminate. intros _. exact H.
Qed.

Lemma B2R_le_SFleb (x y : spec_float) :
  nonneg_float x = true -> nonneg_float y = true ->
  match x, y with
  | S754_infinity _, _ | _, S754_infinity _ => True
  | _, _ => (B2R x <= B2R y)%R -> SFleb x y = true
  end.
Proof.
  destruct x as [[] | [] | | [] m1 e1], y as [[] | [] | | [] m2 e2];
    simpl; try discriminate; try (intros; exact I); intros Hx Hy.
  - reflexivity.
  - reflexivity.
  - intros H. pose proof (F2R_pos m1 e1). lra.
  - unfold SFleb. pose proof (SFcompare_finite m1 m2 e1 e2 Hx Hy) as H.
    destruct (SFcompare _ _) as [[] |]; try reflexivity; [lra | contradiction].
Qed.

(** ** Aligning and rounding an exact value *)

Lemma pos_iter_xO (m d : positive) :
  Z.pos (Pos.iter xO m d) = Z.pos m * 2 ^ Z.pos d.
Proof.
  induction d as [| d IH] using Pos.peano_ind.
  - simpl. lia.
  - rewrite Pos.iter_succ, Pos2Z.inj_succ, Z.pow_succ_r by lia.
    rewrite Pos2Z.inj_xO, IH. lia.
Qed.

Lemma shl_align_correct (m : positive) (e e' : Z) :
  F2R (Z.pos (fst (shl_align m e e'))) (snd (shl_align m e e')) = F2R (Z.pos m) e
  /\ snd (shl_align m e e') = Z.min e e'.
Proof.
  unfold shl_align. destruct (e' - e) as [| d | d] eqn:Ed; cbn [fst snd].
  - split; [reflexivity | lia].
  - split; [reflexivity | lia].
  - split; [| lia]. rewrite pos_iter_xO.
    rewrite F2R_shift by lia. f_equal. lia.
Qed.

Lemma digits_same_value (m1 m2 : positive) (e1 e2 : Z) :
  F2R (Z.pos m1) e1 = F2R (Z.pos m2) e2 ->
  Z.pos (digits2_pos m1) + e1 = Z.pos (digits2_pos m2) + e2.
Proof.
  intros H. pose proof (F2R_binade m1 e1) as H1. pose proof (F2R_binade m2 e2) as H2.
  rewrite H in H1. apply (in_binade_unique _ _ _ H1 H2).
Qed.

Lemma binary_round_correct (s : bool) (m : positive) (e : Z) :
  exists r, rounded (F2R (Z.pos m) e) r
            /\ result_of s r (binary_round Float.prec Float.emax s m e).
Proof.
  unfold binary_round.
  destruct (shl_align_correct m e (fexp Float.prec Float.emax (Z.pos (digits2_pos m) + e)))
    as [Hv He].
  destruct (shl_align m e _) as [mz ez]. cbn [fst snd] in Hv, He.
  pose proof (digits_same_value mz m ez e Hv) as Hd.
  rewrite <- Hv. apply binary_round_aux_correct; [lia | reflexivity |].
  cbn [Zdigits2]. rewrite Hd. unfold cexp. lia.
Qed.

(** ** Addition of non-negative floats *)

Lemma add_finite_correct (mx my : positive) (ex ey : Z) :
  exists r,
    rounded (F2R (Z.pos mx) ex + F2R (Z.pos my) ey) r
    /\ result_of false r
         (SFadd Float.prec Float.emax (S754_finite false mx ex) (S754_finite false my ey)).
Proof.
  unfold SFadd, cond_Zopp.
  destruct (shl_align_correct mx ex (Z.min ex ey)) as [Hx Hex].
  destruct (shl_align_correct my ey (Z.min ex ey)) as [Hy Hey].
  destruct (shl_align mx ex (Z.min ex ey)) as [mx' ex'].
  destruct (shl_align my ey (Z.min ex ey)) as [my' ey'].
  cbn [fst snd] in *.
  assert (Hex' : ex' = Z.min ex ey) by lia.
  assert (Hey' : ey' = Z.min ex ey) by lia.
  rewrite <- Hx, <- Hy, Hex', Hey'.
  replace (F2R (Z.pos mx') (Z.min ex ey) + F2R (Z.pos my') (Z.min ex ey))%R
    with (F2R (Z.pos (mx' + my')) (Z.min ex ey))
    by (unfold F2R; rewrite Pos2Z.inj_add, plus_IZR; ring).
  change (Z.pos mx' + Z.pos my') with (Z.pos (mx' + my')).
  apply binary_round_correct.
Qed.

(** ** Division *)

Lemma new_location_correct (m2 r : Z) (t : R) :
  0 < m2 -> 0 <= r < m2 -> (t * IZR m2 = IZR r)%R ->
  match new_location m2 r with
  | loc_Exact => t = 0%R
  | loc_Inexact c =>
      (0 < t < 1)%R
      /\ match c with
         | Lt => (t < / 2)%R
         | Eq => (t = / 2)%R
         | Gt => (t > / 2)%R
         end
  end.
Proof.
  intros Hm Hr Ht.
  assert (HM : (0 < IZR m2)%R) by (apply IZR_lt; lia).
  assert (Hr0 : (0 <= IZR r)%R) by (apply IZR_le; lia).
  assert (Hr1 : (IZR r < IZR m2)%R) by (apply IZR_lt; lia).
  assert (Hcmp : forall c, (2 * r ?= m2) = c ->
            match c with
            | Lt => (t < / 2)%R
            | Eq => (t = / 2)%R
            | Gt => (t > / 2)%R
            end).
  { intros c Hc. destruct (Z.compare_spec (2 * r) m2) as [H | H | H]; subst c.
    - apply (f_equal IZR) in H. rewrite mult_IZR in H.
      apply (Rmult_eq_reg_r (IZR m2)); lra.
    - apply IZR_lt in H. rewrite mult_IZR in H. nra.
    - apply IZR_lt in H. rewrite mult_IZR in H. nra. }
  destruct (Z.eq_dec r 0) as [Hr0' | Hne].
  - subst r.
    assert (t = 0%R) by (apply (Rmult_eq_reg_r (IZR m2)); lra).
    unfold new_location, new_location_even, new_location_odd.
    destruct (Z.even m2); assumption.
  - assert (Hrp : (0 < IZR r)%R) by (apply IZR_lt; lia).
    assert (Ht01 : (0 < t < 1)%R) by nra.
    assert (Er0 : (r =? 0) = false) by (apply Z.eqb_neq, Hne).
    unfold new_location, new_location_even, new_location_odd.
    destruct (Z.even m2) eqn:Ev; rewrite Er0.
    + split; [exact Ht01 |]. apply Hcmp. reflexivity.
    + split; [exact Ht01 |].
      assert (Hodd : 2 * r <> m2).
      { intros H. rewrite <- H, Z.even_mul in Ev. discriminate. }
      destruct (Z.compare_spec (2 * r + 1) m2) as [H | H | H].
      * apply (Hcmp Lt). apply Z.compare_lt_iff. lia.
      * apply (Hcmp Lt). apply Z.compare_lt_iff. lia.
      * apply (Hcmp Gt). apply Z.compare_gt_iff. lia.
Qed.

Lemma SFdiv_core_correct (m1 m2 : positive) (e1 e2 : Z) :
  let '(q, e', l) := SFdiv_core_binary Float.prec Float.emax (Z.pos m1) e1 (Z.pos m2) e2 in
  inbetween q e' l (F2R (Z.pos m1) e1 / F2R (Z.pos m2) e2)
  /\ e' <= cexp (Z.pos (digits2_pos m1) + e1 - (Z.pos (digits2_pos m2) + e2))
  /\ 0 <= q.
Proof.
  unfold SFdiv_core_binary. cbn [Zdigits2].
  set (D := Z.pos (digits2_pos m1) + e1 - (Z.pos (digits2_pos m2) + e2)).
  set (e' := Z.min (fexp Float.prec Float.emax D) (e1 - e2)).
  set (s := e1 - e2 - e').
  assert (Hs : 0 <= s) by (unfold s, e'; lia).
  set (m' := match s with
             | 0 => Z.pos m1
             | Z.pos _ => Z.shiftl (Z.pos m1) s
             | Z.neg _ => 0
             end).
  assert (Hm' : m' = Z.pos m1 * 2 ^ s).
  { unfold m'. destruct s as [| p | p] eqn:Es; [lia | | lia].
    rewrite Z.shiftl_mul_pow2 by lia. reflexivity. }
  pose proof (Z_div_mod m' (Z.pos m2) ltac:(lia)) as Hdm.
  destruct (Z.div_eucl m' (Z.pos m2)) as [q r]. destruct Hdm as [Hq Hr].
  assert (Hq0 : 0 <= q).
  { assert (0 <= m') by (rewrite Hm'; pose proof (Z.pow_pos_nonneg 2 s); lia). nia. }
  split; [| split; [unfold e', cexp; lia | exact Hq0]].
  pose proof (bpow_pos e') as HB. pose proof (bpow_pos e2) as HB2.
  assert (HM2 : (0 < IZR (Z.pos m2))%R) by (apply IZR_lt; lia).
  set (t := (IZR r / IZR (Z.pos m2))%R).
  assert (Ht : (t * IZR (Z.pos m2) = IZR r)%R) by (unfold t; field; lra).
  assert (Hv : (F2R (Z.pos m1) e1 / F2R (Z.pos m2) e2 = (IZR q + t) * bpow e')%R).
  { unfold F2R, t.
    replace e1 with (s + e' + e2) by (unfold s; lia).
    rewrite !bpow_add, (bpow_IZR s) by lia.
    apply (f_equal IZR) in Hq. rewrite Hm', plus_IZR, !mult_IZR in Hq.
    field_simplify_eq; [| split; lra]. nra. }
  rewrite Hv.
  pose proof (new_location_correct (Z.pos m2) r t ltac:(lia) Hr Ht) as Hloc.
  unfold inbetween, F2R. destruct (new_location (Z.pos m2) r) as [| c].
  - rewrite Hloc. ring.
  - destruct Hloc as [Ht01 Hc]. rewrite plus_IZR.
    split; [split; nra |]. destruct c; nra.
Qed.

Lemma div_finite_correct (sx sy : bool) (mx my : positive) (ex ey : Z) :
  emin Float.prec Float.emax + 1 <= Z.pos (digits2_pos mx) + ex - (Z.pos (digits2_pos my) + ey) ->
  exists r,
    rounded (F2R (Z.pos mx) ex / F2R (Z.pos my) ey) r
    /\ result_of (xorb sx sy) r
         (SFdiv Float.prec Float.emax (S754_finite sx mx ex) (S754_finite sy my ey)).
Proof.
  intros HD. unfold SFdiv.
  pose proof (SFdiv_core_correct mx my ex ey) as Hcore.
  destruct (SFdiv_core_binary Float.prec Float.emax (Z.pos mx) ex (Z.pos my) ey) as [[q e'] l].
  destruct Hcore as (Hin & He' & Hq0).
  set (D := Z.pos (digits2_pos mx) + ex - (Z.pos (digits2_pos my) + ey)) in *.
  set (v := (F2R (Z.pos mx) ex / F2R (Z.pos my) ey)%R) in *.
  pose proof (F2R_binade mx ex) as [Hx1 _].
  pose proof (F2R_binade my ey) as [_ Hy2].
  pose proof (F2R_pos my ey) as Hypos.
  assert (Hvlow : (bpow (D - 1) < v)%R).
  { assert (Hvy : (v * F2R (Z.pos my) ey = F2R (Z.pos mx) ex)%R)
      by (unfold v; field; lra).
    replace (Z.pos (digits2_pos mx) + ex - 1)
      with ((D - 1) + (Z.pos (digits2_pos my) + ey)) in Hx1 by (unfold D; lia).
    rewrite bpow_add in Hx1.
    pose proof (bpow_pos (D - 1)). pose proof (bpow_pos (Z.pos (digits2_pos my) + ey)).
    assert (Hvpos : (0 < v)%R) by (unfold v; apply Rdiv_lt_0_compat; [apply F2R_pos | lra]).
    nra. }
  assert (Hqpos : 0 < q).
  { assert (Hb : (bpow e' <= bpow (D - 1))%R).
    { apply bpow_le. unfold cexp, fexp, emin, Float.prec, Float.emax in *. lia. }
    pose proof (bpow_pos e') as HB.
    destruct (Z_lt_le_dec 0 q) as [H | H]; [exact H | exfalso].
    assert (q = 0) by lia. subst q.
    destruct l as [| c]; cbn [inbetween] in Hin.
    - rewrite F2R_0 in Hin. lra.
    - destruct Hin as [[_ Hin] _]. change (0 + 1) with 1 in Hin.
      unfold F2R in Hin. lra. }
  apply binary_round_aux_correct; [exact Hqpos | exact Hin |].
  pose proof (inbetween_binade q e' l v Hqpos Hin) as [_ Hk].
  assert (HDk : D <= Zdigits2 q + e').
  { assert (H : (bpow (D - 1) < bpow (Zdigits2 q + e'))%R) by lra.
    apply bpow_lt_inv in H. lia. }
  apply (cexp_mono _ _) in HDk. lia.
Qed.

(** ** Multiplication *)

Lemma F2R_mul (m1 m2 e1 e2 : Z) :
  (F2R m1 e1 * F2R m2 e2)%R = F2R (m1 * m2) (e1 + e2).
Proof. unfold F2R. rewrite mult_IZR, bpow_add. ring. Qed.

Lemma mul_finite_correct (sx sy : bool) (mx my : positive) (ex ey : Z) :
  SpecFloat.bounded Float.prec Float.emax mx ex = true ->
  SpecFloat.bounded Float.prec Float.emax my ey = true ->
  exists r,
    rounded (F2R (Z.pos mx) ex * F2R (Z.pos my) ey) r
    /\ result_of (xorb sx sy) r
         (SFmul Float.prec Float.emax (S754_finite sx mx ex) (S754_finite sy my ey)).
Proof.
  intros Hx Hy. unfold SFmul. rewrite F2R_mul.
  change (Z.pos mx * Z.pos my) with (Z.pos (mx * my)).
  apply binary_round_aux_correct; [lia | reflexivity |].
  destruct (bounded_canonical mx ex Hx) as [Hcx _].
  destruct (bounded_canonical my ey Hy) as [Hcy Hey].
  pose proof (F2R_binade mx ex) as [Hx1 _].
  pose proof (F2R_binade my ey) as [Hy1 _].
  pose proof (F2R_binade (mx * my) (ex + ey)) as [_ Hp2].
  assert (Hk : Z.pos (digits2_pos mx) + ex + (Z.pos (digits2_pos my) + ey) - 1
               <= Z.pos (digits2_pos (mx * my)) + (ex + ey)).
  { assert (H : (bpow (Z.pos (digits2_pos mx) + ex - 1 + (Z.pos (digits2_pos my) + ey - 1))
                 < bpow (Z.pos (digits2_pos (mx * my)) + (ex + ey)))%R).
    { rewrite bpow_add. change (Z.pos (mx * my)) with (Z.pos mx * Z.pos my) in Hp2.
      rewrite <- F2R_mul in Hp2.
      pose proof (bpow_pos (Z.pos (digits2_pos mx) + ex - 1)).
      pose proof (bpow_pos (Z.pos (digits2_pos my) + ey - 1)).
      nra. }
    apply bpow_lt_inv in H. lia. }
  cbn [Zdigits2]. apply cexp_mono in Hk.
  pose proof (Pos2Z.is_pos (digits2_pos mx)). pose proof (Pos2Z.is_pos (digits2_pos my)).
  unfold cexp, fexp, emin, Float.prec, Float.emax in *. lia.
Qed.

(** ** Subtraction of non-negative floats *)

Lemma sub_finite_correct (mx my : positive) (ex ey : Z) :
  let x := S754_finite false mx ex in
  let y := S754_finite false my ey in
  (F2R (Z.pos mx) ex = F2R (Z.pos my) ey /\ SFsub Float.prec Float.emax x y = S754_zero false)
  \/ exists r s,
       rounded (Rabs (F2R (Z.pos mx) ex - F2R (Z.pos my) ey)) r
       /\ result_of s r (SFsub Float.prec Float.emax x y).
Proof.
  intros x y. unfold x, y, SFsub, cond_Zopp.
  destruct (shl_align_correct mx ex (Z.min ex ey)) as [Hx Hex].
  destruct (shl_align_correct my ey (Z.min ex ey)) as [Hy Hey].
  destruct (shl_align mx ex (Z.min ex ey)) as [mx' ex'].
  destruct (shl_align my ey (Z.min ex ey)) as [my' ey'].
  cbn [fst snd] in *.
  assert (Hex' : ex' = Z.min ex ey) by lia.
  assert (Hey' : ey' = Z.min ex ey) by lia.
  rewrite <- Hx, <- Hy, Hex', Hey'.
  set (ez := Z.min ex ey).
  assert (Hd : (F2R (Z.pos mx') ez - F2R (Z.pos my') ez)%R
               = F2R (Z.pos mx' - Z.pos my') ez).
  { unfold F2R. rewrite minus_IZR. ring. }
  rewrite Hd. pose proof (bpow_pos ez) as HB.
  unfold binary_normalize.
  destruct (Z.pos mx' - Z.pos my') as [| p | p] eqn:Ed.
  - left. split; [| reflexivity].
    assert (Z.pos mx' = Z.pos my') by lia. congruence.
  - right. rewrite Rabs_pos_eq by (pose proof (F2R_pos p ez); lra).
    destruct (binary_round_correct false p ez) as (r & Hr1 & Hr2).
    exists r, false. split; assumption.
  - right.
    replace (Rabs (F2R (Z.neg p) ez)) with (F2R (Z.pos p) ez).
    + destruct (binary_round_correct true p ez) as (r & Hr1 & Hr2).
      exists r, true. split; assumption.
    + unfold F2R. change (Z.neg p) with (- Z.pos p). rewrite opp_IZR.
      rewrite Ropp_mult_distr_l_reverse, Rabs_Ropp, Rabs_pos_eq; [reflexivity |].
      pose proof (F2R_pos p ez) as H. unfold F2R in H. lra.
Qed.

(** ** Square root *)

Lemma sqrtrem_location (m q r : Z) (x : R) :
  0 < m -> Z.sqrtrem m = (q, r) -> (0 <= x)%R -> (x * x = IZR m)%R ->
  0 < q
  /\ match (if r =? 0 then loc_Exact
            else loc_Inexact (if r <=? q then Lt else Gt)) with
     | loc_Exact => x = IZR q
     | loc_Inexact c =>
         (IZR q < x < IZR q + 1)%R
         /\ match c with
            | Lt => (x < IZR q + / 2)%R
            | Eq => (x = IZR q + / 2)%R
            | Gt => (x > IZR q + / 2)%R
            end
     end.
Proof.
  intros Hm Hs Hx0 Hxx.
  pose proof (Z.sqrtrem_spec m ltac:(lia)) as Hspec. rewrite Hs in Hspec.
  destruct Hspec as [Hq Hr].
  assert (Hq0 : 0 <= q).
  { pose proof (Z.sqrtrem_sqrt m) as H. rewrite Hs in H. simpl in H.
    rewrite H. apply Z.sqrt_nonneg. }
  assert (Hqpos : 0 < q) by nia.
  split; [exact Hqpos |].
  assert (HQ : (0 < IZR q)%R) by (apply IZR_lt; lia).
  assert (HR : (0 <= IZR r)%R) by (apply IZR_le; lia).
  assert (HR2 : (IZR r <= 2 * IZR q)%R)
    by (rewrite <- mult_IZR; apply IZR_le; lia).
  assert (Hm' : (x * x = IZR q * IZR q + IZR r)%R).
  { rewrite Hxx, Hq, plus_IZR, mult_IZR. reflexivity. }
  destruct (Z.eqb_spec r 0) as [-> | Hne].
  - assert (Hsq : (x * x = IZR q * IZR q)%R) by lra.
    nra.
  - assert (HRp : (1 <= IZR r)%R) by (apply IZR_le; lia).
    split; [split; nra |].
    destruct (Z.leb_spec r q) as [Hle | Hgt].
    + apply IZR_le in Hle. nra.
    + assert (H1 : (IZR q + 1 <= IZR r)%R)
        by (rewrite <- plus_IZR; apply IZR_le; lia).
      nra.
Qed.

Lemma bpow_square (e : Z) : (bpow e * bpow e)%R = bpow (2 * e).
Proof. rewrite <- bpow_add. f_equal. lia. Qed.

Lemma sqrt_finite_correct (m : positive) (e : Z) :
  exists r,
    rounded (sqrt (F2R (Z.pos m) e)) r
    /\ result_of false r (SFsqrt Float.prec Float.emax (S754_finite false m e)).
Proof.
  unfold SFsqrt, SFsqrt_core_binary. cbn [Zdigits2].
  set (d := Z.pos (digits2_pos m)).
  set (K := Z.div2 (d + e + 1)).
  set (e' := Z.min (fexp Float.prec Float.emax K) (Z.div2 e)).
  set (s := e - 2 * e').
  assert (Hdiv2 : 2 * Z.div2 e <= e).
  { pose proof (Zdiv2_odd_eqn e). destruct (Z.odd e); lia. }
  assert (Hs : 0 <= s) by (unfold s, e'; lia).
  set (m' := match s with
             | 0 => Z.pos m
             | Z.pos _ => Z.shiftl (Z.pos m) s
             | Z.neg _ => 0
             end).
  assert (Hm' : m' = Z.pos m * 2 ^ s).
  { unfold m'. destruct s as [| p | p] eqn:Es; [lia | | lia].
    rewrite Z.shiftl_mul_pow2 by lia. reflexivity. }
  assert (Hm'pos : 0 < m') by (rewrite Hm'; pose proof (Z.pow_pos_nonneg 2 s); lia).
  set (v := sqrt (F2R (Z.pos m) e)).
  pose proof (F2R_pos m e) as Hvpos.
  assert (Hv0 : (0 < v)%R) by (apply sqrt_lt_R0, Hvpos).
  assert (Hvv : (v * v = F2R (Z.pos m) e)%R) by (apply sqrt_sqrt; lra).
  pose proof (bpow_pos e') as HB. pose proof (bpow_pos (- e')) as HB'.
  assert (HBB : (bpow e' * bpow (- e') = 1)%R).
  { rewrite <- bpow_add. replace (e' + - e') with 0 by lia. apply bpow_0. }
  set (x := (v * bpow (- e'))%R).
  assert (Hxx : (x * x = IZR m')%R).
  { unfold x. replace (v * bpow (- e') * (v * bpow (- e')))%R
      with (v * v * (bpow (- e') * bpow (- e')))%R by ring.
    rewrite Hvv, bpow_square, Hm', mult_IZR, <- bpow_IZR by lia.
    unfold F2R. rewrite Rmult_assoc, <- !bpow_add. f_equal. f_equal.
    unfold s. lia. }
  assert (Hvx : (v = x * bpow e')%R).
  { unfold x. rewrite Rmult_assoc, (Rmult_comm (bpow (- e'))), HBB. ring. }
  destruct (Z.sqrtrem m') as [q r] eqn:Esq.
  destruct (sqrtrem_location m' q r x Hm'pos Esq ltac:(unfold x; nra) Hxx)
    as [Hqpos Hloc].
  set (l := if r =? 0 then loc_Exact else loc_Inexact (if r <=? q then Lt else Gt)) in *.
  assert (Hin : inbetween q e' l v).
  { unfold inbetween, F2R. rewrite Hvx. destruct l as [| c].
    - rewrite Hloc. reflexivity.
    - destruct Hloc as [[Ha Hb] Hc]. rewrite plus_IZR.
      split; [split; nra |]. destruct c; nra. }
  apply binary_round_aux_correct; [exact Hqpos | exact Hin |].
  pose proof (inbetween_binade q e' l v Hqpos Hin) as [_ Hk].
  pose proof (F2R_binade m e) as [Hlow _]. fold d in Hlow.
  assert (HK : K <= Zdigits2 q + e').
  { assert (H2K : 2 * (K - 1) <= d + e - 1).
    { unfold K. pose proof (Zdiv2_odd_eqn (d + e + 1)).
      destruct (Z.odd (d + e + 1)); lia. }
    assert (Hb : (bpow (K - 1) <= v)%R).
    { assert (Hsq : (bpow (K - 1) * bpow (K - 1) <= v * v)%R).
      { rewrite bpow_square, Hvv. apply Rle_trans with (2 := Hlow).
        apply bpow_le. exact H2K. }
      pose proof (bpow_pos (K - 1)). nra. }
    assert (H : (bpow (K - 1) < bpow (Zdigits2 q + e'))%R) by lra.
    apply bpow_lt_inv in H. lia. }
  apply cexp_mono in HK. unfold e', cexp in *. lia.
Qed.

End FloatSemantics.

Section Rates.
Import FloatSem RateSpec.

(** ** The rate in thousandths *)

Lemma round_milli_correct (m : positive) (e : Z) :
  nearest_even (F2R (Z.pos m) e * 1000) (PyFloat.round_milli m e).
Proof.
  unfold PyFloat.round_milli.
  assert (Hval : forall k, 0 <= k ->
            (F2R (Z.pos m) k * 1000)%R = IZR (Z.shiftl (Z.pos m * 1000) k)).
  { intros k Hk. rewrite Z.shiftl_mul_pow2 by exact Hk.
    unfold F2R. rewrite !mult_IZR, <- bpow_IZR by exact Hk. ring. }
  destruct e as [| p | p].
  - rewrite (Hval 0) by lia. apply nearest_even_exact.
  - rewrite (Hval (Z.pos p)) by lia. apply nearest_even_exact.
  - set (a := Z.pos m * 1000). set (k := Z.pos p).
    set (q := Z.shiftr a k).
    assert (Hq : q = a / 2 ^ k) by (unfold q; apply Z.shiftr_div_pow2; lia).
    assert (Hpow : 0 < 2 ^ k) by (apply Z.pow_pos_nonneg; lia).
    rewrite (Z.shiftl_mul_pow2 q k) by lia.
    rewrite (Z.shiftl_mul_pow2 1 (k - 1)) by lia. rewrite Z.mul_1_l.
    set (r := a - q * 2 ^ k).
    assert (Hr : 0 <= r < 2 ^ k).
    { unfold r. rewrite Hq. pose proof (Z.mod_pos_bound a (2 ^ k) Hpow).
      pose proof (Z.div_mod a (2 ^ k) ltac:(lia)). lia. }
    assert (Hhalf : 2 * 2 ^ (k - 1) = 2 ^ k).
    { rewrite <- Z.pow_succ_r by lia. f_equal. lia. }
    set (x := (F2R (Z.pos m) (Z.neg p) * 1000)%R).
    assert (HP : (0 < IZR (2 ^ k))%R) by (apply IZR_lt, Hpow).
    assert (Hx : (x * IZR (2 ^ k) = IZR q * IZR (2 ^ k) + IZR r)%R).
    { unfold x, F2R. change (Z.neg p) with (- k).
      rewrite bpow_opp, (bpow_IZR k) by lia.
      rewrite <- mult_IZR, <- plus_IZR.
      replace (q * 2 ^ k + r) with a by (unfold r; lia).
      unfold a. rewrite mult_IZR. field. lra. }
    assert (Hh : (2 * IZR (2 ^ (k - 1)) = IZR (2 ^ k))%R).
    { rewrite <- Hhalf, mult_IZR. reflexivity. }
    assert (Hr0 : (0 <= IZR r)%R) by (apply IZR_le; lia).
    assert (Hr1 : (IZR r < IZR (2 ^ k))%R) by (apply IZR_lt; lia).
    destruct (Z.compare_spec r (2 ^ (k - 1))) as [Hc | Hc | Hc].
    + (* tie *)
      apply (f_equal IZR) in Hc.
      assert (Hxq : (x = IZR q + / 2)%R).
      { apply (Rmult_eq_reg_r (IZR (2 ^ k))); [| lra]. rewrite Hx. lra. }
      destruct (Z.even q) eqn:Ev; cbv beta iota; split.
      * rewrite Hxq. replace (IZR q + / 2 - IZR q)%R with (/ 2)%R by ring.
        rewrite Rabs_pos_eq; lra.
      * intros _. exact Ev.
      * rewrite Hxq, plus_IZR.
        replace (IZR q + / 2 - (IZR q + 1))%R with (- / 2)%R by lra.
        rewrite Rabs_Ropp, Rabs_pos_eq; lra.
      * intros _. rewrite Z.even_add, Ev. reflexivity.
    + apply IZR_lt in Hc.
      assert (Hxq : (IZR q <= x < IZR q + / 2)%R) by (split; nra).
      cbv beta iota. split; [rewrite Rabs_pos_eq; lra | rewrite Rabs_pos_eq by lra; lra].
    + apply IZR_lt in Hc.
      assert (Hxq : (IZR q + / 2 < x < IZR q + 1)%R) by (split; nra).
      cbv beta iota. unfold nearest_even. rewrite plus_IZR.
      split; [rewrite Rabs_left1 by lra; lra | rewrite Rabs_left1 by lra; lra].
Qed.


(** ** Representable constants *)

Lemma rounded_int (m : positive) (c k : Z) :
  Z.pos m = c * 2 ^ k -> 0 <= k ->
  SpecFloat.bounded Float.prec Float.emax m (- k) = true ->
  rounded (IZR c) (IZR c) /\ F2R (Z.pos m) (- k) = IZR c.
Proof.
  intros Hm Hk Hb.
  assert (Hv : F2R (Z.pos m) (- k) = IZR c).
  { rewrite Hm, F2R_shift by exact Hk. replace (- k + k) with 0 by lia.
    unfold F2R. rewrite bpow_0. ring. }
  split; [| exact Hv]. rewrite <- Hv. apply rounded_representable, Hb.
Qed.

Lemma F2R_one : F2R 4503599627370496 (-52) = 1%R.
Proof. apply (rounded_int 4503599627370496 1 52); [reflexivity | lia | reflexivity]. Qed.

Lemma rounded_1 : rounded 1 1.
Proof. apply (rounded_int 4503599627370496 1 52); [reflexivity | lia | reflexivity]. Qed.

Lemma bpow_emax_gt_1 : (1 < bpow Float.emax)%R.
Proof. rewrite <- bpow_0. apply bpow_lt. unfold Float.emax. lia. Qed.

Lemma B2R_nonneg (x : spec_float) : nonneg_float x = true -> (0 <= B2R x)%R.
Proof.
  destruct x as [[] | [] | | [] m e]; simpl; try discriminate; intros _; try lra.
  pose proof (F2R_pos m e). lra.
Qed.

(** ** The rate [1.0 / (d + 1.0)] of a non-negative distance *)

Lemma add_one_correct (d : spec_float) :
  nonneg_float d = true -> Float.is_inf d = false ->
  exists ry, rounded (B2R d + 1) ry /\ (1 <= ry)%R
             /\ result_of false ry (Float.add d Float.one).
Proof.
  intros Hd Hinf.
  destruct d as [[] | [] | | [] m e]; try discriminate.
  - exists 1%R. simpl B2R. rewrite Rplus_0_l.
    split; [apply rounded_1 |]. split; [lra |].
    simpl. split; [reflexivity |]. split; [symmetry; apply F2R_one | reflexivity].
  - destruct (add_finite_correct m 4503599627370496 e (-52)) as (r & Hr & Hres).
    rewrite F2R_one in Hr. exists r. split; [exact Hr |]. split; [| exact Hres].
    apply (rounded_mono 1 (F2R (Z.pos m) e + 1)); [| apply rounded_1 | exact Hr].
    pose proof (F2R_pos m e). lra.
Qed.

Lemma bounded_digits (m : positive) (e : Z) :
  SpecFloat.bounded Float.prec Float.emax m e = true ->
  Z.pos (digits2_pos m) + e <= Float.emax.
Proof.
  intros H. destruct (bounded_canonical m e H) as [Hc He].
  unfold cexp, fexp, emin, Float.prec, Float.emax in *. lia.
Qed.

Lemma div_one_correct (m : positive) (e : Z) :
  SpecFloat.bounded Float.prec Float.emax m e = true ->
  exists rr, rounded (/ F2R (Z.pos m) e) rr
             /\ result_of false rr (Float.div Float.one (S754_finite false m e)).
Proof.
  intros Hb. pose proof (bounded_digits m e Hb) as Hd.
  destruct (div_finite_correct false false 4503599627370496 m (-52) e) as (r & Hr & Hres).
  - change (Z.pos (digits2_pos 4503599627370496)) with 53.
    unfold emin, Float.prec, Float.emax in *. lia.
  - rewrite F2R_one in Hr. unfold Rdiv in Hr. rewrite Rmult_1_l in Hr.
    exists r. split; assumption.
Qed.

(** What [rate_of] returns on a non-negative distance. *)
Lemma rate_of_cases (d : spec_float) :
  nonneg_float d = true ->
  exists rate,
    TSP.rate_of d = Ok rate
    /\ nonneg_float rate = true /\ Float.is_inf rate = false
    /\ ((Float.is_inf d = true /\ rate = S754_zero false)
        \/ (Float.is_inf d = false
            /\ exists ry, rounded (B2R d + 1) ry /\ (1 <= ry)%R
                 /\ ((bpow Float.emax <= ry)%R /\ rate = S754_zero false
                     \/ (ry < bpow Float.emax)%R /\ rounded (/ ry) (B2R rate)))).
Proof.
  intros Hd. destruct (Float.is_inf d) eqn:Einf.
  - destruct d as [| [] | |]; try discriminate.
    exists (S754_zero false). repeat split; try reflexivity. left. split; reflexivity.
  - destruct (add_one_correct d Hd Einf) as (ry & Hry & Hge & Hres).
    unfold TSP.rate_of, PyFloat.truediv.
    destruct (Float.add d Float.one) as [s | s | | s m e]; simpl in Hres.
    + destruct Hres as [_ H0]. lra.
    + destruct Hres as [-> Hbig].
      exists (S754_zero false). repeat split; try reflexivity.
      right. split; [reflexivity |]. exists ry. repeat split; auto.
    + contradiction.
    + destruct Hres as (-> & Hv & Hb). cbn [Float.is_zero].
      destruct (div_one_correct m e Hb) as (rr & Hrr & Hres2).
      rewrite <- Hv in Hrr.
      assert (Hle : (rr <= 1)%R).
      { apply (rounded_mono (/ ry) 1); [| exact Hrr | apply rounded_1].
        rewrite <- Rinv_1. apply Rinv_le_contravar; lra. }
      assert (Hlt : (ry < bpow Float.emax)%R)
        by (rewrite Hv; apply bounded_lt_emax, Hb).
      exists (Float.div Float.one (S754_finite false m e)).
      split; [reflexivity |].
      destruct (Float.div Float.one (S754_finite false m e)) as [s | s | | s m' e'];
        simpl in Hres2.
      * destruct Hres2 as [-> H0]. repeat split; try reflexivity.
        right. split; [reflexivity |]. exists ry. repeat split; auto.
        right. split; [exact Hlt |]. simpl. rewrite <- H0. exact Hrr.
      * destruct Hres2 as [_ Hbig]. pose proof bpow_emax_gt_1. lra.
      * contradiction.
      * destruct Hres2 as (-> & Hv2 & Hb2). repeat split; try reflexivity.
        -- exact Hb2.
        -- right. split; [reflexivity |]. exists ry. repeat split; auto.
           right. split; [exact Hlt |]. simpl. rewrite <- Hv2. exact Hrr.
Qed.

Lemma rate_of_le_1 (d rate : spec_float) :
  nonneg_float d = true -> TSP.rate_of d = Ok rate -> (0 <= B2R rate <= 1)%R.
Proof.
  intros Hd Hr.
  destruct (rate_of_cases d Hd) as (rate' & Hr' & Hnn & _ & Hcases).
  assert (rate' = rate) by congruence. subst rate'.
  split; [apply B2R_nonneg, Hnn |].
  destruct Hcases as [[_ ->] | (_ & ry & Hry & Hge & [[_ ->] | [_ Hrr]])];
    try (simpl; lra).
  apply (rounded_mono (/ ry) 1); [| exact Hrr | apply rounded_1].
  rewrite <- Rinv_1. apply Rinv_le_contravar; lra.
Qed.

(** A smaller distance never gets a smaller rate. *)
Lemma rate_of_mono (d1 d2 r1 r2 : spec_float) :
  nonneg_float d1 = true -> nonneg_float d2 = true ->
  Float.ltb d1 d2 = true ->
  TSP.rate_of d1 = Ok r1 -> TSP.rate_of d2 = Ok r2 ->
  (B2R r2 <= B2R r1)%R.
Proof.
  intros H1 H2 Hlt Hr1 Hr2.
  destruct (rate_of_cases d1 H1) as (r1' & Hr1' & Hn1 & _ & Hc1).
  destruct (rate_of_cases d2 H2) as (r2' & Hr2' & Hn2 & _ & Hc2).
  assert (r1' = r1) by congruence. assert (r2' = r2) by congruence. subst r1' r2'.
  pose proof (B2R_nonneg r1 Hn1) as Hp1.
  pose proof (SFltb_B2R d1 d2 H1 H2 Hlt) as Hcmp.
  destruct Hc2 as [[_ ->] | (Hi2 & ry2 & Hry2 & Hge2 & Hc2)]; [simpl; lra |].
  destruct Hc2 as [[_ ->] | [Hlt2 Hrr2]]; [simpl; lra |].
  destruct Hc1 as [[Hi1 _] | (Hi1 & ry1 & Hry1 & Hge1 & Hc1)].
  - destruct d1; try discriminate. contradiction.
  - assert (Hv : (B2R d1 < B2R d2)%R).
    { destruct d1, d2; try discriminate; exact Hcmp. }
    assert (Hry : (ry1 <= ry2)%R).
    { apply (rounded_mono (B2R d1 + 1) (B2R d2 + 1)); [lra | exact Hry1 | exact Hry2]. }
    destruct Hc1 as [[Hbig _] | [_ Hrr1]]; [lra |].
    apply (rounded_mono (/ ry2) (/ ry1)); [| exact Hrr2 | exact Hrr1].
    apply Rinv_le_contravar; lra.
Qed.

End Rates.

Section RateText.
Import FloatSem RateSpec.

Lemma milli_nonneg_le (rate : spec_float) :
  nonneg_float rate = true -> (B2R rate <= 1)%R -> 0 <= milli rate <= 1000.
Proof.
  intros Hn Hle. destruct rate as [[] | [] | | [] m e]; simpl in *;
    try discriminate; try lia.
  pose proof (round_milli_correct m e) as Hm.
  pose proof (F2R_pos m e) as Hp.
  split.
  - apply (nearest_even_mono 0 (F2R (Z.pos m) e * 1000));
      [lra | apply (nearest_even_exact 0) | exact Hm].
  - apply (nearest_even_mono (F2R (Z.pos m) e * 1000) 1000);
      [lra | exact Hm | apply (nearest_even_exact 1000)].
Qed.

Lemma milli_mono (r1 r2 : spec_float) :
  nonneg_float r1 = true -> nonneg_float r2 = true ->
  Float.is_inf r1 = false -> Float.is_inf r2 = false ->
  (B2R r2 <= B2R r1)%R -> milli r2 <= milli r1.
Proof.
  intros H1 H2 I1 I2 Hle.
  destruct r1 as [[] | [] | | [] m1 e1], r2 as [[] | [] | | [] m2 e2];
    simpl in *; try discriminate; try lia.
  - pose proof (F2R_pos m2 e2). lra.
  - apply (nearest_even_mono 0 (F2R (Z.pos m1) e1 * 1000));
      [pose proof (F2R_pos m1 e1); lra | apply (nearest_even_exact 0)
       | apply round_milli_correct].
  - apply (nearest_even_mono (F2R (Z.pos m2) e2 * 1000) (F2R (Z.pos m1) e1 * 1000));
      [lra | apply round_milli_correct | apply round_milli_correct].
Qed.

Lemma format_3f_milli (rate : spec_float) :
  nonneg_float rate = true -> Float.is_inf rate = false ->
  PyFloat.format_3f rate = text_of_milli (milli rate).
Proof.
  destruct rate as [[] | [] | | [] m e]; simpl; try discriminate; reflexivity.
Qed.

Lemma milli_texts_ok : forallb milli_text_ok (seq 0 1001) = true.
Proof. vm_compute. reflexivity. Qed.

Lemma milli_text_facts (n : Z) :
  0 <= n <= 1000 ->
  let p := numerals_of_milli n in
  CRN.print_rate (fst p) (snd p) = text_of_milli n
  /\ CRN.uint_is_nil (fst p) = false
  /\ (text_of_milli n = "0.000" -> n = 0).
Proof.
  intros Hn.
  pose proof milli_texts_ok as H. rewrite forallb_forall in H.
  specialize (H (Z.to_nat n)).
  assert (Hin : In (Z.to_nat n) (seq 0 1001)) by (apply in_seq; lia).
  specialize (H Hin). unfold milli_text_ok in H.
  rewrite Z2Nat.id in H by lia. cbv zeta in H |- *.
  apply andb_true_iff in H as [H H3]. apply andb_true_iff in H as [H1 H2].
  apply String.eqb_eq in H1. apply negb_true_iff in H2.
  split; [exact H1 |]. split; [exact H2 |].
  intros Ht. rewrite Ht in H3. simpl in H3. apply Z.eqb_eq in H3. exact H3.
Qed.

End RateText.

Section Distances.
Import FloatSem RateSpec.

(** ** Distances of valid cities *)

Lemma result_of_nonneg (r : R) (x : spec_float) :
  result_of false r x -> nonneg_float x = true.
Proof.
  destruct x as [s | s | | s m e]; simpl; try tauto.
  - intros [-> _]. reflexivity.
  - intros [-> _]. reflexivity.
  - intros (-> & _ & H). exact H.
Qed.

Lemma F2R_cond_Zopp (s : bool) (m e : Z) :
  F2R (cond_Zopp s m) e = (if s then - F2R m e else F2R m e)%R.
Proof. destruct s; simpl; [| reflexivity]. unfold F2R. rewrite opp_IZR. ring. Qed.

(** Subtraction of finite floats of any sign: the magnitude of the
    result is the rounded magnitude of the exact difference. *)
Lemma sub_finite_signed (sx sy : bool) (mx my : positive) (ex ey : Z) :
  let x := S754_finite sx mx ex in
  let y := S754_finite sy my ey in
  (B2R x = B2R y /\ SFsub Float.prec Float.emax x y = S754_zero false)
  \/ exists r s,
       rounded (Rabs (B2R x - B2R y)) r
       /\ result_of s r (SFsub Float.prec Float.emax x y).
Proof.
  intros x y. unfold x, y, SFsub, B2R.
  destruct (shl_align_correct mx ex (Z.min ex ey)) as [Hx Hex].
  destruct (shl_align_correct my ey (Z.min ex ey)) as [Hy Hey].
  destruct (shl_align mx ex (Z.min ex ey)) as [mx' ex'].
  destruct (shl_align my ey (Z.min ex ey)) as [my' ey'].
  cbn [fst snd] in *.
  assert (Hex' : ex' = Z.min ex ey) by lia.
  assert (Hey' : ey' = Z.min ex ey) by lia.
  clear Hex Hey. subst ex' ey'. set (ez := Z.min ex ey) in *.
  assert (Hvx : F2R (cond_Zopp sx (Z.pos mx)) ex = F2R (cond_Zopp sx (Z.pos mx')) ez).
  { rewrite !F2R_cond_Zopp, Hx. reflexivity. }
  assert (Hvy : F2R (cond_Zopp sy (Z.pos my)) ey = F2R (cond_Zopp sy (Z.pos my')) ez).
  { rewrite !F2R_cond_Zopp, Hy. reflexivity. }
  rewrite Hvx, Hvy.
  set (M := cond_Zopp sx (Z.pos mx') - cond_Zopp sy (Z.pos my')).
  assert (Hd : (F2R (cond_Zopp sx (Z.pos mx')) ez - F2R (cond_Zopp sy (Z.pos my')) ez)%R
               = F2R M ez).
  { unfold F2R, M. rewrite minus_IZR. ring. }
  rewrite Hd. unfold binary_normalize.
  destruct M as [| p | p] eqn:EM.
  - left. split; [| reflexivity].
    rewrite F2R_0 in Hd. lra.
  - right. rewrite Rabs_pos_eq by (pose proof (F2R_pos p ez); lra).
    destruct (binary_round_correct false p ez) as (r & Hr1 & Hr2).
    exists r, false. split; assumption.
  - right.
    replace (Rabs (F2R (Z.neg p) ez)) with (F2R (Z.pos p) ez).
    + destruct (binary_round_correct true p ez) as (r & Hr1 & Hr2).
      exists r, true. split; assumption.
    + unfold F2R. change (Z.neg p) with (- Z.pos p). rewrite opp_IZR.
      rewrite Ropp_mult_distr_l_reverse, Rabs_Ropp, Rabs_pos_eq; [reflexivity |].
      pose proof (F2R_pos p ez) as H. unfold F2R in H. lra.
Qed.

(** What subtraction, squaring, adding and the square root make of valid
    inputs. *)

Lemma valid_sub (x y : spec_float) :
  Float.is_finite x = true -> valid_binary Float.prec Float.emax x = true ->
  Float.is_finite y = true -> valid_binary Float.prec Float.emax y = true ->
  valid_binary Float.prec Float.emax (Float.sub x y) = true
  /\ Float.is_nan (Float.sub x y) = false.
Proof.
  intros Fx Vx Fy Vy.
  destruct x as [sx | sx | | sx mx ex], y as [sy | sy | | sy my ey];
    try discriminate; simpl in Vx, Vy.
  - destruct sx, sy; split; reflexivity.
  - split; [exact Vy | reflexivity].
  - split; [exact Vx | reflexivity].
  - destruct (sub_finite_signed sx sy mx my ex ey) as [[_ H] | (r & s & _ & H)];
      unfold Float.sub.
    + cbv zeta in H. rewrite H. split; reflexivity.
    + cbv zeta in H.
      destruct (SFsub _ _ _ _) as [s' | s' | | s' m e]; simpl in H;
        try contradiction; try (split; reflexivity).
      destruct H as (_ & _ & Hb). split; [exact Hb | reflexivity].
Qed.

Lemma pow2_nonneg (x a : spec_float) :
  valid_binary Float.prec Float.emax x = true -> Float.is_nan x = false ->
  PyFloat.pow2 x = Ok a -> nonneg_float a = true.
Proof.
  intros Vx Nx. destruct x as [s | s | | s m e]; simpl in *; try discriminate;
    try (intros [= <-]; reflexivity).
  destruct (mul_finite_correct s s m m e e Vx Vx) as (r & _ & Hres).
  replace (xorb s s) with false in Hres by (destruct s; reflexivity).
  fold (Float.mul (S754_finite s m e) (S754_finite s m e)) in Hres.
  destruct (Float.is_inf _); [discriminate |]. intros [= <-].
  apply (result_of_nonneg r), Hres.
Qed.

Lemma add_nonneg (a b : spec_float) :
  nonneg_float a = true -> nonneg_float b = true ->
  nonneg_float (Float.add a b) = true.
Proof.
  intros Ha Hb.
  destruct a as [[] | [] | | [] ma ea], b as [[] | [] | | [] mb eb];
    try discriminate; try reflexivity; try assumption.
  destruct (add_finite_correct ma mb ea eb) as (r & _ & Hres).
  apply (result_of_nonneg r), Hres.
Qed.

Lemma sqrt_nonneg (a : spec_float) :
  nonneg_float a = true ->
  exists d, PyFloat.math_sqrt a = Ok d /\ nonneg_float d = true.
Proof.
  intros Ha. destruct a as [[] | [] | | [] m e]; try discriminate;
    try (eexists; split; reflexivity).
  destruct (sqrt_finite_correct m e) as (r & _ & Hres).
  eexists. split; [reflexivity |]. apply (result_of_nonneg r), Hres.
Qed.

Lemma distance_nonneg (c1 c2 : TSP.city) (d : spec_float) :
  valid_city c1 = true -> valid_city c2 = true ->
  TSP.distance c1 c2 = Ok d -> nonneg_float d = true.
Proof.
  destruct c1 as [x1 y1], c2 as [x2 y2]. unfold valid_city, TSP.distance.
  cbn [fst snd]. intros H1 H2.
  apply andb_true_iff in H1 as [H1 Vy1]. apply andb_true_iff in H1 as [H1 Fy1].
  apply andb_true_iff in H1 as [Fx1 Vx1].
  apply andb_true_iff in H2 as [H2 Vy2]. apply andb_true_iff in H2 as [H2 Fy2].
  apply andb_true_iff in H2 as [Fx2 Vx2].
  destruct (valid_sub x1 x2 Fx1 Vx1 Fx2 Vx2) as [Vdx Ndx].
  destruct (valid_sub y1 y2 Fy1 Vy1 Fy2 Vy2) as [Vdy Ndy].
  destruct (PyFloat.pow2 (Float.sub x1 x2)) as [a |] eqn:Ea; [| discriminate].
  cbn [rbind].
  destruct (PyFloat.pow2 (Float.sub y1 y2)) as [b |] eqn:Eb; [| discriminate].
  cbn [rbind]. intros Hd.
  pose proof (pow2_nonneg _ _ Vdx Ndx Ea) as Ha.
  pose proof (pow2_nonneg _ _ Vdy Ndy Eb) as Hb.
  destruct (sqrt_nonneg _ (add_nonneg a b Ha Hb)) as (d' & Hd' & Hn).
  congruence.
Qed.

End Distances.

Section Box.
Import FloatSem RateSpec.

(** ** Distances and rates of cities in the square [[0,100] x [0,100]] *)

Lemma rounded_100 : rounded 100 100 /\ F2R 7036874417766400 (-46) = 100%R.
Proof. apply (rounded_int 7036874417766400 100 46); [reflexivity | lia | reflexivity]. Qed.

Lemma rounded_10000 : rounded 10000 10000.
Proof. apply (rounded_int 5497558138880000 10000 39); [reflexivity | lia | reflexivity]. Qed.

Lemma rounded_20000 : rounded 20000 20000.
Proof. apply (rounded_int 5497558138880000 20000 38); [reflexivity | lia | reflexivity]. Qed.

Lemma rounded_142 : rounded 142 142.
Proof. apply (rounded_int 4996180836614144 142 45); [reflexivity | lia | reflexivity]. Qed.

Lemma rounded_143 : rounded 143 143.
Proof. apply (rounded_int 5031365208702976 143 45); [reflexivity | lia | reflexivity]. Qed.

Lemma bpow_emax_large : (32768 <= bpow Float.emax)%R.
Proof.
  replace 32768%R with (bpow 15) by (rewrite (bpow_IZR 15) by lia; reflexivity).
  apply bpow_le. unfold Float.emax. lia.
Qed.

Lemma result_of_small (s : bool) (r b : R) (x : spec_float) :
  result_of s r x -> (r <= b)%R -> (b < 32768)%R ->
  small b x /\ Float.is_inf x = false /\ Float.sign_bit x = Some s.
Proof.
  pose proof bpow_emax_large as HB.
  destruct x as [s' | s' | | s' m e]; simpl; try tauto.
  - intros [-> _] _ _. repeat split.
  - intros [_ H] H1 H2. lra.
  - intros (-> & -> & Hb) H1 _. repeat split; assumption.
Qed.

Lemma small_within (b : R) (x : spec_float) :
  small b x -> Float.sign_bit x = Some false -> (0 <= b)%R -> within b x.
Proof.
  destruct x as [s | s | | s m e]; simpl; try tauto.
  - intros _ [= ->] Hb. repeat split. exact Hb.
  - intros [Hbd Hle] [= ->] _. repeat split; assumption.
Qed.

Lemma within_small (b : R) (x : spec_float) : within b x -> small b x.
Proof.
  intros (Hn & Hi & Hle). destruct x as [[] | [] | | [] m e]; try discriminate;
    simpl in *; tauto.
Qed.

Lemma within_pos (b : R) (x : spec_float) : within b x -> (0 <= B2R x <= b)%R.
Proof. intros (Hn & _ & Hle). split; [apply B2R_nonneg, Hn | exact Hle]. Qed.

Lemma unit_coord_within (x : spec_float) : unit_coord x = true -> within 100 x.
Proof.
  unfold unit_coord. intros H.
  apply andb_true_iff in H as [H Hle]. apply andb_true_iff in H as [Hn Hi].
  apply negb_true_iff in Hi. repeat split; try assumption.
  destruct x as [[] | [] | | [] m e]; try discriminate; simpl; try lra.
  simpl in Hn. unfold Float.leb, PyFloat.hundred, SFleb in Hle.
  pose proof (SFcompare_finite m 7036874417766400 e (-46) Hn eq_refl) as Hc.
  destruct rounded_100 as [_ H100]. rewrite H100 in Hc.
  destruct (SFcompare _ _) as [[] |]; try discriminate; lra.
Qed.

Lemma sub_small (x y : spec_float) :
  within 100 x -> within 100 y -> small 100 (Float.sub x y).
Proof.
  intros Hx Hy. pose proof (within_pos _ _ Hx) as Px.
  pose proof (within_pos _ _ Hy) as Py.
  destruct Hx as (Nx & Ix & _), Hy as (Ny & Iy & _).
  destruct x as [[] | [] | | [] mx ex], y as [[] | [] | | [] my ey];
    try discriminate; simpl in Nx, Ny.
  - exact I.
  - simpl in *. split; [exact Ny | lra].
  - simpl in *. split; [exact Nx | lra].
  - destruct (sub_finite_signed false false mx my ex ey) as [[_ H] | (r & s & Hr & H)];
      cbv zeta in H; unfold Float.sub.
    + rewrite H. exact I.
    + cbn [B2R cond_Zopp] in *.
      assert (Hle : (r <= 100)%R).
      { eapply rounded_mono; [| exact Hr | apply rounded_100]. apply Rabs_le; lra. }
      apply (result_of_small s r 100 _ H Hle). lra.
Qed.

Lemma pow2_within (x : spec_float) :
  small 100 x -> exists a, PyFloat.pow2 x = Ok a /\ within 10000 a.
Proof.
  destruct x as [s | s | | s m e]; cbn [small]; try tauto.
  - intros _. eexists. split; [reflexivity |]. repeat split. simpl. lra.
  - intros [Hb Hle]. unfold PyFloat.pow2. cbv zeta.
    destruct (mul_finite_correct s s m m e e Hb Hb) as (r & Hr & Hres).
    replace (xorb s s) with false in Hres by (destruct s; reflexivity).
    pose proof (F2R_pos m e) as Hp.
    assert (Hr' : (r <= 10000)%R).
    { eapply rounded_mono; [| exact Hr | apply rounded_10000]. nra. }
    destruct (result_of_small false r 10000 _ Hres Hr' ltac:(lra)) as (Hs & Hi & Hsg).
    fold (Float.mul (S754_finite s m e) (S754_finite s m e)) in *.
    rewrite Hi. eexists. split; [reflexivity |].
    apply small_within; [exact Hs | exact Hsg | lra].
Qed.

Lemma add_within (a b : spec_float) :
  within 10000 a -> within 10000 b -> within 20000 (Float.add a b).
Proof.
  intros Ha Hb. pose proof (within_pos _ _ Ha) as Pa.
  pose proof (within_pos _ _ Hb) as Pb.
  destruct Ha as (Na & Ia & _), Hb as (Nb & Ib & _).
  destruct a as [[] | [] | | [] ma ea], b as [[] | [] | | [] mb eb];
    try discriminate; simpl in Na, Nb.
  - repeat split. simpl. lra.
  - repeat split; [exact Nb | simpl in *; lra].
  - repeat split; [exact Na | simpl in *; lra].
  - destruct (add_finite_correct ma mb ea eb) as (r & Hr & Hres).
    simpl in Pa, Pb.
    assert (Hr' : (r <= 20000)%R).
    { eapply rounded_mono; [| exact Hr | apply rounded_20000]. lra. }
    destruct (result_of_small false r 20000 _ Hres Hr' ltac:(lra)) as (Hs & Hi & Hsg).
    apply small_within; [exact Hs | exact Hsg | lra].
Qed.

Lemma sqrt_within (s : spec_float) :
  within 20000 s -> exists d, PyFloat.math_sqrt s = Ok d /\ within 142 d.
Proof.
  intros Hs. pose proof (within_pos _ _ Hs) as Ps. destruct Hs as (Ns & Is & _).
  destruct s as [[] | [] | | [] m e]; try discriminate; simpl in Ns.
  - eexists. split; [reflexivity |]. repeat split. simpl. lra.
  - destruct (sqrt_finite_correct m e) as (r & Hr & Hres). simpl in Ps.
    assert (Hsq : (sqrt (F2R (Z.pos m) e) <= 142)%R).
    { rewrite <- (sqrt_square 142) by lra. apply sqrt_le_1_alt. lra. }
    assert (Hr' : (r <= 142)%R).
    { apply (rounded_mono _ 142 _ 142 Hsq Hr), rounded_142. }
    destruct (result_of_small false r 142 _ Hres Hr' ltac:(lra)) as (Hsm & Hi & Hsg).
    eexists. split; [reflexivity |].
    apply small_within; [exact Hsm | exact Hsg | lra].
Qed.

Lemma distance_in_box (c1 c2 : TSP.city) :
  in_box c1 = true -> in_box c2 = true ->
  exists d, TSP.distance c1 c2 = Ok d /\ within 142 d.
Proof.
  destruct c1 as [x1 y1], c2 as [x2 y2]. unfold in_box. cbn [fst snd].
  intros H1 H2. apply andb_true_iff in H1 as [Hx1 Hy1].
  apply andb_true_iff in H2 as [Hx2 Hy2].
  apply unit_coord_within in Hx1, Hy1, Hx2, Hy2.
  destruct (pow2_within _ (sub_small _ _ Hx1 Hx2)) as (a & Ea & Ha).
  destruct (pow2_within _ (sub_small _ _ Hy1 Hy2)) as (b & Eb & Hb).
  destruct (sqrt_within _ (add_within _ _ Ha Hb)) as (d & Ed & Hd).
  exists d. split; [| exact Hd].
  unfold TSP.distance. rewrite Ea. cbn [rbind]. rewrite Eb. cbn [rbind]. exact Ed.
Qed.

Lemma B2R_two_pow_minus_8 : B2R two_pow_minus_8 = bpow (-8).
Proof.
  unfold two_pow_minus_8, B2R, cond_Zopp.
  change (Z.pos 4503599627370496) with (2 ^ 52). apply (F2R_bpow 52 (-60)). lia.
Qed.

Lemma bpow_minus_8 : bpow (-8) = (/ 256)%R.
Proof.
  change (-8) with (- (8)). rewrite (bpow_opp 8), (bpow_IZR 8) by lia. reflexivity.
Qed.

(** The rate of a distance of at most 142 is at least [2^-8]. *)
Lemma rate_in_box (d rate : spec_float) :
  within 142 d -> TSP.rate_of d = Ok rate ->
  nonneg_float rate = true /\ Float.is_inf rate = false
  /\ (/ 256 <= B2R rate <= 1)%R.
Proof.
  intros Hd Hrate. pose proof (within_pos _ _ Hd) as Pd.
  destruct Hd as (Nd & Id & _).
  pose proof (rate_of_le_1 d rate Nd Hrate) as H01.
  destruct (rate_of_cases d Nd) as (rate' & E & Hn & Hi & Hc).
  rewrite Hrate in E. injection E as <-.
  split; [exact Hn |]. split; [exact Hi |]. split; [| lra].
  destruct Hc as [[Hc _] | (_ & ry & Hry & H1 & Hc)]; [congruence |].
  assert (Hle : (ry <= 143)%R).
  { eapply rounded_mono; [| exact Hry | apply rounded_143]. lra. }
  pose proof bpow_emax_large as HB.
  destruct Hc as [[Hc _] | [_ Hc]]; [lra |].
  rewrite <- bpow_minus_8.
  apply (rounded_mono (bpow (-8)) (/ ry) _ _).
  - rewrite bpow_minus_8. apply Rinv_le_contravar; lra.
  - rewrite <- B2R_two_pow_minus_8.
    apply (rounded_representable 4503599627370496 (-60)). reflexivity.
  - exact Hc.
Qed.

(** Such a rate is printed as at least four thousandths. *)
Lemma milli_in_box (rate : spec_float) :
  nonneg_float rate = true -> Float.is_inf rate = false ->
  (/ 256 <= B2R rate <= 1)%R -> 4 <= milli rate <= 1000.
Proof.
  intros Hn Hi H. split; [| apply (milli_nonneg_le rate Hn); lra].
  change 4 with (milli two_pow_minus_8).
  apply milli_mono; try assumption; try reflexivity.
  rewrite B2R_two_pow_minus_8, bpow_minus_8. lra.
Qed.

Lemma rate_text_in_box (d rate : spec_float) :
  within 142 d -> TSP.rate_of d = Ok rate ->
  PyFloat.format_3f rate <> "0.000".
Proof.
  intros Hd Hrate.
  destruct (rate_in_box d rate Hd Hrate) as (Hn & Hi & H).
  pose proof (milli_in_box rate Hn Hi H) as Hm.
  rewrite (format_3f_milli rate Hn Hi). intros E.
  destruct (milli_text_facts (milli rate) ltac:(lia)) as (_ & _ & H0).
  specialize (H0 E). lia.
Qed.

End Box.

Section ComputedMatrix.
Import TSP TSPSpec FloatSem RateSpec.
Variable cs : list city.
Hypothesis distance_ok :
  forall c1 c2, c1 ∈ cs -> c2 ∈ cs -> exists d, distance c1 c2 = Ok d.

Lemma fill_row_succeeds (i : nat) :
  (i < length cs)%nat ->
  forall (js : list nat) (m : matrix),
    (forall j, j ∈ js -> (j < length cs)%nat) ->
    exists m', fill_row cs i js m = (m', Ok tt).
Proof.
  intros Hi. induction js as [| j js IH]; intros m Hjs.
  - exists m. reflexivity.
  - assert (Hjs' : forall k, k ∈ js -> (k < length cs)%nat)
      by (intros k Hk; apply Hjs; right; exact Hk).
    cbn [fill_row]. destruct (Nat.eqb i j); [apply IH, Hjs' |].
    destruct (lookup_lt_is_Some_2 cs i Hi) as [c1 E1].
    destruct (lookup_lt_is_Some_2 cs j (Hjs j ltac:(left))) as [c2 E2].
    rewrite E1, E2.
    destruct (distance_ok c1 c2) as [d Ed];
      [eapply list_elem_of_lookup_2; eauto .. |].
    rewrite Ed. apply IH, Hjs'.
Qed.

Lemma fill_rows_succeeds (rows : list nat) :
  forall m : matrix,
    (forall i, i ∈ rows -> (i < length cs)%nat) ->
    exists m', fill_rows cs (length cs) rows m = (m', Ok tt).
Proof.
  induction rows as [| i rows IH]; intros m Hrows.
  - exists m. reflexivity.
  - cbn [fill_rows].
    destruct (fill_row_succeeds i (Hrows i ltac:(left)) (seq 0 (length cs)) m)
      as [m1 E1]; [intros j Hj; apply elem_of_seq in Hj; lia |].
    rewrite E1. apply IH. intros k Hk. apply Hrows. right. exact Hk.
Qed.

End ComputedMatrix.

Section ComputedEntries.
Import TSP TSPSpec FloatSem RateSpec.

Lemma calculate_distance_matrix_succeeds (self : TSPBenchmark) :
  (forall c1 c2, c1 ∈ cities self -> c2 ∈ cities self ->
                 exists d, distance c1 c2 = Ok d) ->
  exists self', calculate_distance_matrix self = (self', Ok tt).
Proof.
  intros H. unfold calculate_distance_matrix.
  destruct (fill_rows_succeeds (cities self) H (seq 0 (length (cities self)))
              (zeros (length (cities self)))) as [m' E];
    [intros i Hi; apply elem_of_seq in Hi; lia |].
  rewrite E. eexists. reflexivity.
Qed.

(** What holds of [0.0] and of every distance between two cities holds of
    every entry of the computed matrix. *)
Lemma computed_entries (P : Float.float -> Prop) (self self' : TSPBenchmark) :
  P Float.zero ->
  (forall c1 c2 d, c1 ∈ cities self -> c2 ∈ cities self ->
                   distance c1 c2 = Ok d -> P d) ->
  calculate_distance_matrix self = (self', Ok tt) ->
  square (length (cities self)) (distance_matrix self')
  /\ Forall (Forall P) (distance_matrix self').
Proof.
  intros H0 Hd Hrun. unfold calculate_distance_matrix in Hrun.
  set (n := length (cities self)) in *.
  destruct (fill_rows (cities self) n (seq 0 n) (zeros n)) as [m0 r] eqn:Efill.
  injection Hrun as <- ->. cbn [distance_matrix].
  destruct (fill_rows_spec (cities self) n (seq 0 n) (zeros n) m0
              ltac:(intros i Hi; apply elem_of_seq in Hi; lia)
              (zeros_square n) Efill) as [Hsq Hent].
  split; [exact Hsq |].
  apply Forall_lookup. intros a row Ha. apply Forall_lookup. intros b d Hb.
  destruct Hsq as [Hlen Hrows].
  assert (Han : (a < n)%nat) by (rewrite <- Hlen; eapply lookup_lt_Some; eauto).
  assert (Hbn : (b < n)%nat).
  { rewrite Forall_forall in Hrows.
    rewrite <- (Hrows row) by (eapply list_elem_of_lookup_2; eauto).
    eapply lookup_lt_Some; eauto. }
  assert (He : entry m0 a b = Some d) by (unfold entry; rewrite Ha; exact Hb).
  rewrite Hent in He.
  destruct (decide (a ∈ seq 0 n /\ (b < n)%nat /\ b <> a)) as [_ | _].
  - unfold dist_opt in He.
    destruct (cities self !! a) as [c1 |] eqn:E1; [| discriminate].
    destruct (cities self !! b) as [c2 |] eqn:E2; [| discriminate].
    destruct (distance c1 c2) as [d' |] eqn:Ed; [| discriminate].
    injection He as ->.
    apply (Hd c1 c2); [eapply list_elem_of_lookup_2; eauto .. | exact Ed].
  - rewrite (entry_zeros n a b Han Hbn) in He. injection He as <-. exact H0.
Qed.

Lemma valid_cities_nonneg_matrix (self self' : TSPBenchmark) :
  forallb valid_city (cities self) = true ->
  calculate_distance_matrix self = (self', Ok tt) ->
  nonneg_matrix (distance_matrix self').
Proof.
  intros Hv Hrun.
  apply (computed_entries (fun d => nonneg_float d = true) self self');
    [reflexivity | | exact Hrun].
  rewrite forallb_forall in Hv.
  intros c1 c2 d H1 H2. apply distance_nonneg; apply Hv, list_elem_of_In; assumption.
Qed.

Lemma box_cities_matrix (self : TSPBenchmark) :
  forallb in_box (cities self) = true ->
  exists self',
    calculate_distance_matrix self = (self', Ok tt)
    /\ square (length (cities self)) (distance_matrix self')
    /\ Forall (Forall (within 142)) (distance_matrix self').
Proof.
  intros Hb. rewrite forallb_forall in Hb.
  assert (Hd : forall c1 c2, c1 ∈ cities self -> c2 ∈ cities self ->
                 exists d, distance c1 c2 = Ok d /\ within 142 d).
  { intros c1 c2 H1 H2. apply distance_in_box; apply Hb, list_elem_of_In; assumption. }
  destruct (calculate_distance_matrix_succeeds self) as [self' Hrun].
  { intros c1 c2 H1 H2. destruct (Hd c1 c2 H1 H2) as (d & E & _). eauto. }
  exists self'. split; [exact Hrun |].
  apply (computed_entries (within 142) self self'); [| | exact Hrun].
  - repeat split. simpl. lra.
  - intros c1 c2 d H1 H2 E. destruct (Hd c1 c2 H1 H2) as (d' & E' & Hw).
    congruence.
Qed.

End ComputedEntries.

(** ** The TSP encoder writes admitted text *)

Section TspEncoder.
Import CRN CRNSpec EncoderSpec TSP TSPSpec FloatSem RateSpec.

Lemma ok_text_weaken (P Q : string -> Prop) (text : string) :
  (forall t, P t -> Q t) -> ok_text P text -> ok_text Q text.
Proof.
  intros HPQ H. unfold ok_text in *. eapply Forall_impl; [exact H |].
  intros l [Hl | [Hl | (r & H1 & H2 & H3)]]; [left | right; left | right; right];
    try assumption.
  exists r. split; [exact H1 | split; [exact H2 | apply HPQ, H3]].
Qed.

Lemma city_name_identifier (i : Z) :
  0 <= i -> is_identifier ("city_" +:+ str_int i) = true.
Proof.
  intros Hi. apply (is_identifier_app "city_"); [reflexivity |].
  apply digits_ident, str_int_nonneg, Hi.
Qed.

Lemma reaction_line_serialized (i j : Z) (rate : Float.float) :
  0 <= i -> 0 <= j ->
  nonneg_float rate = true -> Float.is_inf rate = false -> (B2R rate <= 1)%R ->
  reaction_line i j rate = serialize_reaction (line_reaction i j rate) +:+ nl
  /\ valid_reaction (line_reaction i j rate) = true
  /\ print_rate (rate_int (line_reaction i j rate))
                (rate_frac (line_reaction i j rate))
     = PyFloat.format_3f rate.
Proof.
  intros Hi Hj Hn Hinf Hle.
  destruct (milli_text_facts (milli rate) (milli_nonneg_le rate Hn Hle))
    as (H1 & H2 & _).
  rewrite <- (format_3f_milli rate Hn Hinf) in H1.
  split; [| split].
  - unfold reaction_line, serialize_reaction, line_reaction.
    cbn [reactants products rate_int rate_frac join_plus].
    rewrite H1. rewrite !append_assoc. reflexivity.
  - unfold valid_reaction, line_reaction.
    cbn [reactants products rate_int rate_frac forallb is_nil negb].
    rewrite (city_name_identifier i Hi), (city_name_identifier j Hj), H2.
    reflexivity.
  - exact H1.
Qed.

Section Blocks.
Variable Pt : string -> Prop.
Variable m : matrix.
Hypothesis nonneg_entries : nonneg_matrix m.
Hypothesis rates_ok :
  forall row d rate, row ∈ m -> d ∈ row -> rate_of d = Ok rate ->
                     Pt (PyFloat.format_3f rate).

Lemma reaction_line_block (i j : Z) (row : list Float.float) (d rate : Float.float) :
  0 <= i -> 0 <= j -> row ∈ m -> d ∈ row -> rate_of d = Ok rate ->
  ok_block Pt (reaction_line i j rate).
Proof.
  intros Hi Hj Hrow Hd Hrate.
  assert (Hnd : nonneg_float d = true).
  { unfold nonneg_matrix in nonneg_entries.
    rewrite Forall_forall in nonneg_entries.
    specialize (nonneg_entries row Hrow). rewrite Forall_forall in nonneg_entries.
    apply nonneg_entries, Hd. }
  destruct (rate_of_cases d Hnd) as (rate' & E & Hn & Hinf & _).
  rewrite Hrate in E. injection E as <-.
  pose proof (rate_of_le_1 d rate Hnd Hrate) as [_ Hle].
  destruct (reaction_line_serialized i j rate Hi Hj Hn Hinf Hle) as (-> & Hv & Hp).
  apply ok_block_reaction; [exact Hv |]. rewrite Hp.
  apply (rates_ok row d rate Hrow Hd Hrate).
Qed.

Lemma crn_row_block (i : Z) (js : list Z) :
  0 <= i -> Forall (fun j => 0 <= j) js ->
  forall s, crn_row m i js = Ok s -> ok_block Pt s.
Proof.
  intros Hi. induction 1 as [| j js Hj _ IH]; intros s Hs.
  - injection Hs as <-. apply ok_block_empty.
  - cbn [crn_row] in Hs. destruct (i =? j); [apply IH, Hs |].
    destruct (py_index m i) as [row |] eqn:Erow; [| discriminate].
    cbn [rbind] in Hs.
    destruct (py_index row j) as [d |] eqn:Ed; [| discriminate].
    cbn [rbind] in Hs.
    destruct (rate_of d) as [rate |] eqn:Erate; [| discriminate].
    cbn [rbind] in Hs.
    destruct (crn_row m i js) as [rest |]; [| discriminate].
    cbn [rbind] in Hs. injection Hs as <-.
    apply (ok_block_app Pt (reaction_line i j rate) rest); [| apply IH; reflexivity].
    apply (reaction_line_block i j row d rate Hi Hj
             (py_index_elem _ _ _ Erow) (py_index_elem _ _ _ Ed) Erate).
Qed.

Lemma crn_rows_block (n : Z) (rows : list Z) :
  Forall (fun i => 0 <= i) rows ->
  forall s, crn_rows m n rows = Ok s -> ok_block Pt s.
Proof.
  induction 1 as [| i rows Hi _ IH]; intros s Hs.
  - injection Hs as <-. apply ok_block_empty.
  - cbn [crn_rows] in Hs.
    destruct (crn_row m i (py_range n)) as [r |] eqn:Er; [| discriminate].
    cbn [rbind] in Hs.
    destruct (crn_rows m n rows) as [rest |]; [| discriminate].
    cbn [rbind] in Hs. injection Hs as <-.
    apply (ok_block_app Pt r rest); [| apply IH; reflexivity].
    apply (crn_row_block i (py_range n) Hi); [| exact Er].
    apply Forall_forall. intros j Hj. apply elem_of_py_range in Hj. lia.
Qed.

Lemma tsp_header_block (n : Z) : ok_block Pt (crn_header n).
Proof.
  unfold crn_header.
  replace (nl +:+ "-- TSP Chemical Reaction Network for " +:+ str_int n
           +:+ " cities" +:+ nl
           +:+ "-- Each city is represented as a molecular species" +:+ nl
           +:+ nl +:+ "-- City selection reactions" +:+ nl)
    with (("" +:+ nl)
          +:+ (("-- TSP Chemical Reaction Network for " +:+ str_int n
                +:+ " cities") +:+ nl)
          +:+ ("-- Each city is represented as a molecular species" +:+ nl)
          +:+ ("" +:+ nl) +:+ ("-- City selection reactions" +:+ nl))
    by (rewrite !append_assoc; reflexivity).
  apply ok_block_app;
    [| apply ok_block_app; [| apply ok_block_app; [| apply ok_block_app]]].
  - apply ok_block_line; [reflexivity | left; reflexivity].
  - apply ok_block_line; [| right; left; reflexivity].
    apply repr_char_not_newline. rewrite !all_chars_app.
    rewrite (int_repr_char _ (str_int_chars n)). reflexivity.
  - apply ok_block_line; [reflexivity | right; left; reflexivity].
  - apply ok_block_line; [reflexivity | left; reflexivity].
  - apply ok_block_line; [reflexivity | right; left; reflexivity].
Qed.

Lemma create_tsp_crn_block (n : Z) (text : string) :
  crn_rows m n (py_range n) = Ok text -> ok_text Pt (crn_header n +:+ text).
Proof.
  intros H. apply ok_block_text, ok_block_app; [apply tsp_header_block |].
  apply (crn_rows_block n (py_range n)); [| exact H].
  apply Forall_forall. intros j Hj. apply elem_of_py_range in Hj. lia.
Qed.

End Blocks.

Lemma create_tsp_crn_ok (Pt : string -> Prop) (self : TSPBenchmark) (n : Z)
  (text : string) :
  nonneg_matrix (distance_matrix self) ->
  (forall row d rate, row ∈ distance_matrix self -> d ∈ row ->
                      rate_of d = Ok rate -> Pt (PyFloat.format_3f rate)) ->
  create_tsp_crn self n = Ok text -> ok_text Pt text.
Proof.
  intros Hn HP. unfold create_tsp_crn.
  destruct (crn_rows (distance_matrix self) n (py_range n)) as [body |] eqn:E;
    [| discriminate].
  cbn [rbind]. intros [= <-].
  apply (create_tsp_crn_block Pt (distance_matrix self) Hn HP n body E).
Qed.

(** On an [n] by [n] matrix of non-negative entries the encoder returns. *)
Lemma crn_row_succeeds (m : matrix) (n : nat) (i : Z) (js : list Z) :
  square n m -> nonneg_matrix m -> 0 <= i < Z.of_nat n ->
  Forall (fun j => 0 <= j < Z.of_nat n) js ->
  exists s, crn_row m i js = Ok s.
Proof.
  intros [Hlen Hrows] Hnn Hi. induction 1 as [| j js Hj _ IH].
  - exists "". reflexivity.
  - destruct IH as [rest Hrest]. cbn [crn_row].
    destruct (i =? j); [exists rest; exact Hrest |].
    destruct (py_index_in_range m i) as [row Erow].
    { unfold SATSpec.index_in_range. rewrite Hlen.
      apply andb_true_iff. split; [apply Z.leb_le | apply Z.ltb_lt]; lia. }
    assert (Hin : row ∈ m) by (apply (py_index_elem _ _ _ Erow)).
    rewrite Forall_forall in Hrows.
    destruct (py_index_in_range row j) as [d Ed].
    { unfold SATSpec.index_in_range. rewrite (Hrows row Hin).
      apply andb_true_iff. split; [apply Z.leb_le | apply Z.ltb_lt]; lia. }
    assert (Hnd : nonneg_float d = true).
    { unfold nonneg_matrix in Hnn. rewrite Forall_forall in Hnn.
      specialize (Hnn row Hin). rewrite Forall_forall in Hnn.
      apply Hnn, (py_index_elem _ _ _ Ed). }
    destruct (rate_of_cases d Hnd) as (rate & Erate & _).
    rewrite Erow. cbn [rbind]. rewrite Ed. cbn [rbind]. rewrite Erate.
    cbn [rbind]. rewrite Hrest. cbn [rbind]. eexists. reflexivity.
Qed.

Lemma crn_rows_succeeds (m : matrix) (n : Z) (rows : list Z) :
  square (Z.to_nat n) m -> nonneg_matrix m ->
  Forall (fun i => 0 <= i < n) rows ->
  exists s, crn_rows m n rows = Ok s.
Proof.
  intros Hsq Hnn. induction 1 as [| i rows Hi _ IH].
  - exists "". reflexivity.
  - destruct IH as [rest Hrest]. cbn [crn_rows].
    destruct (crn_row_succeeds m (Z.to_nat n) i (py_range n) Hsq Hnn ltac:(lia))
      as [r Hr].
    { apply Forall_forall. intros j Hj. apply elem_of_py_range in Hj. lia. }
    rewrite Hr. cbn [rbind]. rewrite Hrest. cbn [rbind]. eexists. reflexivity.
Qed.

Lemma create_tsp_crn_succeeds (self : TSPBenchmark) (n : Z) :
  square (Z.to_nat n) (distance_matrix self) ->
  nonneg_matrix (distance_matrix self) ->
  exists text, create_tsp_crn self n = Ok text.
Proof.
  intros Hsq Hnn. unfold create_tsp_crn.
  destruct (crn_rows_succeeds (distance_matrix self) n (py_range n) Hsq Hnn)
    as [body Hbody].
  { apply Forall_forall. intros j Hj. apply elem_of_py_range in Hj. lia. }
  rewrite Hbody. cbn [rbind]. eexists. reflexivity.
Qed.

End TspEncoder.

(** ** The cities drawn by [generate_cities] *)

Section GeneratedCities.
Import TSP TSPSpec FloatSem RateSpec.

Lemma within_unit_coord (x : spec_float) : within 100 x -> unit_coord x = true.
Proof.
  intros (Hn & Hi & Hle). unfold unit_coord. rewrite Hn, Hi. cbn [negb andb].
  pose proof (B2R_le_SFleb x PyFloat.hundred Hn eq_refl) as H.
  destruct rounded_100 as [_ H100].
  assert (HB : B2R PyFloat.hundred = 100%R) by exact H100.
  rewrite HB in H. unfold Float.leb.
  destruct x as [s | s | | s m e]; try discriminate; apply H, Hle.
Qed.

Lemma random_random_within (g : rng) : within 1 (fst (PyFloat.random_random g)).
Proof.
  unfold PyFloat.random_random. cbn [fst].
  pose proof (Z.mod_pos_bound (Z.of_N (g O)) (2 ^ 53) ltac:(lia)) as Hk.
  set (k := Z.of_N (g O) mod 2 ^ 53) in *.
  unfold binary_normalize. destruct k as [| p | p]; [| | lia].
  - repeat split. simpl. lra.
  - destruct (binary_round_correct false p (-53)) as (r & Hr & Hres).
    assert (Hv : (F2R (Z.pos p) (-53) <= 1)%R).
    { unfold F2R. change (-53) with (- (53)).
      rewrite (bpow_opp 53), (bpow_IZR 53) by lia.
      assert (H : (IZR (Z.pos p) <= IZR (2 ^ 53))%R) by (apply IZR_le; lia).
      assert (H2 : (0 < IZR (2 ^ 53))%R) by (apply IZR_lt; lia).
      apply (Rmult_le_reg_r (IZR (2 ^ 53)) _ _ H2).
      rewrite Rmult_assoc, Rinv_l by lra. lra. }
    assert (Hr' : (r <= 1)%R).
    { eapply rounded_mono; [exact Hv | exact Hr | apply rounded_1]. }
    destruct (result_of_small false r 1 _ Hres Hr' ltac:(lra)) as (Hs & Hi & Hsg).
    apply small_within; [exact Hs | exact Hsg | lra].
Qed.

Lemma random_uniform_unit_coord (g : rng) :
  unit_coord (fst (PyFloat.random_uniform_0_100 g)) = true.
Proof.
  unfold PyFloat.random_uniform_0_100.
  pose proof (random_random_within g) as Hu.
  destruct (PyFloat.random_random g) as [u g']. cbn [fst] in *.
  apply within_unit_coord.
  pose proof (within_pos _ _ Hu) as Pu. destruct Hu as (Nu & Iu & _).
  destruct u as [[] | [] | | [] m e]; try discriminate.
  - repeat split. simpl. lra.
  - simpl in Nu, Pu.
    destruct (mul_finite_correct false false 7036874417766400 m (-46) e eq_refl Nu)
      as (r & Hr & Hres).
    destruct rounded_100 as [H100 E100]. rewrite E100 in Hr.
    assert (Hr' : (r <= 100)%R).
    { eapply rounded_mono; [| exact Hr | exact H100]. lra. }
    destruct (result_of_small false r 100 _ Hres Hr' ltac:(lra)) as (Hs & Hi & Hsg).
    cbn [xorb] in *.
    assert (Hw : within 100 (Float.mul PyFloat.hundred (S754_finite false m e))).
    { apply small_within; [exact Hs | exact Hsg | lra]. }
    unfold Float.mul, PyFloat.hundred in *.
    destruct (SFmul _ _ _ _) as [[] | [] | | [] m' e'];
      try discriminate; try exact Hw;
      destruct Hw as (Hw & _); discriminate.
Qed.

Lemma draw_cities_in_box (count : nat) :
  forall g, forallb in_box (fst (draw_cities count g)) = true
            /\ length (fst (draw_cities count g)) = count.
Proof.
  induction count as [| count IH]; intros g; [split; reflexivity |].
  cbn [draw_cities].
  pose proof (random_uniform_unit_coord g) as Hx.
  destruct (PyFloat.random_uniform_0_100 g) as [x g1].
  pose proof (random_uniform_unit_coord g1) as Hy.
  destruct (PyFloat.random_uniform_0_100 g1) as [y g2].
  destruct (IH g2) as [H1 H2].
  destruct (draw_cities count g2) as [rest g3]. cbn [fst] in *.
  split; [| simpl; rewrite H2; reflexivity].
  cbn [forallb]. unfold in_box at 1. cbn [fst snd]. rewrite Hx, Hy, H1. reflexivity.
Qed.

Lemma generate_cities_in_box (self : TSPBenchmark) (n : Z) (g : rng) :
  forallb in_box (cities (fst (generate_cities self n g))) = true
  /\ length (cities (fst (generate_cities self n g))) = Z.to_nat n.
Proof.
  unfold generate_cities.
  pose proof (draw_cities_in_box (Z.to_nat n) g) as H.
  destruct (draw_cities (Z.to_nat n) g) as [cs g']. exact H.
Qed.

End GeneratedCities.

(** ** The lines of the TSP text *)

Section TspLines.
Import CRN CRNSpec EncoderSpec TSP TSPSpec FloatSem RateSpec.

Lemma block_lines_empty : block_lines "" [].
Proof. intros t. reflexivity. Qed.

Lemma block_lines_line (l : string) :
  all_chars (not_char newline) l = true -> block_lines (l +:+ nl) [l].
Proof. intros H t. rewrite append_assoc. apply (lines_cons l t H). Qed.

Lemma block_lines_app (a b : string) (la lb : list string) :
  block_lines a la -> block_lines b lb -> block_lines (a +:+ b) (la ++ lb).
Proof.
  intros Ha Hb t. rewrite append_assoc, Ha, Hb. apply app_assoc.
Qed.

Lemma block_lines_text (b : string) (ls : list string) (l : string) :
  block_lines b ls -> l ∈ ls -> l ∈ lines b.
Proof.
  intros H Hl. rewrite <- (append_nil_r b), H. apply elem_of_app. left. exact Hl.
Qed.

Lemma int_not_newline (z : Z) : all_chars (not_char newline) (str_int z) = true.
Proof. apply repr_char_not_newline, int_repr_char, str_int_chars. Qed.

Lemma pad3_not_newline (z : Z) : all_chars (not_char newline) (PyFloat.pad3 z) = true.
Proof.
  unfold PyFloat.pad3. pose proof (int_not_newline z) as H.
  destruct (String.length (str_int z)) as [| [| [| k]]]; try exact H;
    rewrite all_chars_app, H; reflexivity.
Qed.

Lemma format_3f_not_newline (x : Float.float) :
  all_chars (not_char newline) (PyFloat.format_3f x) = true.
Proof.
  destruct x as [[] | [] | | s m e]; try reflexivity.
  unfold PyFloat.format_3f. rewrite !all_chars_app.
  rewrite int_not_newline, pad3_not_newline. destruct s; reflexivity.
Qed.

Lemma line_of_not_newline (i j : Z) (rate : Float.float) :
  all_chars (not_char newline) (line_of i j rate) = true.
Proof.
  unfold line_of. rewrite !all_chars_app.
  rewrite !int_not_newline, format_3f_not_newline. reflexivity.
Qed.

Lemma reaction_line_of (i j : Z) (rate : Float.float) :
  reaction_line i j rate = line_of i j rate +:+ nl.
Proof. unfold reaction_line, line_of. rewrite !append_assoc. reflexivity. Qed.

Section Lines.
Variable m : matrix.

Lemma crn_row_lines (i : Z) (js : list Z) :
  forall s, crn_row m i js = Ok s ->
  exists ls, block_lines s ls
             /\ forall j, j ∈ js -> i <> j -> pair_line m ls i j.
Proof.
  induction js as [| j js IH]; intros s Hs.
  - injection Hs as <-. exists []. split; [apply block_lines_empty |].
    intros j Hj. inversion Hj.
  - cbn [crn_row] in Hs. destruct (i =? j) eqn:Eij.
    + apply Z.eqb_eq in Eij. subst j.
      destruct (IH s Hs) as (ls & Hb & Hl). exists ls. split; [exact Hb |].
      intros j Hj Hne. apply elem_of_cons in Hj as [-> | Hj]; [congruence |].
      apply Hl; assumption.
    + destruct (py_index m i) as [row |] eqn:Erow; [| discriminate].
      cbn [rbind] in Hs.
      destruct (py_index row j) as [d |] eqn:Ed; [| discriminate].
      cbn [rbind] in Hs.
      destruct (rate_of d) as [rate |] eqn:Erate; [| discriminate].
      cbn [rbind] in Hs.
      destruct (crn_row m i js) as [rest |]; [| discriminate].
      cbn [rbind] in Hs. injection Hs as <-.
      destruct (IH rest eq_refl) as (ls & Hb & Hl).
      exists ([line_of i j rate] ++ ls). split.
      * change (block_lines (reaction_line i j rate +:+ rest)
                  ([line_of i j rate] ++ ls)).
        rewrite reaction_line_of.
        apply block_lines_app; [| exact Hb].
        apply block_lines_line, line_of_not_newline.
      * intros j' Hj' Hne. apply elem_of_cons in Hj' as [-> | Hj'].
        -- exists row, d, rate. repeat split; try assumption.
           apply elem_of_app. left. apply list_elem_of_singleton. reflexivity.
        -- destruct (Hl j' Hj' Hne) as (row' & d' & rate' & H1 & H2 & H3 & H4).
           exists row', d', rate'. repeat split; try assumption.
           apply elem_of_app. right. exact H4.
Qed.

Lemma crn_rows_lines (n : Z) (rows : list Z) :
  forall s, crn_rows m n rows = Ok s ->
  exists ls, block_lines s ls
             /\ forall i j, i ∈ rows -> j ∈ py_range n -> i <> j ->
                            pair_line m ls i j.
Proof.
  induction rows as [| i rows IH]; intros s Hs.
  - injection Hs as <-. exists []. split; [apply block_lines_empty |].
    intros i j Hi. inversion Hi.
  - cbn [crn_rows] in Hs.
    destruct (crn_row m i (py_range n)) as [r |] eqn:Er; [| discriminate].
    cbn [rbind] in Hs.
    destruct (crn_rows m n rows) as [rest |]; [| discriminate].
    cbn [rbind] in Hs. injection Hs as <-.
    destruct (crn_row_lines i (py_range n) r Er) as (l1 & Hb1 & Hl1).
    destruct (IH rest eq_refl) as (l2 & Hb2 & Hl2).
    exists (l1 ++ l2). split; [apply block_lines_app; assumption |].
    intros i' j Hi' Hj Hne. apply elem_of_cons in Hi' as [-> | Hi'].
    + destruct (Hl1 j Hj Hne) as (row & d & rate & H1 & H2 & H3 & H4).
      exists row, d, rate. repeat split; try assumption.
      apply elem_of_app. left. exact H4.
    + destruct (Hl2 i' j Hi' Hj Hne) as (row & d & rate & H1 & H2 & H3 & H4).
      exists row, d, rate. repeat split; try assumption.
      apply elem_of_app. right. exact H4.
Qed.

End Lines.

Lemma tsp_header_lines (n : Z) : exists ls, block_lines (crn_header n) ls.
Proof.
  unfold crn_header.
  replace (nl +:+ "-- TSP Chemical Reaction Network for " +:+ str_int n
           +:+ " cities" +:+ nl
           +:+ "-- Each city is represented as a molecular species" +:+ nl
           +:+ nl +:+ "-- City selection reactions" +:+ nl)
    with (("" +:+ nl)
          +:+ (("-- TSP Chemical Reaction Network for " +:+ str_int n
                +:+ " cities") +:+ nl)
          +:+ ("-- Each city is represented as a molecular species" +:+ nl)
          +:+ ("" +:+ nl) +:+ ("-- City selection reactions" +:+ nl))
    by (rewrite !append_assoc; reflexivity).
  eexists.
  apply block_lines_app; [apply block_lines_line; reflexivity |].
  apply block_lines_app;
    [apply block_lines_line; rewrite !all_chars_app, int_not_newline; reflexivity |].
  apply block_lines_app; [apply block_lines_line; reflexivity |].
  apply block_lines_app; apply block_lines_line; reflexivity.
Qed.

(** Every ordered pair of distinct cities has its line in the text, and
    the rate on it is the rate of the pair's matrix entry. *)
Lemma create_tsp_crn_lines (self : TSPBenchmark) (n : Z) (text : string) :
  create_tsp_crn self n = Ok text ->
  forall i j, 0 <= i < n -> 0 <= j < n -> i <> j ->
    pair_line (distance_matrix self) (lines text) i j.
Proof.
  unfold create_tsp_crn.
  destruct (crn_rows (distance_matrix self) n (py_range n)) as [body |] eqn:E;
    [| discriminate].
  cbn [rbind]. intros [= <-] i j Hi Hj Hne.
  destruct (crn_rows_lines (distance_matrix self) n (py_range n) body E)
    as (ls & Hb & Hl).
  destruct (Hl i j ltac:(apply elem_of_py_range; lia)
              ltac:(apply elem_of_py_range; lia) Hne)
    as (row & d & rate & H1 & H2 & H3 & H4).
  exists row, d, rate. repeat split; try assumption.
  destruct (tsp_header_lines n) as [hl Hh].
  apply (block_lines_text (crn_header n +:+ body) (hl ++ ls));
    [exact (block_lines_app (crn_header n) body hl ls Hh Hb) |].
  apply elem_of_app. right. exact H4.
Qed.

End TspLines.

(** ** Instances written by [generate_3sat_instance] *)

Section GeneratedInstances.
Import CRN CRNSpec EncoderSpec.

Lemma generate_clauses_in_range (num_vars : Z) (count : nat) :
  forall g cs g',
    SAT.generate_clauses count num_vars g = Ok (cs, g') ->
    Forall (Forall (fun l : SAT.literal => 0 <= fst l < num_vars)) cs.
Proof.
  induction count as [| count IH]; intros g cs g' H.
  - injection H as <- _. constructor.
  - cbn [SAT.generate_clauses] in H.
    pose proof (random_sample_spec (py_range num_vars) 3 g (py_range_NoDup _)) as Hs.
    destruct (random_sample (py_range num_vars) 3 g) as [[sel g1] | e];
      [| discriminate].
    destruct Hs as (_ & _ & _ & Hin). cbn [rbind] in H.
    pose proof (negate_vars_fst sel g1) as Hfst.
    destruct (SAT.negate_vars sel g1) as [c g2]. cbn [fst] in Hfst.
    destruct (SAT.generate_clauses count num_vars g2) as [[cs' g3] |] eqn:E;
      [| discriminate].
    cbn [rbind] in H. injection H as <- _.
    constructor; [| apply (IH g2 cs' g3 E)].
    apply Forall_forall. intros l Hl.
    apply elem_of_py_range, Hin. rewrite <- Hfst.
    apply list_elem_of_fmap. exists l. split; [reflexivity | exact Hl].
Qed.

Lemma generated_instance_ok (num_vars : Z) (num_clauses : option Z) (g g' : rng)
  (self : SAT.SATBenchmark) :
  SAT.generate_3sat_instance num_vars num_clauses g = Ok (self, g') ->
  identifier_names self = true /\ SATSpec.well_formed self = true.
Proof.
  unfold SAT.generate_3sat_instance.
  destruct (match num_clauses with
            | Some n => Ok n
            | None => SAT.default_num_clauses num_vars
            end) as [n |]; [| discriminate].
  cbn [rbind].
  destruct (SAT.generate_clauses (Z.to_nat n) num_vars g) as [[cs g1] |] eqn:E;
    [| discriminate].
  cbn [rbind]. intros [= <- _].
  unfold identifier_names, SATSpec.well_formed. cbn [SAT.variables SAT.clauses].
  split.
  - apply forallb_forall. intros name Hin. apply list_elem_of_In in Hin.
    apply list_elem_of_fmap in Hin as (i & -> & Hi).
    apply elem_of_py_range in Hi.
    apply (is_identifier_app "x"); [reflexivity |].
    apply digits_ident, str_int_nonneg. lia.
  - pose proof (generate_clauses_in_range _ _ _ _ _ E) as Hr.
    apply forallb_forall. intros c Hc. apply list_elem_of_In in Hc.
    rewrite Forall_forall in Hr. specialize (Hr c Hc).
    apply forallb_forall. intros l Hl. apply list_elem_of_In in Hl.
    rewrite Forall_forall in Hr. specialize (Hr l Hl). cbv beta in Hr.
    unfold SATSpec.index_in_range. rewrite length_fmap, py_range_length.
    apply andb_true_iff. split; [apply Z.leb_le | apply Z.ltb_lt]; lia.
Qed.

End GeneratedInstances.

(** ** The claims on the encoders' text *)

Lemma entry_nonneg (m : TSP.matrix) (i j : Z) (row : list Float.float)
  (d : Float.float) :
  RateSpec.nonneg_matrix m -> py_index m i = Ok row -> py_index row j = Ok d ->
  FloatSem.nonneg_float d = true.
Proof.
  intros Hn Hrow Hd. unfold RateSpec.nonneg_matrix in Hn.
  rewrite Forall_forall in Hn. specialize (Hn row (py_index_elem _ _ _ Hrow)).
  rewrite Forall_forall in Hn. apply Hn, (py_index_elem _ _ _ Hd).
Qed.

Lemma rate_of_valid (d rate : Float.float) :
  FloatSem.nonneg_float d = true -> TSP.rate_of d = Ok rate ->
  FloatSem.nonneg_float rate = true /\ Float.is_inf rate = false.
Proof.
  intros Hd Hrate. destruct (rate_of_cases d Hd) as (rate' & E & Hn & Hi & _).
  rewrite Hrate in E. injection E as <-. split; assumption.
Qed.

Lemma valid_cities_text (self self' : TSP.TSPBenchmark) (n : Z) (text : string) :
  forallb RateSpec.valid_city (TSP.cities self) = true ->
  TSP.calculate_distance_matrix self = (self', Ok tt) ->
  TSP.create_tsp_crn self' n = Ok text ->
  CRNSpec.ok_text CRNSpec.any_rate text.
Proof.
  intros Hv Hrun Htext.
  apply (create_tsp_crn_ok CRNSpec.any_rate self' n text
           (valid_cities_nonneg_matrix self self' Hv Hrun)); [| exact Htext].
  intros; exact I.
Qed.

Lemma unit_coord_valid (x : Float.float) :
  RateSpec.unit_coord x = true ->
  Float.is_finite x = true /\ valid_binary Float.prec Float.emax x = true.
Proof.
  unfold RateSpec.unit_coord. intros H.
  apply andb_true_iff in H as [H _]. apply andb_true_iff in H as [Hn Hi].
  destruct x as [[] | [] | | [] m e]; try discriminate; split;
    try reflexivity; exact Hn.
Qed.

Lemma box_cities_valid (cs : list TSP.city) :
  forallb RateSpec.in_box cs = true -> forallb RateSpec.valid_city cs = true.
Proof.
  intros H. apply forallb_forall. intros c Hc.
  rewrite forallb_forall in H. specialize (H c Hc).
  unfold RateSpec.in_box in H. apply andb_true_iff in H as [Hx Hy].
  destruct (unit_coord_valid _ Hx) as [H1 H2].
  destruct (unit_coord_valid _ Hy) as [H3 H4].
  unfold RateSpec.valid_city. rewrite H1, H2, H3, H4. reflexivity.
Qed.

(** C4, as amended.  On a TSP instance with finite coordinates whose
    distance matrix was computed, every ordered pair of distinct cities
    has its reaction line in the text returned by [create_tsp_crn], with
    the rate of its matrix entry; and of two pairs, the one with the
    strictly smaller distance has a rate at least as large, both as a
    float and as the thousandths printed in the text. *)
Theorem tsp_rate_monotone (self self' : TSP.TSPBenchmark) (n : Z) (text : string)
  (i j k l : Z) :
  forallb RateSpec.valid_city (TSP.cities self) = true ->
  TSP.calculate_distance_matrix self = (self', Ok tt) ->
  TSP.create_tsp_crn self' n = Ok text ->
  0 <= i < n -> 0 <= j < n -> i <> j ->
  0 <= k < n -> 0 <= l < n -> k <> l ->
  exists rowi rowk d1 d2 r1 r2,
    py_index (TSP.distance_matrix self') i = Ok rowi /\ py_index rowi j = Ok d1
    /\ py_index (TSP.distance_matrix self') k = Ok rowk /\ py_index rowk l = Ok d2
    /\ TSP.rate_of d1 = Ok r1 /\ TSP.rate_of d2 = Ok r2
    /\ RateSpec.line_of i j r1 ∈ CRN.lines text
    /\ RateSpec.line_of k l r2 ∈ CRN.lines text
    /\ PyFloat.format_3f r1 = RateSpec.text_of_milli (RateSpec.milli r1)
    /\ PyFloat.format_3f r2 = RateSpec.text_of_milli (RateSpec.milli r2)
    /\ (Float.ltb d1 d2 = true ->
        Float.leb r2 r1 = true /\ RateSpec.milli r2 <= RateSpec.milli r1).
Proof.
  intros Hv Hrun Htext Hi Hj Hij Hk Hl Hkl.
  pose proof (valid_cities_nonneg_matrix self self' Hv Hrun) as Hnn.
  destruct (create_tsp_crn_lines self' n text Htext i j Hi Hj Hij)
    as (rowi & d1 & r1 & Ei & Ed1 & Er1 & Hl1).
  destruct (create_tsp_crn_lines self' n text Htext k l Hk Hl Hkl)
    as (rowk & d2 & r2 & Ek & Ed2 & Er2 & Hl2).
  exists rowi, rowk, d1, d2, r1, r2.
  pose proof (entry_nonneg _ _ _ _ _ Hnn Ei Ed1) as Hd1.
  pose proof (entry_nonneg _ _ _ _ _ Hnn Ek Ed2) as Hd2.
  destruct (rate_of_valid d1 r1 Hd1 Er1) as [Hn1 Hi1].
  destruct (rate_of_valid d2 r2 Hd2 Er2) as [Hn2 Hi2].
  repeat (split; [assumption |]).
  split; [apply format_3f_milli; assumption |].
  split; [apply format_3f_milli; assumption |].
  intros Hlt.
  pose proof (rate_of_mono d1 d2 r1 r2 Hd1 Hd2 Hlt Er1 Er2) as Hle.
  split; [| apply milli_mono; assumption].
  pose proof (B2R_le_SFleb r2 r1 Hn2 Hn1) as H.
  unfold Float.leb.
  destruct r2 as [s2 | s2 | | s2 m2 e2]; try discriminate;
    destruct r1 as [s1 | s1 | | s1 m1 e1]; try discriminate; apply H, Hle.
Qed.

Lemma tsp_rate_monotone_witness :
  exists self' text,
    TSP.calculate_distance_matrix TSPSpec.three_cities = (self', Ok tt)
    /\ TSP.create_tsp_crn self' 3 = Ok text
    /\ exists d1 d2 r1 r2,
         TSP.rate_of d1 = Ok r1 /\ TSP.rate_of d2 = Ok r2
         /\ RateSpec.line_of 0 2 r1 ∈ CRN.lines text
         /\ RateSpec.line_of 0 1 r2 ∈ CRN.lines text
         /\ (Float.ltb d1 d2 = true ->
             Float.leb r2 r1 = true /\ RateSpec.milli r2 <= RateSpec.milli r1).
Proof.
  eexists _, _. split; [vm_compute; reflexivity |].
  split; [vm_compute; reflexivity |].
  destruct (tsp_rate_monotone TSPSpec.three_cities _ 3 _ 0 2 0 1
              eq_refl eq_refl eq_refl
              ltac:(lia) ltac:(lia) ltac:(lia) ltac:(lia) ltac:(lia) ltac:(lia))
    as (rowi & rowk & d1 & d2 & r1 & r2 & _ & _ & _ & _ & H1 & H2 & H3 & H4
        & _ & _ & H5).
  exists d1, d2, r1, r2. repeat split; try assumption; apply H5; assumption.
Defined.

(** C4, counterexample to the claim as stated.  For the cities
    [(0,0), (60,80), (0,99)] the distance from city 0 to city 2 (99.0) is
    strictly smaller than the distance from city 0 to city 1 (100.0), the
    float rates differ, and both reaction lines of the emitted text carry
    the same rate, [0.010]. *)
Lemma tsp_equal_rates_in_text :
  exists self' text row d01 d02 r01 r02,
    TSP.calculate_distance_matrix TSPSpec.three_cities = (self', Ok tt)
    /\ TSP.create_tsp_crn self' 3 = Ok text
    /\ py_index (TSP.distance_matrix self') 0 = Ok row
    /\ py_index row 1 = Ok d01 /\ py_index row 2 = Ok d02
    /\ Float.ltb d02 d01 = true
    /\ TSP.rate_of d01 = Ok r01 /\ TSP.rate_of d02 = Ok r02
    /\ Float.ltb r01 r02 = true
    /\ RateSpec.line_of 0 1 r01 = "city_0 -> city_1, rate=0.010"
    /\ RateSpec.line_of 0 2 r02 = "city_0 -> city_2, rate=0.010"
    /\ existsb (String.eqb (RateSpec.line_of 0 1 r01)) (CRN.lines text) = true
    /\ existsb (String.eqb (RateSpec.line_of 0 2 r02)) (CRN.lines text) = true.
Proof.
  eexists _, _, _, _, _, _, _.
  repeat (split; [vm_compute; reflexivity |]). vm_compute. reflexivity.
Qed.

(** ** Reading a decimal literal as a float *)

Section DecimalFloat.
Import FloatSem.

(** A valid positive float is determined by its value. *)
Lemma canonical_unique (m1 m2 : positive) (e1 e2 : Z) :
  SpecFloat.bounded Float.prec Float.emax m1 e1 = true ->
  SpecFloat.bounded Float.prec Float.emax m2 e2 = true ->
  F2R (Z.pos m1) e1 = F2R (Z.pos m2) e2 -> m1 = m2 /\ e1 = e2.
Proof.
  intros H1 H2 Hv.
  destruct (bounded_canonical m1 e1 H1) as [Hc1 _].
  destruct (bounded_canonical m2 e2 H2) as [Hc2 _].
  pose proof (digits_same_value m1 m2 e1 e2 Hv) as Hd.
  assert (He : e1 = e2) by (rewrite <- Hc1, <- Hc2, Hd; reflexivity).
  split; [| exact He]. subst e2. unfold F2R in Hv.
  pose proof (bpow_pos e1) as Hp.
  apply Rmult_eq_reg_r in Hv; [| lra].
  apply eq_IZR in Hv. congruence.
Qed.

(** A float whose magnitude is the rounding of a representable value is
    that value's float. *)
Lemma result_of_exact (m : positive) (e : Z) (r : R) (x : spec_float) :
  SpecFloat.bounded Float.prec Float.emax m e = true ->
  rounded (F2R (Z.pos m) e) r -> result_of false r x ->
  x = S754_finite false m e.
Proof.
  intros Hb Hr Hx.
  assert (Er : r = F2R (Z.pos m) e)
    by (apply (rounded_unique _ _ _ Hr), rounded_representable, Hb).
  subst r. pose proof (F2R_pos m e) as Hpos.
  pose proof (bounded_lt_emax m e Hb) as Hlt.
  destruct x as [s | s | | s m' e']; cbn [result_of] in Hx.
  - destruct Hx as [_ Hx]. lra.
  - destruct Hx as [_ Hx]. lra.
  - contradiction.
  - destruct Hx as (-> & Hv & Hb').
    destruct (canonical_unique m m' e e' Hb Hb' Hv) as [-> ->]. reflexivity.
Qed.

Lemma SFdiv_core_exponent (m1 m2 : positive) (e1 e2 : Z) :
  snd (fst (SFdiv_core_binary Float.prec Float.emax (Z.pos m1) e1 (Z.pos m2) e2))
  = Z.min (fexp Float.prec Float.emax
             (Z.pos (digits2_pos m1) + e1 - (Z.pos (digits2_pos m2) + e2)))
          (e1 - e2).
Proof.
  unfold SFdiv_core_binary. cbn [Zdigits2].
  destruct (Z.div_eucl _ _) as [q r]. reflexivity.
Qed.

(** The quotient of two positive numbers lies above the binade bound
    given by their digits. *)
Lemma quotient_above (m1 m2 : positive) (e1 e2 : Z) :
  (bpow (Z.pos (digits2_pos m1) + e1 - (Z.pos (digits2_pos m2) + e2) - 1)
   < F2R (Z.pos m1) e1 / F2R (Z.pos m2) e2)%R.
Proof.
  set (D := Z.pos (digits2_pos m1) + e1 - (Z.pos (digits2_pos m2) + e2)).
  set (v := (F2R (Z.pos m1) e1 / F2R (Z.pos m2) e2)%R).
  pose proof (F2R_binade m1 e1) as [Hx1 _].
  pose proof (F2R_binade m2 e2) as [_ Hy2].
  pose proof (F2R_pos m2 e2) as Hypos.
  assert (Hvy : (v * F2R (Z.pos m2) e2 = F2R (Z.pos m1) e1)%R)
    by (unfold v; field; lra).
  replace (Z.pos (digits2_pos m1) + e1 - 1)
    with ((D - 1) + (Z.pos (digits2_pos m2) + e2)) in Hx1 by (unfold D; lia).
  rewrite bpow_add in Hx1.
  pose proof (bpow_pos (D - 1)). pose proof (bpow_pos (Z.pos (digits2_pos m2) + e2)).
  assert (Hvpos : (0 < v)%R) by (unfold v; apply Rdiv_lt_0_compat; [apply F2R_pos | lra]).
  nra.
Qed.

(** The division of two positive integers is the rounding of their
    quotient whenever the integer quotient computed is positive. *)
Lemma div_integers_rounded (a b : positive) :
  0 < fst (fst (SFdiv_core_binary Float.prec Float.emax (Z.pos a) 0 (Z.pos b) 0)) ->
  exists r,
    rounded (IZR (Z.pos a) / IZR (Z.pos b)) r
    /\ result_of false r
         (Float.div (S754_finite false a 0) (S754_finite false b 0)).
Proof.
  intros Hqpos. unfold Float.div, SFdiv.
  pose proof (SFdiv_core_correct a b 0 0) as Hcore.
  pose proof (quotient_above a b 0 0) as Hvlow.
  destruct (SFdiv_core_binary Float.prec Float.emax (Z.pos a) 0 (Z.pos b) 0)
    as [[q e'] l].
  cbn [fst] in Hqpos. destruct Hcore as (Hin & He' & Hq0).
  assert (Hv : (F2R (Z.pos a) 0 / F2R (Z.pos b) 0 = IZR (Z.pos a) / IZR (Z.pos b))%R).
  { unfold F2R. rewrite bpow_0. f_equal; ring. }
  rewrite Hv in Hin, Hvlow. change (xorb false false) with false.
  apply binary_round_aux_correct; [exact Hqpos | exact Hin |].
  pose proof (inbetween_binade q e' l _ Hqpos Hin) as [_ Hk].
  set (D := Z.pos (digits2_pos a) + 0 - (Z.pos (digits2_pos b) + 0)) in *.
  assert (HDk : D <= Zdigits2 q + e').
  { assert (H : (bpow (D - 1) < bpow (Zdigits2 q + e'))%R) by lra.
    apply bpow_lt_inv in H. lia. }
  apply (cexp_mono _ _) in HDk. lia.
Qed.

(** When the integer quotient is zero the value is below the least
    positive float, and the division returns [+0.0] or that float. *)
Lemma div_integers_tiny (a b : positive) :
  fst (fst (SFdiv_core_binary Float.prec Float.emax (Z.pos a) 0 (Z.pos b) 0)) = 0 ->
  (IZR (Z.pos a) / IZR (Z.pos b) < bpow (emin Float.prec Float.emax))%R
  /\ (Float.div (S754_finite false a 0) (S754_finite false b 0) = S754_zero false
      \/ Float.div (S754_finite false a 0) (S754_finite false b 0)
         = S754_finite false 1 (emin Float.prec Float.emax)).
Proof.
  intros Hq. unfold Float.div, SFdiv.
  pose proof (SFdiv_core_correct a b 0 0) as Hcore.
  pose proof (SFdiv_core_exponent a b 0 0) as Hexp.
  pose proof (quotient_above a b 0 0) as Hvlow.
  destruct (SFdiv_core_binary Float.prec Float.emax (Z.pos a) 0 (Z.pos b) 0)
    as [[q e'] l].
  cbn [fst snd] in Hq, Hexp. subst q. destruct Hcore as (Hin & _ & _).
  assert (Hv : (F2R (Z.pos a) 0 / F2R (Z.pos b) 0 = IZR (Z.pos a) / IZR (Z.pos b))%R).
  { unfold F2R. rewrite bpow_0. f_equal; ring. }
  rewrite Hv in Hin, Hvlow.
  set (D := Z.pos (digits2_pos a) + 0 - (Z.pos (digits2_pos b) + 0)) in *.
  set (v := (IZR (Z.pos a) / IZR (Z.pos b))%R) in *.
  assert (Hvpos : (0 < v)%R).
  { unfold v. apply Rdiv_lt_0_compat; apply IZR_lt; lia. }
  assert (Hlt : (v < bpow e')%R).
  { destruct l as [| c]; cbn [inbetween] in Hin.
    - rewrite F2R_0 in Hin. lra.
    - destruct Hin as [[_ Hin] _]. change (0 + 1) with 1 in Hin.
      unfold F2R in Hin. lra. }
  assert (HD : D - 1 < e').
  { apply bpow_lt_inv. lra. }
  assert (He : e' = emin Float.prec Float.emax).
  { rewrite Hexp in HD |- *. unfold fexp, emin, Float.prec, Float.emax in *. lia. }
  split; [rewrite <- He; exact Hlt |].
  rewrite He. change (xorb false false) with false.
  destruct l as [| []]; [left | left | left | right]; vm_compute; reflexivity.
Qed.

Lemma binary_round_integer (m : positive) :
  exists r,
    rounded (IZR (Z.pos m)) r
    /\ result_of false r (binary_round Float.prec Float.emax false m 0).
Proof.
  destruct (binary_round_correct false m 0) as (r & Hr & Hres).
  exists r. split; [| exact Hres].
  replace (IZR (Z.pos m)) with (F2R (Z.pos m) 0); [exact Hr |].
  unfold F2R. rewrite bpow_0. ring.
Qed.

(** What a decimal literal reads as is a non-negative float. *)
Lemma float_of_decimal_nonneg (mant : N) (expo : Z) :
  nonneg_float (Net.float_of_decimal mant expo) = true.
Proof.
  destruct mant as [| m]; [reflexivity |].
  destruct expo as [| k | k]; cbn [Net.float_of_decimal].
  - destruct (binary_round_integer m) as (r & _ & H).
    apply (result_of_nonneg _ _ H).
  - destruct (binary_round_integer (m * 10 ^ k)) as (r & _ & H).
    apply (result_of_nonneg _ _ H).
  - destruct (Z_lt_le_dec 0
                (fst (fst (SFdiv_core_binary Float.prec Float.emax (Z.pos m) 0
                             (Z.pos (10 ^ k)) 0)))) as [Hq | Hq].
    + destruct (div_integers_rounded m (10 ^ k) Hq) as (r & _ & H).
      apply (result_of_nonneg _ _ H).
    + pose proof (SFdiv_core_correct m (10 ^ k) 0 0) as Hcore.
      assert (Hq0 : fst (fst (SFdiv_core_binary Float.prec Float.emax (Z.pos m) 0
                                (Z.pos (10 ^ k)) 0)) = 0).
      { destruct (SFdiv_core_binary _ _ _ _ _ _) as [[q e'] l].
        cbn [fst] in *. destruct Hcore as (_ & _ & H0). lia. }
      destruct (div_integers_tiny m (10 ^ k) Hq0) as [_ [-> | ->]]; reflexivity.
Qed.

(** Reading is correctly rounded: above the least positive float the
    result carries the rounding of the decimal value. *)
Lemma float_of_decimal_rounded (m k : positive) :
  (exists r, rounded (IZR (Z.pos m)) r
             /\ result_of false r (Net.float_of_decimal (N.pos m) 0))
  /\ (exists r, rounded (IZR (Z.pos (m * 10 ^ k))) r
                /\ result_of false r (Net.float_of_decimal (N.pos m) (Z.pos k)))
  /\ ((bpow (emin Float.prec Float.emax) <= IZR (Z.pos m) / IZR (Z.pos (10 ^ k)))%R ->
      exists r, rounded (IZR (Z.pos m) / IZR (Z.pos (10 ^ k))) r
                /\ result_of false r (Net.float_of_decimal (N.pos m) (Z.neg k))).
Proof.
  split; [apply binary_round_integer |].
  split; [apply binary_round_integer |].
  intros Hmin. cbn [Net.float_of_decimal].
  destruct (Z_lt_le_dec 0
              (fst (fst (SFdiv_core_binary Float.prec Float.emax (Z.pos m) 0
                           (Z.pos (10 ^ k)) 0)))) as [Hq | Hq].
  - apply div_integers_rounded, Hq.
  - exfalso. pose proof (SFdiv_core_correct m (10 ^ k) 0 0) as Hcore.
    assert (Hq0 : fst (fst (SFdiv_core_binary Float.prec Float.emax (Z.pos m) 0
                              (Z.pos (10 ^ k)) 0)) = 0).
    { destruct (SFdiv_core_binary _ _ _ _ _ _) as [[q e'] l].
      cbn [fst] in *. destruct Hcore as (_ & _ & H0). lia. }
    destruct (div_integers_tiny m (10 ^ k) Hq0) as [Hlt _]. lra.
Qed.

(** The exact decimal value of a valid float reads back as the float. *)
Lemma float_of_decimal_exact (m : positive) (e : Z) :
  SpecFloat.bounded Float.prec Float.emax m e = true ->
  Net.float_of_decimal (fst (Net.decimal_of_float (S754_finite false m e)))
    (snd (Net.decimal_of_float (S754_finite false m e)))
  = S754_finite false m e.
Proof.
  intros Hb. destruct e as [| k | k];
    cbn [Net.decimal_of_float fst snd Net.float_of_decimal].
  - destruct (binary_round_integer m) as (r & Hr & H).
    apply (result_of_exact m 0 r); [exact Hb | | exact H].
    replace (F2R (Z.pos m) 0) with (IZR (Z.pos m)); [exact Hr |].
    unfold F2R. rewrite bpow_0. ring.
  - destruct (binary_round_integer (m * 2 ^ k)) as (r & Hr & H).
    apply (result_of_exact m (Z.pos k) r); [exact Hb | | exact H].
    replace (F2R (Z.pos m) (Z.pos k)) with (IZR (Z.pos (m * 2 ^ k))); [exact Hr |].
    change (Z.pos k) with (0 + Z.pos k) at 1.
    rewrite <- (F2R_shift (Z.pos m) 0 (Z.pos k)) by lia.
    unfold F2R. rewrite bpow_0, Pos2Z.inj_mul, Pos2Z.inj_pow. ring.
  - set (a := (m * 5 ^ k)%positive). set (b := (10 ^ k)%positive).
    assert (Hv : (IZR (Z.pos a) / IZR (Z.pos b))%R = F2R (Z.pos m) (Z.neg k)).
    { unfold a, b, F2R. rewrite Pos2Z.inj_mul, !Pos2Z.inj_pow, mult_IZR.
      change (Z.neg k) with (- Z.pos k). rewrite bpow_opp, bpow_IZR by lia.
      change (Z.pos 10) with (2 * 5). rewrite Z.pow_mul_l, mult_IZR.
      assert (H2 : (0 < IZR (2 ^ Z.pos k))%R) by (apply IZR_lt; lia).
      assert (H5 : (0 < IZR (5 ^ Z.pos k))%R) by (apply IZR_lt; lia).
      field. split; lra. }
    destruct (bounded_canonical m (Z.neg k) Hb) as [Hc _].
    assert (Hmin : (bpow (emin Float.prec Float.emax) <= F2R (Z.pos m) (Z.neg k))%R).
    { apply Rle_trans with (bpow (Z.neg k)).
      - apply bpow_le. rewrite <- Hc. apply cexp_ge_emin.
      - unfold F2R. pose proof (bpow_pos (Z.neg k)).
        assert (1 <= IZR (Z.pos m))%R by (apply IZR_le; lia). nra. }
    destruct (Z_lt_le_dec 0
                (fst (fst (SFdiv_core_binary Float.prec Float.emax (Z.pos a) 0
                             (Z.pos b) 0)))) as [Hq | Hq].
    + destruct (div_integers_rounded a b Hq) as (r & Hr & H).
      rewrite Hv in Hr. apply (result_of_exact m (Z.neg k) r _ Hb Hr H).
    + exfalso. pose proof (SFdiv_core_correct a b 0 0) as Hcore.
      assert (Hq0 : fst (fst (SFdiv_core_binary Float.prec Float.emax (Z.pos a) 0
                                (Z.pos b) 0)) = 0).
      { destruct (SFdiv_core_binary _ _ _ _ _ _) as [[q e'] l].
        cbn [fst] in *. destruct Hcore as (_ & _ & H0). lia. }
      destruct (div_integers_tiny a b Hq0) as [Hlt _]. rewrite Hv in Hlt. lra.
Qed.

End DecimalFloat.

(** ** Float literals as text *)

Section FloatText.
Import CRN CRNSpec Net NetSpec.

Lemma uint_of_nilzero (d : Decimal.uint) :
  exists d', NilEmpty.uint_of_string (NilZero.string_of_uint d) = Some d'
             /\ N.of_uint d' = N.of_uint d.
Proof.
  destruct d; try (eexists; split; [apply NilEmpty.usu | reflexivity]).
  exists (Decimal.D0 Decimal.Nil). split; reflexivity.
Qed.

Lemma of_uint_to_uint (p : positive) : N.of_uint (Pos.to_uint p) = N.pos p.
Proof.
  pose proof (DecimalZ.of_to (Z.pos p)) as H.
  change (Z.of_N (N.of_uint (Pos.to_uint p)) = Z.of_N (N.pos p)) in H.
  apply N2Z.inj, H.
Qed.

(** The digits of a non-negative int read back as the int. *)
Lemma digits_value_str_int (z : Z) :
  0 <= z -> digits_value (str_int z) = Some (Z.to_N z).
Proof.
  intros Hz. unfold digits_value, str_int. destruct z as [| p | p]; [reflexivity | | lia].
  change (NilZero.string_of_int (Z.to_int (Z.pos p)))
    with (NilZero.string_of_uint (Pos.to_uint p)).
  destruct (uint_of_nilzero (Pos.to_uint p)) as (d' & -> & Hd).
  rewrite Hd, of_uint_to_uint. reflexivity.
Qed.

Lemma str_int_neg (p : positive) :
  str_int (Z.neg p) = String "-" (str_int (Z.pos p)).
Proof. reflexivity. Qed.

(** A non-empty run of digits has no underscore to drop. *)
Lemma digit_run_digits (s : string) :
  all_chars is_digit s = true -> is_empty s = false -> digit_run s = Some s.
Proof.
  induction s as [| c s IH]; [discriminate |].
  intros H _. simpl in H. apply andb_true_iff in H as [Hc Hs].
  cbn [digit_run]. rewrite Hc. destruct s as [| d s']; [reflexivity |].
  assert (Hd : Ascii.eqb d "_" = false).
  { simpl in Hs. apply andb_true_iff in Hs as [Hd _].
    destruct (Ascii.eqb d "_") eqn:E; [| reflexivity].
    apply Ascii.eqb_eq in E. subst d. discriminate. }
  rewrite Hd, (IH Hs eq_refl). reflexivity.
Qed.

Lemma split_exponent_digits (a b : string) :
  all_chars is_digit a = true ->
  split_exponent (a +:+ String "e" b) = (a, Some b).
Proof.
  induction a as [| c a IH]; intros H; [reflexivity |].
  simpl in H. apply andb_true_iff in H as [Hc Ha].
  change (String c a +:+ String "e" b) with (String c (a +:+ String "e" b)).
  cbn [split_exponent]. rewrite (IH Ha).
  assert (He : Ascii.eqb c "e" || Ascii.eqb c "E" = false).
  { destruct (Ascii.eqb c "e") eqn:E1;
      [apply Ascii.eqb_eq in E1; subst c; discriminate |].
    destruct (Ascii.eqb c "E") eqn:E2;
      [apply Ascii.eqb_eq in E2; subst c; discriminate | reflexivity]. }
  rewrite He. reflexivity.
Qed.

Lemma parse_sign_digit (c : ascii) (s : string) :
  is_digit c = true -> parse_sign (String c s) = (false, String c s).
Proof.
  intros Hc. cbn [parse_sign].
  destruct (Ascii.eqb c "-") eqn:E1;
    [apply Ascii.eqb_eq in E1; subst c; discriminate |].
  destruct (Ascii.eqb c "+") eqn:E2;
    [apply Ascii.eqb_eq in E2; subst c; discriminate | reflexivity].
Qed.

Lemma parse_sign_digits (s : string) :
  all_chars is_digit s = true -> parse_sign s = (false, s).
Proof.
  destruct s as [| c s]; [reflexivity |]. intros H. simpl in H.
  apply andb_true_iff in H as [Hc _]. apply parse_sign_digit, Hc.
Qed.

Lemma parse_mantissa_digits (s : string) :
  all_chars is_digit s = true -> is_empty s = false ->
  parse_mantissa s = Some (s, "").
Proof.
  intros Hd Hne. unfold parse_mantissa.
  rewrite split_first_none
    by (apply (all_chars_impl is_digit); [apply digit_not_char; reflexivity | exact Hd]).
  rewrite (digit_run_digits s Hd Hne). reflexivity.
Qed.

(** The exponent printed as an int reads back. *)
Lemma parse_exponent_str_int (z : Z) : parse_exponent (Some (str_int z)) = Some z.
Proof.
  assert (Hpos : forall n, 0 <= n ->
            parse_sign (str_int n) = (false, str_int n)
            /\ digit_run (str_int n) = Some (str_int n)
            /\ digits_value (str_int n) = Some (Z.to_N n)).
  { intros n Hn. destruct (str_int_nonneg n Hn) as [Hd Hne].
    split; [apply parse_sign_digits, Hd |].
    split; [apply digit_run_digits; assumption | apply digits_value_str_int, Hn]. }
  unfold parse_exponent. destruct z as [| p | p].
  - reflexivity.
  - destruct (Hpos (Z.pos p) ltac:(lia)) as (-> & -> & ->). reflexivity.
  - rewrite str_int_neg. cbn [parse_sign]. change (Ascii.eqb "-" "-") with true.
    cbv iota. destruct (Hpos (Z.pos p) ltac:(lia)) as (_ & -> & ->). reflexivity.
Qed.

Lemma print_float_chars (x : Float.float) :
  all_chars float_char (print_float x) = true /\ is_empty (print_float x) = false.
Proof.
  unfold print_float. destruct (decimal_of_float x) as [mant expo].
  destruct (str_int_nonneg (Z.of_N mant) ltac:(lia)) as [Hd Hne].
  split.
  - rewrite !all_chars_app.
    rewrite (all_chars_impl is_digit float_char _ ltac:(intros c H; unfold float_char; rewrite H; reflexivity) Hd).
    rewrite (all_chars_impl EncoderSpec.int_char float_char _
               ltac:(unfold EncoderSpec.int_char, float_char; intros c H;
                     apply orb_true_iff in H as [-> | ->];
                     [reflexivity | apply orb_true_r])
               (str_int_chars expo)).
    reflexivity.
  - destruct (str_int (Z.of_N mant)); [discriminate | reflexivity].
Qed.

Lemma float_char_not (sep : ascii) :
  float_char sep = false -> forall c, float_char c = true -> not_char sep c = true.
Proof.
  intros Hsep c Hc. unfold not_char.
  destruct (Ascii.eqb c sep) eqn:E; [| reflexivity].
  apply Ascii.eqb_eq in E. subst c. congruence.
Qed.

Lemma float_char_nonspace (c : ascii) : float_char c = true -> nonspace c = true.
Proof.
  intros H. unfold nonspace, is_space.
  destruct (Ascii.eqb c " ") eqn:E1;
    [apply Ascii.eqb_eq in E1; subst c; discriminate |].
  destruct (Ascii.eqb c "009") eqn:E2;
    [apply Ascii.eqb_eq in E2; subst c; discriminate |].
  destruct (Ascii.eqb c "013") eqn:E3;
    [apply Ascii.eqb_eq in E3; subst c; discriminate | reflexivity].
Qed.

(** The printed rate reads back as the rate. *)
Lemma parse_float_print (x : Float.float) :
  valid_rate x = true -> parse_float (print_float x) = Ok x.
Proof.
  intros Hx.
  assert (Hdec : float_of_decimal (fst (decimal_of_float x)) (snd (decimal_of_float x)) = x).
  { destruct x as [[] | [] | | [] m e]; try discriminate; [reflexivity |].
    apply float_of_decimal_exact, Hx. }
  unfold print_float. destruct (decimal_of_float x) as [mant expo].
  cbn [fst snd] in Hdec.
  destruct (str_int_nonneg (Z.of_N mant) ltac:(lia)) as [Hd Hne].
  pose proof (digits_value_str_int (Z.of_N mant) ltac:(lia)) as Hval.
  rewrite N2Z.id in Hval.
  pose proof (parse_mantissa_digits _ Hd Hne) as Hm.
  pose proof (split_exponent_digits (str_int (Z.of_N mant)) (str_int expo) Hd) as Hsplit.
  change (str_int (Z.of_N mant) +:+ "e" +:+ str_int expo)
    with (str_int (Z.of_N mant) +:+ String "e" (str_int expo)).
  unfold parse_float.
  assert (Hsign : parse_sign (str_int (Z.of_N mant) +:+ String "e" (str_int expo))
                  = (false, str_int (Z.of_N mant) +:+ String "e" (str_int expo))).
  { destruct (str_int (Z.of_N mant)) as [| c rest]; [discriminate |].
    simpl in Hd. apply andb_true_iff in Hd as [Hc _].
    apply (parse_sign_digit c _ Hc). }
  rewrite Hsign, Hsplit, Hm, parse_exponent_str_int, append_nil_r, Hval.
  change (Z.of_nat (String.length "")) with 0. rewrite Z.sub_0_r, Hdec.
  destruct x as [[] | [] | | [] m e]; try discriminate; reflexivity.
Qed.

End FloatText.

(** ** Reaction lines: printing, then parsing *)

Section NetRoundTrip.
Import CRN CRNSpec Net NetSpec.

Lemma parse_rate_text (t : string) (v : Float.float) :
  all_chars nonspace t = true -> is_empty t = false ->
  parse_float t = Ok v ->
  parse_rate (" rate=" +:+ t) = Ok v.
Proof.
  intros Hns Hne Hv. unfold parse_rate.
  assert (Hstrip : strip (" rate=" +:+ t) = "rate=" +:+ t).
  { unfold strip. change (lstrip (" rate=" +:+ t)) with ("rate=" +:+ t).
    apply rstrip_app_nonspace; assumption. }
  rewrite Hstrip.
  change (strip_prefix "rate" ("rate=" +:+ t)) with (Some ("=" +:+ t)).
  cbv beta iota.
  change (strip_prefix "=" (lstrip ("=" +:+ t))) with (Some t).
  cbv beta iota.
  assert (Hs2 : strip t = t).
  { unfold strip. destruct t as [| c t']; [discriminate |].
    simpl in Hns. apply andb_true_iff in Hns as [Hc Ht].
    rewrite lstrip_nonspace by exact Hc.
    apply rstrip_nonspace. simpl. rewrite Hc, Ht. reflexivity. }
  rewrite Hs2. exact Hv.
Qed.

(** A line [reactants -> products, rate=t] whose rate text reads as [v]
    is the reaction with these species and the rate [v]. *)
Lemma classify_reaction_text (rs ps : list string) (t : string) (v : Float.float) :
  forallb is_identifier rs = true -> is_nil rs = false ->
  forallb is_identifier ps = true -> is_nil ps = false ->
  all_chars nonspace t = true -> is_empty t = false ->
  parse_float t = Ok v ->
  classify_line (join_plus rs +:+ " -> " +:+ join_plus ps +:+ ", rate=" +:+ t)
  = Ok (ReactionLine {| reactants := rs; products := ps; rate := v |}).
Proof.
  intros Hr Hrne Hp Hpne Hns Hne Hv.
  set (line := join_plus rs +:+ " -> " +:+ join_plus ps +:+ ", rate=" +:+ t).
  destruct (join_plus_head rs Hr Hrne) as (c & rest & Hhead & Hc).
  assert (Hstrip : strip line = line).
  { unfold strip, line. rewrite Hhead.
    change (String c rest +:+ " -> " +:+ join_plus ps +:+ ", rate=" +:+ t)
      with (String c (rest +:+ " -> " +:+ join_plus ps +:+ ", rate=" +:+ t)).
    rewrite lstrip_nonspace by (apply alpha_nonspace, Hc).
    replace (String c (rest +:+ " -> " +:+ join_plus ps +:+ ", rate=" +:+ t))
      with ((String c rest +:+ " -> " +:+ join_plus ps +:+ ", rate=") +:+ t)
      by (rewrite !append_assoc; reflexivity).
    apply rstrip_app_nonspace; assumption. }
  unfold classify_line. rewrite Hstrip.
  assert (Hline : line = String c (rest +:+ " -> " +:+ join_plus ps +:+ ", rate=" +:+ t)).
  { unfold line. rewrite Hhead. reflexivity. }
  replace (is_empty line) with false by (rewrite Hline; reflexivity).
  replace (String.prefix "--" line) with false
    by (rewrite Hline; symmetry; apply prefix_dash_alpha, Hc).
  replace line
    with ((join_plus rs +:+ " ") +:+
          String "-" (String ">" (" " +:+ join_plus ps +:+ ", rate=" +:+ t)))
    by (unfold line; rewrite !append_assoc; reflexivity).
  rewrite split_arrow_app.
  2:{ rewrite all_chars_app.
      rewrite (all_chars_impl list_char _ _ (list_char_not "-" eq_refl)
                 (join_plus_chars _ Hr)). reflexivity. }
  replace (" " +:+ join_plus ps +:+ ", rate=" +:+ t)
    with ((" " +:+ join_plus ps) +:+ String "," (" rate=" +:+ t))
    by (rewrite !append_assoc; reflexivity).
  rewrite split_first_app.
  2:{ rewrite all_chars_app.
      rewrite (all_chars_impl list_char _ _ (list_char_not "," eq_refl)
                 (join_plus_chars _ Hp)). reflexivity. }
  pose proof (parse_species_join rs Hr Hrne "" " " eq_refl eq_refl) as Hprs.
  change ("" +:+ join_plus rs +:+ " ") with (join_plus rs +:+ " ") in Hprs.
  rewrite Hprs. cbn [rbind].
  pose proof (parse_species_join ps Hp Hpne " " "" eq_refl eq_refl) as Hpps.
  rewrite append_nil_r in Hpps. rewrite Hpps. cbn [rbind].
  rewrite (parse_rate_text t v Hns Hne Hv). reflexivity.
Qed.

Lemma valid_reaction_parts (r : Reaction) :
  valid_reaction r = true ->
  forallb is_identifier (reactants r) = true /\ is_nil (reactants r) = false
  /\ forallb is_identifier (products r) = true /\ is_nil (products r) = false
  /\ valid_rate (rate r) = true.
Proof.
  unfold valid_reaction. intros H.
  apply andb_true_iff in H as [H Hrate].
  apply andb_true_iff in H as [H Hpne].
  apply andb_true_iff in H as [H Hp].
  apply andb_true_iff in H as [Hr Hrne].
  apply negb_true_iff in Hpne, Hrne. repeat split; assumption.
Qed.

Lemma net_reaction_no_newline (r : Reaction) :
  valid_reaction r = true ->
  all_chars (not_char newline) (serialize_reaction r) = true.
Proof.
  intros H. destruct (valid_reaction_parts r H) as (Hr & _ & Hp & _ & _).
  unfold serialize_reaction. rewrite !all_chars_app.
  rewrite (all_chars_impl list_char _ _ (list_char_not newline eq_refl)
             (join_plus_chars _ Hr)).
  rewrite (all_chars_impl list_char _ _ (list_char_not newline eq_refl)
             (join_plus_chars _ Hp)).
  rewrite (all_chars_impl _ _ _ (float_char_not newline eq_refl)
             (proj1 (print_float_chars _))).
  reflexivity.
Qed.

Lemma classify_printed (r : Reaction) :
  valid_reaction r = true ->
  classify_line (serialize_reaction r) = Ok (ReactionLine r).
Proof.
  intros H. destruct (valid_reaction_parts r H) as (Hr & Hrne & Hp & Hpne & Hrate).
  destruct r as [rs ps x]. cbn [reactants products rate] in *.
  unfold serialize_reaction. cbn [reactants products rate].
  destruct (print_float_chars x) as [Hc Hne].
  apply classify_reaction_text; try assumption.
  - apply (all_chars_impl float_char); [apply float_char_nonspace | exact Hc].
  - apply parse_float_print, Hrate.
Qed.

Lemma parse_lines_printed (rs : list Reaction) :
  forallb valid_reaction rs = true ->
  parse_lines (lines (serialize_reactions rs)) = Ok rs.
Proof.
  induction rs as [| r rs IH]; intros H; [reflexivity |].
  simpl in H. apply andb_true_iff in H as [Hr Hrs].
  cbn [serialize_reactions].
  rewrite lines_cons by (apply net_reaction_no_newline, Hr).
  cbn [parse_lines]. rewrite (classify_printed r Hr). cbn [rbind].
  rewrite (IH Hrs). reflexivity.
Qed.

(** Round trip of the printer through the parser. *)
Lemma parse_printed (net : ReactionNetwork) :
  valid_network net = true -> parse (serialize net) = Ok net.
Proof.
  intros H. unfold parse, serialize.
  rewrite (parse_lines_printed _ H). destruct net. reflexivity.
Qed.

(** ** The parser only returns well-formed reactions *)

Lemma parse_float_valid (s : string) (x : Float.float) :
  parse_float s = Ok x -> valid_rate x = true.
Proof.
  unfold parse_float. destruct (parse_sign s) as [neg body].
  destruct (split_exponent body) as [m e].
  destruct (parse_mantissa m) as [[a b] |]; [| discriminate].
  destruct (parse_exponent e) as [ex |]; [| discriminate].
  destruct (digits_value (a +:+ b)) as [mant |]; [| discriminate].
  pose proof (float_of_decimal_nonneg mant (ex - Z.of_nat (String.length b))) as Hn.
  destruct (float_of_decimal mant (ex - Z.of_nat (String.length b)))
    as [[] | [] | | [] mm ee]; try discriminate; cbn [Float.is_zero Float.is_inf];
    try (intros [= <-]; reflexivity).
  - destruct neg; discriminate.
  - destruct neg; [discriminate |]. intros [= <-]. exact Hn.
Qed.

Lemma parse_rate_valid (s : string) (x : Float.float) :
  parse_rate s = Ok x -> valid_rate x = true.
Proof.
  unfold parse_rate.
  destruct (strip_prefix "rate" (strip s)) as [t |]; [| discriminate].
  destruct (strip_prefix "=" (lstrip t)) as [u |]; [| discriminate].
  apply parse_float_valid.
Qed.

Lemma classify_line_valid (l : string) (r : Reaction) :
  classify_line l = Ok (ReactionLine r) -> valid_reaction r = true.
Proof.
  unfold classify_line.
  destruct (is_empty (strip l)); [discriminate |].
  destruct (String.prefix "--" (strip l)); [discriminate |].
  destruct (split_arrow (strip l)) as [[lhs rhs] |]; [| discriminate].
  destruct (split_first "," rhs) as [[prods ratefield] |]; [| discriminate].
  destruct (parse_species_list lhs) as [rs |] eqn:Ers; [| discriminate].
  cbn [rbind].
  destruct (parse_species_list prods) as [ps |] eqn:Eps; [| discriminate].
  cbn [rbind].
  destruct (parse_rate ratefield) as [rt |] eqn:Ert; [| discriminate].
  cbn [rbind]. intros [= <-].
  destruct (parse_species_list_sound _ _ Ers) as [H1 H2].
  destruct (parse_species_list_sound _ _ Eps) as [H3 H4].
  unfold valid_reaction. cbn [reactants products rate].
  rewrite H1, H2, H3, H4, (parse_rate_valid _ _ Ert). reflexivity.
Qed.

Lemma parse_lines_valid (ls : list string) (rs : list Reaction) :
  parse_lines ls = Ok rs -> forallb valid_reaction rs = true.
Proof.
  revert rs. induction ls as [| l ls IH]; intros rs H.
  - injection H as <-. reflexivity.
  - cbn [parse_lines] in H.
    destruct (classify_line l) as [k |] eqn:Ek; [| discriminate].
    cbn [rbind] in H.
    destruct (parse_lines ls) as [rs' |]; [| discriminate].
    cbn [rbind] in H. injection H as <-.
    specialize (IH rs' eq_refl).
    destruct k as [| | r]; try exact IH.
    simpl. rewrite (classify_line_valid l r Ek), IH. reflexivity.
Qed.

Lemma parse_valid (text : string) (net : ReactionNetwork) :
  parse text = Ok net -> valid_network net = true.
Proof.
  unfold parse. destruct (parse_lines (lines text)) as [rs |] eqn:E; [| discriminate].
  intros [= <-]. apply (parse_lines_valid _ _ E).
Qed.

Lemma classify_comment_line (l : string) :
  String.prefix "--" l = true -> classify_line l = Ok Comment.
Proof.
  destruct l as [| c1 [| c2 l]]; try discriminate.
  - cbn [String.prefix]. destruct (ascii_dec "-" c1); discriminate.
  - cbn [String.prefix].
    destruct (ascii_dec "-" c1) as [<- |]; [| discriminate].
    destruct (ascii_dec "-" c2) as [<- |]; [| discriminate].
    intros _. unfold classify_line, strip.
    change (lstrip (String "-" (String "-" l))) with (String "-" (String "-" l)).
    change (rstrip (String "-" (String "-" l)))
      with (String "-" (String "-" (rstrip l))).
    destruct (rstrip l); reflexivity.
Qed.

(** ** Blocks of lines and their reactions *)

Lemma block_net_empty : block_net "" [].
Proof. intros t rs' H. exact H. Qed.

Lemma block_net_app (a b : string) (ra rb : list Reaction) :
  block_net a ra -> block_net b rb -> block_net (a +:+ b) (ra ++ rb).
Proof.
  intros Ha Hb t rs' H. rewrite append_assoc, <- app_assoc.
  apply Ha, Hb, H.
Qed.

Lemma block_net_line (l : string) (k : line_kind) :
  all_chars (not_char newline) l = true -> classify_line l = Ok k ->
  block_net (l +:+ nl)
    (match k with ReactionLine r => [r] | _ => [] end).
Proof.
  intros Hnl Hk t rs' H. rewrite append_assoc.
  rewrite lines_cons by exact Hnl.
  cbn [parse_lines]. rewrite Hk, H. cbn [rbind].
  destruct k; reflexivity.
Qed.

Lemma block_net_blank : block_net nl [].
Proof. apply (block_net_line "" Blank); reflexivity. Qed.

Lemma block_net_comment (l : string) :
  all_chars (not_char newline) l = true -> String.prefix "--" l = true ->
  block_net (l +:+ nl) [].
Proof.
  intros Hnl Hp. apply (block_net_line l Comment Hnl), classify_comment_line, Hp.
Qed.

Lemma block_net_reaction (rs ps : list string) (t : string) (v : Float.float) :
  forallb is_identifier rs = true -> is_nil rs = false ->
  forallb is_identifier ps = true -> is_nil ps = false ->
  all_chars nonspace t = true -> is_empty t = false ->
  all_chars (not_char newline) t = true ->
  parse_float t = Ok v ->
  block_net ((join_plus rs +:+ " -> " +:+ join_plus ps +:+ ", rate=" +:+ t) +:+ nl)
    [ {| reactants := rs; products := ps; rate := v |} ].
Proof.
  intros Hr Hrne Hp Hpne Hns Hne Hnl Hv.
  apply (block_net_line _ (ReactionLine {| reactants := rs; products := ps; rate := v |})).
  - rewrite !all_chars_app.
    rewrite (all_chars_impl list_char _ _ (list_char_not newline eq_refl)
               (join_plus_chars _ Hr)).
    rewrite (all_chars_impl list_char _ _ (list_char_not newline eq_refl)
               (join_plus_chars _ Hp)).
    rewrite Hnl. reflexivity.
  - apply classify_reaction_text; assumption.
Qed.

(** The text of a block parses to the network of its reactions. *)
Lemma block_net_parse (b : string) (rs : list Reaction) :
  block_net b rs -> parse b = Ok {| reactions := rs |}.
Proof.
  intros H. specialize (H "" [] eq_refl).
  rewrite append_nil_r, app_nil_r in H.
  unfold parse. rewrite H. reflexivity.
Qed.

End NetRoundTrip.

(** ** The network of the SAT encoder's text *)

Section SatNetwork.
Import CRN CRNSpec EncoderSpec Net NetSpec.

Lemma same_float_eq (x y : Float.float) : same_float x y = true -> x = y.
Proof.
  destruct x as [a | a | | a m e], y as [b | b | | b m' e']; simpl;
    try discriminate; try reflexivity.
  - intros H. apply Bool.eqb_prop in H. congruence.
  - intros H. apply Bool.eqb_prop in H. congruence.
  - intros H. apply andb_true_iff in H as [H He].
    apply andb_true_iff in H as [Ha Hm].
    apply Bool.eqb_prop in Ha. apply Pos.eqb_eq in Hm. apply Z.eqb_eq in He.
    congruence.
Qed.

Lemma variable_reactions_net (vars : list string) :
  forallb is_identifier vars = true ->
  block_net (SAT.variable_reactions vars) (flip_reactions vars).
Proof.
  induction vars as [| var vars IH]; intros H; [apply block_net_empty |].
  simpl in H. apply andb_true_iff in H as [Hv Hvs].
  cbn [SAT.variable_reactions].
  replace (var +:+ "_false -> " +:+ var +:+ "_true, rate=1.0" +:+ nl +:+
           var +:+ "_true -> " +:+ var +:+ "_false, rate=1.0" +:+ nl +:+
           SAT.variable_reactions vars)
    with (((join_plus [var +:+ "_false"] +:+ " -> " +:+ join_plus [var +:+ "_true"]
            +:+ ", rate=" +:+ "1.0") +:+ nl)
          +:+ ((join_plus [var +:+ "_true"] +:+ " -> " +:+ join_plus [var +:+ "_false"]
                +:+ ", rate=" +:+ "1.0") +:+ nl)
          +:+ SAT.variable_reactions vars)
    by (cbn [join_plus]; str_assoc).
  assert (Hf : forallb is_identifier [var +:+ "_false"] = true)
    by (cbn [forallb]; rewrite is_identifier_app; [reflexivity | exact Hv | reflexivity]).
  assert (Ht : forallb is_identifier [var +:+ "_true"] = true)
    by (cbn [forallb]; rewrite is_identifier_app; [reflexivity | exact Hv | reflexivity]).
  change (flip_reactions (var :: vars))
    with ([ {| reactants := [var +:+ "_false"]; products := [var +:+ "_true"];
               rate := Float.one |} ]
          ++ [ {| reactants := [var +:+ "_true"]; products := [var +:+ "_false"];
                  rate := Float.one |} ]
          ++ flip_reactions vars).
  apply block_net_app; [| apply block_net_app; [| apply IH, Hvs]];
    apply block_net_reaction; try assumption; reflexivity.
Qed.

Lemma clause_reactants_species (vars : list string) (c : SAT.clause)
  (rs : list string) :
  SAT.clause_reactants vars c = Ok rs -> rs = literal_species vars <$> c.
Proof.
  revert rs. induction c as [| [idx negated] c IH]; intros rs H.
  - injection H as <-. reflexivity.
  - cbn [SAT.clause_reactants] in H.
    destruct (py_index vars idx) as [name |] eqn:E; [| discriminate].
    cbn [rbind] in H.
    destruct (SAT.clause_reactants vars c) as [rs' |]; [| discriminate].
    cbn [rbind] in H. injection H as <-.
    rewrite fmap_cons, <- (IH rs' eq_refl).
    unfold literal_species at 1. cbn [fst snd]. rewrite E. reflexivity.
Qed.

Lemma reactant_lines_net (i : Z) (rs : list string) :
  0 <= i -> forallb is_identifier rs = true ->
  block_net (SAT.reactant_lines i rs)
    ((fun x => {| reactants := [x];
                  products := ["clause_" +:+ str_int i +:+ "_satisfied"];
                  rate := ten |}) <$> rs).
Proof.
  intros Hi. induction rs as [| x rs IH]; intros H; [apply block_net_empty |].
  simpl in H. apply andb_true_iff in H as [Hx Hrs].
  cbn [SAT.reactant_lines].
  replace (x +:+ " -> clause_" +:+ str_int i +:+ "_satisfied, rate=10.0" +:+ nl
           +:+ SAT.reactant_lines i rs)
    with (((join_plus [x] +:+ " -> "
            +:+ join_plus ["clause_" +:+ str_int i +:+ "_satisfied"]
            +:+ ", rate=" +:+ "10.0") +:+ nl) +:+ SAT.reactant_lines i rs)
    by (cbn [join_plus]; str_assoc).
  assert (Hprod : is_identifier ("clause_" +:+ str_int i +:+ "_satisfied") = true).
  { apply (is_identifier_app "clause_"); [reflexivity |].
    rewrite all_chars_app.
    rewrite (digits_ident _ (proj1 (str_int_nonneg i Hi))). reflexivity. }
  rewrite fmap_cons.
  apply (block_net_app _ _ [_]); [| apply IH, Hrs].
  apply block_net_reaction; try reflexivity.
  - cbn [forallb]. rewrite Hx. reflexivity.
  - cbn [forallb]. rewrite Hprod. reflexivity.
Qed.

Lemma clause_reactions_net (vars : list string) (cs : list SAT.clause) :
  forallb is_identifier vars = true ->
  forall i, 0 <= i ->
    forallb (forallb (fun l : SAT.literal =>
                        SATSpec.index_in_range (length vars) (fst l))) cs = true ->
    exists body, SAT.clause_reactions vars i cs = Ok body
                 /\ block_net body (clauses_reactions vars i cs).
Proof.
  intros Hv. induction cs as [| c cs IH]; intros i Hi Hwf.
  - exists "". split; [reflexivity | apply block_net_empty].
  - simpl in Hwf. apply andb_true_iff in Hwf as [Hc Hcs].
    destruct (clause_reactants_ok vars c Hv Hc) as (rs & Hrs & Hid).
    destruct (IH (i + 1) ltac:(lia) Hcs) as (tail & Htail & Hblock).
    cbn [SAT.clause_reactions]. rewrite Hrs. cbn [rbind]. rewrite Htail.
    cbn [rbind]. eexists. split; [reflexivity |].
    replace ("-- Clause " +:+ str_int (i + 1) +:+ ": " +:+ SAT.repr_clause c +:+ nl
             +:+ SAT.reactant_lines i rs +:+ tail)
      with ((("-- Clause " +:+ str_int (i + 1) +:+ ": " +:+ SAT.repr_clause c) +:+ nl)
            +:+ SAT.reactant_lines i rs +:+ tail)
      by (rewrite !append_assoc; reflexivity).
    cbn [clauses_reactions].
    apply (block_net_app _ _ []).
    + apply block_net_comment; [| reflexivity].
      apply repr_char_not_newline. rewrite !all_chars_app.
      rewrite (int_repr_char _ (str_int_chars (i + 1))), repr_clause_chars.
      reflexivity.
    + apply block_net_app; [| exact Hblock].
      unfold clause_reactions_of.
      pose proof (reactant_lines_net i rs Hi Hid) as H.
      rewrite (clause_reactants_species vars c rs Hrs) in H |- *.
      rewrite <- list_fmap_compose in H. exact H.
Qed.

Lemma sat_header_net : block_net SAT.crn_header [].
Proof.
  unfold SAT.crn_header.
  change [] with ([] ++ [] ++ [] ++ @nil Reaction).
  repeat (rewrite <- append_assoc; apply block_net_app).
  - apply block_net_comment; reflexivity.
  - apply block_net_comment; reflexivity.
  - apply block_net_comment; reflexivity.
  - apply block_net_blank.
Qed.

(** The text of [create_sat_crn] parses to the network of the instance. *)
Lemma create_sat_crn_network (self : SAT.SATBenchmark) :
  identifier_names self = true -> SATSpec.well_formed self = true ->
  exists text, SAT.create_sat_crn self = Ok text
               /\ parse text = Ok (sat_network self).
Proof.
  intros Hid Hwf.
  destruct (clause_reactions_net (SAT.variables self) (SAT.clauses self)
              Hid 0 ltac:(lia) Hwf) as (body & Hbody & Hblock).
  unfold SAT.create_sat_crn. rewrite Hbody. cbn [rbind].
  eexists. split; [reflexivity |]. apply block_net_parse.
  apply (block_net_app _ _ []); [apply sat_header_net |].
  apply block_net_app; [apply variable_reactions_net, Hid |].
  apply (block_net_app nl _ []); [apply block_net_blank |].
  apply (block_net_app ("-- Clause satisfaction reactions" +:+ nl) _ []);
    [| exact Hblock].
  apply block_net_comment; reflexivity.
Qed.

End SatNetwork.

(** ** The network of the TSP encoder's text *)

Section TspNetwork.
Import CRN CRNSpec EncoderSpec TSP TSPSpec FloatSem RateSpec Net NetSpec.

Lemma milli_texts_read_back : forallb reads_back (seq 0 1001) = true.
Proof. vm_compute. reflexivity. Qed.

Lemma milli_text_reads (n : Z) :
  0 <= n <= 1000 ->
  parse_float (text_of_milli n) = Ok (float_of_decimal (Z.to_N n) (-3))
  /\ all_chars nonspace (text_of_milli n) = true
  /\ is_empty (text_of_milli n) = false
  /\ all_chars (not_char newline) (text_of_milli n) = true.
Proof.
  intros Hn.
  pose proof milli_texts_read_back as H. rewrite forallb_forall in H.
  specialize (H (Z.to_nat n)).
  assert (Hin : In (Z.to_nat n) (seq 0 1001)) by (apply in_seq; lia).
  specialize (H Hin). unfold reads_back in H.
  rewrite Z2Nat.id in H by lia. cbv zeta in H.
  apply andb_true_iff in H as [H H4]. apply andb_true_iff in H as [H H3].
  apply andb_true_iff in H as [H1 H2]. apply negb_true_iff in H3.
  repeat split; try assumption.
  destruct (parse_float (text_of_milli n)) as [x |]; [| discriminate].
  apply same_float_eq in H1. rewrite H1. f_equal. f_equal. lia.
Qed.

(** The rate text of an entry of a non-negative matrix reads back as the
    float nearest to its three decimals. *)
Lemma rate_text_reads (d rate : Float.float) :
  nonneg_float d = true -> rate_of d = Ok rate ->
  parse_float (PyFloat.format_3f rate) = Ok (printed_rate rate)
  /\ all_chars nonspace (PyFloat.format_3f rate) = true
  /\ is_empty (PyFloat.format_3f rate) = false
  /\ all_chars (not_char newline) (PyFloat.format_3f rate) = true.
Proof.
  intros Hd Hrate.
  destruct (rate_of_valid d rate Hd Hrate) as [Hn Hi].
  pose proof (rate_of_le_1 d rate Hd Hrate) as [_ Hle].
  rewrite (format_3f_milli rate Hn Hi).
  apply milli_text_reads, milli_nonneg_le; assumption.
Qed.

Lemma city_identifier (i : Z) :
  0 <= i -> forallb is_identifier ["city_" +:+ str_int i] = true.
Proof.
  intros Hi. cbn [forallb]. rewrite (is_identifier_app "city_"); [reflexivity.. |].
  apply digits_ident, str_int_nonneg, Hi.
Qed.

Section Rows.
Variable m : matrix.
Hypothesis nonneg : nonneg_matrix m.

Lemma crn_row_net (i : Z) (js : list Z) :
  0 <= i -> (forall j, j ∈ js -> 0 <= j) ->
  forall s, crn_row m i js = Ok s -> block_net s (row_reactions m i js).
Proof.
  intros Hi. induction js as [| j js IH]; intros Hjs s Hs.
  - injection Hs as <-. apply block_net_empty.
  - assert (Hjs' : forall k, k ∈ js -> 0 <= k)
      by (intros k Hk; apply Hjs; right; exact Hk).
    assert (Hj : 0 <= j) by (apply Hjs; left).
    cbn [crn_row] in Hs. unfold row_reactions. rewrite bind_cons.
    fold (row_reactions m i js).
    destruct (i =? j) eqn:Eij; [apply (IH Hjs' s Hs) |].
    destruct (py_index m i) as [row |] eqn:Erow; [| discriminate].
    cbn [rbind] in Hs.
    destruct (py_index row j) as [d |] eqn:Ed; [| discriminate].
    cbn [rbind] in Hs.
    destruct (rate_of d) as [rate |] eqn:Erate; [| discriminate].
    cbn [rbind] in Hs.
    destruct (crn_row m i js) as [rest |]; [| discriminate].
    cbn [rbind] in Hs. injection Hs as <-.
    assert (Hpr : pair_rate m i j = printed_rate rate).
    { unfold pair_rate. rewrite Erow. cbn [rbind]. rewrite Ed. cbn [rbind].
      rewrite Erate. reflexivity. }
    rewrite Hpr.
    destruct (rate_text_reads d rate (entry_nonneg m i j row d nonneg Erow Ed) Erate)
      as (Hread & Hns & Hne & Hnl).
    change (block_net (reaction_line i j rate +:+ rest)
              ([ {| reactants := ["city_" +:+ str_int i];
                    products := ["city_" +:+ str_int j];
                    rate := printed_rate rate |} ] ++ row_reactions m i js)).
    apply block_net_app; [| apply (IH Hjs' rest eq_refl)].
    replace (reaction_line i j rate)
      with ((join_plus ["city_" +:+ str_int i] +:+ " -> "
             +:+ join_plus ["city_" +:+ str_int j]
             +:+ ", rate=" +:+ PyFloat.format_3f rate) +:+ nl)
      by (unfold reaction_line; cbn [join_plus]; str_assoc).
    apply block_net_reaction; try assumption; try reflexivity;
      apply city_identifier; assumption.
Qed.

Lemma crn_rows_net (n : Z) (rows : list Z) :
  (forall i, i ∈ rows -> 0 <= i) ->
  forall s, crn_rows m n rows = Ok s ->
    block_net s (rows ≫= fun i => row_reactions m i (py_range n)).
Proof.
  induction rows as [| i rows IH]; intros Hrows s Hs.
  - injection Hs as <-. apply block_net_empty.
  - cbn [crn_rows] in Hs.
    destruct (crn_row m i (py_range n)) as [r |] eqn:Er; [| discriminate].
    cbn [rbind] in Hs.
    destruct (crn_rows m n rows) as [rest |]; [| discriminate].
    cbn [rbind] in Hs. injection Hs as <-.
    rewrite bind_cons. apply block_net_app.
    + apply crn_row_net; [apply Hrows; left | | exact Er].
      intros j Hj. apply elem_of_py_range in Hj. lia.
    + apply IH; [| reflexivity]. intros k Hk. apply Hrows. right. exact Hk.
Qed.

End Rows.

Lemma tsp_header_net (n : Z) : block_net (crn_header n) [].
Proof.
  unfold crn_header.
  replace (nl +:+ "-- TSP Chemical Reaction Network for " +:+ str_int n
           +:+ " cities" +:+ nl
           +:+ "-- Each city is represented as a molecular species" +:+ nl
           +:+ nl +:+ "-- City selection reactions" +:+ nl)
    with (nl
          +:+ (("-- TSP Chemical Reaction Network for " +:+ str_int n
                +:+ " cities") +:+ nl)
          +:+ ("-- Each city is represented as a molecular species" +:+ nl)
          +:+ nl +:+ ("-- City selection reactions" +:+ nl))
    by (rewrite !append_assoc; reflexivity).
  apply (block_net_app _ _ [] []); [apply block_net_blank |].
  apply (block_net_app _ _ [] []);
    [apply block_net_comment;
     [rewrite !all_chars_app, int_not_newline; reflexivity | reflexivity] |].
  apply (block_net_app _ _ [] []); [apply block_net_comment; reflexivity |].
  apply (block_net_app _ _ [] []); [apply block_net_blank |].
  apply block_net_comment; reflexivity.
Qed.

(** The text of [create_tsp_crn] on a non-negative matrix parses to the
    network of the instance. *)
Lemma create_tsp_crn_network (self : TSPBenchmark) (n : Z) (text : string) :
  nonneg_matrix (distance_matrix self) ->
  create_tsp_crn self n = Ok text ->
  parse text = Ok (tsp_network self n).
Proof.
  intros Hn. unfold create_tsp_crn.
  destruct (crn_rows (distance_matrix self) n (py_range n)) as [body |] eqn:E;
    [| discriminate].
  cbn [rbind]. intros Heq.
  assert (Et : text = crn_header n +:+ body) by congruence.
  rewrite Et. apply block_net_parse.
  apply (block_net_app (crn_header n) body []); [apply tsp_header_net |].
  apply (crn_rows_net (distance_matrix self) Hn n (py_range n)); [| exact E].
  intros i Hi. apply elem_of_py_range in Hi. lia.
Qed.

End TspNetwork.

(** Spellings of one rate read as the same float, and the forms of a
    float literal are all read. *)
Example rate_spellings :
  Net.parse_float "1.0" = Ok Float.one
  /\ Net.parse_float "1.00" = Ok Float.one
  /\ Net.parse_float "+1." = Ok Float.one
  /\ Net.parse_float "1e0" = Ok Float.one
  /\ Net.parse_float "10E-1" = Ok Float.one
  /\ Net.parse_float ".5" = Ok (S754_finite false 4503599627370496 (-53))
  /\ Net.parse_float "1e-3" = Ok (S754_finite false 4611686018427388 (-62))
  /\ Net.parse_float "-0.0" = Ok Float.zero
  /\ Net.parse_float "-1.0" = Raise ParseError
  /\ Net.parse_float "1e400" = Raise ParseError
  /\ Net.parse_float "abc" = Raise ParseError
  /\ Net.parse "a -> b, rate=abc" = Raise ParseError.
Proof. vm_compute. repeat split. Qed.

(** C5.  Parsing the printed text of a network gives the network back:
    for every network the text format can express (non-empty lists of
    identifiers, a rate that is [0.0] or a positive finite float), hence
    for the network parsed from any text.  The text of the SAT encoder
    parses to the network of the instance: the two flip reactions of each
    variable at rate [1.0], then one reaction per literal of each clause
    at rate [10.0].  The text of the TSP encoder parses to one reaction
    [city_i -> city_j] per ordered pair of distinct cities, row by row,
    at the float nearest to the three decimals printed for
    [1.0 / (distance + 1.0)].  Both networks are preserved by printing
    and parsing again. *)
Theorem crn_text_round_trip :
  (forall net, Net.valid_network net = true ->
               Net.parse (Net.serialize net) = Ok net)
  /\ (forall text net, Net.parse text = Ok net ->
                       Net.parse (Net.serialize net) = Ok net)
  /\ (forall self,
        EncoderSpec.identifier_names self = true ->
        SATSpec.well_formed self = true ->
        exists text,
          SAT.create_sat_crn self = Ok text
          /\ Net.parse text = Ok (NetSpec.sat_network self)
          /\ Net.parse (Net.serialize (NetSpec.sat_network self))
             = Ok (NetSpec.sat_network self))
  /\ (forall self self' n text,
        forallb RateSpec.valid_city (TSP.cities self) = true ->
        TSP.calculate_distance_matrix self = (self', Ok tt) ->
        TSP.create_tsp_crn self' n = Ok text ->
        Net.parse text = Ok (NetSpec.tsp_network self' n)
        /\ Net.parse (Net.serialize (NetSpec.tsp_network self' n))
           = Ok (NetSpec.tsp_network self' n)).
Proof.
  split; [exact parse_printed |].
  split; [intros text net H; apply parse_printed, (parse_valid text net H) |].
  split.
  - intros self Hid Hwf.
    destruct (create_sat_crn_network self Hid Hwf) as (text & Htext & Hp).
    exists text. split; [exact Htext |]. split; [exact Hp |].
    apply parse_printed, (parse_valid text _ Hp).
  - intros self self' n text Hv Hrun Htext.
    pose proof (create_tsp_crn_network self' n text
                  (valid_cities_nonneg_matrix self self' Hv Hrun) Htext) as Hp.
    split; [exact Hp |]. apply parse_printed, (parse_valid text _ Hp).
Qed.

Lemma crn_text_round_trip_witness :
  Net.parse (Net.serialize NetSpec.sample_network) = Ok NetSpec.sample_network
  /\ (exists text,
        SAT.create_sat_crn SATSpec.x0_or_not_x1 = Ok text
        /\ Net.parse text = Ok (NetSpec.sat_network SATSpec.x0_or_not_x1)
        /\ Net.parse (Net.serialize (NetSpec.sat_network SATSpec.x0_or_not_x1))
           = Ok (NetSpec.sat_network SATSpec.x0_or_not_x1))
  /\ exists self' text,
       TSP.calculate_distance_matrix TSPSpec.three_cities = (self', Ok tt)
       /\ TSP.create_tsp_crn self' 3 = Ok text
       /\ Net.parse text = Ok (NetSpec.tsp_network self' 3).
Proof.
  destruct crn_text_round_trip as (H1 & _ & H3 & H4).
  split; [apply H1; reflexivity |].
  split; [apply H3; reflexivity |].
  exists (fst (TSP.calculate_distance_matrix TSPSpec.three_cities)).
  destruct (TSP.create_tsp_crn (fst (TSP.calculate_distance_matrix TSPSpec.three_cities)) 3)
    as [text |] eqn:E; [| vm_compute in E; discriminate].
  exists text. split; [vm_compute; reflexivity |]. split; [reflexivity |].
  apply (H4 TSPSpec.three_cities _ 3 text); [reflexivity | vm_compute; reflexivity | exact E].
Defined.

(** C6.  Every line of the text returned by [create_sat_crn] (on an
    instance whose variable names are identifiers and whose literals index
    declared variables, as every instance written by
    [generate_3sat_instance] is) and by [create_tsp_crn] (on the distance
    matrix computed from cities with finite coordinates, as the cities
    drawn by [generate_cities] are) is blank, a [--] comment, or a
    reaction [reactant[ + reactant]* -> product[ + product]*, rate=<numeral>]
    whose species names are identifiers. *)
Theorem encoders_emit_well_formed_text :
  (forall self,
     EncoderSpec.identifier_names self = true ->
     SATSpec.well_formed self = true ->
     exists text, SAT.create_sat_crn self = Ok text
                  /\ CRNSpec.ok_text CRNSpec.any_rate text)
  /\ (forall num_vars num_clauses g self g',
        SAT.generate_3sat_instance num_vars num_clauses g = Ok (self, g') ->
        exists text, SAT.create_sat_crn self = Ok text
                     /\ CRNSpec.ok_text CRNSpec.any_rate text)
  /\ (forall self self' n text,
        forallb RateSpec.valid_city (TSP.cities self) = true ->
        TSP.calculate_distance_matrix self = (self', Ok tt) ->
        TSP.create_tsp_crn self' n = Ok text ->
        CRNSpec.ok_text CRNSpec.any_rate text)
  /\ (forall self n g,
        exists self' text,
          TSP.calculate_distance_matrix (fst (TSP.generate_cities self n g))
          = (self', Ok tt)
          /\ TSP.create_tsp_crn self' n = Ok text
          /\ CRNSpec.ok_text CRNSpec.any_rate text).
Proof.
  assert (Hsat : forall self,
     EncoderSpec.identifier_names self = true ->
     SATSpec.well_formed self = true ->
     exists text, SAT.create_sat_crn self = Ok text
                  /\ CRNSpec.ok_text CRNSpec.any_rate text).
  { intros self Hid Hwf.
    destruct (create_sat_crn_ok self Hid Hwf) as (text & Htext & Hok).
    exists text. split; [exact Htext |].
    apply (ok_text_weaken CRNSpec.sat_rate); [intros; exact I | exact Hok]. }
  split; [exact Hsat |]. split; [| split].
  - intros num_vars num_clauses g self g' Hgen.
    destruct (generated_instance_ok _ _ _ _ _ Hgen) as [Hid Hwf].
    apply Hsat; assumption.
  - apply valid_cities_text.
  - intros self n g.
    destruct (generate_cities_in_box self n g) as [Hbox Hlen].
    set (self1 := fst (TSP.generate_cities self n g)) in *.
    destruct (box_cities_matrix self1 Hbox) as (self' & Hrun & Hsq & _).
    pose proof (box_cities_valid _ Hbox) as Hv.
    pose proof (valid_cities_nonneg_matrix self1 self' Hv Hrun) as Hnn.
    rewrite Hlen in Hsq.
    destruct (create_tsp_crn_succeeds self' n Hsq Hnn) as [text Htext].
    exists self', text. split; [exact Hrun |]. split; [exact Htext |].
    apply (valid_cities_text self1 self' n text Hv Hrun Htext).
Qed.

Lemma encoders_emit_well_formed_text_witness :
  (exists text, SAT.create_sat_crn SATSpec.x0_or_not_x1 = Ok text
                /\ CRNSpec.ok_text CRNSpec.any_rate text)
  /\ (exists self' text,
        TSP.calculate_distance_matrix TSPSpec.three_cities = (self', Ok tt)
        /\ TSP.create_tsp_crn self' 3 = Ok text
        /\ CRNSpec.ok_text CRNSpec.any_rate text).
Proof.
  destruct encoders_emit_well_formed_text as (H1 & _ & H3 & _).
  split; [apply H1; reflexivity |].
  eexists _, _. split; [vm_compute; reflexivity |].
  split; [vm_compute; reflexivity |].
  apply (H3 TSPSpec.three_cities _ 3 _ eq_refl eq_refl eq_refl).
Defined.

(** C7.  Every reaction line of the SAT text carries the rate [1.0] or
    [10.0].  For cities of the square [[0,100] x [0,100]], which is where
    [generate_cities] draws them, the distance matrix is computed without
    an exception, the rate [1/(d+1)] of every entry exceeds 0.0005 and is
    not printed as [0.000], and no reaction line of the TSP text carries
    the rate [0.000]. *)
Theorem encoder_rates_positive :
  (forall self,
     EncoderSpec.identifier_names self = true ->
     SATSpec.well_formed self = true ->
     exists text, SAT.create_sat_crn self = Ok text
                  /\ CRNSpec.ok_text CRNSpec.sat_rate text)
  /\ (forall self,
        forallb RateSpec.in_box (TSP.cities self) = true ->
        exists self',
          TSP.calculate_distance_matrix self = (self', Ok tt)
          /\ (forall row d, row ∈ TSP.distance_matrix self' -> d ∈ row ->
                exists rate, TSP.rate_of d = Ok rate
                             /\ (5 / 10000 < FloatSem.B2R rate)%R
                             /\ PyFloat.format_3f rate <> "0.000")
          /\ (forall n text, TSP.create_tsp_crn self' n = Ok text ->
                             CRNSpec.ok_text CRNSpec.nonzero_rate text))
  /\ (forall self n g,
        forallb RateSpec.in_box (TSP.cities (fst (TSP.generate_cities self n g)))
        = true).
Proof.
  split; [exact create_sat_crn_ok |]. split.
  - intros self Hbox.
    destruct (box_cities_matrix self Hbox) as (self' & Hrun & Hsq & Hw).
    exists self'. split; [exact Hrun |].
    assert (Hent : forall row d, row ∈ TSP.distance_matrix self' -> d ∈ row ->
                                 RateSpec.within 142 d).
    { intros row d Hrow Hd. rewrite Forall_forall in Hw.
      specialize (Hw row Hrow). rewrite Forall_forall in Hw. apply Hw, Hd. }
    split.
    + intros row d Hrow Hd. pose proof (Hent row d Hrow Hd) as Hwd.
      destruct (rate_of_cases d (proj1 Hwd)) as (rate & Hrate & _).
      exists rate. split; [exact Hrate |].
      destruct (rate_in_box d rate Hwd Hrate) as (_ & _ & Hlo & _).
      split; [lra | apply (rate_text_in_box d rate Hwd Hrate)].
    + intros n text Htext.
      apply (create_tsp_crn_ok CRNSpec.nonzero_rate self' n text); [| | exact Htext].
      * apply Forall_forall. intros row Hrow. apply Forall_forall. intros d Hd.
        apply (Hent row d Hrow Hd).
      * intros row d rate Hrow Hd Hrate.
        apply (rate_text_in_box d rate (Hent row d Hrow Hd) Hrate).
  - intros self n g. apply generate_cities_in_box.
Qed.

Lemma encoder_rates_positive_witness :
  (exists text, SAT.create_sat_crn SATSpec.x0_or_not_x1 = Ok text
                /\ CRNSpec.ok_text CRNSpec.sat_rate text)
  /\ (exists self',
        TSP.calculate_distance_matrix TSPSpec.three_cities = (self', Ok tt)
        /\ forall n text, TSP.create_tsp_crn self' n = Ok text ->
                          CRNSpec.ok_text CRNSpec.nonzero_rate text).
Proof.
  destruct encoder_rates_positive as (H1 & H2 & _).
  split; [apply H1; reflexivity |].
  destruct (H2 TSPSpec.three_cities eq_refl) as (self' & Hrun & _ & Htext).
  exists self'. split; assumption.
Defined.

(** * Further properties of the benchmark code *)

(** ** sat_benchmark.py: the generated instance *)

Section SatInstance.
Import SAT SATSpec.

Lemma str_int_inj (a b : Z) : str_int a = str_int b -> a = b.
Proof.
  assert (H : forall z,
             match NilZero.int_of_string (str_int z) with
             | Some d => Z.of_int d
             | None => 0
             end = z).
  { intros z. unfold str_int.
    destruct (Decimal.int_eq_dec (Z.to_int z) (Decimal.Pos Decimal.Nil)) as [E | E1].
    - rewrite E, NilZero.isi_posnil. rewrite <- (DecimalZ.of_to z), E. reflexivity.
    - destruct (Decimal.int_eq_dec (Z.to_int z) (Decimal.Neg Decimal.Nil)) as [E | E2].
      + rewrite E, NilZero.isi_negnil. rewrite <- (DecimalZ.of_to z), E. reflexivity.
      + rewrite (NilZero.isi _ E1 E2). apply DecimalZ.of_to. }
  intros E. rewrite <- (H a), <- (H b), E. reflexivity.
Qed.

Lemma append_inj_l (p a b : string) : p +:+ a = p +:+ b -> a = b.
Proof.
  induction p as [| c p IH]; simpl; [tauto |]. intros [= H]. apply IH, H.
Qed.

Lemma x_names_NoDup (num_vars : Z) :
  NoDup ((fun i => "x" +:+ str_int i) <$> py_range num_vars).
Proof.
  apply NoDup_fmap_2; [| apply py_range_NoDup].
  intros a b H. apply str_int_inj, (append_inj_l "x"), H.
Qed.

Lemma generate_3sat_instance_some (num_vars n : Z) (g : rng) :
  generate_3sat_instance num_vars (Some n) g
  = let* r := generate_clauses (Z.to_nat n) num_vars g in
    Ok ({| variables := (fun i => "x" +:+ str_int i) <$> py_range num_vars;
           clauses := fst r |}, snd r).
Proof.
  unfold generate_3sat_instance. cbn [rbind].
  destruct (generate_clauses (Z.to_nat n) num_vars g) as [[cs g'] |]; reflexivity.
Qed.

End SatInstance.

(** X1.  [generate_3sat_instance(num_vars, num_clauses)] with an explicit
    clause count and at least three variables returns; the variables are
    the [num_vars] pairwise distinct names [x0, x1, ...]; there are
    [max(num_clauses, 0)] clauses, each of three literals on pairwise
    distinct variables whose indices lie in [range(num_vars)]. *)
Theorem generate_3sat_instance_explicit (num_vars n : Z) (g : rng) :
  3 <= num_vars ->
  exists self g',
    SAT.generate_3sat_instance num_vars (Some n) g = Ok (self, g')
    /\ SAT.variables self = (fun i => "x" +:+ str_int i) <$> py_range num_vars
    /\ Z.of_nat (length (SAT.variables self)) = num_vars
    /\ NoDup (SAT.variables self)
    /\ Z.of_nat (length (SAT.clauses self)) = Z.max n 0
    /\ Forall SATSpec.three_distinct (SAT.clauses self)
    /\ Forall (Forall (fun l : SAT.literal => 0 <= fst l < num_vars))
              (SAT.clauses self).
Proof.
  intros Hn. rewrite generate_3sat_instance_some.
  destruct (generate_clauses_ok num_vars (Z.to_nat n) Hn g)
    as (cs & g' & -> & Hlen & H3 & Hr).
  cbn [rbind fst snd]. eexists _, _. split; [reflexivity |].
  cbn [SAT.variables SAT.clauses].
  split; [reflexivity |].
  split; [rewrite length_fmap, py_range_length; lia |].
  split; [apply x_names_NoDup |].
  split; [rewrite Hlen; lia |]. split; assumption.
Qed.

Lemma generate_3sat_instance_explicit_witness :
  exists self g',
    SAT.generate_3sat_instance 3 (Some 2) SATSpec.draws_true_false = Ok (self, g')
    /\ SAT.variables self = ["x0"; "x1"; "x2"]
    /\ length (SAT.clauses self) = 2%nat.
Proof.
  destruct (generate_3sat_instance_explicit 3 2 SATSpec.draws_true_false ltac:(lia))
    as (self & g' & H & Hv & _ & _ & Hc & _).
  exists self, g'. split; [exact H |]. split; [exact Hv | lia].
Defined.

(** X2.  With fewer than three variables and at least one clause asked
    for, [generate_3sat_instance] raises [ValueError] (from
    [random.sample]); with a clause count of zero or less it never raises,
    whatever [num_vars] is: it returns the named variables and no clause,
    and draws nothing from the generator. *)
Theorem generate_3sat_instance_edge (num_vars n : Z) (g : rng) :
  (num_vars < 3 -> 1 <= n ->
   SAT.generate_3sat_instance num_vars (Some n) g = Raise ValueError)
  /\ (n <= 0 ->
      SAT.generate_3sat_instance num_vars (Some n) g
      = Ok ({| SAT.variables := (fun i => "x" +:+ str_int i) <$> py_range num_vars;
               SAT.clauses := [] |}, g)).
Proof.
  rewrite generate_3sat_instance_some. split.
  - intros Hv Hn. destruct (Z.to_nat n) as [| k] eqn:E; [lia |].
    rewrite (generate_clauses_too_few_vars num_vars k g Hv). reflexivity.
  - intros Hn. replace (Z.to_nat n) with 0%nat by lia. reflexivity.
Qed.

Lemma generate_3sat_instance_edge_witness :
  SAT.generate_3sat_instance 2 (Some 1) SATSpec.draws_true_false = Raise ValueError
  /\ SAT.generate_3sat_instance 2 (Some 0) SATSpec.draws_true_false
     = Ok ({| SAT.variables := ["x0"; "x1"]; SAT.clauses := [] |},
           SATSpec.draws_true_false).
Proof.
  destruct (generate_3sat_instance_edge 2 1 SATSpec.draws_true_false) as [H1 _].
  destruct (generate_3sat_instance_edge 2 0 SATSpec.draws_true_false) as [_ H2].
  split; [apply H1; lia | apply H2; lia].
Defined.

(** ** sat_benchmark.py: the decoded assignment *)

Section Assignment.
Import SAT SATSpec.

Lemma choose_values_dom (vars : list string) :
  forall (acc : gmap string bool) (g : rng),
    dom (fst (choose_values vars acc g)) = dom acc ∪ list_to_set vars
    /\ forall i, snd (choose_values vars acc g) i = g (length vars + i)%nat.
Proof.
  induction vars as [| v vars IH]; intros acc g.
  - split; [cbn [choose_values fst list_to_set]; rewrite union_empty_r_L; reflexivity
           | reflexivity].
  - cbn [choose_values]. rewrite random_choice_bool_eq.
    destruct (IH (<[v := choice_of_draw (g O)]> acc) (rng_tail g)) as [H1 H2].
    split.
    + rewrite H1, dom_insert_L. cbn [list_to_set].
      rewrite (union_comm_L {[v]} (dom acc)), union_assoc_L. reflexivity.
    + intros i. rewrite H2. reflexivity.
Qed.

Lemma choose_values_keys (vars : list string) (g : rng) :
  dom (fst (choose_values vars ∅ g)) = (list_to_set vars : gset string).
Proof.
  destruct (choose_values_dom vars ∅ g) as [H _].
  rewrite H, dom_empty_L. apply union_empty_l_L.
Qed.

Lemma choose_values_size (vars : list string) (g : rng) :
  NoDup vars -> size (fst (choose_values vars ∅ g)) = length vars.
Proof.
  intros Hnd. rewrite <- size_dom, choose_values_keys.
  apply size_list_to_set, Hnd.
Qed.

End Assignment.

(** X3.  The dict returned by [extract_assignment] has exactly the
    variables of the instance as its keys, whatever the simulation result
    and the random draws; when the names are distinct, as the generated
    ones are, the dict has one entry per variable. *)
Theorem extract_assignment_keys {R} (self : SAT.SATBenchmark) (res : R) (g : rng) :
  dom (fst (SAT.extract_assignment self res g))
  = (list_to_set (SAT.variables self) : gset string)
  /\ (NoDup (SAT.variables self) ->
      size (fst (SAT.extract_assignment self res g))
      = length (SAT.variables self)).
Proof.
  unfold SAT.extract_assignment.
  split; [apply choose_values_keys | apply choose_values_size].
Qed.

Lemma extract_assignment_keys_witness :
  size (fst (SAT.extract_assignment SATSpec.x0_or_not_x1 SATSpec.sample_result
               SATSpec.draws_true_false)) = 2%nat.
Proof.
  destruct (extract_assignment_keys SATSpec.x0_or_not_x1 SATSpec.sample_result
              SATSpec.draws_true_false) as (_ & H).
  apply H. apply (bool_decide_unpack _). vm_compute. reflexivity.
Defined.

(** ** sat_benchmark.py: when the encoder and the verifier raise *)

Section SatErrors.
Import SAT SATSpec.

Lemma py_index_is_ok {A} (l : list A) (i : Z) :
  is_ok (py_index l i) = index_in_range (length l) i.
Proof.
  destruct (index_in_range (length l) i) eqn:E.
  - destruct (py_index_in_range l i E) as [x ->]. reflexivity.
  - destruct (py_index l i) as [x |] eqn:Ei; [| reflexivity].
    rewrite (py_index_ok_range l i x Ei) in E. discriminate.
Qed.

Lemma py_index_raises {A} (l : list A) (i : Z) (e : exn) :
  py_index l i = Raise e -> e = IndexError.
Proof.
  unfold py_index. destruct (_ && _); [| intros [= <-]; reflexivity].
  destruct (l !! _); [discriminate | intros [= <-]; reflexivity].
Qed.

Lemma clause_reactants_is_ok (vars : list string) (c : clause) :
  is_ok (clause_reactants vars c)
  = forallb (fun l : literal => index_in_range (length vars) (fst l)) c
  /\ forall e, clause_reactants vars c = Raise e -> e = IndexError.
Proof.
  induction c as [| [v neg] c [IH1 IH2]]; [split; [reflexivity | discriminate] |].
  cbn [clause_reactants forallb fst]. rewrite <- py_index_is_ok, <- IH1.
  destruct (py_index vars v) as [name |] eqn:E; cbn [rbind is_ok andb].
  - destruct (clause_reactants vars c) as [rs |]; cbn [rbind is_ok].
    + split; [reflexivity | discriminate].
    + split; [reflexivity |]. intros e' [= <-]. apply IH2. reflexivity.
  - split; [reflexivity |]. intros e' [= <-]. apply (py_index_raises _ _ _ E).
Qed.

Lemma clause_reactions_is_ok (vars : list string) (cs : list clause) :
  forall i,
    is_ok (clause_reactions vars i cs)
    = forallb (forallb (fun l : literal => index_in_range (length vars) (fst l))) cs
    /\ forall e, clause_reactions vars i cs = Raise e -> e = IndexError.
Proof.
  induction cs as [| c cs IH]; intros i; [split; [reflexivity | discriminate] |].
  cbn [clause_reactions forallb].
  destruct (clause_reactants_is_ok vars c) as [H1 H2]. rewrite <- H1.
  destruct (IH (i + 1)) as [H3 H4]. rewrite <- H3.
  destruct (clause_reactants vars c) as [rs |]; cbn [rbind is_ok andb].
  - destruct (clause_reactions vars (i + 1) cs) as [tail |]; cbn [rbind is_ok].
    + split; [reflexivity | discriminate].
    + split; [reflexivity |]. intros e' [= <-]. apply H4. reflexivity.
  - split; [reflexivity |]. intros e' [= <-]. apply H2. reflexivity.
Qed.

Lemma clause_satisfied_agree (vars : list string) (a b : gmap string bool)
  (c : clause) :
  (forall name, name ∈ vars -> value_of a name = value_of b name) ->
  clause_satisfied vars a c = clause_satisfied vars b c.
Proof.
  intros H. induction c as [| [v neg] c IH]; [reflexivity |].
  cbn [clause_satisfied].
  destruct (py_index vars v) as [name |] eqn:E; [| reflexivity].
  cbn [rbind]. pose proof (H name (py_index_elem _ _ _ E)) as Hv.
  unfold value_of in Hv. rewrite Hv, IH. reflexivity.
Qed.

End SatErrors.

(** X4.  [create_sat_crn] returns exactly when every literal index is one
    Python accepts on the variable list, [-len <= idx < len]; otherwise it
    raises [IndexError], and it raises nothing else.  Unlike
    [verify_assignment] it reads every literal of every clause. *)
Theorem create_sat_crn_returns_iff (self : SAT.SATBenchmark) :
  is_ok (SAT.create_sat_crn self) = SATSpec.well_formed self
  /\ forall e, SAT.create_sat_crn self = Raise e -> e = IndexError.
Proof.
  unfold SAT.create_sat_crn, SATSpec.well_formed.
  destruct (clause_reactions_is_ok (SAT.variables self) (SAT.clauses self) 0)
    as [H1 H2].
  rewrite <- H1.
  destruct (SAT.clause_reactions (SAT.variables self) 0 (SAT.clauses self));
    cbn [rbind is_ok].
  - split; [reflexivity | discriminate].
  - split; [reflexivity |]. intros e' [= <-]. apply H2. reflexivity.
Qed.

Lemma create_sat_crn_returns_iff_witness :
  SAT.create_sat_crn
    {| SAT.variables := ["x0"]; SAT.clauses := [[(0, false); (1, true)]] |}
  = Raise IndexError.
Proof.
  destruct (create_sat_crn_returns_iff
              {| SAT.variables := ["x0"];
                 SAT.clauses := [[(0, false); (1, true)]] |}) as [H1 H2].
  destruct (SAT.create_sat_crn _) as [text | e].
  - discriminate H1.
  - rewrite (H2 e eq_refl). reflexivity.
Defined.

(** X5.  [verify_assignment] reads the assignment only at the variables
    of the instance, a missing variable counting as False: two dicts that
    give every variable the same value (missing read as False) get the
    same answer, or the same exception. *)
Theorem verify_assignment_agree (self : SAT.SATBenchmark) (a b : gmap string bool) :
  (forall name, name ∈ SAT.variables self ->
                SATSpec.value_of a name = SATSpec.value_of b name) ->
  SAT.verify_assignment self a = SAT.verify_assignment self b.
Proof.
  intros H. unfold SAT.verify_assignment.
  induction (SAT.clauses self) as [| c cs IH]; [reflexivity |].
  cbn [SAT.verify_clauses].
  rewrite (clause_satisfied_agree (SAT.variables self) a b c H), IH. reflexivity.
Qed.

Lemma verify_assignment_agree_witness :
  SAT.verify_assignment SATSpec.x0_or_not_x1 (<["x0" := true]> ∅)
  = SAT.verify_assignment SATSpec.x0_or_not_x1
      (<["x1" := false]> (<["other" := true]> (<["x0" := true]> ∅))).
Proof.
  apply verify_assignment_agree. intros name Hn.
  apply elem_of_cons in Hn as [-> | Hn]; [reflexivity |].
  apply list_elem_of_singleton in Hn as ->. reflexivity.
Defined.

(** ** sat_benchmark.py: [run] *)

Section SatRun.
Import SAT SATSpec.

Lemma generate_3sat_instance_none (num_vars n : Z) (g : rng) :
  default_num_clauses num_vars = Ok n ->
  generate_3sat_instance num_vars None g
  = generate_3sat_instance num_vars (Some n) g.
Proof. intros H. unfold generate_3sat_instance. rewrite H. reflexivity. Qed.

Lemma sat_run_total (execute_crn_string : string -> result utm_result)
  (num_vars n : Z) (g : rng) :
  3 <= num_vars ->
  default_num_clauses num_vars = Ok n ->
  (forall text, exists res, execute_crn_string text = Ok res) ->
  exists self g1 text res b,
    generate_3sat_instance num_vars None g = Ok (self, g1)
    /\ create_sat_crn self = Ok text
    /\ execute_crn_string text = Ok res
    /\ verify_assignment self (fst (extract_assignment self res g1)) = Ok b
    /\ Z.of_nat (length (clauses self)) = n
    /\ Z.of_nat (size (fst (extract_assignment self res g1))) = num_vars
    /\ run execute_crn_string num_vars g
       = Ok ({| r_variables := num_vars;
                r_clauses := length (clauses self);
                r_satisfiable := b;
                r_assignment := fst (extract_assignment self res g1);
                r_execution_steps := get_steps res |},
             snd (extract_assignment self res g1)).
Proof.
  intros Hv Hd Hex.
  pose proof (default_num_clauses_sign _ _ Hd) as Hs.
  replace (num_vars <? 0) with false in Hs by (symmetry; apply Z.ltb_ge; lia).
  destruct (generate_clauses_ok num_vars (Z.to_nat n) Hv g)
    as (cs & g1 & Hgen & Hlen & _ & _).
  assert (Hinst : generate_3sat_instance num_vars None g
                  = Ok ({| variables :=
                             (fun i => "x" +:+ str_int i) <$> py_range num_vars;
                           clauses := cs |}, g1)).
  { rewrite (generate_3sat_instance_none _ _ _ Hd), generate_3sat_instance_some.
    rewrite Hgen. reflexivity. }
  set (self := {| variables := _; clauses := cs |}) in *.
  destruct (generated_instance_ok _ _ _ _ _ Hinst) as [Hid Hwf].
  destruct (create_sat_crn_ok self Hid Hwf) as (text & Htext & _).
  destruct (Hex text) as [res Hres].
  destruct (verify_clauses_spec (variables self)
              (fst (extract_assignment self res g1)) (clauses self) Hwf)
    as (b & Hb & _).
  exists self, g1, text, res, b.
  split; [exact Hinst |]. split; [exact Htext |]. split; [exact Hres |].
  split; [exact Hb |]. split; [cbn [self clauses]; lia |]. split.
  - unfold extract_assignment.
    rewrite (choose_values_size (variables self) g1 (x_names_NoDup num_vars)).
    cbn [self variables]. rewrite length_fmap, py_range_length. lia.
  - unfold run. rewrite Hinst. cbn [rbind]. unfold run_instance.
    rewrite Htext. cbn [rbind]. rewrite Hres. cbn [rbind].
    destruct (extract_assignment self res g1) as [assignment g'] eqn:Eext.
    cbn [fst snd] in *. unfold verify_assignment in Hb |- *. rewrite Hb.
    reflexivity.
Qed.

End SatRun.

(** X6.  [SATBenchmark.run(num_vars)] with at least three variables, on a
    simulator that returns: the call returns; the dict reports
    [num_vars], the [int(4.3 * num_vars)] clauses of the generated
    instance, an assignment with one entry per variable, the answer of
    [verify_assignment] on that very assignment, and
    [result.get("steps", 0)]. *)
Theorem sat_run_returns (execute_crn_string : string -> result utm_result)
  (num_vars n : Z) (g : rng) :
  3 <= num_vars ->
  SAT.default_num_clauses num_vars = Ok n ->
  (forall text, exists res, execute_crn_string text = Ok res) ->
  exists self g1 text res r g',
    SAT.generate_3sat_instance num_vars None g = Ok (self, g1)
    /\ SAT.create_sat_crn self = Ok text
    /\ execute_crn_string text = Ok res
    /\ SAT.run execute_crn_string num_vars g = Ok (r, g')
    /\ SAT.r_variables r = num_vars
    /\ Z.of_nat (SAT.r_clauses r) = n
    /\ (SAT.r_assignment r, g') = SAT.extract_assignment self res g1
    /\ Z.of_nat (size (SAT.r_assignment r)) = num_vars
    /\ SAT.verify_assignment self (SAT.r_assignment r) = Ok (SAT.r_satisfiable r)
    /\ SAT.r_execution_steps r = get_steps res.
Proof.
  intros Hv Hd Hex.
  destruct (sat_run_total execute_crn_string num_vars n g Hv Hd Hex)
    as (self & g1 & text & res & b & Hinst & Htext & Hres & Hb & Hn & Hsz & Hrun).
  exists self, g1, text, res. eexists _, _.
  split; [exact Hinst |]. split; [exact Htext |]. split; [exact Hres |].
  split; [exact Hrun |].
  cbn [SAT.r_variables SAT.r_clauses SAT.r_assignment SAT.r_satisfiable
       SAT.r_execution_steps].
  split; [reflexivity |]. split; [exact Hn |].
  split; [destruct (SAT.extract_assignment self res g1); reflexivity |].
  split; [exact Hsz |]. split; [exact Hb | reflexivity].
Qed.

Lemma sat_run_returns_witness :
  exists r g',
    SAT.run (fun _ => Ok SATSpec.sample_result) 3 SATSpec.draws_true_false
    = Ok (r, g')
    /\ SAT.r_variables r = 3 /\ Z.of_nat (SAT.r_clauses r) = 12.
Proof.
  destruct (sat_run_returns (fun _ => Ok SATSpec.sample_result) 3 12
              SATSpec.draws_true_false ltac:(lia) eq_refl
              ltac:(intros; eexists; reflexivity))
    as (self & g1 & text & res & r & g' & _ & _ & _ & H & H1 & H2 & _).
  exists r, g'. repeat split; assumption.
Defined.

(** X7.  [SATBenchmark.run(num_vars)] at the small sizes.  With one or
    two variables it raises [ValueError] before the simulator is called,
    whatever the simulator is.  With zero or fewer variables it returns:
    no clause is generated, the assignment is empty, and the instance is
    reported satisfiable. *)
Theorem sat_run_small (execute_crn_string : string -> result utm_result)
  (num_vars : Z) (g : rng) :
  (1 <= num_vars <= 2 ->
   SAT.run execute_crn_string num_vars g = Raise ValueError)
  /\ (num_vars <= 0 ->
      forall n text res,
        SAT.default_num_clauses num_vars = Ok n ->
        SAT.create_sat_crn {| SAT.variables := []; SAT.clauses := [] |} = Ok text ->
        execute_crn_string text = Ok res ->
        SAT.run execute_crn_string num_vars g
        = Ok ({| SAT.r_variables := num_vars;
                 SAT.r_clauses := 0;
                 SAT.r_satisfiable := true;
                 SAT.r_assignment := ∅;
                 SAT.r_execution_steps := get_steps res |}, g)).
Proof.
  split.
  - intros H. assert (Hc : num_vars = 1 \/ num_vars = 2) by lia.
    destruct Hc as [-> | ->]; reflexivity.
  - intros Hle n text res Hd Htext Hres.
    pose proof (default_num_clauses_sign _ _ Hd) as Hs.
    assert (Hn : Z.to_nat n = 0%nat).
    { destruct (num_vars <? 0) eqn:E; [lia |].
      apply Z.ltb_ge in E. assert (num_vars = 0) by lia. subst num_vars.
      vm_compute in Hd. injection Hd as <-. reflexivity. }
    unfold SAT.run.
    rewrite (generate_3sat_instance_none _ _ _ Hd), generate_3sat_instance_some.
    rewrite Hn. cbn [SAT.generate_clauses rbind fst snd].
    unfold py_range. replace (Z.to_nat num_vars) with 0%nat by lia.
    cbn [seq fmap list_fmap]. unfold SAT.run_instance.
    rewrite Htext. cbn [rbind]. rewrite Hres. reflexivity.
Qed.

Lemma sat_run_small_witness :
  SAT.run (fun _ => Ok SATSpec.sample_result) 1 SATSpec.draws_true_false
  = Raise ValueError
  /\ SAT.run (fun _ => Ok SATSpec.sample_result) 0 SATSpec.draws_true_false
     = Ok ({| SAT.r_variables := 0;
              SAT.r_clauses := 0;
              SAT.r_satisfiable := true;
              SAT.r_assignment := ∅;
              SAT.r_execution_steps := 7 |}, SATSpec.draws_true_false).
Proof.
  split.
  - apply (sat_run_small (fun _ => Ok SATSpec.sample_result) 1). lia.
  - apply (proj2 (sat_run_small (fun _ => Ok SATSpec.sample_result) 0
                    SATSpec.draws_true_false) ltac:(lia) 0 _ SATSpec.sample_result
             eq_refl eq_refl eq_refl).
Defined.

(** ** tsp_benchmark.py: the distance matrix *)

Section MatrixEntries.
Import TSP TSPSpec.

Lemma computed_matrix (self self' : TSPBenchmark) :
  calculate_distance_matrix self = (self', Ok tt) ->
  let n := length (cities self) in
  cities self' = cities self
  /\ square n (distance_matrix self')
  /\ forall i j, (i < n)%nat -> (j < n)%nat ->
       entry (distance_matrix self') i j
       = if decide (i = j) then Some Float.zero else dist_opt (cities self) i j.
Proof.
  intros Hrun n. unfold calculate_distance_matrix in Hrun. fold n in Hrun.
  destruct (fill_rows (cities self) n (seq 0 n) (zeros n)) as [m0 r] eqn:Efill.
  injection Hrun as <- ->. cbn [cities distance_matrix].
  destruct (fill_rows_spec (cities self) n (seq 0 n) (zeros n) m0
              ltac:(intros i Hi; apply elem_of_seq in Hi; lia)
              (zeros_square n) Efill) as [Hsq Hent].
  split; [reflexivity |]. split; [exact Hsq |].
  intros i j Hi Hj. rewrite Hent. destruct (decide (i = j)) as [-> | Hne].
  - rewrite decide_False by tauto. apply entry_zeros; exact Hj.
  - rewrite decide_True; [reflexivity |].
    repeat split; [apply elem_of_seq; lia | exact Hj | congruence].
Qed.

Lemma pow2_raises (x : Float.float) (e : exn) :
  PyFloat.pow2 x = Raise e -> e = OverflowError.
Proof.
  destruct x as [s | s | | s m ex]; try discriminate. unfold PyFloat.pow2.
  cbv zeta. destruct (Float.is_inf _); [intros [= <-]; reflexivity | discriminate].
Qed.

Lemma pow2_nan_or_sign (x a : Float.float) :
  PyFloat.pow2 x = Ok a -> a = S754_nan \/ Float.sign_bit a = Some false.
Proof.
  destruct x as [s | s | | s m ex]; try (intros [= <-]; auto; fail).
  unfold PyFloat.pow2. cbv zeta. destruct (Float.is_inf _); [discriminate |].
  intros [= <-].
  destruct (mul_sign (S754_finite s m ex) (S754_finite s m ex) s s eq_refl eq_refl)
    as [H | H]; [right | left; exact H].
  destruct s; exact H.
Qed.

Lemma add_nan_or_sign (a b : Float.float) :
  a = S754_nan \/ Float.sign_bit a = Some false ->
  b = S754_nan \/ Float.sign_bit b = Some false ->
  Float.add a b = S754_nan \/ Float.sign_bit (Float.add a b) = Some false.
Proof.
  intros [-> | Ha]; [left; reflexivity |].
  intros [-> | Hb]; [left; destruct a; reflexivity |].
  right. apply add_sign_false; assumption.
Qed.

Lemma distance_raises (c1 c2 : city) (e : exn) :
  distance c1 c2 = Raise e -> e = OverflowError.
Proof.
  destruct c1 as [x1 y1], c2 as [x2 y2]. unfold distance.
  destruct (PyFloat.pow2 (Float.sub x1 x2)) as [a | e1] eqn:Ea;
    [| intros [= <-]; apply (pow2_raises _ _ Ea)].
  cbn [rbind].
  destruct (PyFloat.pow2 (Float.sub y1 y2)) as [b | e2] eqn:Eb;
    [| intros [= <-]; apply (pow2_raises _ _ Eb)].
  cbn [rbind].
  destruct (add_nan_or_sign a b (pow2_nan_or_sign _ _ Ea) (pow2_nan_or_sign _ _ Eb))
    as [-> | Hs]; [discriminate |].
  destruct (sqrt_sign_false _ Hs) as (d & -> & _). discriminate.
Qed.

Lemma fill_row_raises (cs : list city) (i : nat) :
  (i < length cs)%nat ->
  forall (js : list nat) (m m' : matrix) (e : exn),
    (forall j, j ∈ js -> (j < length cs)%nat) ->
    fill_row cs i js m = (m', Raise e) -> e = OverflowError.
Proof.
  intros Hi. induction js as [| j js IH]; intros m m' e Hjs H; [discriminate |].
  assert (Hjs' : forall k, k ∈ js -> (k < length cs)%nat)
    by (intros k Hk; apply Hjs; right; exact Hk).
  cbn [fill_row] in H. destruct (Nat.eqb i j); [apply (IH _ _ _ Hjs' H) |].
  destruct (lookup_lt_is_Some_2 cs i Hi) as [c1 E1].
  destruct (lookup_lt_is_Some_2 cs j (Hjs j ltac:(left))) as [c2 E2].
  rewrite E1, E2 in H.
  destruct (distance c1 c2) as [d | e'] eqn:Ed; [apply (IH _ _ _ Hjs' H) |].
  injection H as _ <-. apply (distance_raises _ _ _ Ed).
Qed.

Lemma fill_rows_raises (cs : list city) (rows : list nat) :
  forall (m m' : matrix) (e : exn),
    (forall i, i ∈ rows -> (i < length cs)%nat) ->
    fill_rows cs (length cs) rows m = (m', Raise e) -> e = OverflowError.
Proof.
  induction rows as [| i rows IH]; intros m m' e Hrows H; [discriminate |].
  cbn [fill_rows] in H.
  destruct (fill_row cs i (seq 0 (length cs)) m) as [m1 [[] | e1]] eqn:Erow.
  - apply (IH m1 m' e); [intros k Hk; apply Hrows; right; exact Hk | exact H].
  - injection H as _ <-.
    apply (fill_row_raises cs i (Hrows i ltac:(left)) (seq 0 (length cs)) m m1);
      [| exact Erow].
    intros j Hj. apply elem_of_seq in Hj. lia.
Qed.

End MatrixEntries.

(** ** tsp_benchmark.py: the distance matrix, for any [x ** 2] *)

Section AnyPowMatrix.
Import TSP TSPSpec.
Variable pow : Float.float -> result Float.float.
Variable cs : list city.
Variable n : nat.

Lemma fill_row_with_spec (i : nat) :
  (i < n)%nat ->
  forall (js : list nat) (m m' : matrix),
    (forall j, j ∈ js -> (j < n)%nat) -> square n m ->
    fill_row_with pow cs i js m = (m', Ok tt) ->
    square n m'
    /\ forall a b, entry m' a b
                   = if decide (a = i /\ b ∈ js /\ b <> i)
                     then dist_opt_with pow cs i b else entry m a b.
Proof.
  intros Hi. induction js as [| j js IH]; intros m m' Hjs Hsq Hrun.
  - simpl in Hrun. injection Hrun as <-. split; [exact Hsq |].
    intros a b. rewrite decide_False; [reflexivity |].
    intros (_ & H & _). inversion H.
  - assert (Hjs' : forall k, k ∈ js -> (k < n)%nat)
      by (intros k Hk; apply Hjs; right; exact Hk).
    cbn [fill_row_with] in Hrun. destruct (Nat.eqb i j) eqn:Eij.
    + apply Nat.eqb_eq in Eij. subst j.
      destruct (IH m m' Hjs' Hsq Hrun) as [Hsq' Hent].
      split; [exact Hsq' |]. intros a b. rewrite Hent.
      destruct (decide (a = i /\ b ∈ js /\ b <> i)) as [H | H].
      * rewrite decide_True; [reflexivity |].
        destruct H as (H1 & H2 & H3). repeat split; [exact H1 | right; exact H2 | exact H3].
      * rewrite decide_False; [reflexivity |].
        intros (H1 & H2 & H3). apply H. repeat split; [exact H1 | | exact H3].
        apply elem_of_cons in H2 as [-> | H2]; [congruence | exact H2].
    + apply Nat.eqb_neq in Eij.
      destruct (cs !! i) as [c1 |] eqn:E1; [| discriminate].
      destruct (cs !! j) as [c2 |] eqn:E2; [| discriminate].
      destruct (distance_with pow c1 c2) as [d |] eqn:Ed; [| discriminate].
      assert (Hj : (j < n)%nat) by (apply Hjs; left).
      destruct (IH _ m' Hjs' (set_entry_square n m i j d Hsq) Hrun) as [Hsq' Hent].
      split; [exact Hsq' |]. intros a b. rewrite Hent.
      rewrite (entry_set_entry n m i j d a b Hsq Hi Hj).
      destruct (decide (a = i /\ b ∈ js /\ b <> i)) as [H | H].
      * rewrite decide_True; [reflexivity |].
        destruct H as (H1 & H2 & H3). repeat split; [exact H1 | right; exact H2 | exact H3].
      * destruct (decide (a = i /\ b = j)) as [[-> ->] | H'].
        -- rewrite decide_True by (repeat split; [left | congruence]).
           unfold dist_opt_with. rewrite E1, E2, Ed. reflexivity.
        -- rewrite decide_False; [reflexivity |].
           intros (H1 & H2 & H3).
           apply elem_of_cons in H2 as [-> | H2]; [apply H'; tauto | apply H; tauto].
Qed.

Lemma fill_rows_with_spec :
  forall (rows : list nat) (m m' : matrix),
    (forall i, i ∈ rows -> (i < n)%nat) -> square n m ->
    fill_rows_with pow cs n rows m = (m', Ok tt) ->
    square n m'
    /\ forall a b, entry m' a b
                   = if decide (a ∈ rows /\ (b < n)%nat /\ b <> a)
                     then dist_opt_with pow cs a b else entry m a b.
Proof.
  induction rows as [| i rows IH]; intros m m' Hrows Hsq Hrun.
  - simpl in Hrun. injection Hrun as <-. split; [exact Hsq |].
    intros a b. rewrite decide_False; [reflexivity |].
    intros (H & _). inversion H.
  - cbn [fill_rows_with] in Hrun.
    destruct (fill_row_with pow cs i (seq 0 n) m) as [m1 [[] | e]] eqn:Erow;
      [| discriminate].
    assert (Hi : (i < n)%nat) by (apply Hrows; left).
    destruct (fill_row_with_spec i Hi (seq 0 n) m m1
                ltac:(intros j Hj; apply elem_of_seq in Hj; lia) Hsq Erow)
      as [Hsq1 Hent1].
    destruct (IH m1 m' ltac:(intros k Hk; apply Hrows; right; exact Hk) Hsq1 Hrun)
      as [Hsq' Hent].
    split; [exact Hsq' |]. intros a b. rewrite Hent, Hent1.
    destruct (decide (a ∈ rows /\ (b < n)%nat /\ b <> a)) as [H | H].
    + rewrite decide_True; [reflexivity |].
      destruct H as (H1 & H2 & H3). repeat split; [right; exact H1 | exact H2 | exact H3].
    + destruct (decide (a = i /\ b ∈ seq 0 n /\ b <> i)) as [(-> & H2 & H3) | H'].
      * rewrite decide_True; [reflexivity |].
        apply elem_of_seq in H2. repeat split; [left | lia | exact H3].
      * rewrite decide_False; [reflexivity |].
        intros (H1 & H2 & H3).
        apply elem_of_cons in H1 as [-> | H1].
        -- apply H'. repeat split; [apply elem_of_seq; lia | exact H3].
        -- apply H. tauto.
Qed.

End AnyPowMatrix.

(** The method as embedded above is the instance at [PyFloat.pow2]. *)
Lemma calculate_distance_matrix_instance (self : TSP.TSPBenchmark) :
  TSP.calculate_distance_matrix_with PyFloat.pow2 self
  = TSP.calculate_distance_matrix self.
Proof. reflexivity. Qed.

(** X8.  Whatever float the platform's [x ** 2] returns for each [x]:
    when [calculate_distance_matrix] returns, the matrix it stored is
    square of the size of the city list, its entry [i][j] for [i != j] is
    the value that [math.sqrt((x1 - x2)**2 + (y1 - y2)**2)] gives on
    cities [i] and [j] with that [**], and the diagonal keeps its initial
    [0.0]; the cities are untouched. *)
Theorem distance_matrix_entries (pow : Float.float -> result Float.float)
  (self self' : TSP.TSPBenchmark) :
  TSP.calculate_distance_matrix_with pow self = (self', Ok tt) ->
  let n := length (TSP.cities self) in
  let m := TSP.distance_matrix self' in
  TSP.cities self' = TSP.cities self
  /\ TSPSpec.square n m
  /\ (forall i, (i < n)%nat -> TSPSpec.entry m i i = Some Float.zero)
  /\ (forall i j, (i < n)%nat -> (j < n)%nat -> i <> j ->
        exists ci cj d,
          TSP.cities self !! i = Some ci /\ TSP.cities self !! j = Some cj
          /\ TSP.distance_with pow ci cj = Ok d /\ TSPSpec.entry m i j = Some d).
Proof.
  intros Hrun n m. unfold TSP.calculate_distance_matrix_with in Hrun. fold n in Hrun.
  destruct (TSP.fill_rows_with pow (TSP.cities self) n (seq 0 n) (TSP.zeros n))
    as [m0 r] eqn:Efill.
  injection Hrun as <- ->. subst m. cbn [TSP.cities TSP.distance_matrix].
  destruct (fill_rows_with_spec pow (TSP.cities self) n (seq 0 n) (TSP.zeros n) m0
              ltac:(intros i Hi; apply elem_of_seq in Hi; lia)
              (zeros_square n) Efill) as [Hsq Hent].
  split; [reflexivity |]. split; [exact Hsq |]. split.
  - intros i Hi. rewrite Hent. rewrite decide_False by tauto.
    apply entry_zeros; exact Hi.
  - intros i j Hi Hj Hne.
    destruct (entry_in_range n m0 i j Hsq Hi Hj) as [d Hd].
    pose proof Hd as Hd'. rewrite Hent in Hd'.
    rewrite decide_True in Hd'
      by (repeat split; [apply elem_of_seq; lia | exact Hj | congruence]).
    unfold TSPSpec.dist_opt_with in Hd'.
    destruct (TSP.cities self !! i) as [ci |]; [| discriminate].
    destruct (TSP.cities self !! j) as [cj |]; [| discriminate].
    destruct (TSP.distance_with pow ci cj) as [d' |] eqn:Ed; [| discriminate].
    injection Hd' as ->. exists ci, cj, d. repeat split; assumption.
Qed.

Lemma distance_matrix_entries_witness :
  exists self',
    TSP.calculate_distance_matrix_with PyFloat.pow2 TSPSpec.three_cities
    = (self', Ok tt)
    /\ TSPSpec.entry (TSP.distance_matrix self') 1 1 = Some Float.zero
    /\ exists ci cj d,
         TSP.cities TSPSpec.three_cities !! 0%nat = Some ci
         /\ TSP.cities TSPSpec.three_cities !! 2%nat = Some cj
         /\ TSP.distance_with PyFloat.pow2 ci cj = Ok d
         /\ TSPSpec.entry (TSP.distance_matrix self') 0 2 = Some d.
Proof.
  eexists. split; [vm_compute; reflexivity |].
  match goal with
  | |- TSPSpec.entry (TSP.distance_matrix ?s) _ _ = _ /\ _ =>
      destruct (distance_matrix_entries PyFloat.pow2 TSPSpec.three_cities s eq_refl)
        as (_ & _ & Hdiag & Hoff)
  end.
  split; [apply Hdiag; simpl; lia |].
  apply Hoff; simpl; lia.
Defined.

(** X9.  The only exception [calculate_distance_matrix] can raise is
    [OverflowError], from squaring a coordinate difference; whatever the
    coordinates are (infinities and NaN included), [math.sqrt] is never
    given a negative number and no index is out of range. *)
Theorem calculate_distance_matrix_raises (self self' : TSP.TSPBenchmark) (e : exn) :
  TSP.calculate_distance_matrix self = (self', Raise e) -> e = OverflowError.
Proof.
  unfold TSP.calculate_distance_matrix.
  destruct (TSP.fill_rows _ _ _ _) as [m r] eqn:E. intros [= _ ->].
  apply (fill_rows_raises (TSP.cities self)
           (seq 0 (length (TSP.cities self)))
           (TSP.zeros (length (TSP.cities self))) m); [| exact E].
  intros i Hi. apply elem_of_seq in Hi. lia.
Qed.

Lemma calculate_distance_matrix_raises_witness :
  exists self',
    TSP.calculate_distance_matrix TSPSpec.far_cities = (self', Raise OverflowError).
Proof.
  destruct (TSP.calculate_distance_matrix TSPSpec.far_cities) as [self' r] eqn:E.
  exists self'. destruct r as [[] | e].
  - vm_compute in E. discriminate.
  - rewrite (calculate_distance_matrix_raises _ _ _ E). reflexivity.
Defined.

(** X10.  For cities of the square [[0,100] x [0,100]] every entry of the
    computed distance matrix is a finite float between 0 and 142 (the
    diagonal of the square is 141.42...). *)
Theorem box_distances_bounded (self : TSP.TSPBenchmark) :
  forallb RateSpec.in_box (TSP.cities self) = true ->
  exists self',
    TSP.calculate_distance_matrix self = (self', Ok tt)
    /\ forall i j, (i < length (TSP.cities self))%nat ->
                   (j < length (TSP.cities self))%nat ->
         exists d, TSPSpec.entry (TSP.distance_matrix self') i j = Some d
                   /\ Float.is_finite d = true
                   /\ (0 <= FloatSem.B2R d <= 142)%R.
Proof.
  intros Hbox.
  destruct (box_cities_matrix self Hbox) as (self' & Hrun & Hsq & Hw).
  exists self'. split; [exact Hrun |]. intros i j Hi Hj.
  destruct (entry_in_range _ _ i j Hsq Hi Hj) as [d Hd].
  exists d. split; [exact Hd |].
  unfold TSPSpec.entry in Hd.
  destruct (TSP.distance_matrix self' !! i) as [row |] eqn:Erow; [| discriminate].
  rewrite Forall_forall in Hw.
  pose proof (Hw row (list_elem_of_lookup_2 _ _ _ Erow)) as Hrow.
  rewrite Forall_forall in Hrow.
  pose proof (Hrow d (list_elem_of_lookup_2 _ _ _ Hd)) as Hwd.
  split; [| apply within_pos, Hwd].
  destruct Hwd as (Hn & Hi' & _).
  destruct d as [[] | [] | | [] md ed]; try discriminate; reflexivity.
Qed.

Lemma box_distances_bounded_witness :
  exists self',
    TSP.calculate_distance_matrix TSPSpec.three_cities = (self', Ok tt)
    /\ exists d, TSPSpec.entry (TSP.distance_matrix self') 0 1 = Some d
                 /\ (0 <= FloatSem.B2R d <= 142)%R.
Proof.
  destruct (box_distances_bounded TSPSpec.three_cities eq_refl) as (self' & H & Hb).
  exists self'. split; [exact H |].
  destruct (Hb 0%nat 1%nat ltac:(simpl; lia) ltac:(simpl; lia)) as (d & H1 & _ & H2).
  exists d. split; assumption.
Defined.

(** ** tsp_benchmark.py: the length of a tour *)

Section PathDistance.
Import TSP TSPSpec SATSpec.

Lemma py_index_lookup {A} (l : list A) (i : Z) (x : A) :
  0 <= i -> py_index l i = Ok x -> l !! Z.to_nat i = Some x.
Proof.
  intros Hi. unfold py_index.
  replace (0 <=? i) with true by (symmetry; apply Z.leb_le; exact Hi).
  destruct (_ && _); [| discriminate].
  destruct (l !! Z.to_nat i); [intros [= ->]; reflexivity | discriminate].
Qed.

Lemma index_in_range_weaken (n : nat) (i : Z) :
  0 <= i < Z.of_nat n -> index_in_range n i = true.
Proof.
  intros H. unfold index_in_range.
  apply andb_true_iff. split; [apply Z.leb_le | apply Z.ltb_lt]; lia.
Qed.

Variable m : matrix.
Variable n : nat.
Hypothesis m_square : square n m.

Lemma matrix_index (a b : Z) :
  index_in_range n a = true -> index_in_range n b = true ->
  exists row d, py_index m a = Ok row /\ py_index row b = Ok d.
Proof.
  destruct m_square as [Hlen Hrows]. intros Ha Hb.
  destruct (py_index_in_range m a) as [row Hrow]; [rewrite Hlen; exact Ha |].
  rewrite Forall_forall in Hrows.
  destruct (py_index_in_range row b) as [d Hd].
  { rewrite (Hrows row (py_index_elem _ _ _ Hrow)). exact Hb. }
  exists row, d. split; assumption.
Qed.

Lemma path_distance_loop_returns (path : list Z) :
  Forall (fun c => index_in_range n c = true) path ->
  forall idxs total,
    Forall (fun i => 0 <= i < Z.of_nat (length path)) idxs ->
    exists t, path_distance_loop m path idxs total = Ok t.
Proof.
  intros Hpath. induction idxs as [| i idxs IH]; intros total Hidx.
  - exists total. reflexivity.
  - apply Forall_cons in Hidx as [Hi Hidx]. cbn [path_distance_loop].
    destruct (py_index_in_range path i (index_in_range_weaken _ _ Hi)) as [c Hc].
    destruct (py_index_in_range path ((i + 1) mod Z.of_nat (length path)))
      as [c' Hc'].
    { apply index_in_range_weaken, Z.mod_pos_bound. lia. }
    rewrite Forall_forall in Hpath.
    destruct (matrix_index c c' (Hpath c (py_index_elem _ _ _ Hc))
                (Hpath c' (py_index_elem _ _ _ Hc')))
      as (row & d & Hrow & Hd).
    rewrite Hc. cbn [rbind]. rewrite Hc'. cbn [rbind]. rewrite Hrow. cbn [rbind].
    rewrite Hd. cbn [rbind]. apply IH, Hidx.
Qed.

Lemma path_distance_loop_reads (path : list Z) :
  forall idxs total t,
    Forall (fun i => 0 <= i) idxs ->
    path_distance_loop m path idxs total = Ok t ->
    forall i c, i ∈ idxs -> path !! Z.to_nat i = Some c ->
                index_in_range n c = true.
Proof.
  induction idxs as [| i idxs IH]; intros total t Hidx H j c Hj Hc.
  - inversion Hj.
  - apply Forall_cons in Hidx as [Hi Hidx]. cbn [path_distance_loop] in H.
    destruct (py_index path i) as [cur |] eqn:Ecur; [| discriminate].
    cbn [rbind] in H.
    destruct (py_index path ((i + 1) mod Z.of_nat (length path))) as [nxt |];
      [| discriminate].
    cbn [rbind] in H.
    destruct (py_index m cur) as [row |] eqn:Erow; [| discriminate].
    cbn [rbind] in H.
    destruct (py_index row nxt) as [d |]; [| discriminate].
    cbn [rbind] in H.
    apply elem_of_cons in Hj as [-> | Hj].
    + rewrite (py_index_lookup _ _ _ Hi Ecur) in Hc. injection Hc as <-.
      destruct m_square as [Hlen _]. rewrite <- Hlen.
      apply (py_index_ok_range _ _ _ Erow).
    + apply (IH _ _ Hidx H j c Hj Hc).
Qed.

Lemma path_distance_loop_raises (path : list Z) :
  forall idxs total e,
    path_distance_loop m path idxs total = Raise e -> e = IndexError.
Proof.
  induction idxs as [| i idxs IH]; intros total e H; [discriminate |].
  cbn [path_distance_loop] in H.
  destruct (py_index path i) as [cur |] eqn:E1;
    [| injection H as <-; apply (py_index_raises _ _ _ E1)].
  cbn [rbind] in H.
  destruct (py_index path ((i + 1) mod Z.of_nat (length path))) as [nxt |] eqn:E2;
    [| injection H as <-; apply (py_index_raises _ _ _ E2)].
  cbn [rbind] in H.
  destruct (py_index m cur) as [row |] eqn:E3;
    [| injection H as <-; apply (py_index_raises _ _ _ E3)].
  cbn [rbind] in H.
  destruct (py_index row nxt) as [d |] eqn:E4;
    [| injection H as <-; apply (py_index_raises _ _ _ E4)].
  cbn [rbind] in H. apply (IH _ _ H).
Qed.

End PathDistance.

Section PathSign.
Import TSP FloatSem RateSpec.

Lemma path_distance_loop_nonneg (m : matrix) (path : list Z) :
  nonneg_matrix m ->
  forall idxs total t,
    nonneg_float total = true ->
    path_distance_loop m path idxs total = Ok t -> nonneg_float t = true.
Proof.
  intros Hm. induction idxs as [| i idxs IH]; intros total t Ht H.
  - injection H as <-. exact Ht.
  - cbn [path_distance_loop] in H.
    destruct (py_index path i) as [cur |]; [| discriminate].
    cbn [rbind] in H.
    destruct (py_index path ((i + 1) mod Z.of_nat (length path))) as [nxt |];
      [| discriminate].
    cbn [rbind] in H.
    destruct (py_index m cur) as [row |] eqn:Erow; [| discriminate].
    cbn [rbind] in H.
    destruct (py_index row nxt) as [d |] eqn:Ed; [| discriminate].
    cbn [rbind] in H.
    apply (IH (Float.add total d) t); [| exact H].
    apply add_nonneg; [exact Ht | apply (entry_nonneg m cur nxt row d Hm Erow Ed)].
Qed.

End PathSign.

(** X11.  On an [n] by [n] distance matrix, [calculate_path_distance]
    returns exactly when every city of the path is an index Python accepts
    on the matrix, [-n <= c < n]; otherwise it raises [IndexError], and
    nothing else.  The empty path is accepted: its length is [0.0] and
    nothing is divided by [len(path)]. *)
Theorem calculate_path_distance_returns_iff (self : TSP.TSPBenchmark) (n : nat)
  (path : list Z) :
  TSPSpec.square n (TSP.distance_matrix self) ->
  is_ok (TSP.calculate_path_distance self path)
  = forallb (SATSpec.index_in_range n) path
  /\ (forall e, TSP.calculate_path_distance self path = Raise e -> e = IndexError)
  /\ TSP.calculate_path_distance self [] = Ok Float.zero.
Proof.
  intros Hsq. unfold TSP.calculate_path_distance.
  split; [| split; [apply path_distance_loop_raises | reflexivity]].
  assert (Hidx : Forall (fun i => 0 <= i < Z.of_nat (length path))
                        (py_range (Z.of_nat (length path)))).
  { apply Forall_forall. intros i Hi. apply elem_of_py_range in Hi. exact Hi. }
  destruct (forallb (SATSpec.index_in_range n) path) eqn:E.
  - destruct (path_distance_loop_returns _ n Hsq path) with
      (idxs := py_range (Z.of_nat (length path))) (total := Float.zero)
      as [t Ht]; [| exact Hidx | rewrite Ht; reflexivity].
    apply Forall_forall. intros c Hc. rewrite forallb_forall in E.
    apply E, list_elem_of_In, Hc.
  - destruct (TSP.path_distance_loop _ _ _ _) as [t |] eqn:Ht; [| reflexivity].
    exfalso. rewrite <- not_true_iff_false in E. apply E.
    apply forallb_forall. intros c Hc. apply list_elem_of_In in Hc.
    apply list_elem_of_lookup in Hc as [k Hk].
    apply (path_distance_loop_reads _ n Hsq path _ _ t
             ltac:(eapply Forall_impl; [exact Hidx | intros; cbv beta in *; lia])
             Ht (Z.of_nat k)).
    + apply elem_of_py_range. split; [lia |].
      apply Nat2Z.inj_lt. eapply lookup_lt_Some; eauto.
    + rewrite Nat2Z.id. exact Hk.
Qed.

Lemma calculate_path_distance_returns_iff_witness :
  exists self',
    TSP.calculate_distance_matrix TSPSpec.three_cities = (self', Ok tt)
    /\ is_ok (TSP.calculate_path_distance self' [0; -1; 1]) = true
    /\ is_ok (TSP.calculate_path_distance self' [0; 3]) = false.
Proof.
  eexists. split; [vm_compute; reflexivity |].
  match goal with
  | |- is_ok (TSP.calculate_path_distance ?s _) = _ /\ _ =>
      assert (Hsq : TSPSpec.square 3 (TSP.distance_matrix s))
        by (split; [reflexivity | repeat constructor])
  end.
  split.
  - apply (calculate_path_distance_returns_iff _ 3 [0; -1; 1] Hsq).
  - apply (calculate_path_distance_returns_iff _ 3 [0; 3] Hsq).
Defined.

(** X12.  On a distance matrix of non-negative entries (what
    [calculate_distance_matrix] stores for cities with finite
    coordinates), the tour length returned by [calculate_path_distance] is
    a non-negative float: never NaN and never negative. *)
Theorem calculate_path_distance_nonneg (self : TSP.TSPBenchmark) (path : list Z)
  (t : Float.float) :
  RateSpec.nonneg_matrix (TSP.distance_matrix self) ->
  TSP.calculate_path_distance self path = Ok t ->
  Float.is_nan t = false /\ Float.sign_bit t = Some false.
Proof.
  intros Hm H.
  pose proof (path_distance_loop_nonneg _ path Hm _ Float.zero t eq_refl H) as Hn.
  destruct t as [[] | [] | | [] mt et]; try discriminate; split; reflexivity.
Qed.

Lemma calculate_path_distance_nonneg_witness :
  exists self' t,
    TSP.calculate_distance_matrix TSPSpec.three_cities = (self', Ok tt)
    /\ TSP.calculate_path_distance self' [0; 1; 2] = Ok t
    /\ Float.is_nan t = false /\ Float.sign_bit t = Some false.
Proof.
  exists (fst (TSP.calculate_distance_matrix TSPSpec.three_cities)).
  destruct (TSP.calculate_path_distance
              (fst (TSP.calculate_distance_matrix TSPSpec.three_cities)) [0; 1; 2])
    as [t |] eqn:Et; [| vm_compute in Et; discriminate].
  exists t. split; [vm_compute; reflexivity |]. split; [reflexivity |].
  apply (calculate_path_distance_nonneg
           (fst (TSP.calculate_distance_matrix TSPSpec.three_cities))
           [0; 1; 2] t); [| exact Et].
  apply (valid_cities_nonneg_matrix TSPSpec.three_cities); [reflexivity |].
  vm_compute. reflexivity.
Defined.

(** ** tsp_benchmark.py: [run] *)

Section TspRun.
Import TSP TSPSpec FloatSem RateSpec.

Lemma py_range_of_length (n : Z) :
  py_range (Z.of_nat (Z.to_nat n)) = py_range n.
Proof. unfold py_range. rewrite Nat2Z.id. reflexivity. Qed.

(** What [run] computes before it calls the simulator. *)
Lemma tsp_run_prepares (self : TSPBenchmark) (n : Z) (g : rng) :
  exists self1 g' self2 text,
    generate_cities self n g = (self1, g')
    /\ length (cities self1) = Z.to_nat n
    /\ calculate_distance_matrix self1 = (self2, Ok tt)
    /\ cities self2 = cities self1
    /\ square (Z.to_nat n) (distance_matrix self2)
    /\ nonneg_matrix (distance_matrix self2)
    /\ create_tsp_crn self2 n = Ok text.
Proof.
  destruct (generate_cities_in_box self n g) as [Hbox Hlen].
  destruct (generate_cities self n g) as [self1 g'] eqn:Egen. cbn [fst] in *.
  destruct (box_cities_matrix self1 Hbox) as (self2 & Hrun & Hsq & _).
  pose proof (valid_cities_nonneg_matrix self1 self2 (box_cities_valid _ Hbox) Hrun)
    as Hnn.
  rewrite Hlen in Hsq.
  destruct (create_tsp_crn_succeeds self2 n Hsq Hnn) as [text Htext].
  destruct (computed_matrix self1 self2 Hrun) as (Hc & _).
  exists self1, g', self2, text.
  split; [reflexivity |]. split; [exact Hlen |]. split; [exact Hrun |].
  split; [exact Hc |]. split; [exact Hsq |]. split; [exact Hnn | exact Htext].
Qed.

Lemma tsp_run_total (execute_crn_string : string -> result utm_result)
  (self : TSPBenchmark) (n : Z) (g : rng) :
  (forall text, exists res, execute_crn_string text = Ok res) ->
  exists self2 text res t,
    create_tsp_crn self2 n = Ok text
    /\ execute_crn_string text = Ok res
    /\ calculate_path_distance self2 (py_range n) = Ok t
    /\ nonneg_float t = true
    /\ run execute_crn_string self n g
       = Ok ({| r_cities := n; r_best_path := py_range n;
                r_best_distance := t; r_execution_steps := get_steps res |},
             snd (generate_cities self n g)).
Proof.
  intros Hex.
  destruct (tsp_run_prepares self n g)
    as (self1 & g' & self2 & text & Egen & Hlen & Hrun & Hc & Hsq & Hnn & Htext).
  destruct (Hex text) as [res Hres].
  assert (Hpath : extract_best_path self2 res = py_range n).
  { unfold extract_best_path. rewrite Hc, Hlen. apply py_range_of_length. }
  destruct (path_distance_loop_returns (distance_matrix self2) (Z.to_nat n)
              Hsq (py_range n)) with
    (idxs := py_range (Z.of_nat (length (py_range n)))) (total := Float.zero)
    as [t Ht].
  { apply Forall_forall. intros c Hc'. apply elem_of_py_range in Hc'.
    apply index_in_range_weaken. lia. }
  { apply Forall_forall. intros i Hi. apply elem_of_py_range in Hi. exact Hi. }
  pose proof (path_distance_loop_nonneg _ (py_range n) Hnn _ Float.zero t eq_refl Ht)
    as Hn.
  exists self2, text, res, t.
  split; [exact Htext |]. split; [exact Hres |]. split; [exact Ht |].
  split; [exact Hn |].
  unfold run. rewrite Egen, Hrun. cbn [rbind snd]. rewrite Htext. cbn [rbind].
  rewrite Hres. cbn [rbind]. rewrite Hpath.
  unfold calculate_path_distance. rewrite Ht. reflexivity.
Qed.

End TspRun.

(** X13.  [TSPBenchmark.run(n)] on a simulator that returns never raises,
    for any [n] (zero and negative included): the generated cities have a
    computable distance matrix, the encoder returns, and the placeholder
    path is a valid tour.  The dict reports [n], the path
    [0, 1, ..., n-1], its length as a non-negative float (not NaN) and
    [result.get("steps", 0)]. *)
Theorem tsp_run_returns (execute_crn_string : string -> result utm_result)
  (self : TSP.TSPBenchmark) (n : Z) (g : rng) :
  (forall text, exists res, execute_crn_string text = Ok res) ->
  exists self2 text res r g',
    TSP.create_tsp_crn self2 n = Ok text
    /\ execute_crn_string text = Ok res
    /\ TSP.run execute_crn_string self n g = Ok (r, g')
    /\ g' = snd (TSP.generate_cities self n g)
    /\ TSP.r_cities r = n
    /\ TSP.r_best_path r = py_range n
    /\ TSP.calculate_path_distance self2 (py_range n) = Ok (TSP.r_best_distance r)
    /\ Float.is_nan (TSP.r_best_distance r) = false
    /\ Float.sign_bit (TSP.r_best_distance r) = Some false
    /\ TSP.r_execution_steps r = get_steps res.
Proof.
  intros Hex.
  destruct (tsp_run_total execute_crn_string self n g Hex)
    as (self2 & text & res & t & Htext & Hres & Ht & Hn & Hrun).
  exists self2, text, res. eexists _, _.
  split; [exact Htext |]. split; [exact Hres |]. split; [exact Hrun |].
  cbn [TSP.r_cities TSP.r_best_path TSP.r_best_distance TSP.r_execution_steps].
  split; [reflexivity |]. split; [reflexivity |]. split; [reflexivity |].
  split; [exact Ht |].
  destruct t as [[] | [] | | [] mt et]; try discriminate; repeat split.
Qed.

Lemma tsp_run_returns_witness :
  exists r g',
    TSP.run (fun _ => Ok SATSpec.sample_result) TSPSpec.three_cities 2
      SATSpec.draws_true_false = Ok (r, g')
    /\ TSP.r_best_path r = [0; 1]
    /\ TSP.r_execution_steps r = 7.
Proof.
  destruct (tsp_run_returns (fun _ => Ok SATSpec.sample_result)
              TSPSpec.three_cities 2 SATSpec.draws_true_false
              ltac:(intros; eexists; reflexivity))
    as (self2 & text & res & r & g' & _ & Hres & H & _ & _ & Hp & _ & _ & _ & Hs).
  exists r, g'. split; [exact H |]. split; [exact Hp |].
  rewrite Hs. injection Hres as <-. reflexivity.
Defined.

(** ** tsp_benchmark.py: the size and the symmetry of the text *)

Section TspTextSize.
Import CRN CRNSpec EncoderSpec TSP TSPSpec FloatSem RateSpec.

Lemma others_in_seq (i start len : nat) :
  length (List.filter (fun j => negb (Z.of_nat i =? j)) (Z.of_nat <$> seq start len))
  = if decide (start <= i < start + len)%nat then (len - 1)%nat else len.
Proof.
  revert start. induction len as [| len IH]; intros start.
  - destruct (decide _); [lia | reflexivity].
  - cbn [seq fmap list_fmap List.filter]. specialize (IH (S start)).
    destruct (Z.of_nat i =? Z.of_nat start) eqn:E; cbn [negb].
    + apply Z.eqb_eq in E.
      rewrite decide_False in IH by lia. rewrite decide_True by lia.
      fold (fmap (M := list) Z.of_nat (seq (S start) len)). rewrite IH. lia.
    + apply Z.eqb_neq in E. cbn [length].
      fold (fmap (M := list) Z.of_nat (seq (S start) len)). rewrite IH.
      destruct (decide (S start <= i < S start + len)%nat).
      * rewrite decide_True by lia. lia.
      * rewrite decide_False by lia. reflexivity.
Qed.

Lemma others_in_range (i n : Z) :
  0 <= i < n ->
  length (List.filter (fun j => negb (i =? j)) (py_range n)) = (Z.to_nat n - 1)%nat.
Proof.
  intros Hi. unfold py_range. rewrite <- (Z2Nat.id i) by lia.
  rewrite others_in_seq. rewrite decide_True by lia. reflexivity.
Qed.

Lemma crn_row_count (m : matrix) (i : Z) (js : list Z) :
  forall s, crn_row m i js = Ok s ->
  exists ls, block_lines s ls
             /\ length ls = length (List.filter (fun j => negb (i =? j)) js).
Proof.
  induction js as [| j js IH]; intros s Hs.
  - injection Hs as <-. exists []. split; [apply block_lines_empty | reflexivity].
  - cbn [crn_row List.filter] in *. destruct (i =? j) eqn:Eij; cbn [negb].
    + apply IH, Hs.
    + destruct (py_index m i) as [row |]; [| discriminate]. cbn [rbind] in Hs.
      destruct (py_index row j) as [d |]; [| discriminate]. cbn [rbind] in Hs.
      destruct (rate_of d) as [rate |]; [| discriminate]. cbn [rbind] in Hs.
      destruct (crn_row m i js) as [rest |]; [| discriminate].
      cbn [rbind] in Hs. injection Hs as <-.
      destruct (IH rest eq_refl) as (ls & Hb & Hl).
      exists ([line_of i j rate] ++ ls). split.
      * change (block_lines (reaction_line i j rate +:+ rest)
                  ([line_of i j rate] ++ ls)).
        rewrite reaction_line_of.
        apply block_lines_app; [| exact Hb].
        apply block_lines_line, line_of_not_newline.
      * cbn [app length]. rewrite Hl. reflexivity.
Qed.

Lemma crn_rows_count (m : matrix) (n : Z) (rows : list Z) :
  Forall (fun i => 0 <= i < n) rows ->
  forall s, crn_rows m n rows = Ok s ->
  exists ls, block_lines s ls
             /\ length ls = (length rows * (Z.to_nat n - 1))%nat.
Proof.
  induction 1 as [| i rows Hi _ IH]; intros s Hs.
  - injection Hs as <-. exists []. split; [apply block_lines_empty | reflexivity].
  - cbn [crn_rows] in Hs.
    destruct (crn_row m i (py_range n)) as [r |] eqn:Er; [| discriminate].
    cbn [rbind] in Hs.
    destruct (crn_rows m n rows) as [rest |]; [| discriminate].
    cbn [rbind] in Hs. injection Hs as <-.
    destruct (crn_row_count m i (py_range n) r Er) as (l1 & Hb1 & Hl1).
    destruct (IH rest eq_refl) as (l2 & Hb2 & Hl2).
    exists (l1 ++ l2). split; [apply block_lines_app; assumption |].
    rewrite length_app, Hl1, Hl2, (others_in_range i n Hi). cbn [length]. lia.
Qed.

Lemma tsp_header_five_lines (n : Z) :
  exists ls, block_lines (crn_header n) ls /\ length ls = 5%nat.
Proof.
  unfold crn_header.
  replace (nl +:+ "-- TSP Chemical Reaction Network for " +:+ str_int n
           +:+ " cities" +:+ nl
           +:+ "-- Each city is represented as a molecular species" +:+ nl
           +:+ nl +:+ "-- City selection reactions" +:+ nl)
    with (("" +:+ nl)
          +:+ (("-- TSP Chemical Reaction Network for " +:+ str_int n
                +:+ " cities") +:+ nl)
          +:+ ("-- Each city is represented as a molecular species" +:+ nl)
          +:+ ("" +:+ nl) +:+ ("-- City selection reactions" +:+ nl))
    by (rewrite !append_assoc; reflexivity).
  exists ([""] ++ ["-- TSP Chemical Reaction Network for " +:+ str_int n +:+ " cities"]
          ++ ["-- Each city is represented as a molecular species"]
          ++ [""] ++ ["-- City selection reactions"]).
  split; [| reflexivity].
  apply block_lines_app; [apply block_lines_line; reflexivity |].
  apply block_lines_app;
    [apply block_lines_line; rewrite !all_chars_app, int_not_newline; reflexivity |].
  apply block_lines_app; [apply block_lines_line; reflexivity |].
  apply block_lines_app; apply block_lines_line; reflexivity.
Qed.

Lemma py_index_row_bound {A} (l : list A) (i : Z) (x : A) :
  0 <= i -> py_index l i = Ok x -> i < Z.of_nat (length l).
Proof.
  intros Hi H. apply py_index_lookup in H; [| exact Hi].
  apply lookup_lt_Some in H. lia.
Qed.

Lemma rate_of_raises (d : Float.float) (e : exn) :
  nonneg_float d = true -> rate_of d = Raise e -> False.
Proof.
  intros Hd H. destruct (rate_of_cases d Hd) as (rate & E & _). congruence.
Qed.

Lemma crn_row_raises (m : matrix) (i : Z) (js : list Z) (e : exn) :
  nonneg_matrix m -> crn_row m i js = Raise e -> e = IndexError.
Proof.
  intros Hm. induction js as [| j js IH]; [discriminate |].
  cbn [crn_row]. destruct (i =? j); [exact IH |].
  destruct (py_index m i) as [row |] eqn:E1;
    [| intros [= <-]; apply (py_index_raises _ _ _ E1)].
  cbn [rbind].
  destruct (py_index row j) as [d |] eqn:E2;
    [| intros [= <-]; apply (py_index_raises _ _ _ E2)].
  cbn [rbind].
  destruct (rate_of d) as [rate |] eqn:E3;
    [| intros _; exfalso;
       apply (rate_of_raises d _ (entry_nonneg m i j row d Hm E1 E2) E3)].
  cbn [rbind].
  destruct (crn_row m i js) as [rest |]; [discriminate |].
  intros [= <-]. apply IH. reflexivity.
Qed.

Lemma crn_rows_raises (m : matrix) (n : Z) (rows : list Z) (e : exn) :
  nonneg_matrix m -> crn_rows m n rows = Raise e -> e = IndexError.
Proof.
  intros Hm. induction rows as [| i rows IH]; [discriminate |].
  cbn [crn_rows].
  destruct (crn_row m i (py_range n)) as [r |] eqn:E1;
    [| intros [= <-]; apply (crn_row_raises m i _ _ Hm E1)].
  cbn [rbind].
  destruct (crn_rows m n rows) as [rest |]; [discriminate |].
  intros [= <-]. apply IH. reflexivity.
Qed.

Lemma crn_rows_succeeds_le (m : matrix) (k : nat) (n : Z) (rows : list Z) :
  square k m -> nonneg_matrix m -> n <= Z.of_nat k ->
  Forall (fun i => 0 <= i < n) rows ->
  exists s, crn_rows m n rows = Ok s.
Proof.
  intros Hsq Hnn Hle. induction 1 as [| i rows Hi _ IH].
  - exists "". reflexivity.
  - destruct IH as [rest Hrest]. cbn [crn_rows].
    destruct (crn_row_succeeds m k i (py_range n) Hsq Hnn ltac:(lia)) as [r Hr].
    { apply Forall_forall. intros j Hj. apply elem_of_py_range in Hj. lia. }
    rewrite Hr. cbn [rbind]. rewrite Hrest. cbn [rbind]. eexists. reflexivity.
Qed.

End TspTextSize.

(** X14.  The text returned by [create_tsp_crn(n)] has exactly
    [n * (n - 1)] reaction lines, one per ordered pair of distinct cities,
    after the five lines of the header: split at the newlines it has
    [6 + n * (n - 1)] pieces, the last one empty. *)
Theorem create_tsp_crn_line_count (self : TSP.TSPBenchmark) (n : Z) (text : string) :
  TSP.create_tsp_crn self n = Ok text ->
  length (CRN.lines text) = (6 + Z.to_nat n * (Z.to_nat n - 1))%nat.
Proof.
  unfold TSP.create_tsp_crn.
  destruct (TSP.crn_rows (TSP.distance_matrix self) n (py_range n)) as [body |] eqn:E;
    [| discriminate].
  cbn [rbind]. intros Ht.
  assert (Et : TSP.crn_header n +:+ body = text) by congruence.
  rewrite <- Et. clear Ht Et.
  destruct (crn_rows_count (TSP.distance_matrix self) n (py_range n)
              ltac:(apply Forall_forall; intros i Hi;
                    apply elem_of_py_range in Hi; exact Hi) body E)
    as (ls & Hb & Hl).
  destruct (tsp_header_five_lines n) as (hl & Hh & Hhl).
  pose proof (block_lines_app (TSP.crn_header n) body hl ls Hh Hb "") as H.
  rewrite append_nil_r in H. rewrite H.
  rewrite !length_app, Hhl, Hl, py_range_length.
  change (length (CRN.lines "")) with 1%nat. lia.
Qed.

Lemma create_tsp_crn_line_count_witness :
  exists self' text,
    TSP.calculate_distance_matrix TSPSpec.three_cities = (self', Ok tt)
    /\ TSP.create_tsp_crn self' 3 = Ok text
    /\ length (CRN.lines text) = 12%nat.
Proof.
  exists (fst (TSP.calculate_distance_matrix TSPSpec.three_cities)).
  destruct (TSP.create_tsp_crn
              (fst (TSP.calculate_distance_matrix TSPSpec.three_cities)) 3)
    as [text |] eqn:E; [| vm_compute in E; discriminate].
  exists text. split; [vm_compute; reflexivity |]. split; [reflexivity |].
  apply (create_tsp_crn_line_count _ 3 text E).
Defined.

(** X15.  For cities with finite coordinates the encoded network is
    symmetric: the lines [city_i -> city_j] and [city_j -> city_i] of the
    text returned by [create_tsp_crn] carry the same rate. *)
Theorem tsp_rates_symmetric (self self' : TSP.TSPBenchmark) (n : Z) (text : string)
  (i j : Z) :
  forallb TSPSpec.finite_city (TSP.cities self) = true ->
  TSP.calculate_distance_matrix self = (self', Ok tt) ->
  TSP.create_tsp_crn self' n = Ok text ->
  0 <= i < n -> 0 <= j < n -> i <> j ->
  exists rate,
    RateSpec.line_of i j rate ∈ CRN.lines text
    /\ RateSpec.line_of j i rate ∈ CRN.lines text.
Proof.
  intros Hfin Hrun Htext Hi Hj Hne.
  destruct (create_tsp_crn_lines self' n text Htext i j Hi Hj Hne)
    as (row1 & d1 & r1 & E1 & Ed1 & Er1 & Hl1).
  destruct (create_tsp_crn_lines self' n text Htext j i Hj Hi ltac:(congruence))
    as (row2 & d2 & r2 & E2 & Ed2 & Er2 & Hl2).
  destruct (computed_matrix self self' Hrun) as (_ & Hsq & Hent).
  pose proof Hsq as [Hlen Hrows]. rewrite Forall_forall in Hrows.
  pose proof (py_index_lookup _ _ _ (proj1 Hi) E1) as L1.
  pose proof (py_index_lookup _ _ _ (proj1 Hj) Ed1) as Ld1.
  pose proof (py_index_lookup _ _ _ (proj1 Hj) E2) as L2.
  pose proof (py_index_lookup _ _ _ (proj1 Hi) Ed2) as Ld2.
  assert (Hin : (Z.to_nat i < length (TSP.cities self))%nat).
  { rewrite <- Hlen. eapply lookup_lt_Some; eauto. }
  assert (Hjn : (Z.to_nat j < length (TSP.cities self))%nat).
  { rewrite <- Hlen. eapply lookup_lt_Some; eauto. }
  assert (Hd1 : TSPSpec.entry (TSP.distance_matrix self') (Z.to_nat i) (Z.to_nat j)
                = Some d1) by (unfold TSPSpec.entry; rewrite L1; exact Ld1).
  assert (Hd2 : TSPSpec.entry (TSP.distance_matrix self') (Z.to_nat j) (Z.to_nat i)
                = Some d2) by (unfold TSPSpec.entry; rewrite L2; exact Ld2).
  rewrite (Hent _ _ Hin Hjn), decide_False in Hd1 by lia.
  rewrite (Hent _ _ Hjn Hin), decide_False in Hd2 by lia.
  unfold TSPSpec.dist_opt in Hd1, Hd2.
  destruct (TSP.cities self !! Z.to_nat i) as [ci |] eqn:Ci; [| discriminate].
  destruct (TSP.cities self !! Z.to_nat j) as [cj |] eqn:Cj; [| discriminate].
  rewrite forallb_forall in Hfin.
  rewrite (distance_sym cj ci) in Hd2
    by (apply Hfin, list_elem_of_In; eapply list_elem_of_lookup_2; eauto).
  assert (Hd : d1 = d2).
  { destruct (TSP.distance ci cj); [congruence | discriminate]. }
  subst d2. assert (Hr : r1 = r2) by congruence. subst r2.
  exists r1. split; assumption.
Qed.

Lemma tsp_rates_symmetric_witness :
  exists self' text rate,
    TSP.calculate_distance_matrix TSPSpec.three_cities = (self', Ok tt)
    /\ TSP.create_tsp_crn self' 3 = Ok text
    /\ RateSpec.line_of 1 2 rate ∈ CRN.lines text
    /\ RateSpec.line_of 2 1 rate ∈ CRN.lines text.
Proof.
  exists (fst (TSP.calculate_distance_matrix TSPSpec.three_cities)).
  destruct (TSP.create_tsp_crn
              (fst (TSP.calculate_distance_matrix TSPSpec.three_cities)) 3)
    as [text |] eqn:E; [| vm_compute in E; discriminate].
  destruct (tsp_rates_symmetric TSPSpec.three_cities
              (fst (TSP.calculate_distance_matrix TSPSpec.three_cities)) 3 text 1 2
              eq_refl ltac:(vm_compute; reflexivity) E
              ltac:(lia) ltac:(lia) ltac:(lia)) as (rate & H1 & H2).
  exists text, rate. split; [vm_compute; reflexivity |].
  split; [reflexivity |]. split; assumption.
Defined.

(** X16.  [create_tsp_crn(n)] against the size of the matrix.  On a [k] by
    [k] matrix of non-negative entries it returns for every [n <= k]
    (never dividing by zero) and raises [IndexError] for [n > k] as soon
    as [n >= 2]; for [n <= 1] it reads no entry and returns the header
    alone, whatever the matrix is. *)
Theorem create_tsp_crn_size (self : TSP.TSPBenchmark) (k : nat) (n : Z) :
  (n <= 1 -> TSP.create_tsp_crn self n = Ok (TSP.crn_header n))
  /\ (TSPSpec.square k (TSP.distance_matrix self) ->
      RateSpec.nonneg_matrix (TSP.distance_matrix self) ->
      (n <= Z.of_nat k -> exists text, TSP.create_tsp_crn self n = Ok text)
      /\ (Z.of_nat k < n -> 2 <= n ->
          TSP.create_tsp_crn self n = Raise IndexError)).
Proof.
  split.
  - intros Hn. unfold TSP.create_tsp_crn, py_range.
    destruct (Z.to_nat n) as [| [| p]] eqn:E; [| | lia].
    + change (Ok (TSP.crn_header n +:+ "") = Ok (TSP.crn_header n)).
      rewrite append_nil_r. reflexivity.
    + assert (n = 1) by lia. subst n. reflexivity.
  - intros Hsq Hnn. split.
    + intros Hle. unfold TSP.create_tsp_crn.
      destruct (crn_rows_succeeds_le (TSP.distance_matrix self) k n (py_range n)
                  Hsq Hnn Hle) as [body Hbody].
      { apply Forall_forall. intros i Hi. apply elem_of_py_range in Hi. exact Hi. }
      rewrite Hbody. cbn [rbind]. eexists. reflexivity.
    + intros Hk Hn.
      destruct (TSP.create_tsp_crn self n) as [text | e] eqn:E.
      * exfalso.
        destruct (create_tsp_crn_lines self n text E 0 (n - 1)
                    ltac:(lia) ltac:(lia) ltac:(lia))
          as (row & d & rate & E1 & E2 & _).
        assert (H0 : 0 <= n - 1) by lia.
        pose proof (py_index_row_bound _ _ _ H0 E2) as Hb.
        destruct Hsq as [_ Hrows]. rewrite Forall_forall in Hrows.
        rewrite (Hrows row (py_index_elem _ _ _ E1)) in Hb. lia.
      * f_equal. unfold TSP.create_tsp_crn in E.
        destruct (TSP.crn_rows (TSP.distance_matrix self) n (py_range n))
          as [body | e'] eqn:E'; [discriminate |].
        injection E as <-. apply (crn_rows_raises _ _ _ _ Hnn E').
Qed.

Lemma create_tsp_crn_size_witness :
  exists self',
    TSP.calculate_distance_matrix TSPSpec.three_cities = (self', Ok tt)
    /\ (exists text, TSP.create_tsp_crn self' 2 = Ok text)
    /\ TSP.create_tsp_crn self' 4 = Raise IndexError
    /\ TSP.create_tsp_crn TSPSpec.three_cities 1 = Ok (TSP.crn_header 1).
Proof.
  exists (fst (TSP.calculate_distance_matrix TSPSpec.three_cities)).
  split; [vm_compute; reflexivity |].
  assert (Hsq : TSPSpec.square 3
                  (TSP.distance_matrix
                     (fst (TSP.calculate_distance_matrix TSPSpec.three_cities))))
    by (split; [reflexivity | repeat constructor]).
  assert (Hnn : RateSpec.nonneg_matrix
                  (TSP.distance_matrix
                     (fst (TSP.calculate_distance_matrix TSPSpec.three_cities))))
    by (apply (valid_cities_nonneg_matrix TSPSpec.three_cities);
        [reflexivity | vm_compute; reflexivity]).
  split; [| split].
  - apply (proj2 (create_tsp_crn_size _ 3 2) Hsq Hnn). lia.
  - apply (proj2 (create_tsp_crn_size _ 3 4) Hsq Hnn); lia.
  - apply (create_tsp_crn_size TSPSpec.three_cities 0 1). lia.
Defined.

(** ** tsp_benchmark.py: the cities drawn *)

Section CityDraws.
Import TSP.

Lemma random_uniform_tail (g : rng) :
  snd (PyFloat.random_uniform_0_100 g) = rng_tail g.
Proof. reflexivity. Qed.

Lemma draw_cities_draws (count : nat) :
  forall g,
    length (fst (draw_cities count g)) = count
    /\ forall i, snd (draw_cities count g) i = g (2 * count + i)%nat.
Proof.
  induction count as [| count IH]; intros g; [split; reflexivity |].
  cbn [draw_cities].
  pose proof (random_uniform_tail g) as T1.
  destruct (PyFloat.random_uniform_0_100 g) as [x g1]. cbn [snd] in T1. subst g1.
  pose proof (random_uniform_tail (rng_tail g)) as T2.
  destruct (PyFloat.random_uniform_0_100 (rng_tail g)) as [y g2].
  cbn [snd] in T2. subst g2.
  destruct (IH (rng_tail (rng_tail g))) as [H1 H2].
  destruct (draw_cities count (rng_tail (rng_tail g))) as [rest g3].
  cbn [fst snd] in *. split; [cbn [length]; rewrite H1; reflexivity |].
  intros i. rewrite H2. unfold rng_tail. f_equal. lia.
Qed.

End CityDraws.

(** ** sat_benchmark.py: the size of the text *)

Section SatTextSize.
Import CRN CRNSpec EncoderSpec SAT.

Lemma variable_reactions_lines (vars : list string) :
  forallb no_newline vars = true ->
  exists ls, block_lines (variable_reactions vars) ls
             /\ length ls = (2 * length vars)%nat.
Proof.
  induction vars as [| var vars IH]; intros H.
  - exists []. split; [apply block_lines_empty | reflexivity].
  - cbn [forallb] in H. apply andb_true_iff in H as [Hv Hvs].
    destruct (IH Hvs) as (ls & Hb & Hl). unfold no_newline in Hv.
    cbn [variable_reactions].
    replace (var +:+ "_false -> " +:+ var +:+ "_true, rate=1.0" +:+ nl +:+
             var +:+ "_true -> " +:+ var +:+ "_false, rate=1.0" +:+ nl +:+
             variable_reactions vars)
      with (((var +:+ "_false -> " +:+ var +:+ "_true, rate=1.0") +:+ nl)
            +:+ ((var +:+ "_true -> " +:+ var +:+ "_false, rate=1.0") +:+ nl)
            +:+ variable_reactions vars)
      by (rewrite !append_assoc; reflexivity).
    exists ([var +:+ "_false -> " +:+ var +:+ "_true, rate=1.0"]
            ++ [var +:+ "_true -> " +:+ var +:+ "_false, rate=1.0"] ++ ls).
    split; [| cbn [app length]; lia].
    apply block_lines_app; [| apply block_lines_app; [| exact Hb]];
      apply block_lines_line; rewrite !all_chars_app, Hv; reflexivity.
Qed.

Lemma reactant_lines_lines (i : Z) (rs : list string) :
  forallb no_newline rs = true ->
  exists ls, block_lines (reactant_lines i rs) ls /\ length ls = length rs.
Proof.
  induction rs as [| x rs IH]; intros H.
  - exists []. split; [apply block_lines_empty | reflexivity].
  - cbn [forallb] in H. apply andb_true_iff in H as [Hx Hrs].
    destruct (IH Hrs) as (ls & Hb & Hl). unfold no_newline in Hx.
    cbn [reactant_lines].
    replace (x +:+ " -> clause_" +:+ str_int i +:+ "_satisfied, rate=10.0" +:+ nl
             +:+ reactant_lines i rs)
      with (((x +:+ " -> clause_" +:+ str_int i +:+ "_satisfied, rate=10.0") +:+ nl)
            +:+ reactant_lines i rs)
      by (rewrite !append_assoc; reflexivity).
    exists ([x +:+ " -> clause_" +:+ str_int i +:+ "_satisfied, rate=10.0"] ++ ls).
    split; [| cbn [app length]; lia].
    apply block_lines_app; [| exact Hb].
    apply block_lines_line. rewrite !all_chars_app, Hx, int_not_newline. reflexivity.
Qed.

Lemma clause_reactants_names (vars : list string) (c : clause) :
  forallb no_newline vars = true ->
  forall rs, clause_reactants vars c = Ok rs ->
             length rs = length c /\ forallb no_newline rs = true.
Proof.
  intros Hv. induction c as [| [idx negated] c IH]; intros rs H.
  - injection H as <-. split; reflexivity.
  - cbn [clause_reactants] in H.
    destruct (py_index vars idx) as [name |] eqn:En; [| discriminate].
    cbn [rbind] in H.
    destruct (clause_reactants vars c) as [rs' |]; [| discriminate].
    cbn [rbind] in H. injection H as <-.
    destruct (IH rs' eq_refl) as [Hl Hn].
    split; [cbn [length]; rewrite Hl; reflexivity |].
    cbn [forallb]. rewrite Hn, andb_true_r.
    rewrite forallb_forall in Hv.
    pose proof (Hv name ltac:(apply list_elem_of_In, (py_index_elem _ _ _ En))) as Hname.
    unfold no_newline in *. rewrite !all_chars_app, Hname.
    destruct negated; reflexivity.
Qed.

Lemma clause_reactions_lines (vars : list string) (cs : list clause) :
  forallb no_newline vars = true ->
  forall i body, clause_reactions vars i cs = Ok body ->
  exists ls, block_lines body ls
             /\ length ls = (length cs + length (concat cs))%nat.
Proof.
  intros Hv. induction cs as [| c cs IH]; intros i body H.
  - injection H as <-. exists []. split; [apply block_lines_empty | reflexivity].
  - cbn [clause_reactions] in H.
    destruct (clause_reactants vars c) as [rs |] eqn:Ers; [| discriminate].
    cbn [rbind] in H.
    destruct (clause_reactions vars (i + 1) cs) as [tail |] eqn:Etail;
      [| discriminate].
    cbn [rbind] in H.
    assert (Eb : "-- Clause " +:+ str_int (i + 1) +:+ ": " +:+ repr_clause c +:+ nl
                 +:+ reactant_lines i rs +:+ tail = body) by congruence.
    clear H. rewrite <- Eb.
    destruct (clause_reactants_names vars c Hv rs Ers) as [Hlen Hnn].
    destruct (reactant_lines_lines i rs Hnn) as (l1 & Hb1 & Hl1).
    destruct (IH (i + 1) tail Etail) as (l2 & Hb2 & Hl2).
    replace ("-- Clause " +:+ str_int (i + 1) +:+ ": " +:+ repr_clause c +:+ nl
             +:+ reactant_lines i rs +:+ tail)
      with ((("-- Clause " +:+ str_int (i + 1) +:+ ": " +:+ repr_clause c) +:+ nl)
            +:+ reactant_lines i rs +:+ tail)
      by (rewrite !append_assoc; reflexivity).
    exists (["-- Clause " +:+ str_int (i + 1) +:+ ": " +:+ repr_clause c]
            ++ l1 ++ l2).
    split.
    + apply block_lines_app; [| apply block_lines_app; assumption].
      apply block_lines_line, repr_char_not_newline. rewrite !all_chars_app.
      rewrite (int_repr_char _ (str_int_chars (i + 1))), repr_clause_chars.
      reflexivity.
    + cbn [concat app length]. rewrite !length_app, Hl1, Hl2, Hlen. lia.
Qed.

Lemma sat_header_lines :
  exists ls, block_lines crn_header ls /\ length ls = 4%nat.
Proof.
  unfold crn_header.
  exists (["-- 3-SAT Chemical Reaction Network"]
          ++ ["-- Variables represented as molecular species (TRUE/FALSE states)"]
          ++ ["-- Clauses as reactions that must be satisfied"] ++ [""]).
  split; [| reflexivity].
  replace ("-- 3-SAT Chemical Reaction Network" +:+ nl +:+
           "-- Variables represented as molecular species (TRUE/FALSE states)"
           +:+ nl +:+ "-- Clauses as reactions that must be satisfied" +:+ nl
           +:+ nl)
    with (("-- 3-SAT Chemical Reaction Network" +:+ nl)
          +:+ ("-- Variables represented as molecular species (TRUE/FALSE states)"
               +:+ nl)
          +:+ ("-- Clauses as reactions that must be satisfied" +:+ nl)
          +:+ ("" +:+ nl))
    by reflexivity.
  apply block_lines_app; [apply block_lines_line; reflexivity |].
  apply block_lines_app; [apply block_lines_line; reflexivity |].
  apply block_lines_app; apply block_lines_line; reflexivity.
Qed.

End SatTextSize.

(** X21.  The text returned by [create_sat_crn], for variable names
    without a newline (as the generated [x0, x1, ...] are), has two
    reaction lines per variable and, per clause, one comment line and one
    reaction line per literal, around the six fixed lines of the header
    and the section title: split at the newlines it has
    [7 + 2 * len(variables) + len(clauses) + (number of literals)]
    pieces, the last one empty. *)
Theorem create_sat_crn_line_count (self : SAT.SATBenchmark) (text : string) :
  forallb EncoderSpec.no_newline (SAT.variables self) = true ->
  SAT.create_sat_crn self = Ok text ->
  length (CRN.lines text)
  = (7 + 2 * length (SAT.variables self) + length (SAT.clauses self)
     + length (concat (SAT.clauses self)))%nat.
Proof.
  intros Hv. unfold SAT.create_sat_crn.
  destruct (SAT.clause_reactions (SAT.variables self) 0 (SAT.clauses self))
    as [body |] eqn:E; [| discriminate].
  cbn [rbind]. intros Ht.
  assert (Et : SAT.crn_header +:+ SAT.variable_reactions (SAT.variables self) +:+
               nl +:+ "-- Clause satisfaction reactions" +:+ nl +:+ body = text)
    by congruence.
  rewrite <- Et. clear Ht Et.
  destruct sat_header_lines as (hl & Hh & Hhl).
  destruct (variable_reactions_lines (SAT.variables self) Hv) as (vl & Hvb & Hvl).
  destruct (clause_reactions_lines (SAT.variables self) (SAT.clauses self) Hv 0
              body E) as (cl & Hcb & Hcl).
  assert (Hmid : CRNSpec.block_lines
                   (nl +:+ "-- Clause satisfaction reactions" +:+ nl)
                   ([""] ++ ["-- Clause satisfaction reactions"])).
  { change (nl +:+ "-- Clause satisfaction reactions" +:+ nl)
      with (("" +:+ nl) +:+ ("-- Clause satisfaction reactions" +:+ nl)).
    apply block_lines_app; apply block_lines_line; reflexivity. }
  pose proof (block_lines_app _ _ _ _ Hh
                (block_lines_app _ _ _ _ Hvb
                   (block_lines_app _ _ _ _ Hmid Hcb)) "") as H.
  rewrite append_nil_r in H.
  replace (SAT.crn_header +:+ SAT.variable_reactions (SAT.variables self) +:+
           nl +:+ "-- Clause satisfaction reactions" +:+ nl +:+ body)
    with (SAT.crn_header +:+ SAT.variable_reactions (SAT.variables self) +:+
          (nl +:+ "-- Clause satisfaction reactions" +:+ nl) +:+ body)
    by (rewrite !append_assoc; reflexivity).
  rewrite H. rewrite !length_app, Hhl, Hvl, Hcl.
  change (length (CRN.lines "")) with 1%nat. cbn [length]. lia.
Qed.

Lemma create_sat_crn_line_count_witness :
  exists text,
    SAT.create_sat_crn SATSpec.x0_or_not_x1 = Ok text
    /\ length (CRN.lines text) = 14%nat.
Proof.
  eexists. split; [reflexivity |].
  apply (create_sat_crn_line_count SATSpec.x0_or_not_x1); reflexivity.
Defined.

(** ** tsp_benchmark.py: [run] on at most one city *)

Section TspTrivial.
Import TSP.

Lemma create_tsp_crn_header (self : TSPBenchmark) (n : Z) :
  n <= 1 -> create_tsp_crn self n = Ok (crn_header n).
Proof.
  intros Hn. unfold create_tsp_crn, py_range.
  destruct (Z.to_nat n) as [| [| p]] eqn:E; [| | lia].
  - change (Ok (crn_header n +:+ "") = Ok (crn_header n)).
    rewrite append_nil_r. reflexivity.
  - assert (n = 1) by lia. subst n. reflexivity.
Qed.

Lemma small_instance_run (cs : list city) (m : matrix) :
  (length cs <= 1)%nat ->
  calculate_distance_matrix {| cities := cs; distance_matrix := m |}
  = ({| cities := cs; distance_matrix := zeros (length cs) |}, Ok tt)
  /\ calculate_path_distance
       {| cities := cs; distance_matrix := zeros (length cs) |}
       (py_range (Z.of_nat (length cs))) = Ok Float.zero.
Proof.
  intros H. destruct cs as [| c [| c' cs]]; [| | simpl in H; lia];
    split; reflexivity.
Qed.

End TspTrivial.

(** X22.  [TSPBenchmark.run(n)] for [n <= 1]: the text handed to the
    simulator is the header alone, without any reaction, and the reported
    tour length is [0.0]. *)
Theorem tsp_run_trivial (execute_crn_string : string -> result utm_result)
  (self : TSP.TSPBenchmark) (n : Z) (g : rng) (res : utm_result) :
  n <= 1 ->
  execute_crn_string (TSP.crn_header n) = Ok res ->
  TSP.run execute_crn_string self n g
  = Ok ({| TSP.r_cities := n;
           TSP.r_best_path := py_range n;
           TSP.r_best_distance := Float.zero;
           TSP.r_execution_steps := get_steps res |},
        snd (TSP.generate_cities self n g)).
Proof.
  intros Hn Hres. unfold TSP.run, TSP.generate_cities.
  destruct (draw_cities_draws (Z.to_nat n) g) as [Hlen _].
  destruct (TSP.draw_cities (Z.to_nat n) g) as [cs g']. cbn [fst snd] in *.
  destruct (small_instance_run cs (TSP.distance_matrix self) ltac:(lia))
    as [Hcalc Hpath].
  rewrite Hcalc. cbn [rbind].
  rewrite (create_tsp_crn_header _ n Hn). cbn [rbind]. rewrite Hres. cbn [rbind].
  unfold TSP.extract_best_path. cbn [TSP.cities]. rewrite Hpath. cbn [rbind].
  rewrite Hlen, py_range_of_length. reflexivity.
Qed.

Lemma tsp_run_trivial_witness :
  TSP.run (fun _ => Ok SATSpec.sample_result) TSPSpec.three_cities 1
    SATSpec.draws_true_false
  = Ok ({| TSP.r_cities := 1;
           TSP.r_best_path := [0];
           TSP.r_best_distance := Float.zero;
           TSP.r_execution_steps := 7 |},
        snd (TSP.generate_cities TSPSpec.three_cities 1 SATSpec.draws_true_false)).
Proof.
  apply (tsp_run_trivial (fun _ => Ok SATSpec.sample_result) TSPSpec.three_cities 1
           SATSpec.draws_true_false SATSpec.sample_result); [lia | reflexivity].
Defined.

(** ** run_benchmarks.py: the suite *)

Section SuiteRuns.
Import Suite.
Variable MolecularUTM : bool -> result (string -> result utm_result).
Variable print : message -> result unit.
Variable utm : string -> result utm_result.
Variable debug : bool.
Hypothesis stdout_accepts : forall m, print m = Ok tt.
Hypothesis construction : MolecularUTM debug = Ok utm.
Hypothesis simulator_returns : forall text, exists res, utm text = Ok res.

Lemma print_summary_accepted (items : results_dict) :
  print_summary print items = Ok tt.
Proof.
  induction items as [| [name data] rest IH]; [reflexivity |].
  cbn [print_summary]. rewrite stdout_accepts. exact IH.
Qed.

Lemma suite_tsp_part (problem_size : Z) (g : rng) :
  exists r,
    TSP.run utm {| TSP.cities := []; TSP.distance_matrix := [] |} problem_size g
    = Ok (r, snd (TSP.generate_cities
                    {| TSP.cities := []; TSP.distance_matrix := [] |}
                    problem_size g))
    /\ TSP.r_cities r = problem_size
    /\ TSP.r_best_path r = py_range problem_size.
Proof.
  destruct (tsp_run_total utm {| TSP.cities := []; TSP.distance_matrix := [] |}
              problem_size g simulator_returns)
    as (self2 & text & res & t & _ & _ & _ & _ & H).
  eexists. split; [exact H |]. split; reflexivity.
Qed.

Lemma suite_all_unfold (problem_size : Z) (g : rng) (c : clock) :
  exists rt,
    TSP.r_cities rt = problem_size
    /\ run_benchmark_suite MolecularUTM print "all" problem_size debug g c
       = let* r := SAT.run utm problem_size
                     (snd (TSP.generate_cities
                             {| TSP.cities := []; TSP.distance_matrix := [] |}
                             problem_size g)) in
         Ok ([("tsp", {| e_result := TspResult rt;
                         e_time := Float.sub (c 1%nat) (c 0%nat) |});
              ("3sat", {| e_result := SatResult (fst r);
                          e_time := Float.sub (c 3%nat) (c 2%nat) |})],
             snd r,
             clock_tail (clock_tail (clock_tail (clock_tail c)))).
Proof.
  destruct (suite_tsp_part problem_size g) as (rt & Hr & H1 & _).
  exists rt. split; [exact H1 |].
  unfold run_benchmark_suite. rewrite ?stdout_accepts. cbn [rbind].
  rewrite construction. cbn [rbind].
  change (in_list "all" ["tsp"; "all"]) with true.
  change (in_list "all" ["3sat"; "all"]) with true.
  cbv beta iota. rewrite ?stdout_accepts. cbn [rbind].
  unfold time_time. rewrite Hr. cbn [rbind]. rewrite ?stdout_accepts. cbn [rbind].
  destruct (SAT.run utm problem_size _) as [[rs g2] |]; [| reflexivity].
  cbn [rbind fst snd]. rewrite ?stdout_accepts. cbn [rbind].
  rewrite print_summary_accepted. reflexivity.
Qed.

End SuiteRuns.

(** X17.  [run_benchmark_suite] with a problem type other than ["tsp"],
    ["3sat"] and ["all"], on a standard output that takes every line and
    a machine that can be constructed, runs neither benchmark and returns
    the empty dict, without a random draw or a clock reading.  If the
    standard output refuses the banner (as a stream that is not Unicode
    does), the exception leaves the suite whatever the arguments are. *)
Theorem suite_unknown_problem
  (MolecularUTM : bool -> result (string -> result utm_result))
  (print : Suite.message -> result unit)
  (problem_type : string) (problem_size : Z)
  (debug : bool) (g : rng) (c : Suite.clock) :
  (forall e, print Suite.SuiteBanner = Raise e ->
     Suite.run_benchmark_suite MolecularUTM print problem_type problem_size
       debug g c = Raise e)
  /\ ((forall m, print m = Ok tt) ->
      forall utm, MolecularUTM debug = Ok utm ->
      Suite.in_list problem_type ["tsp"; "3sat"; "all"] = false ->
      Suite.run_benchmark_suite MolecularUTM print problem_type problem_size
        debug g c = Ok ([], g, c)).
Proof.
  split.
  - intros e He. unfold Suite.run_benchmark_suite. rewrite He. reflexivity.
  - intros Hout utm HM Hp. unfold Suite.run_benchmark_suite.
    rewrite ?Hout. cbn [rbind]. rewrite HM. cbn [rbind].
    unfold Suite.in_list in *. cbn [existsb] in *.
    destruct (String.eqb problem_type "tsp"); [discriminate |].
    destruct (String.eqb problem_type "3sat"); [discriminate |].
    destruct (String.eqb problem_type "all"); [discriminate |].
    cbn [orb rbind]. rewrite ?Hout. reflexivity.
Qed.

Lemma suite_unknown_problem_witness :
  Suite.run_benchmark_suite (fun _ => Ok (fun _ => Ok SATSpec.sample_result))
    (fun _ => Ok tt) "sat" 10 false SATSpec.draws_true_false (fun _ => Float.zero)
  = Ok ([], SATSpec.draws_true_false, fun _ => Float.zero)
  /\ Suite.run_benchmark_suite (fun _ => Ok (fun _ => Ok SATSpec.sample_result))
       (fun _ => Raise UnicodeEncodeError) "sat" 10 false
       SATSpec.draws_true_false (fun _ => Float.zero)
     = Raise UnicodeEncodeError.
Proof.
  split.
  - apply (proj2 (suite_unknown_problem _ _ "sat" 10 false _ _)
             ltac:(reflexivity) (fun _ => Ok SATSpec.sample_result));
      reflexivity.
  - apply (proj1 (suite_unknown_problem _ (fun _ => Raise UnicodeEncodeError)
                    "sat" 10 false _ _)). reflexivity.
Defined.

(** X18.  [run_benchmark_suite("tsp", size)], on a standard output that
    takes every line and a machine whose simulator returns, never raises,
    for any size: the dict has the single key ["tsp"], whose result
    reports [size] cities and the path [0, ..., size-1], and whose time is
    the difference of the two clock readings taken around the run. *)
Theorem suite_tsp
  (MolecularUTM : bool -> result (string -> result utm_result))
  (print : Suite.message -> result unit)
  (utm : string -> result utm_result) (problem_size : Z)
  (debug : bool) (g : rng) (c : Suite.clock) :
  (forall m, print m = Ok tt) ->
  MolecularUTM debug = Ok utm ->
  (forall text, exists res, utm text = Ok res) ->
  exists r,
    Suite.run_benchmark_suite MolecularUTM print "tsp" problem_size debug g c
    = Ok ([("tsp", {| Suite.e_result := Suite.TspResult r;
                      Suite.e_time := Float.sub (c 1%nat) (c 0%nat) |})],
          snd (TSP.generate_cities
                 {| TSP.cities := []; TSP.distance_matrix := [] |} problem_size g),
          Suite.clock_tail (Suite.clock_tail c))
    /\ TSP.r_cities r = problem_size
    /\ TSP.r_best_path r = py_range problem_size.
Proof.
  intros Hout HM Hsim.
  destruct (suite_tsp_part utm Hsim problem_size g) as (r & Hr & H1 & H2).
  exists r. split; [| split; assumption].
  unfold Suite.run_benchmark_suite. rewrite ?Hout. cbn [rbind].
  rewrite HM. cbn [rbind].
  change (Suite.in_list "tsp" ["tsp"; "all"]) with true.
  change (Suite.in_list "tsp" ["3sat"; "all"]) with false.
  cbv beta iota. rewrite ?Hout. cbn [rbind].
  unfold Suite.time_time. rewrite Hr. cbn [rbind]. rewrite ?Hout. cbn [rbind].
  cbn [rbind Suite.print_summary Suite.dict_set]. rewrite ?Hout. reflexivity.
Qed.

Lemma suite_tsp_witness :
  exists r g' c',
    Suite.run_benchmark_suite (fun _ => Ok (fun _ => Ok SATSpec.sample_result))
      (fun _ => Ok tt) "tsp" 2 false SATSpec.draws_true_false
      (fun _ => Float.zero)
    = Ok ([("tsp", {| Suite.e_result := Suite.TspResult r;
                      Suite.e_time := Float.zero |})], g', c')
    /\ TSP.r_best_path r = [0; 1].
Proof.
  destruct (suite_tsp (fun _ => Ok (fun _ => Ok SATSpec.sample_result))
              (fun _ => Ok tt) (fun _ => Ok SATSpec.sample_result) 2 false
              SATSpec.draws_true_false (fun _ => Float.zero)
              ltac:(reflexivity) eq_refl
              ltac:(intros; eexists; reflexivity)) as (r & H & _ & Hp).
  exists r. eexists _, _. split; [exact H | exact Hp].
Defined.

(** X19.  [run_benchmark_suite("all", size)], on a standard output that
    takes every line and a machine whose simulator returns, runs the TSP
    benchmark first and the 3-SAT benchmark on the generator state the
    TSP run left.  If the 3-SAT run raises, the exception leaves the
    suite and the TSP result is lost; this is what happens for sizes 1
    and 2 ([ValueError]), also with ["3sat"] alone.  Otherwise the dict
    has the keys ["tsp"] and ["3sat"], in this order, each timed by its
    own pair of clock readings. *)
Theorem suite_all
  (MolecularUTM : bool -> result (string -> result utm_result))
  (print : Suite.message -> result unit)
  (utm : string -> result utm_result) (problem_size : Z)
  (debug : bool) (g : rng) (c : Suite.clock) :
  (forall m, print m = Ok tt) ->
  MolecularUTM debug = Ok utm ->
  (forall text, exists res, utm text = Ok res) ->
  let g1 := snd (TSP.generate_cities
                   {| TSP.cities := []; TSP.distance_matrix := [] |}
                   problem_size g) in
  (forall e, SAT.run utm problem_size g1 = Raise e ->
     Suite.run_benchmark_suite MolecularUTM print "all" problem_size debug g c
     = Raise e)
  /\ (forall rs g2, SAT.run utm problem_size g1 = Ok (rs, g2) ->
        exists rt,
          Suite.run_benchmark_suite MolecularUTM print "all" problem_size debug g c
          = Ok ([("tsp", {| Suite.e_result := Suite.TspResult rt;
                            Suite.e_time := Float.sub (c 1%nat) (c 0%nat) |});
                 ("3sat", {| Suite.e_result := Suite.SatResult rs;
                             Suite.e_time := Float.sub (c 3%nat) (c 2%nat) |})],
                g2,
                Suite.clock_tail (Suite.clock_tail
                  (Suite.clock_tail (Suite.clock_tail c))))
          /\ TSP.r_cities rt = problem_size)
  /\ (1 <= problem_size <= 2 ->
      Suite.run_benchmark_suite MolecularUTM print "all" problem_size debug g c
      = Raise ValueError
      /\ Suite.run_benchmark_suite MolecularUTM print "3sat" problem_size debug g c
         = Raise ValueError).
Proof.
  intros Hout HM Hsim g1.
  destruct (suite_all_unfold MolecularUTM print utm debug Hout HM Hsim
              problem_size g c) as (rt & H1 & Hall).
  fold g1 in Hall.
  split; [| split].
  - intros e He. rewrite Hall, He. reflexivity.
  - intros rs g2 Hs. exists rt. rewrite Hall, Hs. cbn [rbind fst snd].
    split; [reflexivity | exact H1].
  - intros Hsize. assert (Hc : problem_size = 1 \/ problem_size = 2) by lia.
    split.
    + rewrite Hall. destruct Hc as [-> | ->]; reflexivity.
    + unfold Suite.run_benchmark_suite. rewrite ?Hout. cbn [rbind].
      rewrite HM. cbn [rbind].
      change (Suite.in_list "3sat" ["tsp"; "all"]) with false.
      change (Suite.in_list "3sat" ["3sat"; "all"]) with true.
      cbv beta iota. cbn [rbind]. rewrite ?Hout. cbn [rbind].
      destruct Hc as [-> | ->]; reflexivity.
Qed.

Lemma suite_all_witness :
  Suite.run_benchmark_suite (fun _ => Ok (fun _ => Ok SATSpec.sample_result))
    (fun _ => Ok tt) "all" 2 false SATSpec.draws_true_false (fun _ => Float.zero)
  = Raise ValueError.
Proof.
  apply (suite_all (fun _ => Ok (fun _ => Ok SATSpec.sample_result))
           (fun _ => Ok tt) (fun _ => Ok SATSpec.sample_result) 2 false
           SATSpec.draws_true_false (fun _ => Float.zero)
           ltac:(reflexivity) eq_refl ltac:(intros; eexists; reflexivity)).
  lia.
Defined.

(** ** example_benchmark.py *)

(** X20.  The example's [main()], on a standard output that takes every
    line, a machine that can be constructed and a simulator that returns,
    never raises: it runs both benchmarks at size 5 and returns a dict
    with the keys ["tsp"] and ["3sat"], the TSP entry for 5 cities and the
    3-SAT entry for 5 variables and [int(4.3 * 5) = 21] clauses.  If the
    standard output refuses the first banner, [main] raises before the
    suite is called. *)
Theorem example_main_returns
  (MolecularUTM : bool -> result (string -> result utm_result))
  (print : Suite.message -> result unit) (g : rng) (c : Suite.clock) :
  (forall e, print Suite.ExampleBanner = Raise e ->
     ExampleBenchmark.main MolecularUTM print g c = Raise e)
  /\ ((forall m, print m = Ok tt) ->
      forall utm, MolecularUTM true = Ok utm ->
      (forall text, exists res, utm text = Ok res) ->
      exists g' rt rs t1 t2,
        ExampleBenchmark.main MolecularUTM print g c
        = Ok ([("tsp", {| Suite.e_result := Suite.TspResult rt;
                          Suite.e_time := t1 |});
               ("3sat", {| Suite.e_result := Suite.SatResult rs;
                           Suite.e_time := t2 |})],
              g',
              Suite.clock_tail (Suite.clock_tail
                (Suite.clock_tail (Suite.clock_tail c))))
        /\ TSP.r_cities rt = 5
        /\ SAT.r_variables rs = 5
        /\ SAT.r_clauses rs = 21%nat).
Proof.
  split.
  - intros e He. unfold ExampleBenchmark.main. rewrite He. reflexivity.
  - intros Hout utm HM Hsim. unfold ExampleBenchmark.main.
    rewrite ?Hout. cbn [rbind].
    destruct (suite_all_unfold MolecularUTM print utm true Hout HM Hsim 5 g c)
      as (rt & H1 & Hall).
    destruct (sat_run_total utm 5 21
                (snd (TSP.generate_cities
                        {| TSP.cities := []; TSP.distance_matrix := [] |} 5 g))
                ltac:(lia) eq_refl Hsim)
      as (self & g1 & text & res & b & _ & _ & _ & _ & Hn & _ & Hrun).
    rewrite Hall, Hrun. cbn [rbind fst snd]. rewrite ?Hout. cbn [rbind].
    eexists _, rt, _, _, _. split; [reflexivity |].
    split; [exact H1 |]. split; [reflexivity |].
    cbn [SAT.r_clauses]. lia.
Qed.

Lemma example_main_returns_witness :
  exists results g' c',
    ExampleBenchmark.main (fun _ => Ok (fun _ => Ok SATSpec.sample_result))
      (fun _ => Ok tt) SATSpec.draws_true_false (fun _ => Float.zero)
    = Ok (results, g', c')
    /\ fst <$> results = ["tsp"; "3sat"].
Proof.
  destruct (proj2 (example_main_returns
                     (fun _ => Ok (fun _ => Ok SATSpec.sample_result))
                     (fun _ => Ok tt) SATSpec.draws_true_false
                     (fun _ => Float.zero))
              ltac:(reflexivity) (fun _ => Ok SATSpec.sample_result) eq_refl
              ltac:(intros; eexists; reflexivity))
    as (g' & rt & rs & t1 & t2 & H & _).
  eexists _, g', _. split; [exact H | reflexivity].
Defined.
